(* ===== verification/_CoqProject ===== *)
-Q . S2P
Prelude.v
GoStrings.v
IdPath.v
Directories.v
Numbering.v
Cache.v
Tree.v
CatFile.v
GitCommand.v
Listing.v
Contents.v
State.v
Json.v
JsonLaws.v
StateBound.v
Quota.v
StateCodec.v
ReceiptFile.v
Import.v
Mailbox.v
MailboxSpec.v
Reading.v
Startup.v
Restart.v
Holding.v
ToyGit.v
MailboxTheorems.v
Legacy.v
FirstStart.v
ToyStart.v
RestartTheorems.v
Config.v
Wire.v
SmtpSyntax.v
Peer.v
SmtpData.v
SmtpSession.v
SmtpRequest.v
SmtpSpec.v
SmtpTurns.v
SmtpTheorems.v
SmtpPublish.v
SmtpReplies.v
SmtpLog.v
SmtpLiveness.v
PopSyntax.v
PopStream.v
PopSession.v
PopSpec.v
PopStalled.v
PopTheorems.v
Archive.v
ArchiveSpec.v
ArchiveLaws.v
ArchiveSmtp.v
EndToEnd.v
ArchiveServes.v
ModelGit.v
ModelArchive.v
Tls.v
TlsTheorems.v
Duration.v
Daemon.v
DaemonTheorems.v
Shutdown.v
