(* ===== verification/Prelude.v ===== *)
(** * picomx: a verification development

    picomx is a mail server in one process: an SMTP server (internal/smtp) receives
    mail into an archive (internal/archive) that keeps every message in a bare Git
    repository, and a POP3S server (internal/pop3) lets one user read and delete
    it.  Both servers share one TLS certificate (internal/tlscert), the SMTP server
    asks a policy (internal/config), and the daemon (cmd/picomxd) gets its sockets
    from systemd (internal/systemd) and builds all of them.

    ** How the development is laid out

    A file models one part of the program; a file of laws or theorems follows it.
    Definitions keep the names of the Go functions they translate, and their
    guards in the order of the code.

    - Shared: [Prelude] (bytes, errors, the result and state monads, [uint64]
      arithmetic, lists), [GoStrings] (strings, strconv, utf8, unicode, filepath,
      sort), [Duration] (time.ParseDuration, with its float64 arithmetic), [Json]
      and [JsonLaws] (json.Decoder and its agreement with the encoder).
    - Naming and counting: [IdPath] (idpath.go), [Directories] (directories.go),
      [Numbering] (POP3 numbers as positions in ID order), [Cache] (cache.go), [Tree]
      (parseTree in tree.go).
    - Reading Git: [CatFile] (read.go, deadline.go: the cat-file child and the framing of its
      pipe), [GitCommand] (git.go, import.go: commands, their environment and diagnostics), [Listing] (Store.directory), [Contents] (the files of a commit and the mailbox
      they represent).
    - Writing Git: [State], [StateBound] (state.go: the state and its encoding), [StateCodec]
      (state.go, recovery.go, quota.go: decoding, the state file, its recovery),
      [Quota] (quota.go: the daily budget), [ReceiptFile] (its file, on a disk that can crash), [Import] (import.go: transactions, with Git's
      documented grammar as an executable parser).
    - The store: [Mailbox] (mailbox.go and Store.Publish), [MailboxSpec] and [MailboxTheorems]
      (its refinement of a map of live messages), [Reading] (what reading needs of any
      snapshot), [ToyGit] (a repository of three commits that keeps Git's promises).
    - Starting and maintaining: [Startup] (store.go NewWithOptions, git.go
      initializeGit, import.go Close, maintenance.go), [Restart] (what Git holds between
      two runs), [Holding] (running and stalled stores), [Legacy], [FirstStart],
      [ToyStart], [RestartTheorems].
    - SMTP: [Config] (policy.go), [Wire] (connections), [SmtpSyntax], [Peer] (remoteIP, and
      clientIP of POP3), [SmtpData] (dataReader), [SmtpSession] (Server, one handler per command, the
      log), [SmtpRequest] (messageRequest), [SmtpSpec], [SmtpTurns] (what one turn takes from the
      client and what it delivers), [SmtpTheorems], [SmtpPublish] (deliveries and the calls of
      Publish), [SmtpReplies] (the bytes of the replies), [SmtpLog], [SmtpLiveness] (an honest
      client).
    - POP3: [PopSyntax] (with auth.go), [PopStream] (streamMessage), [PopSession] (Server, one
      handler per command), [PopSpec], [PopStalled] (on a store that fails meanwhile), [PopTheorems].
    - Together: [Archive] (the store, the staged messages and their files as one
      state), [ArchiveSpec], [ArchiveLaws], [ArchiveSmtp], [EndToEnd]; [ArchiveServes] (an archive
      whose Git, disk and budget serve) with [ModelGit] and [ModelArchive], where they do.
    - The process: [Tls] and [TlsTheorems] (internal/tlscert), [Daemon] and [DaemonTheorems]
      (internal/systemd, cmd/picomxd up to serving), [Shutdown] (main from there to its exit).

    ** How the parts meet

    The servers are proved against interfaces, and the archive implements them:
    [SmtpSession.Delivery] with its laws is what SMTP requires of a store,
    [PopSession.Maildrop] with [MaildropLaws] what POP3 requires, and [ArchiveLaws] gives the
    instances for the archive under the invariant [archive_ok].  Other connections
    are explicit: a POP3 session's maildrop may change between any two of its
    commands by any steps the archive can take, [DeleteAs] is interrupted by a rival
    at every retry, and the budget is proved over all interleavings of reservations.
    The mailbox itself is specified as a map from IDs to contents ([Contents.mailbox]), and
    [store_ok] relates the store's state, Git's files and that map.

    A commit can go wrong in every way: it may be refused, its answer may be lost,
    or its deadline may pass after Git has moved HEAD, so that what the store has in
    memory is behind what Git holds.  Such a store has failed for good.  [Holding]
    calls it stalled and says what Git then holds; [archive_keeps] is the mailbox that
    is kept, be it the running store's or the one the next start will find, and the
    archive's histories ([archive_event]) go on through stalled stores and restarts.

    ** What the theorems show

    - The archive: publishing adds exactly one message and deleting removes exactly
      the requested ones; snapshots, listings, numbers and contents are those of
      the map; a transaction's bytes parse back to the intended commit.
    - Durability: a restart restores the mailbox; whatever becomes of a write, the
      next start has the old mailbox or the new one, and the new one if success was
      reported; the first start imports every message file; the state and receipt
      documents are read back; maintenance, which prunes nothing, keeps the mail.
    - The budget: no day's octets exceed it, unless the clock is set back across
      midnight inside a [Publish], which costs at most one more budget each time; the
      receipt on disk covers what was published, after crashes too; the receipt's
      file is replaced atomically.
    - SMTP: only checked recipients, the client's whole message with unforged headers,
      "accepted" exactly when Publish succeeded, STARTTLS forgets the plaintext, DATA
      is read back exactly and within its limits, replies are well formed, the log
      tells what was delivered, a store that serves accepts every message of an honest
      client, a session ends with its input.
    - POP3: only marked messages are deleted, only by QUIT of an authenticated session;
      listings agree; streams are read back; passwords fail closed, are bounded and
      not logged.
    - End to end: what a sender was told is accepted is what any later reader
      retrieves, until a reader deletes it, through failed writes, lost answers,
      maintenance and restarts; a session adds its accepted messages and QUIT deletes
      the marked ones, and if Git's answer was lost the mailbox is with or without
      that one change; while Git, the disk and the budget serve, all mail of an honest
      client is accepted and archived.
    - The process: the certificate always covers every configured name, a reload is
      all or nothing, listeners are accounted for, what serves has the configured
      limits and, for POP3S, TLS; Git runs in a fixed environment; the daemon stops in
      order, a signal stops it, and a second one while it unwinds kills it.

    ** Parameters

    Git is a parameter ([CatFile], [Git], [GitReader], [Installation]): its answers, its failures and
    deadlines are arbitrary; what the theorems use of it is its documented
    behaviour, as the classes [GitObjects], [GitLaws] (with: gc under --prune=never keeps HEAD
    and every object), [AtomicRefs] (a transaction moves the branch or does not) and
    [RootCommits], which [ToyGit] and [ToyStart] satisfy.  That it takes commits at all, and in
    time, is [ArchiveServes.GitServes], which only the liveness of honest mail assumes; [ModelGit],
    a Git of any number of commits, satisfies it too.  So are the file system's answers, the clock, TLS and X.509,
    SHA-256, the network, Go's map order and the case tables of Unicode.

    ** Fuel

    Loops that Go runs until its input ends take fuel: the digits of an ID (64 bits
    need 7), the reads of a blob (its length and two), JSON values (twice the input's
    length and two), a duration (its length), a session (any number of turns; the
    theorems [session_ends] and [pop_session_ends] give one that is enough).  Running out is the
    error [Panicked], which the theorems exclude.

    ** What is not modelled

    The killing of a child's process group and the exact text of wrapped errors; the
    text slog makes of its events, and the address with each event of the POP3 log;
    mutexes, which make the store's operations the atomic steps of the model; the
    timers' durations.  The policy rules a deployment installs are a parameter of the SMTP
    server, and the package's factory hook is the value it is given. *)

From Stdlib Require Export Ascii String ZArith Lia.
From stdpp Require Export base gmap sets list strings sorting.

#[global] Open Scope string_scope.
#[global] Open Scope Z_scope.
#[global] Open Scope list_scope.

(** ** Go strings

    A Go string (and a [[]byte]) is a sequence of bytes: a list of 8-bit
    [ascii] values.  Literals are written as usual and coerced. *)

Abbreviation str := (list ascii).

Coercion list_ascii_of_string : string >-> list.

(** The numeric value of a byte, and the byte of a value taken modulo 256. *)
Definition code (c : ascii) : Z := Z.of_N (N_of_ascii c).
Definition byte_of (z : Z) : ascii := ascii_of_N (Z.to_N (z mod 256)).

(** ** Errors and fallible results

    [errors.New] values are told apart by their text, the package-level
    sentinels by name; [fmt.Errorf] with [%w] is [Wrap], [errors.Join] of two
    errors is [Joined].  [Panicked] is a
    run-time panic (an index out of range); the theorems show it is not
    reached. *)

Inductive sentinel :=
  | IoEOF | IoErrUnexpectedEOF | BufioErrBufferFull | OsErrNotExist | OsErrClosed | NetErrClosed
  | ErrNoSuchMessage | ErrDailyLimit | ErrMaintenanceBusy | ErrGitTimeout
  | ErrMessageTooLarge | ErrDataLineTooLong | ErrCommandTooLong.

Inductive error :=
  | New (text : string)
  | Sentinel (s : sentinel)
  | Wrap (context : string) (cause : error)
  | Joined (a b : error)
  | Panicked (what : string).

#[export] Instance sentinel_eq_dec : EqDecision sentinel.
Proof. solve_decision. Defined.
#[export] Instance error_eq_dec : EqDecision error.
Proof. solve_decision. Defined.

(** [errors.Is(err, target)]. *)
Fixpoint errors_Is (e : error) (target : sentinel) : bool :=
  match e with
  | New _ | Panicked _ => false
  | Sentinel s => bool_decide (s = target)
  | Wrap _ cause => errors_Is cause target
  | Joined a b => errors_Is a target || errors_Is b target
  end.

Inductive result (A : Type) :=
  | Ok (a : A)
  | Err (e : error).
Arguments Ok {A} a.
Arguments Err {A} e.

#[export] Instance result_eq_dec {A} `{EqDecision A} : EqDecision (result A).
Proof. solve_decision. Defined.

Definition rbind {A B} (m : result A) (k : A -> result B) : result B :=
  match m with Ok a => k a | Err e => Err e end.

Definition is_ok {A} (m : result A) : bool :=
  match m with Ok _ => true | Err _ => false end.

Declare Scope go_scope.
Delimit Scope go_scope with go.
Notation "'let!' x := m 'in' k" := (rbind m (fun x => k))
  (at level 10, x pattern, m at level 100, k at level 200) : go_scope.
#[global] Open Scope go_scope.

(** Stateful fallible code: a state transformer returning a [result]. *)
Definition M (S A : Type) : Type := S -> result A * S.

Definition mret_ {S A} (a : A) : M S A := fun s => (Ok a, s).
Definition mfail {S A} (e : error) : M S A := fun s => (Err e, s).
Definition mbind_ {S A B} (m : M S A) (k : A -> M S B) : M S B :=
  fun s => match m s with (Ok a, s) => k a s | (Err e, s) => (Err e, s) end.
Definition mlift {S A} (r : result A) : M S A := fun s => (r, s).

Notation "'let*' x := m 'in' k" := (mbind_ m (fun x => k))
  (at level 10, x pattern, m at level 100, k at level 200) : go_scope.

(** ** Machine integers: [uint64] values are [Z] in range, arithmetic wraps. *)

Definition MaxUint64 : Z := 18446744073709551615.
Definition u64 (z : Z) : Z := z mod 18446744073709551616.
Definition is_u64 (z : Z) : Prop := 0 <= z <= MaxUint64.

Create HintDb picomx.

Lemma u64_range z : is_u64 (u64 z).
Proof.
  unfold is_u64, u64, MaxUint64.
  pose proof (Z.mod_pos_bound z 18446744073709551616 eq_refl). lia.
Qed.

Lemma u64_small z : is_u64 z -> u64 z = z.
Proof. unfold is_u64, u64, MaxUint64. intros. apply Z.mod_small. lia. Qed.

#[export] Hint Resolve u64_range : picomx.

Lemma rbind_Ok {A B} (m : result A) (k : A -> result B) b :
  rbind m k = Ok b <-> exists a, m = Ok a /\ k a = Ok b.
Proof. by destruct m; naive_solver. Qed.

Lemma Ok_inj {A} (a b : A) : Ok a = Ok b -> a = b.
Proof. by intros [=]. Qed.

Lemma is_ok_true {A} (m : result A) : is_ok m = true <-> exists a, m = Ok a.
Proof. by destruct m; naive_solver. Qed.

(** ** Association lists *)

Fixpoint assoc {K V} `{EqDecision K} (k : K) (l : list (K * V)) : option V :=
  match l with
  | [] => None
  | (k', v) :: l => if decide (k' = k) then Some v else assoc k l
  end.

Definition assoc_delete {K V} `{EqDecision K} (k : K) (l : list (K * V)) : list (K * V) :=
  filter (fun e => e.1 <> k) l.

Section Assoc.
Context {K V : Type} `{EqDecision K}.
Implicit Types (k : K) (v : V) (l : list (K * V)).

Lemma assoc_elem k v l : assoc k l = Some v -> (k, v) ∈ l.
Proof.
  induction l as [|[k' v'] l IH]; simpl; [done|].
  case_decide; [intros [= ->]; subst; set_solver | intros; right; auto].
Qed.

Lemma assoc_NoDup k v l : NoDup l.*1 -> (k, v) ∈ l -> assoc k l = Some v.
Proof.
  induction l as [|[k' v'] l IH]; simpl; [by intros _ ?%elem_of_nil|].
  intros [Hk HN]%NoDup_cons [E|Hin]%elem_of_cons.
  - injection E as -> ->. by rewrite decide_True.
  - rewrite decide_False; [by apply IH|]. intros ->. apply Hk.
    by apply (list_elem_of_fmap_2 fst l (k, v)).
Qed.

Lemma assoc_None k l : assoc k l = None <-> k ∉ l.*1.
Proof.
  induction l as [|[k' v'] l IH]; simpl; [set_solver|].
  case_decide; [subst; set_solver|]. rewrite IH. set_solver.
Qed.

Lemma assoc_delete_notin k l : k ∉ l.*1 -> assoc_delete k l = l.
Proof.
  intros Hk. unfold assoc_delete. induction l as [|[k' v'] l IH]; [done|].
  rewrite filter_cons_True by set_solver. by rewrite IH by set_solver.
Qed.

Lemma elem_of_assoc_delete k l x : x ∈ assoc_delete k l <-> x.1 <> k /\ x ∈ l.
Proof. unfold assoc_delete. by rewrite list_elem_of_filter. Qed.

Lemma assoc_delete_length k v l : (k, v) ∈ l -> (length (assoc_delete k l) < length l)%nat.
Proof.
  intros Hin. unfold assoc_delete. apply length_filter_lt with (k, v); [done|]. naive_solver.
Qed.

Lemma NoDup_assoc_delete k l : NoDup l.*1 -> NoDup (assoc_delete k l).*1.
Proof.
  unfold assoc_delete. induction l as [|[k' v'] l IH]; simpl; [done|].
  intros [Hk HN]%NoDup_cons. rewrite filter_cons. case_decide; [|auto]. simpl.
  apply NoDup_cons. split; [|auto]. intros ([k2 v2] & ? & Hin)%list_elem_of_fmap. simpl in *. subst.
  apply list_elem_of_filter in Hin as [_ Hin]. apply Hk. by apply (list_elem_of_fmap_2 fst l (k2, v2)).
Qed.

(** Deleting the last key of a list without duplicates drops the last entry. *)
Lemma assoc_delete_last k v l : NoDup (l ++ [(k, v)]).*1 -> assoc_delete k (l ++ [(k, v)]) = l.
Proof.
  rewrite fmap_app. intros (HN & Hd & _)%NoDup_app. unfold assoc_delete. rewrite filter_app.
  fold (assoc_delete k l). rewrite assoc_delete_notin.
  - rewrite filter_cons_False by naive_solver. by rewrite app_nil_r.
  - intros Hk. apply (Hd k Hk). simpl. set_solver.
Qed.
End Assoc.

Lemma forallb_Forall {A} (f : A -> bool) (l : list A) : forallb f l = true <-> Forall (fun x => f x = true) l.
Proof.
  induction l as [|x l IH]; cbn; [by split; [constructor|]|]. by rewrite andb_true_iff, Forall_cons, IH.
Qed.

(** Splitting a successful [let!] in a hypothesis, and the case analyses the
    handlers need. *)
Ltac ok_inv :=
  repeat match goal with
  | H : rbind _ _ = Ok _ |- _ =>
      let a := fresh "a" in let Ha := fresh "Ha" in
      apply rbind_Ok in H as [a [Ha H]]
  | H : Ok _ = Ok _ |- _ => apply Ok_inj in H; subst
  | H : Err _ = Ok _ |- _ => discriminate H
  | H : Ok _ = Err _ |- _ => discriminate H
  end.
