(* ===== verification/GoStrings.v ===== *)
(** * The Go standard library as the source uses it

    Packages [strings], [strconv], [unicode/utf8], [unicode], [path/filepath]
    and [sort], on byte strings.  Each function carries the name of the Go
    function it models.  The case tables of package [unicode] above ASCII are
    generated data and a parameter ([UnicodeTables]); everything else is
    defined. *)

From S2P Require Import Prelude.

(** ** strings: searching, cutting, joining *)

Definition HasPrefix (s prefix : str) : bool := bool_decide (take (length prefix) s = prefix).

Definition HasSuffix (s suffix : str) : bool :=
  bool_decide (length suffix <= length s)%nat &&
  bool_decide (drop (length s - length suffix) s = suffix).

Definition TrimSuffix (s suffix : str) : str :=
  if HasSuffix s suffix then take (length s - length suffix) s else s.

(** [strings.Cut(s, sep)] for a one-byte separator. *)
Fixpoint Cut (s : str) (sep : ascii) : str * str * bool :=
  match s with
  | [] => ([], [], false)
  | c :: t =>
      if decide (c = sep) then ([], t, true)
      else let '(before, after, found) := Cut t sep in (c :: before, after, found)
  end.

(** [strings.Split(s, sep)] for a one-byte separator: never empty. *)
Fixpoint Split (s : str) (sep : ascii) : list str :=
  match s with
  | [] => [[]]
  | c :: t =>
      if decide (c = sep) then [] :: Split t sep
      else match Split t sep with
           | [] => [[c]]
           | part :: rest => (c :: part) :: rest
           end
  end.

Fixpoint Join (elems : list str) (sep : str) : str :=
  match elems with
  | [] => []
  | [e] => e
  | e :: rest => e ++ sep ++ Join rest sep
  end.

Fixpoint IndexByte (s : str) (c : ascii) : option nat :=
  match s with
  | [] => None
  | x :: t => if decide (x = c) then Some O else S <$> IndexByte t c
  end.

Fixpoint LastIndex (s sub : str) : option nat :=
  match s with
  | [] => if decide (sub = []) then Some O else None
  | _ :: t =>
      match LastIndex t sub with
      | Some n => Some (S n)
      | None => if HasPrefix s sub then Some O else None
      end
  end.

Fixpoint Contains (s sub : str) : bool :=
  HasPrefix s sub || match s with [] => false | _ :: t => Contains t sub end.

(** [strings.Count(s, sub)] for a one-byte [sub]. *)
Definition Count (s : str) (c : ascii) : nat := length (filter (fun x => x = c) s).

(** [strings.ContainsAny(s, chars)] for ASCII [chars]. *)
Definition ContainsAny (s chars : str) : bool :=
  existsb (fun c => bool_decide (c ∈ chars)) s.

Definition Repeat (s : str) (n : nat) : str := mjoin (replicate n s).

(** ** strconv *)

Definition is_digit (c : ascii) : bool := (48 <=? code c) && (code c <=? 57).

(** The digit values [strconv.ParseUint] reads: 0-9, then letters of either
    case from 10. *)
Definition digit_value (c : ascii) : option Z :=
  if is_digit c then Some (code c - 48)
  else
    let lower := Z.lor (code c) 32 in
    if (97 <=? lower) && (lower <=? 122) then Some (lower - 97 + 10) else None.

Fixpoint parse_digits (base maxVal n : Z) (s : str) : result Z :=
  match s with
  | [] => Ok n
  | c :: t =>
      match digit_value c with
      | None => Err (New "invalid syntax")
      | Some d =>
          if base <=? d then Err (New "invalid syntax")
          else if maxVal <? n * base + d then Err (New "value out of range")
          else parse_digits base maxVal (n * base + d) t
      end
  end.

(** [strconv.ParseUint(s, base, bitSize)] for an explicit base. *)
Definition ParseUint (s : str) (base bitSize : Z) : result Z :=
  match s with
  | [] => Err (New "invalid syntax")
  | _ => parse_digits base (2 ^ bitSize - 1) 0 s
  end.

(** [strconv.ParseInt(s, 10, 64)]; [strconv.Atoi] reads the same language on a
    64-bit platform. *)
Definition ParseInt (s : str) : result Z :=
  let '(neg, digits) :=
    match s with
    | c :: t => if decide (c = "-"%char) then (true, t)
                else if decide (c = "+"%char) then (false, t) else (false, s)
    | [] => (false, [])
    end in
  let! un := ParseUint digits 10 64 in
  if negb neg && (2 ^ 63 <=? un) then Err (New "value out of range")
  else if neg && (2 ^ 63 <? un) then Err (New "value out of range")
  else Ok (if (neg : bool) then - un else un).

Definition Atoi (s : str) : result Z := ParseInt s.

Definition digit_char (d : Z) : ascii := byte_of (if d <? 10 then 48 + d else 87 + d).

Fixpoint format_digits (fuel : nat) (base z : Z) (acc : str) : str :=
  match fuel with
  | O => acc
  | S fuel =>
      let acc := digit_char (z mod base) :: acc in
      if z <? base then acc else format_digits fuel base (z / base) acc
  end.

(** [strconv.FormatUint]: 64 digits are enough for a [uint64] in any base. *)
Definition FormatUint (z base : Z) : str := format_digits 64 base z [].

Definition Itoa (z : Z) : str :=
  if z <? 0 then "-"%char :: FormatUint (- z) 10 else FormatUint z 10.

(** [fmt.Sprintf("%03x", z)]. *)
Definition Sprintf_03x (z : Z) : str :=
  let text := FormatUint z 16 in Repeat "0" (3 - length text) ++ text.

(** ** unicode/utf8 *)

Definition RuneError : Z := 65533.

Definition is_cont (c : ascii) : bool := (128 <=? code c) && (code c <=? 191).

(** The accepted range of the second byte and the width, by first byte
    (the [first] and [acceptRanges] tables). *)
Definition first_byte (b : Z) : option (nat * Z * Z) :=
  if b <? 128 then Some (1%nat, 0, 0)
  else if b <? 194 then None
  else if b <? 224 then Some (2%nat, 128, 191)
  else if b =? 224 then Some (3%nat, 160, 191)
  else if b =? 237 then Some (3%nat, 128, 159)
  else if b <? 240 then Some (3%nat, 128, 191)
  else if b =? 240 then Some (4%nat, 144, 191)
  else if b <? 244 then Some (4%nat, 128, 191)
  else if b =? 244 then Some (4%nat, 128, 143)
  else None.

(** [utf8.DecodeRuneInString] on a non-empty string: the rune and its width. *)
Definition DecodeRune (c : ascii) (t : str) : Z * nat :=
  match first_byte (code c) with
  | None => (RuneError, 1%nat)
  | Some (1%nat, _, _) => (code c, 1%nat)
  | Some (n, lo, hi) =>
      match t with
      | [] => (RuneError, 1%nat)
      | c1 :: t1 =>
          if negb ((lo <=? code c1) && (code c1 <=? hi)) then (RuneError, 1%nat)
          else if Nat.eqb n 2 then (Z.land (code c) 31 * 64 + Z.land (code c1) 63, 2%nat)
          else match t1 with
          | [] => (RuneError, 1%nat)
          | c2 :: t2 =>
              if negb (is_cont c2) then (RuneError, 1%nat)
              else if Nat.eqb n 3 then
                (Z.land (code c) 15 * 4096 + Z.land (code c1) 63 * 64 + Z.land (code c2) 63, 3%nat)
              else match t2 with
              | [] => (RuneError, 1%nat)
              | c3 :: _ =>
                  if negb (is_cont c3) then (RuneError, 1%nat)
                  else (Z.land (code c) 7 * 262144 + Z.land (code c1) 63 * 4096
                        + Z.land (code c2) 63 * 64 + Z.land (code c3) 63, 4%nat)
              end
          end
      end
  end.

(** The runes a [range] loop visits, each with the bytes it came from. *)
Fixpoint runes_skip (skip : nat) (s : str) : list (Z * str) :=
  match s with
  | [] => []
  | c :: t =>
      match skip with
      | S k => runes_skip k t
      | O => let '(r, w) := DecodeRune c t in (r, take w s) :: runes_skip (w - 1) t
      end
  end.

Definition runes (s : str) : list (Z * str) := runes_skip 0 s.

(** [utf8.AppendRune]. *)
Definition EncodeRune (r : Z) : str :=
  let r := if (r <? 0) || (1114111 <? r) || ((55296 <=? r) && (r <=? 57343)) then RuneError else r in
  if r <? 128 then [byte_of r]
  else if r <? 2048 then [byte_of (192 + r / 64); byte_of (128 + r mod 64)]
  else if r <? 65536 then
    [byte_of (224 + r / 4096); byte_of (128 + (r / 64) mod 64); byte_of (128 + r mod 64)]
  else
    [byte_of (240 + r / 262144); byte_of (128 + (r / 4096) mod 64);
     byte_of (128 + (r / 64) mod 64); byte_of (128 + r mod 64)].

(** ** unicode and the rune-wise functions of strings *)

(** Case data above ASCII: [unicode.CaseRanges] and the [SimpleFold] orbits. *)
Class UnicodeTables := {
  table_upper : Z -> Z;
  table_lower : Z -> Z;
  table_fold : Z -> Z -> bool;
}.

Definition IsSpace (r : Z) : bool :=
  ((9 <=? r) && (r <=? 13)) || (r =? 32) || (r =? 133) || (r =? 160) || (r =? 5760)
  || ((8192 <=? r) && (r <=? 8202)) || (r =? 8232) || (r =? 8233) || (r =? 8239)
  || (r =? 8287) || (r =? 12288).

Fixpoint trim_left (l : list (Z * str)) : list (Z * str) :=
  match l with
  | [] => []
  | (r, b) :: t => if IsSpace r then trim_left t else l
  end.

Definition trim_right (l : list (Z * str)) : list (Z * str) := reverse (trim_left (reverse l)).

(** [strings.TrimSpace]. *)
Definition TrimSpace (s : str) : str := mjoin (trim_right (trim_left (runes s))).*2.

(** [strings.Fields]: the runs of non-space runes. *)
Fixpoint fields_loop (l : list (Z * str)) (current : str) : list str :=
  let flush := if decide (current = []) then [] else [current] in
  match l with
  | [] => flush
  | (r, b) :: t => if IsSpace r then flush ++ fields_loop t [] else fields_loop t (current ++ b)
  end.

Definition Fields (s : str) : list str := fields_loop (runes s) [].

Section Unicode.
Context `{UnicodeTables}.

(** [unicode.ToUpper] and [unicode.ToLower], with their ASCII fast path. *)
Definition rune_upper (r : Z) : Z :=
  if r <=? 127 then (if (97 <=? r) && (r <=? 122) then r - 32 else r) else table_upper r.

Definition rune_lower (r : Z) : Z :=
  if r <=? 127 then (if (65 <=? r) && (r <=? 90) then r + 32 else r) else table_lower r.

(** [strings.Map]: runes mapped to negative values are dropped. *)
Definition Map (f : Z -> Z) (s : str) : str :=
  mjoin ((fun rb => let r := f rb.1 in if r <? 0 then [] else EncodeRune r) <$> runes s).

Definition ToUpper (s : str) : str := Map rune_upper s.
Definition ToLower (s : str) : str := Map rune_lower s.

(** One step of [strings.EqualFold]: equal runes, equal ASCII letters up to
    case, or runes of one folding orbit. *)
Definition fold_rune (a b : Z) : bool :=
  (a =? b) ||
  (let lo := Z.min a b in let hi := Z.max a b in
   if hi <? 128 then (65 <=? lo) && (lo <=? 90) && (hi =? lo + 32) else table_fold lo hi).

Fixpoint fold_runes (a b : list (Z * str)) : bool :=
  match a, b with
  | [], [] => true
  | x :: a, y :: b => fold_rune x.1 y.1 && fold_runes a b
  | _, _ => false
  end.

Definition EqualFold (s t : str) : bool := fold_runes (runes s) (runes t).
End Unicode.

(** ** path/filepath on Unix *)

Definition last_slash (path : str) : option nat := LastIndex path "/".

(** One component of [filepath.Clean], pushed on the reversed output. *)
Definition clean_step (rooted : bool) (out : list str) (part : str) : list str :=
  if bool_decide (part = []) || bool_decide (part = (".":str)) then out
  else if bool_decide (part = ("..":str)) then
    match out with
    | top :: rest => if decide (top = ("..":str)) then part :: out else rest
    | [] => if rooted then [] else [part]
    end
  else part :: out.

Definition Clean (path : str) : str :=
  let rooted := HasPrefix path "/" in
  let out := reverse (foldl (clean_step rooted) [] (Split path "/"%char)) in
  if rooted then "/"%char :: Join out "/"
  else match out with [] => ("." : str) | _ => Join out "/" end.

(** [filepath.Join]: leading empty elements are skipped, the rest joined and cleaned. *)
Definition filepath_Join (elem : list str) : str :=
  let fix skip l := match l with [] :: t => skip t | _ => l end in
  match skip elem with [] => [] | l => Clean (Join l "/") end.

(** [filepath.Dir]; [filepath.ToSlash] is the identity on Unix. *)
Definition Dir (path : str) : str :=
  Clean (match last_slash path with Some i => take (S i) path | None => [] end).

Definition ToSlash (path : str) : str := path.

(** ** comparing and sorting *)

(** Go's [<] on strings: bytewise lexicographic. *)
Fixpoint str_lt (a b : str) : bool :=
  match a, b with
  | _, [] => false
  | [], _ :: _ => true
  | x :: a, y :: b =>
      if code x <? code y then true else if code y <? code x then false else str_lt a b
  end.

Definition str_le (a b : str) : bool := negb (str_lt b a).

(** [sort.Slice] with a strict order: for the keys the source sorts by, ties
    only occur between equal elements, so every sorting algorithm returns the
    same list. *)
Fixpoint insert_sorted {A} (less : A -> A -> bool) (x : A) (l : list A) : list A :=
  match l with
  | [] => [x]
  | y :: t => if less y x then y :: insert_sorted less x t else x :: l
  end.

Definition sort_Slice {A} (less : A -> A -> bool) (l : list A) : list A :=
  foldr (insert_sorted less) [] l.

(** [sort.Search]: binary search for the least index where [f] holds. *)
Fixpoint search_loop (fuel : nat) (f : nat -> bool) (i j : nat) : nat :=
  match fuel with
  | O => i
  | S fuel =>
      if (i <? j)%nat then
        let h := ((i + j) / 2)%nat in
        if f h then search_loop fuel f i h else search_loop fuel f (S h) j
      else i
  end.

Definition sort_Search (n : nat) (f : nat -> bool) : nat := search_loop (S n) f 0 n.

(** ** Lemmas: bytes *)

Lemma code_range c : 0 <= code c < 256.
Proof.
  unfold code. pose proof (N_ascii_bounded c). lia.
Qed.

Lemma code_inj a b : code a = code b -> a = b.
Proof.
  unfold code. intros E. apply N2Z.inj in E.
  rewrite <- (ascii_N_embedding a), <- (ascii_N_embedding b). by f_equal.
Qed.

Lemma byte_of_code c : byte_of (code c) = c.
Proof.
  unfold byte_of. rewrite Z.mod_small by apply code_range.
  unfold code. rewrite N2Z.id. apply ascii_N_embedding.
Qed.

Lemma code_byte_of z : 0 <= z < 256 -> code (byte_of z) = z.
Proof.
  intros. unfold code, byte_of. rewrite Z.mod_small by done.
  rewrite N_ascii_embedding by lia. lia.
Qed.

(** ** Lemmas: affixes, cutting and splitting *)

Lemma HasPrefix_spec s p : HasPrefix s p = true <-> exists t, s = p ++ t.
Proof.
  unfold HasPrefix. rewrite bool_decide_eq_true. split.
  - intros E. exists (drop (length p) s). rewrite <- E at 1. by rewrite take_drop.
  - intros [t ->]. by rewrite take_app_length.
Qed.

Lemma HasSuffix_spec s p : HasSuffix s p = true <-> exists t, s = t ++ p.
Proof.
  unfold HasSuffix. rewrite andb_true_iff, !bool_decide_eq_true. split.
  - intros [Hl E]. exists (take (length s - length p) s). rewrite <- (take_drop (length s - length p) s) at 1.
    by rewrite E.
  - intros [t ->]. rewrite length_app. split; [lia|].
    replace (length t + length p - length p)%nat with (length t) by lia. by rewrite drop_app_length.
Qed.

Lemma TrimSuffix_app s p : TrimSuffix (s ++ p) p = s.
Proof.
  unfold TrimSuffix. rewrite (proj2 (HasSuffix_spec _ _)) by eauto.
  rewrite length_app. replace (length s + length p - length p)%nat with (length s) by lia.
  by rewrite take_app_length.
Qed.

Lemma TrimSuffix_none s p : HasSuffix s p = false -> TrimSuffix s p = s.
Proof. unfold TrimSuffix. by intros ->. Qed.

Lemma TrimSuffix_length s p : (length (TrimSuffix s p) <= length s)%nat.
Proof. unfold TrimSuffix. case_match; [rewrite length_take; lia | done]. Qed.

(** A suffix that starts with a byte the string lacks is not there. *)
Lemma HasSuffix_notin s c p : c ∉ s -> HasSuffix s (c :: p) = false.
Proof.
  intros Hn. apply not_true_iff_false. intros [t ->]%HasSuffix_spec.
  apply Hn. set_solver.
Qed.

Lemma Cut_found s c b a : Cut s c = (b, a, true) -> s = b ++ c :: a /\ c ∉ b.
Proof.
  revert b a. induction s as [|x s IH]; intros b a; simpl; [done|].
  case_decide; [intros [= <- <-]; subst; split; [done | apply not_elem_of_nil]|].
  destruct (Cut s c) as [[b' a'] f']. intros [= <- <- ->].
  destruct (IH b' a' eq_refl) as [-> Hn]. split; [done|]. set_solver.
Qed.

Lemma Cut_missing s c b a : Cut s c = (b, a, false) -> b = s /\ a = [] /\ c ∉ s.
Proof.
  revert b a. induction s as [|x s IH]; intros b a; simpl.
  - intros [= <- <-]. split_and!; try done. apply not_elem_of_nil.
  - case_decide; [done|]. destruct (Cut s c) as [[b' a'] f']. intros [= <- <- ->].
    destruct (IH b' a' eq_refl) as (-> & -> & Hn). split_and!; try done. set_solver.
Qed.

Lemma Cut_app b c a : c ∉ b -> Cut (b ++ c :: a) c = (b, a, true).
Proof.
  induction b as [|x b IH]; intros Hn; simpl; [by rewrite decide_True|].
  rewrite decide_False by set_solver. rewrite IH by set_solver. done.
Qed.

Lemma Cut_notin s c : c ∉ s -> Cut s c = (s, [], false).
Proof.
  induction s as [|x s IH]; intros Hn; simpl; [done|].
  rewrite decide_False by set_solver. rewrite IH by set_solver. done.
Qed.

Lemma Split_nonempty s c : Split s c <> [].
Proof. induction s as [|x s IH]; simpl; [done|]. case_decide; [done|]. by case_match. Qed.

Lemma Split_notin s c : c ∉ s -> Split s c = [s].
Proof.
  induction s as [|x s IH]; intros Hn; simpl; [done|].
  rewrite decide_False by set_solver. rewrite IH by set_solver. done.
Qed.

Lemma Split_app a b c : Split (a ++ c :: b) c = Split a c ++ Split b c.
Proof.
  induction a as [|x a IH]; cbn [app Split]; [by rewrite decide_True|].
  case_decide; [by rewrite IH|]. rewrite IH. pose proof (Split_nonempty a c). by destruct (Split a c).
Qed.

Lemma Split_cons p c s : c ∉ p -> Split (p ++ c :: s) c = p :: Split s c.
Proof.
  induction p as [|x p IH]; intros Hn; simpl; [by rewrite decide_True|].
  rewrite decide_False by set_solver. rewrite IH by set_solver. done.
Qed.

Lemma Split_Join parts c :
  parts <> [] -> Forall (fun p => c ∉ p) parts -> Split (Join parts [c]) c = parts.
Proof.
  intros Hne HF. induction HF as [|p parts Hp HF IH]; [done|].
  destruct parts as [|q parts]; [by apply Split_notin|].
  change (Join (p :: q :: parts) [c]) with (p ++ c :: Join (q :: parts) [c]).
  rewrite Split_cons by done. by rewrite IH.
Qed.

Lemma Join_Split s c : Join (Split s c) [c] = s.
Proof.
  induction s as [|x s IH]; simpl; [done|]. case_decide as E.
  - subst. pose proof (Split_nonempty s c) as Hne. destruct (Split s c) eqn:Es; [done|].
    change (Join ([] :: l :: l0) [c]) with ([] ++ [c] ++ Join (l :: l0) [c]). by rewrite IH.
  - destruct (Split s c) as [|p [|q r]] eqn:Es; simpl in *; [by subst | by subst|].
    by rewrite <- IH.
Qed.

Lemma Split_Forall_notin s c : Forall (fun p => c ∉ p) (Split s c).
Proof.
  induction s as [|x s IH]; simpl; [constructor; [set_solver | done]|].
  case_decide; [constructor; [set_solver | done]|].
  destruct (Split s c) as [|p r]; inversion IH; subst; constructor; set_solver.
Qed.

Lemma Join_app l1 l2 c : l1 <> [] -> l2 <> [] ->
  Join (l1 ++ l2) c = Join l1 c ++ c ++ Join l2 c.
Proof.
  intros H1 H2. induction l1 as [|p l1 IH]; [done|].
  destruct l1 as [|q l1]; [by destruct l2|].
  change (Join ((p :: q :: l1) ++ l2) c) with (p ++ c ++ Join ((q :: l1) ++ l2) c).
  rewrite IH by done. simpl. by rewrite <- !app_assoc.
Qed.

Lemma HasPrefix_hd c s x y : c <> x -> HasPrefix (c :: s) (x :: y) = false.
Proof. intros Hn. apply not_true_iff_false. intros [t E]%HasPrefix_spec. by simplify_eq/=. Qed.

Lemma LastIndex_none s x y : x ∉ s -> LastIndex s (x :: y) = None.
Proof.
  induction s as [|c s IH]; intros Hn; [done|].
  cbn [LastIndex]. rewrite IH by set_solver.
  by rewrite HasPrefix_hd by set_solver.
Qed.

(** The last occurrence of a two-byte mark before text without its first byte. *)
Lemma LastIndex_app p x y d :
  x ∉ y :: d -> LastIndex (p ++ [x; y] ++ d) [x; y] = Some (length p).
Proof.
  intros Hn. induction p as [|c p IH].
  - simpl app. cbn [LastIndex]. rewrite (LastIndex_none d) by set_solver.
    rewrite HasPrefix_hd by set_solver.
    by rewrite (proj2 (HasPrefix_spec _ _)) by (exists d; done).
  - simpl in *. by rewrite IH.
Qed.

Lemma LastIndex_Some s sub n :
  LastIndex s sub = Some n -> exists rest, s = take n s ++ sub ++ rest.
Proof.
  revert n. induction s as [|c s IH]; intros n; cbn [LastIndex].
  - case_decide; [|done]. intros [= <-]. subst. by exists [].
  - destruct (LastIndex s sub) as [m|] eqn:E.
    + intros [= <-]. destruct (IH m eq_refl) as [r Hr]. exists r. simpl. by rewrite <- Hr.
    + case_match eqn:Hp; [|done]. intros [= <-].
      apply HasPrefix_spec in Hp as [t Ht]. exists t. simpl. done.
Qed.

(** ** Lemmas: strconv *)

(** A byte [FormatUint] can write. *)
Definition lower_alnum (c : ascii) : bool := is_digit c || ((97 <=? code c) && (code c <=? 122)).

Lemma digit_char_table :
  Forall (fun d => digit_value (digit_char (Z.of_nat d)) = Some (Z.of_nat d)
                   /\ lower_alnum (digit_char (Z.of_nat d)) = true) (seq 0 36).
Proof. apply (bool_decide_unpack _). vm_compute. exact I. Qed.

Lemma digit_char_ok d : 0 <= d < 36 ->
  digit_value (digit_char d) = Some d /\ lower_alnum (digit_char d) = true.
Proof.
  intros Hd. pose proof digit_char_table as HF. rewrite Forall_forall in HF.
  specialize (HF (Z.to_nat d)). rewrite Z2Nat.id in HF by lia.
  apply HF. rewrite elem_of_seq. lia.
Qed.

Lemma parse_digits_step base maxVal n d s :
  0 <= d < base -> base <= 36 -> n * base + d <= maxVal ->
  parse_digits base maxVal n (digit_char d :: s) = parse_digits base maxVal (n * base + d) s.
Proof.
  intros Hd Hb Hm. simpl. rewrite (proj1 (digit_char_ok d ltac:(lia))).
  rewrite (proj2 (Z.leb_gt _ _)) by lia. rewrite (proj2 (Z.ltb_ge _ _)) by lia. done.
Qed.

Lemma parse_format_loop fuel base maxVal z acc :
  2 <= base <= 36 -> 0 <= z < base ^ Z.of_nat fuel -> z <= maxVal ->
  parse_digits base maxVal 0 (format_digits fuel base z acc) = parse_digits base maxVal z acc.
Proof.
  intros Hb. revert z acc. induction fuel as [|fuel IH]; intros z acc Hz Hm.
  { simpl in Hz. assert (z = 0) as -> by lia. done. }
  cbn [format_digits]. pose proof (Z.mod_pos_bound z base ltac:(lia)) as Hmod.
  case_match eqn:Hlt.
  - apply Z.ltb_lt in Hlt. rewrite Z.mod_small by lia.
    rewrite parse_digits_step by lia. f_equal; lia.
  - apply Z.ltb_ge in Hlt. rewrite Nat2Z.inj_succ, Z.pow_succ_r in Hz by lia.
    pose proof (Z.div_mod z base ltac:(lia)).
    assert (0 < z / base) by (apply Z.div_str_pos; lia).
    assert (z / base < base ^ Z.of_nat fuel) by (apply Z.div_lt_upper_bound; lia).
    rewrite IH by nia. rewrite parse_digits_step by nia. f_equal; lia.
Qed.

Lemma format_digits_nonempty fuel base z acc :
  format_digits (S fuel) base z acc <> [].
Proof.
  revert z acc. induction fuel as [|fuel IH]; intros z acc; cbn [format_digits].
  - by case_match.
  - case_match; [done|]. apply (IH (z / base) (digit_char (z mod base) :: acc)).
Qed.

Lemma format_digits_alnum fuel base z acc :
  2 <= base <= 36 -> Forall (fun c => lower_alnum c = true) acc ->
  Forall (fun c => lower_alnum c = true) (format_digits fuel base z acc).
Proof.
  intros Hb. revert z acc. induction fuel as [|fuel IH]; intros z acc Ha; [done|].
  cbn [format_digits]. pose proof (Z.mod_pos_bound z base ltac:(lia)).
  assert (Forall (fun c => lower_alnum c = true) (digit_char (z mod base) :: acc)).
  { constructor; [|done]. apply digit_char_ok. lia. }
  case_match; auto.
Qed.

Lemma format_digits_decimal fuel z acc :
  Forall (fun c => is_digit c = true) acc ->
  Forall (fun c => is_digit c = true) (format_digits fuel 10 z acc).
Proof.
  revert z acc. induction fuel as [|fuel IH]; intros z acc Ha; [done|].
  cbn [format_digits]. pose proof (Z.mod_pos_bound z 10 eq_refl) as Hm.
  assert (Forall (fun c => is_digit c = true) (digit_char (z mod 10) :: acc)).
  { constructor; [|done]. unfold digit_char, is_digit. rewrite (proj2 (Z.ltb_lt _ _)) by lia.
    rewrite code_byte_of by lia. lia. }
  case_match; auto.
Qed.

Lemma FormatUint_decimal z : Forall (fun c => is_digit c = true) (FormatUint z 10).
Proof. apply format_digits_decimal. constructor. Qed.

Lemma pow_bound base : 2 <= base -> MaxUint64 < base ^ Z.of_nat 64.
Proof.
  intros. apply Z.lt_le_trans with (2 ^ Z.of_nat 64); [reflexivity|].
  apply Z.pow_le_mono_l. lia.
Qed.

(** Parsing what [FormatUint] wrote gives the number back, in any base and at
    any width that holds it. *)
Lemma ParseUint_FormatUint z base bits :
  2 <= base <= 36 -> is_u64 z -> z <= 2 ^ bits - 1 ->
  ParseUint (FormatUint z base) base bits = Ok z.
Proof.
  intros Hb Hz Hm. unfold ParseUint, FormatUint. case_match eqn:E.
  - by apply format_digits_nonempty in E.
  - rewrite <- E. pose proof (pow_bound base). unfold is_u64 in Hz.
    rewrite parse_format_loop by lia. done.
Qed.

Lemma FormatUint_nonempty z base : FormatUint z base <> [].
Proof. apply format_digits_nonempty. Qed.

Lemma FormatUint_alnum z base : 2 <= base <= 36 ->
  Forall (fun c => lower_alnum c = true) (FormatUint z base).
Proof. intros. apply format_digits_alnum; [done | constructor]. Qed.

Lemma FormatUint_inj z z' base : 2 <= base <= 36 -> is_u64 z -> is_u64 z' ->
  FormatUint z base = FormatUint z' base -> z = z'.
Proof.
  intros Hb Hz Hz' E. pose proof (ParseUint_FormatUint z base 64 Hb Hz) as H1.
  pose proof (ParseUint_FormatUint z' base 64 Hb Hz') as H2.
  unfold is_u64, MaxUint64 in *. rewrite E in H1.
  rewrite H1 in H2 by lia. specialize (H2 ltac:(lia)). congruence.
Qed.

(** [FormatUint] never writes a byte outside 0-9a-z. *)
Lemma FormatUint_notin z base c : 2 <= base <= 36 -> lower_alnum c = false -> c ∉ FormatUint z base.
Proof.
  intros Hb Hc Hin. pose proof (FormatUint_alnum z base Hb) as HF.
  rewrite Forall_forall in HF. specialize (HF c Hin). congruence.
Qed.

Lemma parse_digits_bound base maxVal n s v :
  0 <= base -> 0 <= n <= maxVal -> parse_digits base maxVal n s = Ok v -> 0 <= v <= maxVal.
Proof.
  intros Hb. revert n. induction s as [|c s IH]; intros n Hn; simpl; [intros [= <-]; lia|].
  destruct (digit_value c) as [d|] eqn:Ed; [|done].
  case_match; [done|]. case_match eqn:E2; [done|]. apply Z.ltb_ge in E2.
  apply IH. split; [|done].
  assert (0 <= d); [|nia].
  unfold digit_value in Ed. repeat case_match; simplify_eq; unfold is_digit in *; lia.
Qed.

Lemma ParseUint_bound s base bits v :
  0 <= base -> 0 <= bits -> ParseUint s base bits = Ok v -> 0 <= v <= 2 ^ bits - 1.
Proof.
  unfold ParseUint. intros ??. destruct s; [done|].
  apply parse_digits_bound; [done|]. pose proof (Z.pow_pos_nonneg 2 bits). lia.
Qed.

Lemma parse_digits_zero base maxVal s : 2 <= base -> 0 <= maxVal ->
  parse_digits base maxVal 0 ("0"%char :: s) = parse_digits base maxVal 0 s.
Proof.
  intros. cbn [parse_digits].
  replace (digit_value "0"%char) with (Some 0) by reflexivity.
  rewrite (proj2 (Z.leb_gt _ _)) by lia. by rewrite (proj2 (Z.ltb_ge _ _)) by lia.
Qed.

(** ** Lemmas: three-digit hexadecimal components *)

Definition hex3_ok (d : Z) : bool :=
  bool_decide (ParseUint (Sprintf_03x d) 16 10 = Ok d)
  && bool_decide (length (Sprintf_03x d) = 3%nat)
  && forallb lower_alnum (Sprintf_03x d)
  && ((1023 <=? d) || str_lt (Sprintf_03x d) (Sprintf_03x (d + 1))).

Lemma hex3_table : forallb (fun n => hex3_ok (Z.of_nat n)) (seq 0 1024) = true.
Proof. vm_compute. reflexivity. Qed.

Lemma hex3_ok_all d : 0 <= d < 1024 -> hex3_ok d = true.
Proof.
  intros Hd. pose proof hex3_table as HF. rewrite forallb_forall in HF.
  specialize (HF (Z.to_nat d)). rewrite Z2Nat.id in HF by lia. apply HF.
  apply in_seq. lia.
Qed.

Lemma hex3_parse d : 0 <= d < 1024 -> ParseUint (Sprintf_03x d) 16 10 = Ok d.
Proof.
  intros Hd%hex3_ok_all. unfold hex3_ok in Hd.
  rewrite !andb_true_iff, !bool_decide_eq_true in Hd. tauto.
Qed.

Lemma hex3_length d : 0 <= d < 1024 -> length (Sprintf_03x d) = 3%nat.
Proof.
  intros Hd%hex3_ok_all. unfold hex3_ok in Hd.
  rewrite !andb_true_iff, !bool_decide_eq_true in Hd. tauto.
Qed.

Lemma hex3_notin d c : 0 <= d < 1024 -> lower_alnum c = false -> c ∉ Sprintf_03x d.
Proof.
  intros Hd%hex3_ok_all Hc Hin. unfold hex3_ok in Hd.
  rewrite !andb_true_iff, forallb_forall in Hd. destruct Hd as [[[_ _] Hd] _].
  apply list_elem_of_In in Hin. specialize (Hd c Hin). congruence.
Qed.

(** ** Lemmas: order and sorting *)

Lemma str_lt_irrefl a : str_lt a a = false.
Proof. induction a as [|x a IH]; simpl; [done|]. by rewrite Z.ltb_irrefl. Qed.

Lemma str_lt_trans a b c : str_lt a b = true -> str_lt b c = true -> str_lt a c = true.
Proof.
  revert b c. induction a as [|x a IH]; intros [|y b] [|z c]; simpl; try done.
  destruct (Z.ltb_spec (code x) (code y)), (Z.ltb_spec (code y) (code z)),
    (Z.ltb_spec (code y) (code x)), (Z.ltb_spec (code z) (code y)),
    (Z.ltb_spec (code x) (code z)), (Z.ltb_spec (code z) (code x)); try done; try lia.
  apply IH.
Qed.

Lemma str_lt_total a b : str_lt a b = false -> str_lt b a = false -> a = b.
Proof.
  revert b. induction a as [|x a IH]; intros [|y b]; simpl; try done.
  destruct (Z.ltb_spec (code x) (code y)), (Z.ltb_spec (code y) (code x)); try done; try lia.
  intros. f_equal; [apply code_inj; lia | auto].
Qed.

Lemma str_lt_asym a b : str_lt a b = true -> str_lt b a = false.
Proof.
  intros H. apply not_true_iff_false. intros H'.
  pose proof (str_lt_trans _ _ _ H H') as H2. by rewrite str_lt_irrefl in H2.
Qed.

Lemma str_lt_app p a b : str_lt (p ++ a) (p ++ b) = str_lt a b.
Proof. induction p as [|x p IH]; simpl; [done|]. by rewrite Z.ltb_irrefl. Qed.

(** Equal-length heads decide the order before the tails do. *)
Lemma str_lt_app_lt p q a b :
  length p = length q -> str_lt p q = true -> str_lt (p ++ a) (q ++ b) = true.
Proof.
  revert q. induction p as [|x p IH]; intros [|y q]; simpl; intros Hl Hlt; try done.
  destruct (code x <? code y); [done|]. destruct (code y <? code x); [done|]. auto with lia.
Qed.

Lemma hex3_lt a b : 0 <= a -> b < 1024 -> a < b -> str_lt (Sprintf_03x a) (Sprintf_03x b) = true.
Proof.
  intros Ha Hb Hab. replace b with (a + 1 + Z.of_nat (Z.to_nat (b - a - 1))) in * by lia.
  generalize dependent (Z.to_nat (b - a - 1)). clear b. intros n Hn _.
  induction n as [|n IH].
  - pose proof (hex3_ok_all a ltac:(lia)) as Hk. unfold hex3_ok in Hk.
    rewrite !andb_true_iff, orb_true_iff in Hk. destruct Hk as [_ [?|Hk]]; [lia|].
    by rewrite Z.add_0_r.
  - eapply str_lt_trans; [apply IH; lia|].
    set (m := a + 1 + Z.of_nat n). pose proof (hex3_ok_all m ltac:(lia)) as Hk. unfold hex3_ok in Hk.
    rewrite !andb_true_iff, orb_true_iff in Hk. destruct Hk as [_ [?|Hk]]; [lia|].
    by replace (a + 1 + Z.of_nat (S n)) with (m + 1) by lia.
Qed.

Section Sort.
Context {A : Type} (less : A -> A -> bool).

Definition not_after (x y : A) : Prop := less y x = false.

Context (less_asym : forall x y, less x y = true -> less y x = false).
Context (not_after_trans : Transitive not_after).

Lemma insert_sorted_perm x l : insert_sorted less x l ≡ₚ x :: l.
Proof.
  induction l as [|y l IH]; simpl; [done|]. case_match; [|done]. rewrite IH. apply perm_swap.
Qed.

Lemma sort_Slice_perm l : sort_Slice less l ≡ₚ l.
Proof.
  induction l as [|x l IH]; [done|]. cbn [sort_Slice foldr].
  rewrite insert_sorted_perm. by constructor.
Qed.

Lemma insert_sorted_sorted x l :
  StronglySorted not_after l -> StronglySorted not_after (insert_sorted less x l).
Proof.
  induction l as [|y l IH]; intros HS; simpl; [repeat constructor|].
  inversion HS as [|? ? HS' HF]; subst. case_match eqn:E.
  - constructor; [auto|]. rewrite insert_sorted_perm. constructor; [by apply less_asym | done].
  - constructor; [done|]. constructor; [done|].
    eapply Forall_impl; [exact HF|]. intros z Hz. by transitivity y.
Qed.

Lemma sort_Slice_sorted l : StronglySorted not_after (sort_Slice less l).
Proof. induction l; simpl; [constructor | by apply insert_sorted_sorted]. Qed.

(** Sorting forgets the order of its input when ties are equal elements. *)
Lemma sort_Slice_unique l l' :
  (forall x y, x ∈ l -> y ∈ l -> less x y = false -> less y x = false -> x = y) ->
  l ≡ₚ l' -> sort_Slice less l = sort_Slice less l'.
Proof.
  intros Htie HP.
  assert (forall k k', k ⊆ l -> StronglySorted not_after k -> StronglySorted not_after k' ->
    k ≡ₚ k' -> k = k') as Huniq.
  { intros k k' Hsub HS HS'. revert k' HS'. induction HS as [|x k HS IH HF]; intros k' HS' HP'.
    { by apply Permutation_nil in HP'. }
    destruct HS' as [|y k' HS' HF']; [by apply Permutation_sym, Permutation_nil_cons in HP'|].
    assert (x = y) as ->.
    { assert (x ∈ y :: k') as Hx by (rewrite <- HP'; set_solver).
      assert (y ∈ x :: k) as Hy by (rewrite HP'; set_solver).
      apply elem_of_cons in Hx as [?|Hx]; [done|]. apply elem_of_cons in Hy as [?|Hy]; [done|].
      rewrite Forall_forall in HF, HF'. apply Htie; [apply Hsub; set_solver..| |].
      - by apply HF'.
      - by apply HF. }
    f_equal. apply IH; [set_solver | done | by apply Permutation_cons_inv in HP']. }
  apply Huniq; try apply sort_Slice_sorted.
  - intros x Hx. by rewrite sort_Slice_perm in Hx.
  - by rewrite !sort_Slice_perm.
Qed.
End Sort.

Lemma sort_Search_ext n f g : (forall i, f i = g i) -> sort_Search n f = sort_Search n g.
Proof.
  intros E. unfold sort_Search. generalize (S n) as fuel, 0%nat as i. revert n.
  intros j fuel. revert j. induction fuel as [|fuel IH]; intros j i; [done|]. cbn [search_loop].
  rewrite E. by destruct (i <? j)%nat, (g ((i + j) / 2)%nat).
Qed.

Lemma sort_Search_spec n f :
  (forall i j, (i <= j < n)%nat -> f i = true -> f j = true) ->
  (sort_Search n f <= n)%nat
  /\ (forall i, (i < sort_Search n f)%nat -> f i = false)
  /\ (forall i, (sort_Search n f <= i < n)%nat -> f i = true).
Proof.
  intros Hmono. unfold sort_Search.
  assert (forall fuel i j, (i <= j <= n)%nat -> (j - i < fuel)%nat ->
    (forall k, (k < i)%nat -> f k = false) -> (forall k, (j <= k < n)%nat -> f k = true) ->
    let r := search_loop fuel f i j in
    (r <= n)%nat /\ (forall k, (k < r)%nat -> f k = false) /\ (forall k, (r <= k < n)%nat -> f k = true))
    as Hloop.
  { induction fuel as [|fuel IH]; intros i j Hij Hf Hlo Hhi; [lia|]. cbn [search_loop].
    destruct (Nat.ltb_spec i j) as [Hlt|Hge].
    - assert ((i <= (i + j) / 2 < j)%nat) as Hmid.
      { split; [apply Nat.div_le_lower_bound; lia | apply Nat.Div0.div_lt_upper_bound; lia]. }
      destruct (f ((i + j) / 2)%nat) eqn:E.
      + apply IH; [lia | lia | done |]. intros k Hk. apply (Hmono ((i + j) / 2)%nat); [lia | done].
      + apply IH; [lia | lia | | done]. intros k Hk. apply not_true_iff_false. intros Hfk.
        assert (f ((i + j) / 2)%nat = true) by (apply (Hmono k); [lia | done]). congruence.
    - cbn zeta. split; [lia|]. split; [done|]. intros k Hk. apply Hhi. lia. }
  apply (Hloop (S n) 0%nat n); intros; lia.
Qed.

(** ** Lemmas: cleaning and splitting paths *)

(** A path element [Clean] leaves alone. *)
Definition plain (p : str) : Prop := p <> [] /\ p <> "." /\ p <> ".." /\ "/"%char ∉ p.

Lemma plain_slash l : Forall plain l -> Forall (fun p => "/"%char ∉ p) l.
Proof. intros HF. eapply Forall_impl; [exact HF|]. unfold plain. tauto. Qed.

Lemma Split_Join_plain l : Forall plain l -> l <> [] -> Split (Join l "/") "/"%char = l.
Proof. intros HF Hne. apply (Split_Join l "/"%char); [done | by apply plain_slash]. Qed.

Lemma Join_plain_head l : Forall plain l -> l <> [] -> HasPrefix (Join l "/") "/" = false.
Proof.
  intros HF Hne. destruct HF as [|p l (Hp & _ & _ & Hs) HF]; [done|].
  destruct p as [|c p]; [done|].
  assert (exists t, Join ((c :: p) :: l) "/" = c :: t) as [t ->].
  { destruct l; simpl; eauto. }
  simpl. apply HasPrefix_hd. set_solver.
Qed.

Lemma clean_fold_plain l rooted out :
  Forall plain l -> foldl (clean_step rooted) out l = reverse l ++ out.
Proof.
  intros HF. revert out. induction HF as [|p l (H1 & H2 & H3 & _) HF IH]; intros out; [done|].
  cbn [foldl]. rewrite IH, reverse_cons, <- app_assoc. f_equal.
  unfold clean_step. by rewrite !bool_decide_eq_false_2.
Qed.

Lemma Clean_plain l : Forall plain l -> l <> [] -> Clean (Join l "/") = Join l "/".
Proof.
  intros HF Hne. unfold Clean. rewrite Join_plain_head by done.
  change (list_ascii_of_string "/") with ["/"%char].
  rewrite Split_Join by auto using plain_slash.
  rewrite clean_fold_plain by done. rewrite app_nil_r, reverse_involutive. by destruct l.
Qed.

Lemma filepath_Join_plain l : Forall plain l -> l <> [] -> filepath_Join l = Join l "/".
Proof.
  intros HF Hne. destruct HF as [|p l Hp HF]; [done|].
  unfold filepath_Join. destruct p; [by destruct Hp|]. apply Clean_plain; [by constructor | done].
Qed.

Lemma Dir_single x : "/"%char ∉ x -> Dir x = ".".
Proof.
  intros Hx. unfold Dir, last_slash. change (list_ascii_of_string "/") with ["/"%char].
  by rewrite LastIndex_none.
Qed.

Lemma LastIndex_single p x d : x ∉ d -> LastIndex (p ++ [x] ++ d) [x] = Some (length p).
Proof.
  intros Hn. induction p as [|c p IH].
  - simpl app. cbn [LastIndex]. rewrite LastIndex_none by done.
    by rewrite (proj2 (HasPrefix_spec _ _)) by (exists d; done).
  - simpl in *. by rewrite IH.
Qed.

Lemma Dir_snoc l x : Forall plain l -> l <> [] -> "/"%char ∉ x ->
  Dir (Join (l ++ [x]) "/") = Join l "/".
Proof.
  intros HF Hne Hx. unfold Dir, last_slash. change (list_ascii_of_string "/") with ["/"%char].
  rewrite Join_app by done. change (Join [x] ["/"%char]) with x. rewrite LastIndex_single by done.
  replace (S (length (Join l ["/"%char]))) with (length (Join l ["/"%char] ++ ["/"%char]))
    by (rewrite length_app; simpl; lia).
  rewrite app_assoc, take_app_length.
  unfold Clean. change (list_ascii_of_string "/") with ["/"%char].
  pose proof (Join_plain_head l HF Hne) as Hr. change (list_ascii_of_string "/") with ["/"%char] in Hr.
  assert (HasPrefix (Join l ["/"%char] ++ ["/"%char]) ["/"%char] = false) as ->.
  { destruct (Join l ["/"%char]) as [|c t] eqn:E.
    - destruct HF as [|p l (Hp & _) HF]; [done|]. destruct p; [done|]. by destruct l.
    - simpl. apply HasPrefix_hd. intros ->. simpl in Hr. unfold HasPrefix in Hr.
      by rewrite bool_decide_eq_true_2 in Hr. }
  replace (Join l ["/"%char] ++ ["/"%char]) with (Join (l ++ [[]]) ["/"%char])
    by (rewrite Join_app by done; done).
  rewrite Split_Join; [|by destruct l|].
  - rewrite foldl_app, (clean_fold_plain l), app_nil_r by done.
    cbn [foldl]. unfold clean_step. rewrite bool_decide_eq_true_2 by done. cbn [orb].
    rewrite reverse_involutive. by destruct l.
  - apply Forall_app. split; [by apply plain_slash|]. repeat constructor. set_solver.
Qed.

(** ** Lemmas: runes *)

Lemma runes_skip_join k s : mjoin (runes_skip k s).*2 = drop k s.
Proof.
  revert k. induction s as [|c s IH]; intros k; [by destruct k|].
  destruct k as [|k]; [|apply IH]. cbn [runes_skip].
  destruct (DecodeRune c s) as [r w] eqn:E.
  assert (1 <= w)%nat as Hw.
  { unfold DecodeRune in E. repeat case_match; simplify_eq; lia. }
  simpl. rewrite IH. destruct w as [|w]; [lia|]. simpl.
  rewrite Nat.sub_0_r. f_equal. apply take_drop.
Qed.

(** The bytes of the runes, put back together, are the string. *)
Lemma runes_join s : mjoin (runes s).*2 = s.
Proof. unfold runes. by rewrite runes_skip_join. Qed.

Lemma trim_left_suffix l : exists p, l = p ++ trim_left l.
Proof.
  induction l as [|[r b] l [p IH]]; [by exists []|]. cbn [trim_left]. case_match; [|by exists []].
  exists ((r, b) :: p). simpl. by rewrite <- IH.
Qed.

Lemma trim_right_prefix l : exists p, l = trim_right l ++ p.
Proof.
  destruct (trim_left_suffix (reverse l)) as [p Hp]. exists (reverse p).
  unfold trim_right. rewrite <- reverse_app, <- Hp. by rewrite reverse_involutive.
Qed.

(** [TrimSpace] returns an infix of its argument. *)
Lemma TrimSpace_infix s : exists a b, s = a ++ TrimSpace s ++ b.
Proof.
  destruct (trim_left_suffix (runes s)) as [p Hp].
  destruct (trim_right_prefix (trim_left (runes s))) as [q Hq].
  exists (mjoin p.*2), (mjoin q.*2). unfold TrimSpace.
  rewrite <- (runes_join s) at 1. rewrite Hp at 1. rewrite Hq at 1.
  by rewrite !fmap_app, !join_app.
Qed.

Lemma TrimSpace_subseteq s c : c ∈ TrimSpace s -> c ∈ s.
Proof. destruct (TrimSpace_infix s) as (a & b & E). rewrite E at 2. set_solver. Qed.

Lemma TrimSpace_length s : (length (TrimSpace s) <= length s)%nat.
Proof. destruct (TrimSpace_infix s) as (a & b & E). rewrite E at 2. rewrite !length_app. lia. Qed.

Definition ascii_only (s : str) : Prop := Forall (fun c => code c < 128) s.

Lemma runes_ascii s : ascii_only s -> runes s = (fun c => (code c, [c])) <$> s.
Proof.
  unfold runes. induction 1 as [|c s Hc HF IH]; [done|]. cbn [runes_skip].
  assert (DecodeRune c s = (code c, 1%nat)) as ->.
  { unfold DecodeRune, first_byte. by rewrite (proj2 (Z.ltb_lt _ _)). }
  simpl. by rewrite IH.
Qed.

(** The payload bits of the first and second bytes, by table. *)
Definition utf8_row (b : Z) : bool :=
  match first_byte b with
  | None | Some (1%nat, _, _) => true
  | Some (2%nat, _, _) => 128 <=? Z.land b 31 * 64
  | Some (3%nat, lo, _) => 128 <=? Z.land b 15 * 4096 + (if lo =? 160 then 2048 else 0)
  | Some (_, lo, _) => 128 <=? Z.land b 7 * 262144 + (if lo =? 144 then 65536 else 0)
  end.

Lemma utf8_table : forallb (fun n => utf8_row (Z.of_nat n)) (seq 0 256) = true.
Proof. vm_compute. reflexivity. Qed.

Definition second_row (b : Z) : bool :=
  ((b <? 160) || (191 <? b) || (32 <=? Z.land b 63)) && ((b <? 144) || (191 <? b) || (16 <=? Z.land b 63)).

Lemma second_table : forallb (fun n => second_row (Z.of_nat n)) (seq 0 256) = true.
Proof. vm_compute. reflexivity. Qed.

Lemma byte_table (f : Z -> bool) c : forallb (fun n => f (Z.of_nat n)) (seq 0 256) = true -> f (code c) = true.
Proof.
  rewrite forallb_forall. intros H. pose proof (code_range c) as Hc.
  specialize (H (Z.to_nat (code c))). rewrite Z2Nat.id in H by lia. apply H. apply in_seq. lia.
Qed.

(** A rune below 128 is one byte. *)
Lemma DecodeRune_small c t r w : DecodeRune c t = (r, w) -> r < 128 -> w = 1%nat /\ r = code c /\ code c < 128.
Proof.
  pose proof (byte_table utf8_row c utf8_table) as H1. unfold utf8_row in H1.
  unfold DecodeRune. destruct (first_byte (code c)) as [[[n lo] hi]|] eqn:Ef; [|intros [= <- <-]; unfold RuneError; lia].
  assert (forall d k, 0 <= Z.land (code d) (Z.ones k)) as Hl by (intros; apply Z.land_nonneg; left; apply code_range).
  assert (forall d, 0 <= Z.land (code d) 63) as H63 by (intros d; apply (Hl d 6)).
  assert (forall d, 0 <= Z.land (code d) 31) as H31 by (intros d; apply (Hl d 5)).
  assert (forall d, 0 <= Z.land (code d) 15) as H15 by (intros d; apply (Hl d 4)).
  assert (forall d, 0 <= Z.land (code d) 7) as H7 by (intros d; apply (Hl d 3)).
  destruct (decide (n = 1%nat)) as [->|Hn].
  { intros [= <- <-] Hr. split_and!; done || lia. }
  assert (code c < 128 -> n = 1%nat) as Hone.
  { intros Hc. unfold first_byte in Ef. rewrite (proj2 (Z.ltb_lt _ _)) in Ef by lia. by injection Ef as <- _ _. }
  destruct n as [|[|n]]; [| done |].
  { exfalso. clear -Ef. unfold first_byte in Ef. repeat case_match; done. }
  destruct t as [|c1 t1]; [intros [= <- <-]; unfold RuneError; lia|].
  destruct ((lo <=? code c1) && (code c1 <=? hi)) eqn:E1; [|intros [= <- <-]; unfold RuneError; lia].
  apply andb_true_iff in E1 as [Elo%Z.leb_le Ehi%Z.leb_le]. cbn [negb].
  pose proof (byte_table second_row c1 second_table) as H2. unfold second_row in H2.
  apply andb_true_iff in H2 as [H2a H2b]. rewrite !orb_true_iff, !Z.ltb_lt, Z.leb_le in H2a, H2b.
  pose proof (H31 c). pose proof (H15 c). pose proof (H7 c). pose proof (H63 c1).
  assert (hi <= 191) as Hhi by (clear -Ef; unfold first_byte in Ef; repeat case_match; simplify_eq; lia).
  destruct (Nat.eqb (S (S n)) 2) eqn:E2.
  { apply Nat.eqb_eq in E2. assert (n = 0)%nat as -> by lia. apply Z.leb_le in H1.
    intros [= <- <-]. lia. }
  destruct t1 as [|c2 t2]; [intros [= <- <-]; unfold RuneError; lia|].
  destruct (is_cont c2); cbn [negb]; [|intros [= <- <-]; unfold RuneError; lia].
  pose proof (H63 c2).
  destruct (Nat.eqb (S (S n)) 3) eqn:E3.
  { apply Nat.eqb_eq in E3. assert (n = 1)%nat as -> by lia. apply Z.leb_le in H1.
    destruct (Z.eqb_spec lo 160); intros [= <- <-]; lia. }
  destruct t2 as [|c3 t3]; [intros [= <- <-]; unfold RuneError; lia|].
  destruct (is_cont c3); cbn [negb]; [|intros [= <- <-]; unfold RuneError; lia].
  pose proof (H63 c3). apply Nat.eqb_neq in E2, E3.
  destruct n as [|[|n]]; [lia | lia |]. apply Z.leb_le in H1.
  destruct (Z.eqb_spec lo 144); intros [= <- <-]; lia.
Qed.

(** A string all of whose runes are ASCII is ASCII. *)
Lemma runes_all_ascii s : Forall (fun rb => rb.1 < 128) (runes s) -> ascii_only s.
Proof.
  unfold runes. induction s as [|c s IH]; [constructor|]. cbn [runes_skip].
  destruct (DecodeRune c s) as [r w] eqn:E. intros [Hr HF]%Forall_cons. cbn in Hr.
  destruct (DecodeRune_small _ _ _ _ E Hr) as (-> & _ & ?). constructor; [done|]. by apply IH.
Qed.

(** A non-empty ASCII word without white space. *)
Definition word (w : str) : Prop := w <> [] /\ Forall (fun c => code c < 128 /\ IsSpace (code c) = false) w.

Lemma word_ascii w : word w -> ascii_only w.
Proof. intros [_ HF]. eapply Forall_impl; [exact HF|]. simpl. tauto. Qed.

Lemma fields_loop_word (w : str) rest current :
  Forall (fun c => code c < 128 /\ IsSpace (code c) = false) w ->
  fields_loop (((fun c => (code c, [c])) <$> w) ++ rest) current = fields_loop rest (current ++ w).
Proof.
  intros HF. revert current. induction HF as [|c w [_ Hc] HF IH]; intros current.
  { by rewrite app_nil_r. }
  cbn. rewrite Hc, IH. by rewrite <- app_assoc.
Qed.

Lemma trim_left_word l : Forall (fun rb => IsSpace rb.1 = false) l -> trim_left l = l.
Proof. intros [|[r b] l' Hr _]; [done|]. cbn in *. by rewrite Hr. Qed.

(** A word has no space to trim. *)
Lemma TrimSpace_word w : word w -> TrimSpace w = w.
Proof.
  intros Hw. unfold TrimSpace. rewrite (runes_ascii w) by (by apply word_ascii). destruct Hw as [_ HF].
  assert (Forall (fun rb : Z * str => IsSpace rb.1 = false) ((fun c => (code c, [c])) <$> w)) as HF'
    by (apply Forall_fmap; eapply Forall_impl; [exact HF|]; simpl; tauto).
  unfold trim_right. rewrite (trim_left_word _ HF'), trim_left_word by (by rewrite Forall_reverse). rewrite reverse_involutive.
  clear HF HF'. induction w as [|c w IH]; [done|]. cbn. f_equal. exact IH.
Qed.

Lemma ascii_Join ws : Forall ascii_only ws -> ascii_only (Join ws " ").
Proof.
  induction 1 as [|w ws Hw HF IH]; [constructor|]. destruct ws as [|x ws]; [done|].
  change (Join (w :: x :: ws) " ") with (w ++ " " ++ Join (x :: ws) " ").
  apply Forall_app. split; [done|]. constructor; [vm_compute; done | done].
Qed.

(** [Fields] recovers words joined by single spaces. *)
Lemma Fields_Join ws : Forall word ws -> Fields (Join ws " ") = ws.
Proof.
  intros HF. unfold Fields. rewrite runes_ascii.
  2: { apply ascii_Join. eapply Forall_impl; [exact HF|]. apply word_ascii. }
  induction HF as [|w ws Hw HF IH]; [done|]. destruct Hw as [Hne Hw].
  destruct ws as [|x ws].
  - change (Join [w] " ") with w. rewrite <- (app_nil_r (_ <$> w)), fields_loop_word by done.
    cbn. by rewrite decide_False.
  - change (Join (w :: x :: ws) " ") with (w ++ " "%char :: Join (x :: ws) " ").
    rewrite fmap_app, fields_loop_word by done. cbn [app fmap list_fmap fields_loop].
    change (IsSpace (code " ")) with true. cbn iota. rewrite decide_False by done. by rewrite IH.
Qed.

Lemma digit_not_space c : is_digit c = true -> code c < 128 /\ IsSpace (code c) = false.
Proof. unfold is_digit, IsSpace. lia. Qed.

Lemma word_decimal z : word (FormatUint z 10).
Proof.
  split; [apply FormatUint_nonempty|]. eapply Forall_impl; [apply FormatUint_decimal|]. apply digit_not_space.
Qed.

Lemma ParseInt_FormatUint z : 0 <= z < 2 ^ 63 -> ParseInt (FormatUint z 10) = Ok z.
Proof.
  intros Hz. unfold ParseInt. pose proof (FormatUint_decimal z) as HF.
  pose proof (FormatUint_nonempty z 10) as Hne.
  assert ((match FormatUint z 10 with
     | [] => (false, [])
     | c :: t => if decide (c = "-"%char) then (true, t)
                 else if decide (c = "+"%char) then (false, t) else (false, FormatUint z 10)
     end) = (false, FormatUint z 10)) as ->.
  { destruct HF as [|c t Hc HF]; [done|]. rewrite !decide_False; [done | by intros -> | by intros ->]. }
  rewrite ParseUint_FormatUint by (unfold is_u64, MaxUint64; lia). cbn [rbind].
  rewrite (proj2 (Z.leb_gt _ _)) by lia. done.
Qed.

#[export] Hint Resolve TrimSpace_subseteq plain_slash : picomx.
