(* ===== verification/IdPath.v ===== *)
(** * Message IDs and archive paths (internal/archive/idpath.go)

    An archive ID is written in base 1024: the path is the number of digits,
    then one three-digit hexadecimal component per digit, the last one carrying
    the size and the [.eml] suffix.  The theorems show the naming is a bijection
    between IDs with sizes and accepted paths, and that leaf directories sort
    as strings the way IDs sort as numbers. *)

From S2P Require Import Prelude GoStrings.

(** ** Data *)

Definition idRadix : Z := 1024.

(** [archive.Message]. *)
Record Message := { ID : Z; Size : Z; Path : str }.

#[export] Instance Message_eq_dec : EqDecision Message.
Proof. solve_decision. Defined.

(** ** Operations *)

(** The digit loop of [messageRelativePath], least significant digit first; seven
    base-1024 digits hold any [uint64]. *)
Fixpoint id_digits (fuel : nat) (id : Z) : list Z :=
  match fuel with
  | O => []
  | S fuel => if 0 <? id then id mod idRadix :: id_digits fuel (id / idRadix) else []
  end.

Definition component (index : nat) (digit : Z) : str :=
  let component := Sprintf_03x digit in
  if Nat.eqb index 0 then component ++ ".eml" else component.

Definition messageRelativePath (id : Z) : result str :=
  if id =? 0 then Err (New "message ID must be greater than zero")
  else
    let digits := id_digits 7 id in
    Ok (filepath_Join (Itoa (Z.of_nat (length digits)) :: reverse (imap component digits))).

Fixpoint id_loop (id : Z) (parts : list str) : result Z :=
  match parts with
  | [] => Ok id
  | part :: rest =>
      match ParseUint (TrimSuffix part ".eml") 16 10 with
      | Err _ => Err (New "invalid message path")
      | Ok digit =>
          if (MaxUint64 - digit) / idRadix <? id then Err (New "invalid message path")
          else id_loop (u64 (u64 (id * idRadix) + digit)) rest
      end
  end.

Definition messageIDFromPath (path : str) : result Z :=
  let parts := Split path "/"%char in
  if (length parts <? 2)%nat then Err (New "invalid message path")
  else
    let! id := id_loop 0 (tail parts) in
    match messageRelativePath id with
    | Err _ => Err (New "invalid message path: ")
    | Ok expected =>
        if decide (ToSlash expected = path) then Ok id else Err (New "invalid message path: ")
    end.

Definition messagePath (id size : Z) : result str :=
  let! path := messageRelativePath id in
  Ok (TrimSuffix (ToSlash path) ".eml" ++ "-s" ++ FormatUint size 10 ++ ".eml").

Definition messageFromPath (path : str) : result Message :=
  let stem := TrimSuffix path ".eml" in
  match LastIndex stem "-s" with
  | None => Err (New "message path has no size")
  | Some position =>
      let! id := messageIDFromPath (take position stem ++ ".eml") in
      let! size := ParseUint (drop (position + 2) stem) 10 64 in
      match messagePath id size with
      | Err _ => Err (New "invalid message filename")
      | Ok expected =>
          if decide (expected = path) then Ok {| ID := id; Size := size; Path := path |}
          else Err (New "invalid message filename")
      end
  end.

(** ** Reference form of the names *)

(** The components after the depth for a directory prefix [k] (the ID shifted
    right by one digit), and the leaf directory of an ID. *)
Definition hexes (k : Z) : list str := Sprintf_03x <$> reverse (id_digits 7 k).
Definition depth (id : Z) : Z := Z.of_nat (length (id_digits 7 id)).
Definition dir_parts (id : Z) : list str := Itoa (depth id) :: hexes (id / idRadix).
Definition leaf_dir (id : Z) : str := Join (dir_parts id) "/".

Definition valid_id (id : Z) : Prop := 1 <= id <= MaxUint64.

(** ** Digits *)

Lemma id_digits_bound fuel id : Forall (fun d => 0 <= d < idRadix) (id_digits fuel id).
Proof.
  revert id. induction fuel as [|fuel IH]; intros id; simpl; [done|].
  case_match; [|done]. constructor; [|apply IH].
  unfold idRadix. apply Z.mod_pos_bound. lia.
Qed.

Lemma id_digits_fuel fuel fuel' id :
  0 <= id < idRadix ^ Z.of_nat fuel -> (fuel <= fuel')%nat -> id_digits fuel' id = id_digits fuel id.
Proof.
  revert fuel' id. induction fuel as [|fuel IH]; intros fuel' id Hid Hf.
  - simpl in Hid. assert (id = 0) as -> by lia. by destruct fuel'.
  - destruct fuel' as [|fuel']; [lia|]. simpl. case_match; [|done]. f_equal.
    apply IH; [|lia]. rewrite Nat2Z.inj_succ, Z.pow_succ_r in Hid by lia. unfold idRadix in *.
    split; [apply Z.div_pos; lia | apply Z.div_lt_upper_bound; lia].
Qed.

Lemma u64_prefix id : 0 <= id <= MaxUint64 -> 0 <= id / idRadix <= MaxUint64 / idRadix.
Proof.
  intros. unfold idRadix. split; [apply Z.div_pos; lia | apply Z.div_le_mono; lia].
Qed.

(** Seven digits are enough, and the directory prefix needs at most six. *)
Lemma id_digits_step id : valid_id id ->
  id_digits 7 id = id mod idRadix :: id_digits 7 (id / idRadix).
Proof.
  intros [H1 H2]. pose proof (u64_prefix id ltac:(lia)) as Hp.
  change (MaxUint64 / idRadix) with 18014398509481983 in Hp.
  rewrite (id_digits_fuel 6 7 (id / idRadix)); [|change (idRadix ^ Z.of_nat 6) with 1152921504606846976; lia|lia].
  change (id_digits 7 id) with (if 0 <? id then id mod idRadix :: id_digits 6 (id / idRadix) else []).
  by rewrite (proj2 (Z.ltb_lt _ _)) by lia.
Qed.

Lemma id_digits_length id : 0 <= id <= MaxUint64 -> 0 <= depth id <= 7.
Proof.
  intros. unfold depth. split; [lia|].
  assert (forall fuel k, (length (id_digits fuel k) <= fuel)%nat) as Hl; [|specialize (Hl 7%nat id); lia].
  induction fuel as [|fuel IH]; intros k; simpl; [lia|]. case_match; simpl; [|lia].
  specialize (IH (k / idRadix)). lia.
Qed.

Lemma depth_step id : valid_id id -> depth id = depth (id / idRadix) + 1.
Proof. intros H. unfold depth. rewrite id_digits_step by done. simpl. lia. Qed.

Lemma depth_bounds id : valid_id id -> 1 <= depth id <= 7.
Proof.
  intros H. pose proof (id_digits_length id ltac:(destruct H; lia)).
  rewrite depth_step in * by done. unfold depth in *. lia.
Qed.

Lemma hexes_step k : valid_id k -> hexes k = hexes (k / idRadix) ++ [Sprintf_03x (k mod idRadix)].
Proof.
  intros H. unfold hexes. rewrite id_digits_step by done. by rewrite reverse_cons, fmap_app.
Qed.

Lemma hexes_zero : hexes 0 = [].
Proof. done. Qed.

Lemma Itoa_depth n : 1 <= n <= 7 -> exists c, Itoa n = [c] /\ code c = 48 + n.
Proof.
  intros Hn. assert (n = 1 \/ n = 2 \/ n = 3 \/ n = 4 \/ n = 5 \/ n = 6 \/ n = 7) as Hc by lia.
  repeat destruct Hc as [->|Hc]; [eexists; split; [vm_compute; reflexivity | reflexivity]..|].
  subst. eexists; split; [vm_compute; reflexivity | reflexivity].
Qed.

Lemma plain_hex d : 0 <= d < idRadix -> plain (Sprintf_03x d).
Proof.
  intros Hd. unfold idRadix in Hd. pose proof (hex3_length d Hd) as Hl.
  split_and!; [by destruct (Sprintf_03x d)|intros E; by rewrite E in Hl..|].
  by apply hex3_notin.
Qed.

Lemma plain_hexes k : Forall plain (hexes k).
Proof.
  unfold hexes. apply Forall_fmap, Forall_reverse.
  eapply Forall_impl; [apply id_digits_bound|]. intros d Hd. by apply plain_hex.
Qed.

Lemma plain_depth n : 1 <= n <= 7 -> plain (Itoa n).
Proof.
  intros Hn. destruct (Itoa_depth n Hn) as (c & -> & Hc).
  split_and!; [done | intros [= ->]; change (46 = 48 + n) in Hc; lia | done |].
  intros E%list_elem_of_singleton. subst. change (47 = 48 + n) in Hc. lia.
Qed.

Lemma plain_dir_parts id : valid_id id -> Forall plain (dir_parts id).
Proof.
  intros H. unfold dir_parts. constructor; [|apply plain_hexes].
  by apply plain_depth, depth_bounds.
Qed.

(** ** Closed form of the paths *)

Lemma mod_range id : 0 <= id mod idRadix < 1024.
Proof. unfold idRadix. apply Z.mod_pos_bound. lia. Qed.

#[export] Hint Resolve mod_range plain_hexes plain_dir_parts : picomx.

Lemma file_plain d s :
  0 <= d < 1024 -> "/"%char ∉ s -> plain (Sprintf_03x d ++ s).
Proof.
  intros Hd Hs. pose proof (hex3_length d Hd) as Hl.
  split_and!.
  - by destruct (Sprintf_03x d).
  - intros E. apply (f_equal length) in E. rewrite length_app, Hl in E. done.
  - intros E. apply (f_equal length) in E. rewrite length_app, Hl in E. done.
  - intros [Hin|?]%elem_of_app; [|done]. by apply hex3_notin in Hin.
Qed.

Lemma messageRelativePath_form id : valid_id id ->
  messageRelativePath id = Ok (Join (dir_parts id ++ [Sprintf_03x (id mod idRadix) ++ ".eml"]) "/").
Proof.
  intros H. unfold messageRelativePath. rewrite (proj2 (Z.eqb_neq id 0)) by (destruct H; lia).
  fold (depth id). f_equal.
  assert (reverse (imap component (id_digits 7 id))
          = hexes (id / idRadix) ++ [Sprintf_03x (id mod idRadix) ++ ".eml"]) as ->.
  { rewrite id_digits_step by done. cbn [imap]. rewrite reverse_cons. f_equal.
    unfold hexes. rewrite fmap_reverse. f_equal. apply imap_const. }
  apply filepath_Join_plain; [|done].
  change (Itoa (depth id) :: hexes (id / idRadix) ++ ?x) with (dir_parts id ++ x).
  apply Forall_app. split; [auto with picomx|]. repeat constructor.
  all: apply file_plain; [apply mod_range|].
  all: rewrite ?elem_of_cons; set_solver.
Qed.

Lemma Join_snoc_prefix (l : list str) a b : Join (l ++ [a ++ b]) "/" = Join (l ++ [a]) "/" ++ b.
Proof.
  destruct l as [|p l]; [done|]. rewrite !Join_app by done.
  change (Join [a ++ b] "/") with (a ++ b). change (Join [a] "/") with a. by rewrite !app_assoc.
Qed.

(** The part of a path before [-s] or [.eml]. *)
Definition id_stem (id : Z) : str := Join (dir_parts id ++ [Sprintf_03x (id mod idRadix)]) "/".

Lemma messageRelativePath_stem id : valid_id id -> messageRelativePath id = Ok (id_stem id ++ ".eml").
Proof. intros. rewrite messageRelativePath_form by done. by rewrite Join_snoc_prefix. Qed.

Lemma messagePath_form id size : valid_id id ->
  messagePath id size = Ok (id_stem id ++ "-s" ++ FormatUint size 10 ++ ".eml").
Proof.
  intros. unfold messagePath. rewrite messageRelativePath_stem by done. cbn [rbind].
  unfold ToSlash. by rewrite TrimSuffix_app.
Qed.

Lemma messagePath_last id size : valid_id id ->
  messagePath id size =
  Ok (Join (dir_parts id ++ [Sprintf_03x (id mod idRadix) ++ "-s" ++ FormatUint size 10 ++ ".eml"]) "/").
Proof. intros. rewrite messagePath_form by done. by rewrite Join_snoc_prefix. Qed.

(** ** Parsing *)

Lemma id_loop_app id a b : id_loop id (a ++ b) = rbind (id_loop id a) (fun x => id_loop x b).
Proof.
  revert id. induction a as [|p a IH]; intros id; [done|]. cbn [app id_loop].
  destruct (ParseUint _ _ _); [|done]. case_match; [done|]. apply IH.
Qed.

Lemma TrimSuffix_hex d : 0 <= d < 1024 -> TrimSuffix (Sprintf_03x d) ".eml" = Sprintf_03x d.
Proof.
  intros Hd. apply TrimSuffix_none. apply (HasSuffix_notin _ "."%char). by apply hex3_notin.
Qed.

Lemma id_loop_step k d rest part :
  0 <= k -> 0 <= d < 1024 -> k * idRadix + d <= MaxUint64 ->
  TrimSuffix part ".eml" = Sprintf_03x d ->
  id_loop k (part :: rest) = id_loop (k * idRadix + d) rest.
Proof.
  intros Hk Hd Hm Hp. cbn [id_loop]. rewrite Hp, hex3_parse by done.
  assert (k <= (MaxUint64 - d) / idRadix) as Hle.
  { unfold idRadix in *. apply Z.div_le_lower_bound; lia. }
  rewrite (proj2 (Z.ltb_ge _ _)) by done.
  unfold idRadix in *. rewrite !u64_small; [done | unfold is_u64; lia..|].
  rewrite u64_small; unfold is_u64; lia.
Qed.

Lemma id_loop_hexes k : 0 <= k <= MaxUint64 -> id_loop 0 (hexes k) = Ok k.
Proof.
  intros Hk.
  assert (forall n k, 0 <= k <= MaxUint64 -> k < idRadix ^ Z.of_nat n -> id_loop 0 (hexes k) = Ok k) as Hn.
  { clear. induction n as [|n IH]; intros k Hk Hn.
    { simpl in Hn. assert (k = 0) as -> by lia. done. }
    destruct (decide (k = 0)) as [->|Hz]; [done|].
    assert (valid_id k) as Hv by (split; lia).
    pose proof (Z.div_mod k idRadix ltac:(done)) as Hdm. pose proof (mod_range k) as Hmod.
    pose proof (u64_prefix k Hk) as Hp.
    rewrite hexes_step by done. rewrite id_loop_app, IH.
    - cbn [rbind]. rewrite (id_loop_step _ (k mod idRadix)); [|lia|done| |by apply TrimSuffix_hex].
      + cbn [id_loop]. f_equal. lia.
      + lia.
    - change (MaxUint64 / idRadix) with 18014398509481983 in Hp. unfold MaxUint64. lia.
    - rewrite Nat2Z.inj_succ, Z.pow_succ_r in Hn by lia.
      unfold idRadix in *. apply Z.div_lt_upper_bound; lia. }
  apply (Hn 7%nat); [done|]. change (idRadix ^ Z.of_nat 7) with 1180591620717411303424.
  unfold MaxUint64 in *. lia.
Qed.

Lemma messageIDFromPath_form id : valid_id id -> messageIDFromPath (id_stem id ++ ".eml") = Ok id.
Proof.
  intros H. unfold messageIDFromPath.
  assert (Split (id_stem id ++ ".eml") "/"%char
          = dir_parts id ++ [Sprintf_03x (id mod idRadix) ++ ".eml"]) as ->.
  { unfold id_stem. rewrite <- Join_snoc_prefix. apply (Split_Join _ "/"%char); [by destruct (dir_parts id)|].
    apply Forall_app. split; [auto with picomx|]. constructor; [|done].
    apply (file_plain _ ".eml"); [apply mod_range | set_solver]. }
  cbn [dir_parts app tail]. rewrite (proj2 (Nat.ltb_ge _ _)) by (simpl; rewrite length_app; simpl; lia).
  pose proof (Z.div_mod id idRadix ltac:(done)) as Hdm. pose proof (mod_range id) as Hmod.
  assert (0 <= id / idRadix <= MaxUint64) as Hk.
  { pose proof (u64_prefix id ltac:(destruct H; lia)) as Hp.
    change (MaxUint64 / idRadix) with 18014398509481983 in Hp. unfold MaxUint64. lia. }
  rewrite id_loop_app, id_loop_hexes by done. cbn [rbind].
  rewrite (id_loop_step _ (id mod idRadix)); [|lia|done| |apply TrimSuffix_app].
  2: destruct H; lia.
  cbn [id_loop rbind]. replace (id / idRadix * idRadix + id mod idRadix) with id by lia.
  rewrite messageRelativePath_stem by done. by rewrite decide_True.
Qed.

(** ** Main theorems *)

Lemma u64_pow : 2 ^ 64 - 1 = MaxUint64.
Proof. reflexivity. Qed.

Lemma messageFromPath_form id size : valid_id id -> is_u64 size ->
  messageFromPath (id_stem id ++ "-s" ++ FormatUint size 10 ++ ".eml")
  = Ok {| ID := id; Size := size; Path := id_stem id ++ "-s" ++ FormatUint size 10 ++ ".eml" |}.
Proof.
  intros H Hs. unfold messageFromPath.
  replace (TrimSuffix (id_stem id ++ "-s" ++ FormatUint size 10 ++ ".eml") ".eml")
    with (id_stem id ++ "-s" ++ FormatUint size 10)
    by (rewrite !app_assoc; symmetry; apply TrimSuffix_app).
  change (list_ascii_of_string "-s") with ["-"%char; "s"%char].
  rewrite LastIndex_app.
  2: { apply not_elem_of_cons. split; [done|]. by apply FormatUint_notin. }
  rewrite take_app_length, messageIDFromPath_form by done. cbn [rbind].
  replace (length (id_stem id) + 2)%nat with (length (id_stem id ++ ["-"%char; "s"%char]))
    by (rewrite length_app; done).
  rewrite app_assoc, drop_app_length, ParseUint_FormatUint;
    [|lia|done|rewrite u64_pow; destruct Hs; lia].
  cbn [rbind]. rewrite messagePath_form by done.
  change (list_ascii_of_string "-s") with ["-"%char; "s"%char].
  rewrite <- ?app_assoc. by rewrite decide_True.
Qed.

Lemma messageRelativePath_valid id p : messageRelativePath id = Ok p -> id <> 0.
Proof. unfold messageRelativePath. case_match eqn:E; [done|]. by apply Z.eqb_neq in E. Qed.

Lemma id_loop_bound k parts v : 0 <= k <= MaxUint64 -> id_loop k parts = Ok v -> 0 <= v <= MaxUint64.
Proof.
  revert k. induction parts as [|p parts IH]; intros k Hk; cbn [id_loop]; [intros [= <-]; lia|].
  destruct (ParseUint _ _ _) as [d|]; [|done]. case_match; [done|]. apply IH. apply u64_range.
Qed.

Lemma messageIDFromPath_sound p id :
  messageIDFromPath p = Ok id -> valid_id id /\ messageRelativePath id = Ok p.
Proof.
  unfold messageIDFromPath. case_match; [done|]. intros H0. ok_inv.
  destruct (messageRelativePath a) as [e|] eqn:E; [|done].
  case_decide; [|done]. ok_inv. unfold ToSlash in *. subst.
  apply id_loop_bound in Ha; [|unfold MaxUint64; lia].
  split; [|done]. apply messageRelativePath_valid in E. unfold valid_id. lia.
Qed.

(** Every path [messageFromPath] accepts is the one [messagePath] writes. *)
Lemma messageFromPath_sound p m : messageFromPath p = Ok m ->
  valid_id (ID m) /\ is_u64 (Size m) /\ Path m = p /\ messagePath (ID m) (Size m) = Ok p.
Proof.
  unfold messageFromPath. destruct (LastIndex _ _) as [position|]; [|done].
  intros H. ok_inv. apply messageIDFromPath_sound in Ha as [Hv _].
  apply ParseUint_bound in Ha0; [|lia|lia]. rewrite u64_pow in Ha0.
  destruct (messagePath a a0) as [e|] eqn:E; [|done]. case_decide; [|done]. ok_inv.
  by repeat split; try apply Hv; try apply Ha0.
Qed.

Lemma Dir_messagePath id size p : valid_id id -> messagePath id size = Ok p -> Dir p = leaf_dir id.
Proof.
  intros H. rewrite messagePath_last by done. intros <-%Ok_inj.
  apply Dir_snoc; [auto with picomx | done |].
  rewrite !not_elem_of_app. split_and!; [apply hex3_notin; [apply mod_range | done] | set_solver | by apply FormatUint_notin | set_solver].
Qed.

Lemma Dir_messageRelativePath id p : valid_id id -> messageRelativePath id = Ok p -> Dir p = leaf_dir id.
Proof.
  intros H. rewrite messageRelativePath_form by done. intros <-%Ok_inj.
  apply Dir_snoc; [auto with picomx | done |].
  rewrite !not_elem_of_app. split; [apply hex3_notin; [apply mod_range | done] | set_solver].
Qed.

(** ** Order of the leaf directories *)

Definition flat (k : Z) : str := mjoin ((fun h => "/"%char :: h) <$> hexes k).

Lemma Join_flat h (l : list str) : Join (h :: l) "/" = h ++ mjoin ((fun h => "/"%char :: h) <$> l).
Proof.
  revert h. induction l as [|x l IH]; intros h; [simpl; by rewrite app_nil_r|].
  change (Join (h :: x :: l) "/") with (h ++ "/" ++ Join (x :: l) "/"). by rewrite IH.
Qed.

Lemma leaf_dir_flat id : leaf_dir id = Itoa (depth id) ++ flat (id / idRadix).
Proof. apply Join_flat. Qed.

Lemma flat_step k : valid_id k ->
  flat k = flat (k / idRadix) ++ "/"%char :: Sprintf_03x (k mod idRadix).
Proof.
  intros H. unfold flat. rewrite hexes_step by done. rewrite fmap_app, join_app. simpl.
  by rewrite app_nil_r.
Qed.

Lemma prefix_range k : 0 <= k <= MaxUint64 -> 0 <= k / idRadix <= MaxUint64 /\ (k <> 0 -> k / idRadix < k).
Proof.
  intros H. pose proof (u64_prefix k H) as Hp. change (MaxUint64 / idRadix) with 18014398509481983 in Hp.
  unfold MaxUint64, idRadix in *. split; [lia|]. intros. apply Z.div_lt; lia.
Qed.

Lemma depth_zero : depth 0 = 0.
Proof. done. Qed.

(** Fewer digits or the same number of digits and a smaller string. *)
Lemma depth_flat_lt k k' : 0 <= k <= MaxUint64 -> 0 <= k' <= MaxUint64 -> k < k' ->
  depth k < depth k'
  \/ (depth k = depth k' /\ length (flat k) = length (flat k') /\ str_lt (flat k) (flat k') = true).
Proof.
  intros Hk. revert k'.
  induction k as [k IH] using (well_founded_induction (Z.lt_wf 0)).
  intros k' Hk' Hlt. assert (valid_id k') as Hv' by (split; lia).
  destruct (decide (k = 0)) as [->|Hz].
  { left. rewrite depth_zero. pose proof (depth_bounds k' Hv'). lia. }
  assert (valid_id k) as Hv by (split; lia).
  pose proof (prefix_range k Hk) as [Hp Hpl]. pose proof (prefix_range k' Hk') as [Hp' _].
  rewrite (depth_step k), (depth_step k'), (flat_step k), (flat_step k') by done.
  rewrite !length_app. cbn [length].
  rewrite !hex3_length by apply mod_range.
  pose proof (Z.div_mod k idRadix ltac:(done)). pose proof (Z.div_mod k' idRadix ltac:(done)).
  pose proof (mod_range k). pose proof (mod_range k').
  assert (k / idRadix <= k' / idRadix) as Hle by (apply Z.div_le_mono; [done | lia]).
  apply Z.lt_eq_cases in Hle as [Hl|E].
  - destruct (IH (k / idRadix) ltac:(specialize (Hpl Hz); lia) Hp (k' / idRadix) Hp' Hl)
      as [?|(Hd & Hlen & Hs)]; [left; lia|]. right. split_and!; [lia | lia |].
    by apply str_lt_app_lt.
  - right. rewrite E. split_and!; [done | done |]. rewrite str_lt_app.
    change (str_lt (Sprintf_03x (k mod idRadix)) (Sprintf_03x (k' mod idRadix)) = true).
    apply hex3_lt; unfold idRadix in *; lia.
Qed.

(** Leaf directories compare as strings the way their ID ranges do. *)
Lemma leaf_dir_lt id id' : valid_id id -> valid_id id' ->
  id / idRadix < id' / idRadix -> str_lt (leaf_dir id) (leaf_dir id') = true.
Proof.
  intros H H' Hlt. rewrite !leaf_dir_flat.
  pose proof (prefix_range id ltac:(destruct H; lia)) as [Hp _].
  pose proof (prefix_range id' ltac:(destruct H'; lia)) as [Hp' _].
  pose proof (depth_bounds id H) as Hb. pose proof (depth_bounds id' H') as Hb'.
  rewrite (depth_step id), (depth_step id') in * by done.
  destruct (Itoa_depth _ Hb) as (c & -> & Hc). destruct (Itoa_depth _ Hb') as (c' & -> & Hc').
  destruct (depth_flat_lt _ _ Hp Hp' Hlt) as [Hd|(Hd & Hl & Hs)].
  - simpl. by rewrite (proj2 (Z.ltb_lt (code c) (code c'))) by lia.
  - simpl. by rewrite (proj2 (Z.ltb_ge (code c) (code c'))), (proj2 (Z.ltb_ge (code c') (code c))) by lia.
Qed.

Lemma leaf_dir_eq id id' : valid_id id -> valid_id id' ->
  leaf_dir id = leaf_dir id' <-> id / idRadix = id' / idRadix.
Proof.
  intros H H'. split.
  - intros E. destruct (Z.lt_trichotomy (id / idRadix) (id' / idRadix)) as [Hl|[?|Hl]]; [|done|].
    + apply leaf_dir_lt in Hl; [|done..]. rewrite E in Hl. by rewrite str_lt_irrefl in Hl.
    + apply leaf_dir_lt in Hl; [|done..]. rewrite E in Hl. by rewrite str_lt_irrefl in Hl.
  - intros E. unfold leaf_dir, dir_parts. by rewrite (depth_step id), (depth_step id'), E.
Qed.

Lemma leaf_dir_order id id' : valid_id id -> valid_id id' ->
  str_lt (leaf_dir id) (leaf_dir id') = true <-> id / idRadix < id' / idRadix.
Proof.
  intros H H'. split; [|by apply leaf_dir_lt].
  intros Hs. destruct (Z.lt_trichotomy (id / idRadix) (id' / idRadix)) as [?|[E|Hl]]; [done|..].
  - apply (leaf_dir_eq id id') in E; [|done..]. rewrite E in Hs. by rewrite str_lt_irrefl in Hs.
  - apply (leaf_dir_lt id' id) in Hl; [|done..]. apply str_lt_asym in Hs. congruence.
Qed.

(** ** Properties *)

(** C30: archive paths and messages correspond one to one.  [messageFromPath]
    accepts exactly the paths [messagePath] writes for an allocatable ID and a
    64-bit size, and gives the same ID and size back; every other spelling
    (upper case, missing padding, extra components, overflow) is refused. *)
Theorem path_names_one_message p m :
  messageFromPath p = Ok m <->
  valid_id (ID m) /\ is_u64 (Size m) /\ messagePath (ID m) (Size m) = Ok p /\ Path m = p.
Proof.
  split.
  - intros (? & ? & ? & ?)%messageFromPath_sound. done.
  - intros (Hv & Hs & Hp & Em). rewrite messagePath_form in Hp by done. apply Ok_inj in Hp.
    rewrite <- Hp, messageFromPath_form by done. rewrite Hp, <- Em. by destruct m.
Qed.

(** leaf directories group 1024 consecutive IDs and sort as strings the way
    their IDs sort as numbers, which is what lets the leaf index be sorted and
    searched by path. *)
Theorem leaf_directories_sort_numerically id id' size size' p p' :
  messagePath id size = Ok p -> messagePath id' size' = Ok p' -> valid_id id -> valid_id id' ->
  (str_lt (Dir p) (Dir p') = true <-> id / idRadix < id' / idRadix)
  /\ (Dir p = Dir p' <-> id / idRadix = id' / idRadix).
Proof.
  intros Hp Hp' Hv Hv'. rewrite (Dir_messagePath _ _ _ Hv Hp), (Dir_messagePath _ _ _ Hv' Hp').
  split; [by apply leaf_dir_order | by apply leaf_dir_eq].
Qed.

Lemma leaf_directories_sort_numerically_witness :
  str_lt (Dir "1/3ff-s7.eml") (Dir "2/001/000-s9.eml") = true.
Proof.
  apply (leaf_directories_sort_numerically 1023 1024 7 9); [by vm_compute | by vm_compute | by unfold valid_id, MaxUint64; lia.. | by vm_compute].
Defined.
