(* ===== verification/Directories.v ===== *)
(** * Directory counts and the leaf index (internal/archive/directories.go)

    The mailbox state keeps, for every non-empty archive directory, the number
    of live messages below it.  [buildDirectoryIndex] checks the counts and
    builds the sorted table of leaf directories with running totals that
    POP3 numbering selects from. *)

From S2P Require Import Prelude GoStrings IdPath.

(** ** Data *)

Abbreviation directoryCounts := (gmap str Z).

Record directoryCount := { dc_path : str; dc_count : Z; dc_accumulated : Z }.

Record directoryIndex := { leaves : list directoryCount; total : Z }.

(** ** Operations *)

(** [fmtDigit]; [strings.Repeat] would panic on a digit of four hexadecimal
    places, which [ParseUint(part, 16, 10)] never returns. *)
Definition fmtDigit (digit : Z) : str :=
  let text := FormatUint digit 16 in Repeat "0" (3 - length text) ++ text.

Definition invalid_directory : error := New "invalid message directory".

Fixpoint valid_prefix (i : nat) (prefix : Z) (parts : list str) : result Z :=
  match parts with
  | [] => Ok prefix
  | part :: rest =>
      match ParseUint part 16 10 with
      | Err _ => Err invalid_directory
      | Ok digit =>
          if negb (bool_decide (part = fmtDigit digit)) || (Nat.eqb i 0 && (digit =? 0))
             || ((MaxUint64 - digit) / idRadix <? prefix)
          then Err invalid_directory
          else valid_prefix (S i) (u64 (u64 (prefix * idRadix) + digit)) rest
      end
  end.

Definition validDirectory (path : str) : result bool :=
  let parts := Split path "/"%char in
  let part0 := default [] (head parts) in
  match Atoi part0 with
  | Err _ => Err invalid_directory
  | Ok depth =>
      if (depth <? 1) || (7 <? depth) || negb (bool_decide (part0 = Itoa depth))
         || (depth <? Z.of_nat (length parts))
      then Err invalid_directory
      else
        let! prefix := valid_prefix 0 0 (tail parts) in
        let leaf := Z.of_nat (length parts) =? depth in
        if leaf && (MaxUint64 / idRadix <? prefix)
        then Err (New "directory prefix exceeds ID space")
        else Ok leaf
  end.

(** The loop [for path != "."] that adds [n] to a directory and all its
    ancestors; a path has at most as many ancestors as bytes. *)
Fixpoint bump_loop (fuel : nat) (n : Z) (counts : directoryCounts) (path : str) : directoryCounts :=
  match fuel with
  | O => counts
  | S fuel =>
      if decide (path = ".") then counts
      else bump_loop fuel n (<[path := u64 (default 0 (counts !! path) + n)]> counts) (ToSlash (Dir path))
  end.

Definition bump (n : Z) (counts : directoryCounts) (path : str) : directoryCounts :=
  bump_loop (S (length path)) n counts path.

(** [directoryCounts.add]. *)
Definition counts_add (counts : directoryCounts) (path : str) : directoryCounts := bump 1 counts path.

(** [directoryCounts.remove]; on an error the caller drops the clone. *)
Fixpoint remove_loop (fuel : nat) (counts : directoryCounts) (path : str) : result directoryCounts :=
  match fuel with
  | O => Ok counts
  | S fuel =>
      if decide (path = ".") then Ok counts
      else
        let count := default 0 (counts !! path) in
        if count =? 0 then Err (New "directory count underflow")
        else
          remove_loop fuel
            (if count =? 1 then delete path counts else <[path := count - 1]> counts)
            (ToSlash (Dir path))
  end.

Definition counts_remove (counts : directoryCounts) (path : str) : result directoryCounts :=
  remove_loop (S (length path)) counts path.

(** A gmap is a value: [cloneDirectoryCounts] copies every entry. *)
Definition cloneDirectoryCounts (counts : directoryCounts) : directoryCounts :=
  map_fold (fun path count clone => <[path := count]> clone) ∅ counts.

(** First loop of [buildDirectoryIndex], over the map in some order. *)
Fixpoint collect_leaves (entries : list (str * Z)) : result (list directoryCount) :=
  match entries with
  | [] => Ok []
  | (path, count) :: rest =>
      match validDirectory path with
      | Err _ => Err (New "invalid directory count")
      | Ok leaf =>
          if count =? 0 then Err (New "invalid directory count")
          else if leaf then
            if (idRadix <? count) || (bool_decide (path = "1") && (count =? idRadix))
            then Err (New "leaf count exceeds directory fanout")
            else
              let! found := collect_leaves rest in
              Ok ({| dc_path := path; dc_count := count; dc_accumulated := 0 |} :: found)
          else collect_leaves rest
      end
  end.

(** Second loop: running totals, and the counts the leaves imply. *)
Fixpoint accumulate (lastID total : Z) (expected : directoryCounts) (l : list directoryCount)
    : result (list directoryCount * Z * directoryCounts) :=
  match l with
  | [] => Ok ([], total, expected)
  | leaf :: rest =>
      if u64 (lastID - total) <? dc_count leaf
      then Err (New "directory counts exceed allocated IDs")
      else
        let total := u64 (total + dc_count leaf) in
        let! (done, sum, expected) :=
          accumulate lastID total (bump (dc_count leaf) expected (dc_path leaf)) rest in
        Ok ({| dc_path := dc_path leaf; dc_count := dc_count leaf; dc_accumulated := total |} :: done,
            sum, expected)
  end.

Definition dc_less (a b : directoryCount) : bool := str_lt (dc_path a) (dc_path b).

(** [buildDirectoryIndex] with the order Go's map iteration happens to take. *)
Definition buildDirectoryIndex_in (entries : list (str * Z)) (counts : directoryCounts) (lastID : Z)
    : result directoryIndex :=
  let! found := collect_leaves entries in
  let! (done, total, expected) := accumulate lastID 0 ∅ (sort_Slice dc_less found) in
  if negb (Nat.eqb (size expected) (size counts))
  then Err (New "directory counts are missing ancestors")
  else if negb (forallb (fun e => default 0 (counts !! e.1) =? e.2) (map_to_list expected))
  then Err (New "directory count does not match descendants")
  else Ok {| leaves := done; total := total |}.

Definition buildDirectoryIndex (counts : directoryCounts) (lastID : Z) : result directoryIndex :=
  buildDirectoryIndex_in (map_to_list counts) counts lastID.

(** [selectLeaf]: [None] is the source's [false]. *)
Definition selectLeaf (index : option directoryIndex) (number : Z) : result (option (directoryCount * Z)) :=
  match index with
  | None => Ok None
  | Some index =>
      if (number =? 0) || (total index <? number) then Ok None
      else
        let position := sort_Search (length (leaves index))
          (fun i => match leaves index !! i with Some d => number <=? dc_accumulated d | None => false end) in
        match leaves index !! position with
        | None => Err (Panicked "index out of range")
        | Some leaf =>
            let before := u64 (dc_accumulated leaf - dc_count leaf) in
            Ok (Some (leaf, u64 (u64 (number - before) - 1)))
        end
  end.

Definition empty_index : directoryIndex := {| leaves := []; total := 0 |}.

Lemma clone_id counts : cloneDirectoryCounts counts = counts.
Proof.
  unfold cloneDirectoryCounts. apply (map_fold_weak_ind (fun acc m => acc = m)); [done|].
  by intros path n m acc _ ->.
Qed.

(** ** The ancestors a loop visits *)

(** [l/..], longest first: the directories from a path up to its depth. *)
Definition dir_chain (l : list str) : list str :=
  (fun k => Join (take k l) "/") <$> reverse (seq 1 (length l)).

Lemma dir_chain_snoc l x : dir_chain (l ++ [x]) = Join (l ++ [x]) "/" :: dir_chain l.
Proof.
  unfold dir_chain. rewrite length_app. cbn [length]. rewrite Nat.add_1_r, seq_S, reverse_snoc.
  cbn [fmap list_fmap]. f_equal.
  - by rewrite take_ge by (rewrite length_app; simpl; lia).
  - apply list_fmap_ext. intros _ k Hk%list_elem_of_lookup_2. rewrite elem_of_reverse, elem_of_seq in Hk.
    by rewrite take_app_le by lia.
Qed.

Lemma dir_chain_nil : dir_chain [] = [].
Proof. done. Qed.

Lemma Join_inj l l' : Forall plain l -> Forall plain l' -> l <> [] -> l' <> [] ->
  Join l "/" = Join l' "/" -> l = l'.
Proof.
  intros HF HF' Hne Hne' E.
  rewrite <- (Split_Join_plain l), <- (Split_Join_plain l') by done. by rewrite E.
Qed.

Lemma Join_plain_dot l : Forall plain l -> l <> [] -> Join l "/" <> ".".
Proof.
  intros HF Hne E.
  assert (l = Split (Join l "/") "/"%char) as El by (symmetry; apply Split_Join; auto with picomx).
  rewrite E in El. change (l = [(".":str)]) in El. subst.
  inversion HF as [|? ? Hp]; subst. by destruct Hp as (_ & ? & _).
Qed.

Lemma Join_length l : Forall plain l -> (length l <= length (Join l "/"))%nat.
Proof.
  induction 1 as [|p l Hp HF IH]; [simpl; lia|].
  destruct p as [|c p]; [by destruct Hp|]. destruct l as [|q l]; [simpl; lia|].
  change (Join ((c :: p) :: q :: l) "/") with ((c :: p) ++ "/" ++ Join (q :: l) "/").
  rewrite !length_app. cbn [length] in *. lia.
Qed.

Lemma elem_of_dir_chain p l :
  p ∈ dir_chain l <-> exists k, (1 <= k <= length l)%nat /\ p = Join (take k l) "/".
Proof.
  unfold dir_chain. rewrite list_elem_of_fmap. split.
  - intros (k & -> & Hk). rewrite elem_of_reverse, elem_of_seq in Hk. exists k. split; [lia | done].
  - intros (k & Hk & ->). exists k. split; [done|]. rewrite elem_of_reverse, elem_of_seq. lia.
Qed.

Lemma NoDup_dir_chain l : Forall plain l -> NoDup (dir_chain l).
Proof.
  intros HF. unfold dir_chain. apply NoDup_fmap_2_strong; [|rewrite reverse_Permutation; apply NoDup_seq].
  intros j k Hj Hk E. rewrite elem_of_reverse, elem_of_seq in Hj, Hk.
  apply Join_inj in E; try (by apply Forall_take); try (destruct l; simpl in *; [lia|]; by destruct j, k; try lia).
  apply (f_equal length) in E. rewrite !length_take in E. lia.
Qed.

(** The generic shape of both loops. *)
Lemma bump_loop_chain n l fuel c :
  Forall plain l -> l <> [] -> (length l < fuel)%nat ->
  bump_loop fuel n c (Join l "/")
  = foldl (fun m p => <[p := u64 (default 0 (m !! p) + n)]> m) c (dir_chain l).
Proof.
  revert fuel c. induction l as [|x l IH] using rev_ind; [done|]. intros fuel c HF _ Hf.
  rewrite length_app in Hf. simpl in Hf. destruct fuel as [|fuel]; [lia|].
  cbn [bump_loop]. rewrite decide_False by (apply Join_plain_dot; [done | by destruct l]).
  rewrite dir_chain_snoc. cbn [foldl]. apply Forall_app in HF as [HFl HFx].
  inversion HFx as [|? ? Hx]; subst. unfold ToSlash.
  destruct l as [|y l].
  - simpl app. change (Join [x] "/") with x. rewrite Dir_single by apply Hx.
    destruct fuel; [lia|]. done.
  - rewrite Dir_snoc; [|done|done|apply Hx]. apply IH; [done | done | lia].
Qed.

Lemma bump_chain n l c : Forall plain l -> l <> [] ->
  bump n c (Join l "/") = foldl (fun m p => <[p := u64 (default 0 (m !! p) + n)]> m) c (dir_chain l).
Proof.
  intros HF Hne. apply bump_loop_chain; [done | done |]. pose proof (Join_length l HF). lia.
Qed.

Definition remove_one (m : result directoryCounts) (p : str) : result directoryCounts :=
  let! m := m in
  let count := default 0 (m !! p) in
  if count =? 0 then Err (New "directory count underflow")
  else Ok (if count =? 1 then delete p m else <[p := count - 1]> m).

Lemma foldl_remove_Err e ps : foldl remove_one (Err e) ps = Err e.
Proof. induction ps; [done|]. simpl. done. Qed.

Lemma remove_loop_chain l fuel c :
  Forall plain l -> l <> [] -> (length l < fuel)%nat ->
  remove_loop fuel c (Join l "/") = foldl remove_one (Ok c) (dir_chain l).
Proof.
  revert fuel c. induction l as [|x l IH] using rev_ind; [done|]. intros fuel c HF _ Hf.
  rewrite length_app in Hf. simpl in Hf. destruct fuel as [|fuel]; [lia|].
  cbn [remove_loop]. rewrite decide_False by (apply Join_plain_dot; [done | by destruct l]).
  rewrite dir_chain_snoc. cbn [foldl remove_one rbind]. apply Forall_app in HF as [HFl HFx].
  inversion HFx as [|? ? Hx]; subst. unfold ToSlash.
  case_match; [by rewrite foldl_remove_Err|].
  destruct l as [|y l].
  - simpl app. change (Join [x] "/") with x. rewrite Dir_single by apply Hx.
    destruct fuel; [lia|]. done.
  - rewrite Dir_snoc; [|done|done|apply Hx]. apply IH; [done | done | lia].
Qed.

Lemma remove_chain l c : Forall plain l -> l <> [] ->
  counts_remove c (Join l "/") = foldl remove_one (Ok c) (dir_chain l).
Proof.
  intros HF Hne. apply remove_loop_chain; [done | done |]. pose proof (Join_length l HF). lia.
Qed.

(** ** Maps that store a non-negative function, zeros absent *)

Definition stores (m : directoryCounts) (f : str -> Z) : Prop :=
  forall p, m !! p = if f p =? 0 then None else Some (f p).

Lemma stores_default m f p : stores m f -> default 0 (m !! p) = f p.
Proof. intros H. rewrite H. destruct (Z.eqb_spec (f p) 0) as [->|]; done. Qed.

Lemma stores_ext m f g : stores m f -> (forall p, f p = g p) -> stores m g.
Proof. intros H E p. by rewrite H, E. Qed.

Lemma stores_unique m m' f : stores m f -> stores m' f -> m = m'.
Proof. intros H H'. apply map_eq. intros p. by rewrite H, H'. Qed.

Definition hit (p : str) (chain : list str) (n : Z) : Z := if decide (p ∈ chain) then n else 0.

Lemma stores_update (m : directoryCounts) (f : str -> Z) (p : str) (v : Z) :
  0 < v -> stores m f -> stores (<[p := v]> m) (fun q => if decide (q = p) then v else f q).
Proof.
  intros Hv HS q. destruct (decide (q = p)) as [->|].
  - rewrite lookup_insert_eq. by rewrite (proj2 (Z.eqb_neq v 0)) by lia.
  - by rewrite lookup_insert_ne.
Qed.

Lemma stores_delete (m : directoryCounts) (f : str -> Z) (p : str) :
  stores m f -> stores (delete p m) (fun q => if decide (q = p) then 0 else f q).
Proof.
  intros HS q. destruct (decide (q = p)) as [->|].
  - by rewrite lookup_delete_eq.
  - by rewrite lookup_delete_ne.
Qed.

Lemma hit_cons (q p : str) (ps : list str) (n : Z) : p ∉ ps -> hit q (p :: ps) n = (if decide (q = p) then n else 0) + hit q ps n.
Proof. intros Hp. unfold hit. repeat case_decide; try lia; set_solver. Qed.

Lemma stores_bump_fold (n : Z) (m : directoryCounts) (f : str -> Z) (ps : list str) :
  NoDup ps -> 0 < n -> (forall p, 0 <= f p) -> (forall p, p ∈ ps -> f p + n <= MaxUint64) -> stores m f ->
  stores (foldl (fun m p => <[p := u64 (default 0 (m !! p) + n)]> m) m ps) (fun p => f p + hit p ps n).
Proof.
  intros HN Hn. revert m f. induction HN as [|p ps Hp HN IH]; intros m f Hf Hb HS.
  { simpl. eapply stores_ext; [exact HS|]. intros q. unfold hit. by rewrite Z.add_0_r. }
  cbn [foldl]. rewrite (stores_default _ _ _ HS). specialize (Hf p) as Hfp.
  specialize (Hb p ltac:(set_solver)) as Hbp.
  rewrite u64_small by (unfold is_u64; lia).
  eapply stores_ext.
  - apply IH; [| |apply stores_update; [|exact HS]; lia].
    + intros q. cbn beta. specialize (Hf q). case_decide; lia.
    + intros q Hq. cbn beta. rewrite decide_False by set_solver. apply Hb. set_solver.
  - intros q. cbn beta. rewrite hit_cons by done. case_decide; subst; lia.
Qed.

Lemma stores_remove_fold (m : directoryCounts) (f : str -> Z) (ps : list str) :
  NoDup ps -> (forall p, p ∈ ps -> 0 < f p) -> stores m f ->
  exists m', foldl remove_one (Ok m) ps = Ok m' /\ stores m' (fun p => f p - hit p ps 1).
Proof.
  intros HN. revert m f. induction HN as [|p ps Hp HN IH]; intros m f Hf HS.
  { exists m. split; [done|]. eapply stores_ext; [exact HS|]. intros q. unfold hit. by rewrite Z.sub_0_r. }
  cbn [foldl remove_one rbind]. rewrite (stores_default _ _ _ HS).
  specialize (Hf p ltac:(set_solver)) as Hfp. rewrite (proj2 (Z.eqb_neq (f p) 0)) by lia.
  set (m1 := if f p =? 1 then delete p m else <[p := f p - 1]> m).
  assert (stores m1 (fun q => if decide (q = p) then f p - 1 else f q)) as HS1.
  { unfold m1. destruct (Z.eqb_spec (f p) 1) as [E|].
    - eapply stores_ext; [by apply stores_delete|]. intros q. cbn beta. rewrite E. done.
    - apply stores_update; [lia | done]. }
  destruct (IH m1 (fun q => if decide (q = p) then f p - 1 else f q)) as (m' & -> & HS').
  { intros q Hq. destruct (decide (q = p)); [set_solver|]. apply Hf. set_solver. }
  { exact HS1. }
  exists m'. split; [done|].
  eapply stores_ext; [exact HS'|]. intros q. cbn beta. rewrite hit_cons by done.
  case_decide; subst; lia.
Qed.

(** ** Counts of a set of live IDs *)

Definition chain_of (id : Z) : list str := dir_chain (dir_parts id).

(** How many of [ids] lie in or below directory [p]. *)
Definition tally (ids : list Z) (p : str) : Z := foldr (fun id acc => hit p (chain_of id) 1 + acc) 0 ids.

(** The counts record exactly the live IDs. *)
Definition counts_match (counts : directoryCounts) (ids : list Z) : Prop := stores counts (tally ids).

Lemma hit_range p ps : 0 <= hit p ps 1 <= 1.
Proof. unfold hit. case_decide; lia. Qed.

Lemma tally_range ids p : 0 <= tally ids p <= Z.of_nat (length ids).
Proof.
  induction ids as [|id ids IH]; simpl; [lia|]. pose proof (hit_range p (chain_of id)). lia.
Qed.

#[export] Instance tally_proper : Proper ((≡ₚ) ==> eq ==> eq) tally.
Proof. intros l l' HP p ? <-. unfold tally. induction HP; simpl; lia. Qed.

#[export] Instance counts_match_proper counts : Proper ((≡ₚ) ==> iff) (counts_match counts).
Proof.
  intros l l' HP. unfold counts_match. split; intros H; (eapply stores_ext; [exact H|]); intros p; by rewrite HP.
Qed.

Lemma dir_parts_nonempty id : dir_parts id <> [].
Proof. done. Qed.

#[export] Hint Resolve dir_parts_nonempty NoDup_dir_chain : picomx.

Lemma counts_match_empty : counts_match ∅ [].
Proof. intros p. done. Qed.

Lemma counts_match_add counts ids id :
  valid_id id -> Z.of_nat (length ids) < MaxUint64 -> counts_match counts ids ->
  counts_match (counts_add counts (leaf_dir id)) (id :: ids).
Proof.
  intros Hv Hl HS. unfold counts_add, leaf_dir. rewrite bump_chain by auto with picomx.
  eapply stores_ext; [apply stores_bump_fold; [auto with picomx | lia | | | exact HS]|].
  - intros p. apply tally_range.
  - intros p _. pose proof (tally_range ids p). lia.
  - intros p. simpl. unfold chain_of. lia.
Qed.

Lemma counts_match_remove counts ids id :
  valid_id id -> counts_match counts (id :: ids) ->
  exists counts', counts_remove counts (leaf_dir id) = Ok counts' /\ counts_match counts' ids.
Proof.
  intros Hv HS. unfold leaf_dir. rewrite remove_chain by auto with picomx.
  destruct (stores_remove_fold counts (tally (id :: ids)) (dir_chain (dir_parts id)))
    as (c & -> & HS'); [auto with picomx | | done |].
  - intros p Hp. simpl. pose proof (tally_range ids p). unfold hit, chain_of. rewrite decide_True by done. lia.
  - exists c. split; [done|]. eapply stores_ext; [exact HS'|]. intros p. simpl. unfold chain_of. lia.
Qed.

(** ** The directories of live IDs are valid *)

Lemma valid_prefix_app i prefix a b :
  valid_prefix i prefix (a ++ b)
  = rbind (valid_prefix i prefix a) (fun x => valid_prefix (i + length a) x b).
Proof.
  revert i prefix. induction a as [|p a IH]; intros i prefix; [by rewrite Nat.add_0_r|].
  cbn [app valid_prefix length]. destruct (ParseUint p 16 10); [|done]. case_match; [done|].
  rewrite IH. by replace (S i + length a)%nat with (i + S (length a))%nat by lia.
Qed.

Lemma hexes_length k : Z.of_nat (length (hexes k)) = depth k.
Proof. unfold hexes, depth. by rewrite length_fmap, length_reverse. Qed.

Lemma valid_prefix_hexes k : 0 <= k <= MaxUint64 -> valid_prefix 0 0 (hexes k) = Ok k.
Proof.
  induction k as [k IH] using (well_founded_induction (Z.lt_wf 0)). intros Hk.
  destruct (decide (k = 0)) as [->|Hz]; [done|].
  assert (valid_id k) as Hv by (split; lia).
  pose proof (prefix_range k Hk) as [Hp Hpl]. specialize (Hpl Hz).
  rewrite hexes_step by done. rewrite valid_prefix_app, IH by lia. cbn [rbind valid_prefix].
  pose proof (mod_range k) as Hm. pose proof (Z.div_mod k idRadix ltac:(done)) as Hdm.
  rewrite hex3_parse by done. rewrite bool_decide_eq_true_2 by done. cbn [negb orb].
  assert (Nat.eqb (0 + length (hexes (k / idRadix))) 0 && (k mod idRadix =? 0) = false) as ->.
  { apply andb_false_iff. destruct (Z.eqb_spec (k mod idRadix) 0); [left|by right].
    apply Nat.eqb_neq. pose proof (hexes_length (k / idRadix)) as Hh.
    assert (valid_id (k / idRadix)) as Hvp by (unfold idRadix in *; split; lia).
    pose proof (depth_bounds _ Hvp). lia. }
  rewrite (proj2 (Z.ltb_ge _ _)).
  2: { unfold idRadix in *. apply Z.div_le_lower_bound; lia. }
  cbn [orb]. unfold idRadix in *. rewrite (u64_small (k / 1024 * 1024)) by (unfold is_u64; lia).
  rewrite u64_small by (unfold is_u64; lia). f_equal. lia.
Qed.

(** A prefix of the components of [k] spells some [k' <= k]. *)
Lemma hexes_take k j : 0 <= k <= MaxUint64 -> (j <= length (hexes k))%nat ->
  exists k', 0 <= k' <= k /\ take j (hexes k) = hexes k'.
Proof.
  induction k as [k IH] using (well_founded_induction (Z.lt_wf 0)). intros Hk Hj.
  destruct (decide (j = length (hexes k))) as [->|Hlt].
  { exists k. split; [lia|]. by rewrite take_ge. }
  destruct (decide (k = 0)) as [->|Hz]; [simpl in *; lia|].
  assert (valid_id k) as Hv by (split; lia).
  pose proof (prefix_range k Hk) as [Hp Hpl]. specialize (Hpl Hz).
  rewrite hexes_step in * by done. rewrite length_app in *. simpl in Hj, Hlt.
  destruct (IH (k / idRadix)) as (k' & Hk' & E); [lia | lia | lia |].
  exists k'. split; [lia|]. by rewrite take_app_le by lia.
Qed.

Lemma Atoi_depth n : 1 <= n <= 7 -> Atoi (Itoa n) = Ok n.
Proof.
  intros Hn. assert (n = 1 \/ n = 2 \/ n = 3 \/ n = 4 \/ n = 5 \/ n = 6 \/ n = 7) as Hc by lia.
  by destruct Hc as [->|[->|[->|[->|[->|[->| ->]]]]]]; vm_compute.
Qed.

Lemma dir_parts_length id : valid_id id -> Z.of_nat (length (dir_parts id)) = depth id.
Proof.
  intros Hv. unfold dir_parts. cbn [length]. rewrite Nat2Z.inj_succ, hexes_length.
  rewrite (depth_step id) by done. lia.
Qed.

Lemma validDirectory_prefix id k :
  valid_id id -> (1 <= k <= length (dir_parts id))%nat ->
  validDirectory (Join (take k (dir_parts id)) "/") = Ok (Z.of_nat k =? depth id).
Proof.
  intros Hv Hk. pose proof (depth_bounds id Hv) as Hd. pose proof (dir_parts_length id Hv) as Hl.
  unfold validDirectory.
  rewrite Split_Join_plain; [|by apply Forall_take; auto with picomx | by destruct k; [lia|]].
  assert (Z.of_nat (length (take k (dir_parts id))) = Z.of_nat k) as Hlen by (rewrite length_take; lia).
  rewrite Hlen. destruct k as [|j]; [lia|]. unfold dir_parts. cbn [take tail].
  change (default [] (head (Itoa (depth id) :: ?t))) with (Itoa (depth id)).
  rewrite Atoi_depth, bool_decide_eq_true_2 by done.
  rewrite (proj2 (Z.ltb_ge (depth id) 1)), (proj2 (Z.ltb_ge 7 (depth id))) by lia.
  cbn [orb negb]. rewrite (proj2 (Z.ltb_ge (depth id) _)) by lia.
  pose proof (u64_prefix id ltac:(destruct Hv; lia)) as Hp.
  destruct (hexes_take (id / idRadix) j) as (k' & Hk' & ->).
  { change (MaxUint64 / idRadix) with 18014398509481983 in Hp. unfold MaxUint64. lia. }
  { unfold dir_parts in Hk. simpl in Hk. lia. }
  rewrite valid_prefix_hexes.
  2: { change (MaxUint64 / idRadix) with 18014398509481983 in Hp. unfold MaxUint64. lia. }
  cbn [rbind]. rewrite (proj2 (Z.ltb_ge _ k')) by lia. by rewrite andb_false_r.
Qed.

Lemma validDirectory_leaf id : valid_id id -> validDirectory (leaf_dir id) = Ok true.
Proof.
  intros Hv. pose proof (dir_parts_length id Hv) as Hl. unfold leaf_dir.
  rewrite <- (firstn_all (dir_parts id)), validDirectory_prefix; [|done|].
  - by rewrite Hl, Z.eqb_refl.
  - pose proof (depth_bounds id Hv). lia.
Qed.

(** An ancestor of one leaf directory that is itself the leaf of another ID is
    that leaf. *)
Lemma leaf_in_chain id id' : valid_id id -> valid_id id' ->
  leaf_dir id ∈ chain_of id' -> leaf_dir id' = leaf_dir id.
Proof.
  intros Hv Hv' (k & Hk & E)%elem_of_dir_chain.
  apply Join_inj in E; [|auto with picomx|by apply Forall_take; auto with picomx|done|by destruct k; [lia|]].
  pose proof (dir_parts_length id Hv) as Hl. pose proof (dir_parts_length id' Hv') as Hl'.
  assert (depth id = depth id') as Hd.
  { pose proof (depth_bounds id Hv) as Hb. pose proof (depth_bounds id' Hv') as Hb'.
    destruct (Itoa_depth _ Hb) as (c & Hc & Hcode). destruct (Itoa_depth _ Hb') as (c' & Hc' & Hcode').
    destruct k as [|k]; [lia|]. unfold dir_parts in E. cbn [take] in E.
    injection E as E _. rewrite Hc, Hc' in E. injection E as ->. lia. }
  unfold leaf_dir. rewrite E, take_ge; [done|]. rewrite E, length_take in Hl. lia.
Qed.

Lemma leaf_self_chain id : valid_id id -> leaf_dir id ∈ chain_of id.
Proof.
  intros Hv. apply elem_of_dir_chain. exists (length (dir_parts id)).
  pose proof (dir_parts_length id Hv). pose proof (depth_bounds id Hv).
  split; [lia|]. by rewrite firstn_all.
Qed.

(** ** Leaf counts *)

Definition in_leaf (path : str) (ids : list Z) : list Z := filter (fun id => leaf_dir id = path) ids.
Definition count_in (path : str) (ids : list Z) : Z := Z.of_nat (length (in_leaf path ids)).

Lemma count_in_cons path id ids :
  count_in path (id :: ids) = (if decide (leaf_dir id = path) then 1 else 0) + count_in path ids.
Proof. unfold count_in, in_leaf. rewrite filter_cons. case_decide; simpl; lia. Qed.

Lemma tally_leaf ids id : valid_id id -> Forall valid_id ids ->
  tally ids (leaf_dir id) = count_in (leaf_dir id) ids.
Proof.
  intros Hv. induction 1 as [|x ids Hx HF IH]; [done|].
  rewrite count_in_cons. cbn [tally foldr]. fold (tally ids (leaf_dir id)). rewrite IH.
  f_equal. unfold hit. case_decide as H1; case_decide as H2; try done.
  - by apply leaf_in_chain in H1.
  - exfalso. apply H1. rewrite <- H2. by apply leaf_self_chain.
Qed.

Lemma NoDup_bounded (l : list Z) lo n :
  NoDup l -> (forall x, x ∈ l -> lo <= x < lo + n) -> Z.of_nat (length l) <= Z.max 0 n.
Proof.
  intros HN HB. assert (l ⊆+ seqZ lo n) as Hs%submseteq_length.
  { apply NoDup_submseteq; [done|]. intros x Hx. apply elem_of_seqZ. by apply HB. }
  rewrite length_seqZ in Hs. lia.
Qed.

(** A leaf holds at most one block of [idRadix] IDs; the first block lacks ID 0. *)
Lemma count_in_bound id ids : valid_id id -> Forall valid_id ids -> NoDup ids ->
  count_in (leaf_dir id) ids <= idRadix /\ (leaf_dir id = "1" -> count_in (leaf_dir id) ids <= idRadix - 1).
Proof.
  intros Hv HF HN. unfold count_in.
  assert (NoDup (in_leaf (leaf_dir id) ids)) as HN' by by apply NoDup_filter.
  assert (forall x, x ∈ in_leaf (leaf_dir id) ids -> valid_id x /\ x / idRadix = id / idRadix) as Hin.
  { intros x [Hx Hxi]%list_elem_of_filter. rewrite Forall_forall in HF. specialize (HF x Hxi).
    split; [done|]. by apply leaf_dir_eq. }
  split.
  - pose proof (NoDup_bounded _ (id / idRadix * idRadix) idRadix HN') as Hb. unfold idRadix in *.
    apply Hb. intros x Hx. destruct (Hin x Hx) as [_ E].
    pose proof (Z.div_mod x 1024 ltac:(done)). pose proof (Z.mod_pos_bound x 1024 ltac:(done)). lia.
  - intros E. assert (id / idRadix = 0) as Hq.
    { change (list_ascii_of_string "1") with (leaf_dir 1) in E.
      apply leaf_dir_eq in E; [done | done | done]. }
    pose proof (NoDup_bounded _ 1 (idRadix - 1) HN') as Hb. unfold idRadix in *.
    apply Hb. intros x Hx. destruct (Hin x Hx) as [[H1 _] Hx']. rewrite Hq in Hx'.
    pose proof (Z.div_mod x 1024 ltac:(done)). pose proof (Z.mod_pos_bound x 1024 ltac:(done)). lia.
Qed.

(** The chain of a path given as a string. *)
Definition path_chain (path : str) : list str := dir_chain (Split path "/"%char).

Lemma path_chain_leaf id : valid_id id -> path_chain (leaf_dir id) = chain_of id.
Proof. intros. unfold path_chain, leaf_dir. by rewrite Split_Join_plain by auto with picomx. Qed.

Definition leaf_sum (g : str -> Z) (p : str) (paths : list str) : Z :=
  foldr (fun path acc => hit p (path_chain path) (g path) + acc) 0 paths.

Lemma leaf_sum_none p paths g : (forall path, path ∈ paths -> g path = 0) -> leaf_sum g p paths = 0.
Proof.
  induction paths as [|x paths IH]; intros Hg; [done|]. cbn [leaf_sum foldr].
  fold (leaf_sum g p paths). rewrite IH by set_solver. rewrite Hg by set_solver. unfold hit. by case_decide.
Qed.

Lemma leaf_sum_add g h p paths :
  leaf_sum (fun path => g path + h path) p paths = leaf_sum g p paths + leaf_sum h p paths.
Proof.
  induction paths as [|x paths IH]; [done|]. cbn [leaf_sum foldr].
  fold (leaf_sum g p paths) (leaf_sum h p paths) (leaf_sum (fun path => g path + h path) p paths).
  rewrite IH. unfold hit. case_decide; lia.
Qed.

Lemma leaf_sum_one x n p paths : NoDup paths -> x ∈ paths ->
  leaf_sum (fun path => if decide (x = path) then n else 0) p paths = hit p (path_chain x) n.
Proof.
  intros HN. induction HN as [|y paths Hy HN IH]; [by intros ?%elem_of_nil|].
  intros Hx. cbn [leaf_sum foldr].
  fold (leaf_sum (fun path => if decide (x = path) then n else 0) p paths).
  destruct (decide (x = y)) as [->|Hne].
  - rewrite leaf_sum_none; [lia|]. intros path Hp. rewrite decide_False; [done|]. by intros ->.
  - rewrite IH by set_solver. unfold hit at 1. case_decide; lia.
Qed.

(** Summing leaf by leaf counts every ID once. *)
Lemma leaf_sum_tally ids p paths : Forall valid_id ids -> NoDup paths ->
  (forall id, id ∈ ids -> leaf_dir id ∈ paths) ->
  leaf_sum (fun path => count_in path ids) p paths = tally ids p.
Proof.
  intros HF HN. induction HF as [|id ids Hv HF IH]; intros Hin.
  { by apply leaf_sum_none. }
  cbn [tally foldr]. fold (tally ids p). rewrite <- IH by set_solver.
  rewrite <- path_chain_leaf by done. rewrite <- (leaf_sum_one (leaf_dir id) 1 p paths) by set_solver.
  rewrite <- leaf_sum_add. clear. unfold leaf_sum.
  induction paths as [|x paths IH]; [done|]. cbn [foldr]. rewrite IH. by rewrite count_in_cons.
Qed.

(** ** What the two loops of [buildDirectoryIndex] compute *)

Definition entry_ok (e : str * Z) : bool :=
  match validDirectory e.1 with
  | Err _ => false
  | Ok leaf =>
      negb (e.2 =? 0) &&
      negb (leaf && ((idRadix <? e.2) || (bool_decide (e.1 = "1") && (e.2 =? idRadix))))
  end.

Definition leaf_entry (e : str * Z) : option directoryCount :=
  match validDirectory e.1 with
  | Ok true => Some {| dc_path := e.1; dc_count := e.2; dc_accumulated := 0 |}
  | _ => None
  end.

Lemma collect_leaves_spec entries l :
  collect_leaves entries = Ok l <-> Forall (fun e => entry_ok e = true) entries /\ l = omap leaf_entry entries.
Proof.
  revert l. induction entries as [|[p n] entries IH]; intros l; [simpl; naive_solver|].
  cbn [collect_leaves omap list_omap]. rewrite Forall_cons. unfold entry_ok at 1, leaf_entry at 1. cbn [fst snd].
  destruct (validDirectory p) as [[]|]; [| |naive_solver].
  - destruct (n =? 0); [naive_solver|]. cbn [negb andb].
    destruct ((idRadix <? n) || (bool_decide (p = "1") && (n =? idRadix))); cbn [negb andb]; [naive_solver|].
    rewrite rbind_Ok. setoid_rewrite IH. naive_solver.
  - destruct (n =? 0); [naive_solver|]. cbn [negb andb]. rewrite IH. naive_solver.
Qed.

Definition sum_counts (l : list directoryCount) : Z := foldr (fun d acc => dc_count d + acc) 0 l.

Fixpoint with_totals (before : Z) (l : list directoryCount) : list directoryCount :=
  match l with
  | [] => []
  | d :: l =>
      {| dc_path := dc_path d; dc_count := dc_count d; dc_accumulated := before + dc_count d |}
      :: with_totals (before + dc_count d) l
  end.

Definition dc_sum (p : str) (l : list directoryCount) : Z :=
  foldr (fun d acc => hit p (path_chain (dc_path d)) (dc_count d) + acc) 0 l.

Definition plain_path (path : str) : Prop := exists parts, Forall plain parts /\ parts <> [] /\ path = Join parts "/".

Lemma plain_path_leaf id : valid_id id -> plain_path (leaf_dir id).
Proof. intros. exists (dir_parts id). auto with picomx. Qed.

Lemma sum_counts_nonneg l : Forall (fun d => 0 < dc_count d) l -> 0 <= sum_counts l.
Proof. induction 1; simpl; [lia|]. unfold sum_counts in *. lia. Qed.

Lemma with_totals_fields before l :
  dc_path <$> with_totals before l = dc_path <$> l /\ dc_count <$> with_totals before l = dc_count <$> l.
Proof.
  revert before. induction l as [|d l IH]; intros before; [done|]. cbn.
  destruct (IH (before + dc_count d)) as [-> ->]. done.
Qed.

Lemma with_totals_Forall (P : str -> Z -> Prop) before l :
  Forall (fun d => P (dc_path d) (dc_count d)) l ->
  Forall (fun d => P (dc_path d) (dc_count d)) (with_totals before l).
Proof. intros HF. revert before. induction HF; intros before; constructor; auto. Qed.

Lemma with_totals_idem before l : with_totals before (with_totals before l) = with_totals before l.
Proof. revert before. induction l as [|d l IH]; intros before; [done|]. cbn. by rewrite IH. Qed.

Lemma sum_counts_fields l l' : dc_count <$> l = dc_count <$> l' -> sum_counts l = sum_counts l'.
Proof.
  revert l'. induction l as [|d l IH]; intros [|d' l'] E; try done. injection E as E1 E2.
  cbn. fold (sum_counts l) (sum_counts l'). by rewrite E1, (IH l').
Qed.

Lemma accumulate_ok lastID tot expected l f :
  0 <= tot -> tot + sum_counts l <= lastID -> lastID <= MaxUint64 ->
  Forall (fun d => 0 < dc_count d /\ plain_path (dc_path d)) l ->
  stores expected f -> (forall p, 0 <= f p <= tot) ->
  exists e, accumulate lastID tot expected l = Ok (with_totals tot l, tot + sum_counts l, e)
    /\ stores e (fun p => f p + dc_sum p l).
Proof.
  intros Ht Hl HM HF. revert tot expected f Ht Hl.
  induction HF as [|d l [Hc (parts & Hpl & Hne & Hpath)] HF IH]; intros tot expected f Ht Hl HS Hf.
  { exists expected. simpl. rewrite Z.add_0_r. split; [done|].
    eapply stores_ext; [exact HS|]. intros p. simpl. lia. }
  cbn [sum_counts foldr] in Hl. fold (sum_counts l) in Hl.
  assert (0 <= sum_counts l) as Hsn by (apply sum_counts_nonneg; eapply Forall_impl; [exact HF|]; simpl; tauto).
  cbn [accumulate]. rewrite u64_small by (unfold is_u64; lia).
  rewrite (proj2 (Z.ltb_ge _ _)) by lia. rewrite u64_small by (unfold is_u64; lia).
  assert (stores (bump (dc_count d) expected (dc_path d))
            (fun p => f p + hit p (path_chain (dc_path d)) (dc_count d))) as HS1.
  { rewrite Hpath at 1. rewrite bump_chain by done. unfold path_chain. rewrite Hpath, Split_Join_plain by done.
    apply stores_bump_fold; [auto with picomx | lia | intros p; apply Hf | | exact HS].
    intros p _. specialize (Hf p). lia. }
  destruct (IH (tot + dc_count d) _ _ ltac:(lia) ltac:(lia) HS1) as (e & -> & He).
  { intros p. specialize (Hf p). unfold hit. case_decide; lia. }
  exists e. cbn [rbind sum_counts foldr with_totals]. fold (sum_counts l).
  rewrite Z.add_assoc. split; [done|]. eapply stores_ext; [exact He|]. intros p. cbn. unfold dc_sum. lia.
Qed.

(** ** Invariants of an index *)

(** Running totals, positive counts, strictly increasing paths. *)
Record index_ok (idx : directoryIndex) : Prop := {
  io_totals : leaves idx = with_totals 0 (leaves idx);
  io_pos : Forall (fun d => 0 < dc_count d) (leaves idx);
  io_total : total idx = sum_counts (leaves idx);
  io_sorted : StronglySorted (fun a b => str_lt a b = true) (dc_path <$> leaves idx);
  io_u64 : total idx <= MaxUint64;
}.

(** The index of a set of live IDs. *)
Record index_match (idx : directoryIndex) (ids : list Z) : Prop := {
  im_ok : index_ok idx;
  im_count : Forall (fun d => dc_count d = count_in (dc_path d) ids) (leaves idx);
  im_cover : forall id, id ∈ ids -> leaf_dir id ∈ dc_path <$> leaves idx;
  im_leaf : forall path, path ∈ dc_path <$> leaves idx -> exists id, id ∈ ids /\ path = leaf_dir id;
  im_total : total idx = Z.of_nat (length ids);
}.

#[export] Instance count_in_proper : Proper (eq ==> (≡ₚ) ==> eq) count_in.
Proof. intros p ? <- l l' HP. unfold count_in, in_leaf. by rewrite HP. Qed.

#[export] Instance index_match_proper idx : Proper ((≡ₚ) ==> iff) (index_match idx).
Proof.
  assert (forall l l', l ≡ₚ l' -> index_match idx l -> index_match idx l') as Himp.
  { intros l l' HP [H1 H2 H3 H4 H5]. split; [done| | | |].
    - eapply Forall_impl; [exact H2|]. intros d Hd. simpl in Hd. by rewrite <- HP.
    - intros id Hid. apply H3. by rewrite HP.
    - intros path Hp. destruct (H4 path Hp) as (id & ? & ?). exists id. by rewrite <- HP.
    - by rewrite <- HP. }
  intros l l' HP. split; by apply Himp.
Qed.

#[export] Instance dc_not_after_trans : Transitive (not_after dc_less).
Proof.
  intros x y z. unfold not_after, dc_less. intros H1 H2.
  apply not_true_iff_false. intros H3.
  destruct (str_lt (dc_path y) (dc_path z)) eqn:E.
  - pose proof (str_lt_trans _ _ _ E H3). congruence.
  - pose proof (str_lt_total _ _ E H2) as E'. rewrite <- E' in H3. congruence.
Qed.

Lemma dc_less_asym x y : dc_less x y = true -> dc_less y x = false.
Proof. apply str_lt_asym. Qed.

Lemma sorted_strict l : NoDup (dc_path <$> l) ->
  StronglySorted (fun a b => str_lt a b = true) (dc_path <$> sort_Slice dc_less l).
Proof.
  intros HN. pose proof (sort_Slice_sorted dc_less dc_less_asym _ l) as HS.
  rewrite <- (sort_Slice_perm dc_less l) in HN. induction HS as [|x k HS IH HF]; [constructor|].
  cbn [fmap list_fmap] in *. apply NoDup_cons in HN as [Hx HN]. constructor; [by apply IH|].
  apply Forall_fmap, Forall_forall. intros y Hy. cbn.
  rewrite Forall_forall in HF. specialize (HF y Hy). unfold not_after, dc_less in HF.
  destruct (str_lt (dc_path x) (dc_path y)) eqn:E; [done|].
  pose proof (str_lt_total _ _ E HF) as E'. exfalso. apply Hx. rewrite E'. by apply list_elem_of_fmap_2.
Qed.

(** ** Building the index *)

Lemma leaf_entry_Some e d : leaf_entry e = Some d ->
  validDirectory e.1 = Ok true /\ d = {| dc_path := e.1; dc_count := e.2; dc_accumulated := 0 |}.
Proof. unfold leaf_entry. repeat case_match; naive_solver. Qed.

Lemma omap_leaf_elem (entries : list (str * Z)) (d : directoryCount) : d ∈ omap leaf_entry entries <->
  exists e, e ∈ entries /\ validDirectory e.1 = Ok true
    /\ d = {| dc_path := e.1; dc_count := e.2; dc_accumulated := 0 |}.
Proof.
  rewrite list_elem_of_omap. split.
  - intros (e & He & Hd%leaf_entry_Some). naive_solver.
  - intros (e & He & Hv & ->). exists e. split; [done|]. unfold leaf_entry. by rewrite Hv.
Qed.

Lemma omap_leaf_paths (entries : list (str * Z)) : NoDup entries.*1 -> NoDup (dc_path <$> omap leaf_entry entries).
Proof.
  induction entries as [|e entries IH]; intros HN; [constructor|].
  cbn [fmap list_fmap] in HN. apply NoDup_cons in HN as [He HN]. cbn [omap list_omap].
  destruct (leaf_entry e) as [d|] eqn:E; [|by apply IH]. apply leaf_entry_Some in E as [_ ->].
  cbn [fmap list_fmap dc_path]. apply NoDup_cons. split; [|by apply IH].
  intros (d & Hd & Hin)%list_elem_of_fmap. apply omap_leaf_elem in Hin as (e' & He' & _ & ->).
  apply He. cbn in Hd. rewrite Hd. by apply list_elem_of_fmap_2.
Qed.

(** Go's map iteration order does not change the index. *)
Lemma build_order_independent entries entries' counts lastID idx :
  NoDup entries.*1 -> entries ≡ₚ entries' ->
  buildDirectoryIndex_in entries counts lastID = Ok idx ->
  buildDirectoryIndex_in entries' counts lastID = Ok idx.
Proof.
  intros HN HP. unfold buildDirectoryIndex_in. intros H. ok_inv.
  apply collect_leaves_spec in Ha as [HF ->].
  assert (collect_leaves entries' = Ok (omap leaf_entry entries')) as ->.
  { apply collect_leaves_spec. split; [by rewrite <- HP | done]. }
  cbn [rbind]. rewrite <- (sort_Slice_unique dc_less dc_less_asym _ (omap leaf_entry entries)).
  - rewrite Ha0. done.
  - intros x y Hx Hy Hxy Hyx. pose proof (str_lt_total _ _ Hxy Hyx) as E.
    apply omap_leaf_elem in Hx as ([p n] & Hx & _ & ->). apply omap_leaf_elem in Hy as ([q k] & Hy & _ & ->).
    cbn in E. subst. cbn. f_equal.
    apply list_elem_of_lookup in Hx as [i Hi]. apply list_elem_of_lookup in Hy as [j Hj].
    assert (i = j) as -> by (eapply NoDup_lookup; [exact HN|..]; rewrite list_lookup_fmap, ?Hi, ?Hj; done).
    congruence.
  - by rewrite HP.
Qed.

Lemma elem_of_tally ids p : tally ids p <> 0 -> exists id, id ∈ ids /\ p ∈ chain_of id.
Proof.
  induction ids as [|id ids IH]; [done|]. cbn [tally foldr]. fold (tally ids p). unfold hit.
  case_decide as E; [set_solver|]. rewrite Z.add_0_l. intros H. destruct (IH H) as (x & ? & ?). set_solver.
Qed.

Lemma tally_pos ids p id : id ∈ ids -> p ∈ chain_of id -> 0 < tally ids p.
Proof.
  induction ids as [|x ids IH]; [by intros ?%elem_of_nil|].
  intros Hin Hp. cbn [tally foldr]. fold (tally ids p). pose proof (tally_range ids p).
  apply elem_of_cons in Hin as [->|Hin].
  - unfold hit. rewrite decide_True by done. lia.
  - specialize (IH Hin Hp). pose proof (hit_range p (chain_of x)). lia.
Qed.

Section BuildOk.
Context (counts : directoryCounts) (ids : list Z) (lastID : Z).
Context (Hmatch : counts_match counts ids) (HN : NoDup ids).
Context (Hvalid : Forall (fun id => 1 <= id <= lastID) ids) (HM : lastID <= MaxUint64).

Lemma live_valid : Forall valid_id ids.
Proof using Hvalid HM. eapply Forall_impl; [exact Hvalid|]. unfold valid_id. simpl. lia. Qed.

Lemma live_length : Z.of_nat (length ids) <= Z.max 0 lastID.
Proof using Hvalid HN.
  apply (NoDup_bounded ids 1 lastID HN). intros x Hx. rewrite Forall_forall in Hvalid.
  specialize (Hvalid x Hx). simpl in Hvalid. lia.
Qed.

(** Every recorded directory is an ancestor of a live leaf, with its tally. *)
Lemma entry_of_live p n : (p, n) ∈ map_to_list counts ->
  exists id k, id ∈ ids /\ valid_id id /\ (1 <= k <= length (dir_parts id))%nat
    /\ p = Join (take k (dir_parts id)) "/" /\ n = tally ids p /\ 0 < n.
Proof using Hmatch Hvalid HM.
  intros He%elem_of_map_to_list. rewrite Hmatch in He.
  destruct (Z.eqb_spec (tally ids p) 0); [done|]. injection He as <-.
  destruct (elem_of_tally ids p) as (id & Hid & (k & Hk & ->)%elem_of_dir_chain); [done|].
  pose proof live_valid as Hv. rewrite Forall_forall in Hv. specialize (Hv id Hid).
  pose proof (tally_range ids (Join (take k (dir_parts id)) "/")).
  exists id, k. split_and!; auto; lia.
Qed.

Lemma valid_leaf_path id k : valid_id id -> (1 <= k <= length (dir_parts id))%nat ->
  validDirectory (Join (take k (dir_parts id)) "/") = Ok true ->
  Join (take k (dir_parts id)) "/" = leaf_dir id.
Proof.
  intros Hv Hk. rewrite validDirectory_prefix by done. intros [= E%Z.eqb_eq].
  pose proof (dir_parts_length id Hv). unfold leaf_dir. rewrite take_ge by lia. done.
Qed.

Lemma entries_ok : Forall (fun e => entry_ok e = true) (map_to_list counts).
Proof using Hmatch HN Hvalid HM.
  apply Forall_forall. intros [p n] He.
  destruct (entry_of_live p n He) as (id & k & Hid & Hv & Hk & Hp & Hn & Hpos).
  unfold entry_ok. cbn [fst snd]. rewrite (proj2 (Z.eqb_neq n 0)) by lia.
  destruct (validDirectory p) as [leaf|] eqn:E; [|by rewrite Hp, validDirectory_prefix in E].
  destruct leaf; [|done]. cbn [negb andb].
  assert (p = leaf_dir id) as Hpl.
  { rewrite Hp in E. rewrite Hp. by apply valid_leaf_path. }
  destruct (count_in_bound id ids Hv live_valid HN) as [Hb1 Hb2].
  rewrite <- tally_leaf, <- Hpl, <- Hn in Hb1, Hb2 by (done || apply live_valid).
  rewrite (proj2 (Z.ltb_ge _ _)) by lia. cbn [orb]. case_bool_decide as E1; [|done].
  specialize (Hb2 E1). by rewrite (proj2 (Z.eqb_neq _ _)) by lia.
Qed.

Definition found_leaves : list directoryCount := sort_Slice dc_less (omap leaf_entry (map_to_list counts)).

Lemma found_leaf d : d ∈ found_leaves ->
  exists id, id ∈ ids /\ valid_id id /\ dc_path d = leaf_dir id /\ dc_count d = count_in (dc_path d) ids
    /\ 0 < dc_count d.
Proof using Hmatch Hvalid HM.
  unfold found_leaves. rewrite sort_Slice_perm. intros ([p n] & He & Hleaf & ->)%omap_leaf_elem.
  cbn in *. destruct (entry_of_live p n He) as (id & k & Hid & Hv & Hk & Hp & Hn & Hpos).
  assert (p = leaf_dir id) as Hpl by (rewrite Hp in *; by apply valid_leaf_path).
  exists id. split_and!; try done. rewrite Hn, Hpl. apply tally_leaf; [done | apply live_valid].
Qed.

Lemma found_cover id : id ∈ ids -> leaf_dir id ∈ dc_path <$> found_leaves.
Proof using Hmatch Hvalid HM.
  intros Hid. pose proof live_valid as Hv. rewrite Forall_forall in Hv. specialize (Hv id Hid).
  unfold found_leaves. rewrite sort_Slice_perm. apply list_elem_of_fmap.
  exists {| dc_path := leaf_dir id; dc_count := tally ids (leaf_dir id); dc_accumulated := 0 |}.
  split; [done|]. apply omap_leaf_elem. exists (leaf_dir id, tally ids (leaf_dir id)). split_and!; [|by apply validDirectory_leaf|done].
  apply elem_of_map_to_list. rewrite Hmatch.
  pose proof (tally_pos ids (leaf_dir id) id Hid (leaf_self_chain id Hv)).
  by rewrite (proj2 (Z.eqb_neq _ _)) by lia.
Qed.

Lemma found_sorted : StronglySorted (fun a b => str_lt a b = true) (dc_path <$> found_leaves).
Proof using. apply sorted_strict, omap_leaf_paths, NoDup_fst_map_to_list. Qed.

Lemma found_NoDup : NoDup (dc_path <$> found_leaves).
Proof using.
  unfold found_leaves. rewrite sort_Slice_perm. apply omap_leaf_paths, NoDup_fst_map_to_list.
Qed.

Lemma found_tally p : dc_sum p found_leaves = tally ids p.
Proof using Hmatch HN Hvalid HM.
  rewrite <- (leaf_sum_tally ids p (dc_path <$> found_leaves) live_valid found_NoDup found_cover).
  assert (Forall (fun d => dc_count d = count_in (dc_path d) ids) found_leaves) as HF.
  { apply Forall_forall. intros d (id & _ & _ & _ & E & _)%found_leaf. done. }
  induction HF as [|d l Hd HF IH]; [done|]. cbn. unfold dc_sum, leaf_sum in *. by rewrite IH, Hd.
Qed.
End BuildOk.

Lemma index_match_of_found counts ids lastID :
  counts_match counts ids -> NoDup ids -> Forall (fun id => 1 <= id <= lastID) ids -> lastID <= MaxUint64 ->
  sum_counts (found_leaves counts) = Z.of_nat (length ids) ->
  index_match {| leaves := with_totals 0 (found_leaves counts); total := sum_counts (found_leaves counts) |} ids.
Proof.
  intros Hm HN Hv HM Hsum. pose proof (with_totals_fields 0 (found_leaves counts)) as [Ep Ec].
  pose proof (live_length ids lastID HN Hv) as Hl.
  assert (Forall (fun d => 0 < dc_count d) (found_leaves counts)) as Hpos.
  { apply Forall_forall. intros d Hd. by destruct (found_leaf counts ids lastID Hm Hv HM d Hd) as (? & ? & ? & ? & ? & ?). }
  split; cbn [leaves total].
  - split; cbn [leaves total].
    + by rewrite with_totals_idem.
    + by apply (with_totals_Forall (fun _ n => 0 < n)).
    + by apply sum_counts_fields.
    + rewrite Ep. apply found_sorted.
    + unfold MaxUint64 in *. lia.
  - apply (with_totals_Forall (fun path n => n = count_in path ids)), Forall_forall. intros d Hd.
    by destruct (found_leaf counts ids lastID Hm Hv HM d Hd) as (? & ? & ? & ? & ? & ?).
  - intros id Hid. rewrite Ep. by eapply found_cover.
  - intros path. rewrite Ep. intros (d & -> & Hd)%list_elem_of_fmap.
    destruct (found_leaf counts ids lastID Hm Hv HM d Hd) as (id & ? & ? & ? & ?). eauto.
  - done.
Qed.

(** Counting leaf by leaf gives the number of live IDs. *)
Lemma found_total counts ids lastID :
  counts_match counts ids -> NoDup ids -> Forall (fun id => 1 <= id <= lastID) ids -> lastID <= MaxUint64 ->
  sum_counts (found_leaves counts) = Z.of_nat (length ids).
Proof.
  intros Hm HN Hv HM.
  assert (forall paths, NoDup paths -> (forall id, id ∈ ids -> leaf_dir id ∈ paths) ->
    foldr (fun path acc => count_in path ids + acc) 0 paths = Z.of_nat (length ids)) as Hgroup.
  { clear. intros paths HN. induction ids as [|id ids IH]; intros Hin.
    { clear. induction paths; simpl; [done|]. done. }
    cbn [length]. rewrite Nat2Z.inj_succ, <- IH by set_solver.
    specialize (Hin id ltac:(set_solver)). clear IH.
    induction HN as [|x paths Hx HN IH]; [by apply elem_of_nil in Hin|]. cbn [foldr].
    rewrite count_in_cons. destruct (decide (leaf_dir id = x)) as [<-|Hne].
    - assert (foldr (fun path acc => count_in path (id :: ids) + acc) 0 paths
              = foldr (fun path acc => count_in path ids + acc) 0 paths) as ->; [|lia].
      clear -Hx. induction paths as [|y paths IH]; [done|]. cbn [foldr].
      rewrite count_in_cons, decide_False by set_solver. rewrite IH by set_solver. done.
    - rewrite IH by set_solver. lia. }
  rewrite <- (Hgroup (dc_path <$> found_leaves counts)).
  - assert (Forall (fun d => dc_count d = count_in (dc_path d) ids) (found_leaves counts)) as HF.
    { apply Forall_forall. intros d Hd.
      by destruct (found_leaf counts ids lastID Hm Hv HM d Hd) as (? & ? & ? & ? & ? & ?). }
    induction HF as [|d l Hd HF IH]; [done|]. cbn. unfold sum_counts in *. by rewrite IH, Hd.
  - apply found_NoDup.
  - intros id Hid. by eapply found_cover.
Qed.

(** The counts of a set of live IDs build the index of that set. *)
Lemma build_ok counts ids lastID :
  counts_match counts ids -> NoDup ids -> Forall (fun id => 1 <= id <= lastID) ids -> 0 <= lastID <= MaxUint64 ->
  exists idx, buildDirectoryIndex counts lastID = Ok idx /\ index_match idx ids.
Proof.
  intros Hm HN Hv HM. pose proof (live_length ids lastID HN Hv) as Hl.
  pose proof (found_total counts ids lastID Hm HN Hv ltac:(lia)) as Hsum.
  eexists. split; [|by eapply (index_match_of_found counts ids lastID); eauto; lia].
  unfold buildDirectoryIndex, buildDirectoryIndex_in.
  rewrite (proj2 (collect_leaves_spec (map_to_list counts) (omap leaf_entry (map_to_list counts))));
    [|split; [eapply (entries_ok counts ids lastID); eauto; lia | done]].
  cbn [rbind]. fold (found_leaves counts).
  destruct (accumulate_ok lastID 0 ∅ (found_leaves counts) (fun _ => 0)) as (e & -> & He);
    [lia | lia | lia | | intros p; done | lia |].
  { apply Forall_forall. intros d Hd.
    destruct (found_leaf counts ids lastID Hm Hv ltac:(lia) d Hd) as (id & _ & Hvid & E & _ & ?).
    split; [done|]. rewrite E. by apply plain_path_leaf. }
  assert (e = counts) as ->.
  { eapply stores_unique; [exact He|]. eapply stores_ext; [exact Hm|]. intros p.
    rewrite (found_tally counts ids lastID) by (done || lia). lia. }
  cbn [rbind]. rewrite Nat.eqb_refl. cbn [negb].
  assert (forallb (fun x => default 0 (counts !! x.1) =? x.2) (map_to_list counts) = true) as ->; [|done].
  apply forallb_forall. intros [p n] Hin%list_elem_of_In%elem_of_map_to_list. cbn. rewrite Hin. apply Z.eqb_refl.
Qed.

(** ** Selecting a leaf by message number *)

Lemma with_totals_lookup before l i d :
  with_totals before l !! i = Some d ->
  dc_accumulated d = before + sum_counts (take i l) + dc_count d
  /\ dc_accumulated d = before + sum_counts (take (S i) l).
Proof.
  revert before i. induction l as [|x l IH]; intros before [|i]; cbn [with_totals]; try done.
  - intros [= <-]. unfold sum_counts. simpl. lia.
  - intros H. apply IH in H as [H1 H2]. change (with_totals _ l !! i) with (with_totals (before + dc_count x) l !! i) in *.
    cbn [take sum_counts foldr]. fold (sum_counts (take i l)) (sum_counts (take (S i) l)). lia.
Qed.

Lemma index_lookup idx i d : index_ok idx -> leaves idx !! i = Some d ->
  dc_accumulated d = sum_counts (take i (leaves idx)) + dc_count d
  /\ dc_accumulated d = sum_counts (take (S i) (leaves idx)) /\ 0 < dc_count d.
Proof.
  intros Hok Hi. assert (leaves idx !! i = Some d) as Hi' by done.
  rewrite (io_totals _ Hok) in Hi. apply with_totals_lookup in Hi as [H1 H2].
  pose proof (io_pos _ Hok) as Hpos. rewrite Forall_forall in Hpos.
  specialize (Hpos d (list_elem_of_lookup_2 _ _ _ Hi')). lia.
Qed.

Lemma sum_counts_take_mono l i j : Forall (fun d => 0 < dc_count d) l -> (i <= j)%nat ->
  0 <= sum_counts (take i l) <= sum_counts (take j l) /\ sum_counts (take j l) <= sum_counts l.
Proof.
  intros HF. revert i j. induction HF as [|d l Hd HF IH]; intros i j Hij.
  { rewrite !take_nil. cbn. lia. }
  destruct j as [|j]; [assert (i = 0)%nat as -> by lia; cbn; pose proof (sum_counts_nonneg l HF); unfold sum_counts in *; lia|].
  destruct i as [|i]; cbn [take sum_counts foldr]; fold (sum_counts l) (sum_counts (take j l)).
  - specialize (IH 0%nat j ltac:(lia)). cbn in IH. lia.
  - fold (sum_counts (take i l)). specialize (IH i j ltac:(lia)). lia.
Qed.

Lemma selectLeaf_spec idx number : index_ok idx -> 1 <= number <= total idx ->
  exists i leaf offset,
    selectLeaf (Some idx) number = Ok (Some (leaf, offset))
    /\ leaves idx !! i = Some leaf /\ 0 <= offset < dc_count leaf
    /\ number = sum_counts (take i (leaves idx)) + offset + 1.
Proof.
  intros Hok Hn. unfold selectLeaf.
  rewrite (proj2 (Z.eqb_neq number 0)), (proj2 (Z.ltb_ge (total idx) number)) by lia. cbn [orb].
  set (f := fun i => match leaves idx !! i with Some d => number <=? dc_accumulated d | None => false end).
  destruct (sort_Search_spec (length (leaves idx)) f) as (Hle & Hlo & Hhi).
  { intros i j Hij. unfold f. destruct (leaves idx !! i) as [d|] eqn:Ei; [|done].
    destruct (lookup_lt_is_Some_2 (leaves idx) j) as [d' Ej]; [lia|]. rewrite Ej.
    apply index_lookup in Ei as (_ & Ei & _); [|done]. apply index_lookup in Ej as (_ & Ej & _); [|done].
    rewrite !Z.leb_le. destruct (sum_counts_take_mono (leaves idx) (S i) (S j) (io_pos _ Hok)); lia. }
  set (pos := sort_Search (length (leaves idx)) f) in *.
  assert (pos < length (leaves idx))%nat as Hlt.
  { destruct (decide (pos < length (leaves idx))%nat); [done|]. exfalso.
    assert (pos = length (leaves idx)) as E by lia. rewrite E in Hlo.
    destruct (length (leaves idx)) as [|m] eqn:El.
    { apply nil_length_inv in El. rewrite (io_total _ Hok), El in Hn. cbn in Hn. lia. }
    specialize (Hlo m ltac:(lia)). unfold f in Hlo.
    destruct (lookup_lt_is_Some_2 (leaves idx) m) as [d Ed]; [lia|]. rewrite Ed in Hlo.
    apply index_lookup in Ed as (_ & Ed & _); [|done]. rewrite take_ge in Ed by lia.
    rewrite (io_total _ Hok) in Hn. apply Z.leb_gt in Hlo. lia. }
  destruct (lookup_lt_is_Some_2 (leaves idx) pos Hlt) as [leaf Hleaf]. rewrite Hleaf.
  pose proof (Hhi pos ltac:(lia)) as Hf. unfold f in Hf. rewrite Hleaf in Hf. apply Z.leb_le in Hf.
  destruct (index_lookup idx pos leaf Hok Hleaf) as (H1 & H2 & H3).
  destruct (sum_counts_take_mono (leaves idx) pos (S pos) (io_pos _ Hok)) as [Hs1 Hs2]; [lia|].
  assert (sum_counts (take pos (leaves idx)) < number) as Hbefore.
  { destruct pos as [|m] eqn:Ep; [unfold sum_counts; simpl; lia|]. specialize (Hlo m ltac:(lia)). unfold f in Hlo.
    destruct (lookup_lt_is_Some_2 (leaves idx) m) as [d Ed]; [lia|]. rewrite Ed in Hlo.
    apply index_lookup in Ed as (_ & Ed & _); [|done]. apply Z.leb_gt in Hlo. lia. }
  pose proof (io_u64 _ Hok) as HU. pose proof (io_total _ Hok) as HT.
  exists pos, leaf, (number - sum_counts (take pos (leaves idx)) - 1).
  rewrite (u64_small (dc_accumulated leaf - dc_count leaf)) by (unfold is_u64; lia).
  rewrite H1. replace (sum_counts (take pos (leaves idx)) + dc_count leaf - dc_count leaf)
    with (sum_counts (take pos (leaves idx))) by lia.
  rewrite (u64_small (number - _)) by (unfold is_u64; lia).
  rewrite u64_small by (unfold is_u64; lia).
  split_and!; [done | done | lia | lia | lia].
Qed.
