(* ===== verification/Numbering.v ===== *)
(** * Message numbers (directories.go, mailbox.go)

    POP3 numbers the live messages 1, 2, ... in the order of their archive IDs.
    The program never materialises that list: it selects a leaf directory by
    running totals and an offset inside it.  This file relates the two. *)

From S2P Require Import Prelude GoStrings IdPath Directories.

(** The live IDs in increasing order. *)
Definition sort_ids (ids : list Z) : list Z := sort_Slice Z.ltb ids.

(** ** Sorted lists of IDs *)

Lemma ltb_not_after x y : not_after Z.ltb x y <-> x <= y.
Proof. unfold not_after. rewrite Z.ltb_ge. done. Qed.

#[export] Instance ltb_not_after_trans : Transitive (not_after Z.ltb).
Proof. intros x y z. rewrite !ltb_not_after. lia. Qed.

Lemma ltb_asym x y : (x <? y) = true -> (y <? x) = false.
Proof. rewrite Z.ltb_lt, Z.ltb_ge. lia. Qed.

Lemma sort_ids_perm ids : sort_ids ids ≡ₚ ids.
Proof. apply sort_Slice_perm. Qed.

Lemma elem_of_sort_ids id ids : id ∈ sort_ids ids <-> id ∈ ids.
Proof. by rewrite sort_ids_perm. Qed.

Lemma sort_ids_sorted ids : NoDup ids -> StronglySorted Z.lt (sort_ids ids).
Proof.
  intros HN. assert (NoDup (sort_ids ids)) as HN' by (by rewrite sort_ids_perm).
  assert (StronglySorted (not_after Z.ltb) (sort_ids ids)) as HS
    by (apply sort_Slice_sorted; [apply ltb_asym | apply _]).
  revert HN' HS. generalize (sort_ids ids) as l. clear. induction l as [|x l IH]; [constructor|].
  intros [Hx HN]%NoDup_cons [HF HS]%StronglySorted_cons. constructor; [by apply IH|].
  rewrite Forall_forall in *. intros y Hy. specialize (HF y Hy). rewrite ltb_not_after in HF.
  assert (x <> y) by (by intros ->). lia.
Qed.

#[export] Instance lt_antisymm : AntiSymm (=) Z.lt.
Proof. intros x y ??. lia. Qed.

Lemma sorted_lt_NoDup (l : list Z) : StronglySorted Z.lt l -> NoDup l.
Proof.
  induction 1 as [|x l HS IH HF]; constructor; [|done]. intros Hx.
  rewrite Forall_forall in HF. specialize (HF x Hx). lia.
Qed.

(** Strictly increasing lists with the same elements are equal. *)
Lemma sorted_same_elements (l l' : list Z) :
  StronglySorted Z.lt l -> StronglySorted Z.lt l' -> (forall x, x ∈ l <-> x ∈ l') -> l = l'.
Proof.
  intros HS HS' E. eapply StronglySorted_unique; [apply _ | exact HS | exact HS' |].
  apply NoDup_Permutation; [by apply sorted_lt_NoDup.. | done].
Qed.

(** ** The listing is the concatenation of the leaf listings *)

Definition leaf_ids (ids : list Z) (leaf : directoryCount) : list Z := sort_ids (in_leaf (dc_path leaf) ids).

Lemma elem_of_leaf_ids id ids leaf : id ∈ leaf_ids ids leaf <-> id ∈ ids /\ leaf_dir id = dc_path leaf.
Proof. unfold leaf_ids, in_leaf. rewrite elem_of_sort_ids, list_elem_of_filter. tauto. Qed.

Lemma NoDup_in_leaf path (ids : list Z) : NoDup ids -> NoDup (in_leaf path ids).
Proof. apply NoDup_filter. Qed.

Lemma leaf_ids_length idx ids leaf : index_match idx ids -> leaf ∈ leaves idx ->
  Z.of_nat (length (leaf_ids ids leaf)) = dc_count leaf.
Proof.
  intros Hm Hin. pose proof (im_count _ _ Hm) as HF. rewrite Forall_forall in HF.
  rewrite (HF leaf Hin). unfold count_in, leaf_ids. by rewrite sort_ids_perm.
Qed.

Lemma blocks_sorted ids (l : list directoryCount) :
  NoDup ids -> Forall valid_id ids ->
  StronglySorted (fun a b => str_lt a b = true) (dc_path <$> l) ->
  StronglySorted Z.lt (mjoin (leaf_ids ids <$> l)).
Proof.
  intros HN HV. induction l as [|d l IH]; [constructor|]. cbn [fmap list_fmap].
  intros [HF HS]%StronglySorted_cons. cbn [mjoin list_join foldr]. apply StronglySorted_app_2.
  - intros x y Hx Hy. apply elem_of_leaf_ids in Hx as [Hx Ex].
    apply list_elem_of_join in Hy as (b & Hy & (d' & -> & Hd')%list_elem_of_fmap).
    apply elem_of_leaf_ids in Hy as [Hy Ey].
    rewrite Forall_forall in HF. rewrite Forall_forall in HV. specialize (HF (dc_path d') (list_elem_of_fmap_2 _ _ _ Hd')).
    rewrite <- Ex, <- Ey in HF. apply leaf_dir_order in HF; [|by apply HV..].
    unfold idRadix in HF. pose proof (Z.div_le_mono y x 1024 eq_refl). lia.
  - apply sort_ids_sorted. by apply NoDup_in_leaf.
  - by apply IH.
Qed.

Lemma listing_by_leaf idx ids : index_match idx ids -> NoDup ids -> Forall valid_id ids ->
  mjoin (leaf_ids ids <$> leaves idx) = sort_ids ids.
Proof.
  intros Hm HN HV. apply sorted_same_elements.
  - apply blocks_sorted; [done | done | apply (io_sorted _ (im_ok _ _ Hm))].
  - by apply sort_ids_sorted.
  - intros id. rewrite elem_of_sort_ids, list_elem_of_join. split.
    + intros (b & Hb & (d & -> & Hd)%list_elem_of_fmap). by apply elem_of_leaf_ids in Hb as [? _].
    + intros Hid. apply (im_cover _ _ Hm) in Hid as Hc. apply list_elem_of_fmap in Hc as (d & E & Hd).
      exists (leaf_ids ids d). split; [by apply elem_of_leaf_ids | by apply list_elem_of_fmap_2].
Qed.

(** Position [offset] of block [i] of a concatenation. *)
Lemma lookup_block {A B} (g : A -> list B) (l : list A) i x (offset : nat) :
  l !! i = Some x -> (offset < length (g x))%nat ->
  mjoin (g <$> l) !! (length (mjoin (g <$> take i l)) + offset)%nat = g x !! offset.
Proof.
  intros Hi Ho.
  assert (mjoin (g <$> l) = mjoin (g <$> take i l) ++ g x ++ mjoin (g <$> drop (S i) l)) as ->.
  { rewrite <- (take_drop_middle l i x Hi) at 1. by rewrite (fmap_app g), join_app. }
  rewrite lookup_app_r by lia. replace (_ + offset - _)%nat with offset by lia. by rewrite lookup_app_l.
Qed.

Lemma blocks_length idx ids i : index_match idx ids ->
  Z.of_nat (length (mjoin (leaf_ids ids <$> take i (leaves idx)))) = sum_counts (take i (leaves idx)).
Proof.
  intros Hm. assert (forall d, d ∈ take i (leaves idx) -> d ∈ leaves idx) as Hsub by (intros d (? & ? & _)%elem_of_take; by eapply list_elem_of_lookup_2).
  revert Hsub. generalize (take i (leaves idx)) as l. induction l as [|d l IH]; intros Hsub; [done|].
  cbn [fmap list_fmap mjoin list_join foldr sum_counts]. rewrite length_app, Nat2Z.inj_add.
  rewrite (leaf_ids_length idx ids d Hm) by (apply Hsub; set_solver).
  fold (sum_counts l). rewrite <- IH by (intros; apply Hsub; set_solver). done.
Qed.

(** [selectLeaf] finds the message with that number. *)
Lemma selectLeaf_number idx ids number : index_match idx ids -> NoDup ids -> Forall valid_id ids ->
  1 <= number <= Z.of_nat (length ids) ->
  exists leaf offset id, selectLeaf (Some idx) number = Ok (Some (leaf, offset))
    /\ leaf ∈ leaves idx /\ 0 <= offset
    /\ leaf_ids ids leaf !! Z.to_nat offset = Some id
    /\ sort_ids ids !! Z.to_nat (number - 1) = Some id.
Proof.
  intros Hm HN HV Hn. destruct (selectLeaf_spec idx number) as (i & leaf & offset & Hs & Hi & Ho & E);
    [apply (im_ok _ _ Hm) | by rewrite (im_total _ _ Hm)|].
  assert (leaf ∈ leaves idx) as Hin by (by eapply list_elem_of_lookup_2).
  pose proof (leaf_ids_length idx ids leaf Hm Hin) as Hl.
  destruct (lookup_lt_is_Some_2 (leaf_ids ids leaf) (Z.to_nat offset)) as [id Hid]; [lia|].
  exists leaf, offset, id. split_and!; [done | done | lia | done |].
  rewrite <- (listing_by_leaf idx ids), <- Hid by done.
  rewrite <- (lookup_block (leaf_ids ids) (leaves idx) i leaf (Z.to_nat offset) Hi) by lia.
  f_equal. pose proof (blocks_length idx ids i Hm). lia.
Qed.

Lemma selectLeaf_out_of_range idx ids number : index_match idx ids -> 0 <= number ->
  ~ (1 <= number <= Z.of_nat (length ids)) -> selectLeaf (Some idx) number = Ok None.
Proof.
  intros Hm H0 Hn. unfold selectLeaf. rewrite (im_total _ _ Hm).
  destruct (Z.eqb_spec number 0); [done|]. by rewrite (proj2 (Z.ltb_lt _ _)) by lia.
Qed.

(** [messageByID]'s search finds the leaf of an ID if it has live messages. *)
Definition find_leaf (leaves : list directoryCount) (path : str) : nat :=
  sort_Search (length leaves) (fun i => match leaves !! i with Some d => negb (str_lt (dc_path d) path) | None => false end).

Lemma find_leaf_spec idx path : index_ok idx ->
  (forall d, leaves idx !! find_leaf (leaves idx) path = Some d -> dc_path d = path \/ path ∉ dc_path <$> leaves idx)
  /\ (leaves idx !! find_leaf (leaves idx) path = None -> path ∉ dc_path <$> leaves idx).
Proof.
  intros Hok. unfold find_leaf.
  set (f := fun i => match leaves idx !! i with Some d => negb (str_lt (dc_path d) path) | None => false end).
  assert (forall i j d d', (i < j)%nat -> leaves idx !! i = Some d -> leaves idx !! j = Some d' ->
    str_lt (dc_path d) (dc_path d') = true) as Hord.
  { intros i j d d' Hij Hi Hj. pose proof (io_sorted _ Hok) as HS.
    rewrite <- (take_drop j (leaves idx)), fmap_app in HS.
    eapply (StronglySorted_app_1_elem_of (fun a b => str_lt a b = true)); [exact HS| |].
    - apply list_elem_of_fmap_2, (list_elem_of_lookup_2 _ i). by rewrite lookup_take_lt.
    - apply list_elem_of_fmap_2, (list_elem_of_lookup_2 _ 0%nat). by rewrite lookup_drop, Nat.add_0_r. }
  destruct (sort_Search_spec (length (leaves idx)) f) as (Hle & Hlo & Hhi).
  { intros i j Hij. unfold f. destruct (decide (i = j)) as [->|Hne]; [done|].
    destruct (leaves idx !! i) as [d|] eqn:Ei; [|done].
    destruct (lookup_lt_is_Some_2 (leaves idx) j) as [d' Ej]; [lia|]. rewrite Ej.
    rewrite !negb_true_iff. intros Hi. apply not_true_iff_false. intros Hj.
    assert (str_lt (dc_path d) path = true); [|congruence].
    eapply str_lt_trans; [|exact Hj]. apply (Hord i j); [lia | done | done]. }
  set (pos := sort_Search (length (leaves idx)) f) in *. fold f. fold pos.
  assert (forall j d, (j < pos)%nat -> leaves idx !! j = Some d -> dc_path d <> path) as Hbefore.
  { intros j d Hj Hd E. specialize (Hlo j Hj). unfold f in Hlo. rewrite Hd, E, str_lt_irrefl in Hlo. done. }
  split.
  - intros d Hd. destruct (decide (dc_path d = path)) as [|Hne]; [by left|]. right.
    assert (pos < length (leaves idx))%nat as Hlt by (by eapply lookup_lt_Some).
    specialize (Hhi pos ltac:(lia)). unfold f in Hhi. rewrite Hd in Hhi. apply negb_true_iff in Hhi.
    intros (d' & E & (j & Hj)%list_elem_of_lookup)%list_elem_of_fmap. subst.
    destruct (Nat.lt_trichotomy j pos) as [?|[->|?]].
    + by apply (Hbefore j d').
    + rewrite Hj in Hd. by injection Hd as ->.
    + rewrite (Hord pos j d d') in Hhi; done.
  - intros Hn (d' & E & (j & Hj)%list_elem_of_lookup)%list_elem_of_fmap.
    apply lookup_ge_None in Hn. apply lookup_lt_Some in Hj as ?. by apply (Hbefore j d'); [lia | done |].
Qed.

(** ** Properties *)

(** The counts of a set of live IDs, as publishing builds them. *)
Definition counts_of (ids : list Z) : directoryCounts :=
  foldr (fun id counts => counts_add counts (ToSlash (leaf_dir id))) ∅ ids.

Lemma counts_of_match ids : Forall valid_id ids -> Z.of_nat (length ids) <= MaxUint64 -> counts_match (counts_of ids) ids.
Proof.
  induction 1 as [|id ids Hv HF IH]; intros Hl; [apply counts_match_empty|].
  cbn [counts_of foldr]. cbn [length] in Hl. apply counts_match_add; [done | lia | apply IH; lia].
Qed.

(** POP3 numbering.  For any set of live IDs, the index built from the
    directory counts selects for message number k the leaf of the k-th smallest
    live ID and that ID's position in the leaf; every other number selects
    nothing, and the index total is the number of live messages. *)
Theorem numbers_follow_ids ids lastID :
  NoDup ids -> Forall (fun id => 1 <= id <= lastID) ids -> 0 <= lastID <= MaxUint64 ->
  exists index, buildDirectoryIndex (counts_of ids) lastID = Ok index
    /\ total index = Z.of_nat (length ids)
    /\ (forall number, 1 <= number <= Z.of_nat (length ids) ->
        exists leaf offset id, selectLeaf (Some index) number = Ok (Some (leaf, offset))
          /\ sort_ids ids !! Z.to_nat (number - 1) = Some id /\ dc_path leaf = leaf_dir id
          /\ 0 <= offset /\ leaf_ids ids leaf !! Z.to_nat offset = Some id)
    /\ (forall number, 0 <= number -> ~ (1 <= number <= Z.of_nat (length ids)) -> selectLeaf (Some index) number = Ok None).
Proof.
  intros HN HF HM. pose proof (live_length ids lastID HN HF) as Hl.
  assert (Forall valid_id ids) as HV by (eapply Forall_impl; [exact HF|]; unfold valid_id; simpl; lia).
  destruct (build_ok (counts_of ids) ids lastID) as (index & Hb & Hm); [apply counts_of_match; [done | lia] | done..|].
  exists index. split; [done|]. split; [apply Hm|]. split.
  - intros number Hn. destruct (selectLeaf_number index ids number Hm HN HV Hn) as (leaf & offset & id & ? & Hin & ? & Hid & ?).
    exists leaf, offset, id. split_and!; try done.
    apply list_elem_of_lookup_2, elem_of_leaf_ids in Hid as [_ E]. done.
  - intros number. by apply selectLeaf_out_of_range.
Qed.

Lemma numbers_follow_ids_witness :
  exists index, buildDirectoryIndex (counts_of [5; 1030; 2]) 2000 = Ok index /\ total index = 3.
Proof.
  destruct (numbers_follow_ids [5; 1030; 2] 2000) as (index & H1 & H2 & _).
  - apply (bool_decide_unpack _). by vm_compute.
  - repeat constructor; lia.
  - unfold MaxUint64. lia.
  - exists index. split; [exact H1 | exact H2].
Defined.

(** the index does not depend on the order in which Go happens to iterate
    over the counts map. *)
Theorem index_ignores_map_order entries counts lastID index :
  entries ≡ₚ map_to_list counts ->
  buildDirectoryIndex_in entries counts lastID = Ok index <-> buildDirectoryIndex counts lastID = Ok index.
Proof.
  intros HP. assert (NoDup entries.*1) as HN by (rewrite HP; apply NoDup_fst_map_to_list).
  split; apply build_order_independent; try done. apply NoDup_fst_map_to_list.
Qed.

Lemma index_ignores_map_order_witness :
  buildDirectoryIndex_in (reverse (map_to_list (counts_of [1; 1024]))) (counts_of [1; 1024]) 1024
  = Ok {| leaves := [{| dc_path := "1"; dc_count := 1; dc_accumulated := 1 |};
                     {| dc_path := "2/001"; dc_count := 1; dc_accumulated := 2 |}]; total := 2 |}.
Proof. apply index_ignores_map_order; [apply reverse_Permutation | by vm_compute]. Defined.
