(* ===== verification/Cache.v ===== *)
(** * The directory cache (internal/archive/cache.go)

    A least-recently-used map from (path, tree object) to a parsed directory.
    The source keeps a Go map of pointers into a [container/list]; the model
    keeps the pointers, so the invariant states that the two structures agree,
    and a refinement theorem relates them to a plain association list. *)

From S2P Require Import Prelude GoStrings IdPath.

(** ** Data *)

Definition directoryCacheCapacity : nat := 64.

Record directoryKey := { dk_path : str; dk_tree : str }.

#[export] Instance directoryKey_eq_dec : EqDecision directoryKey.
Proof. solve_decision. Defined.
#[export] Instance directoryKey_countable : Countable directoryKey.
Proof.
  apply (inj_countable' (fun k => (dk_path k, dk_tree k)) (fun p => {| dk_path := p.1; dk_tree := p.2 |})).
  by intros [].
Defined.

Record cachedDirectory := { cd_key : directoryKey; cd_messages : list Message }.

(** [*list.Element] values are numbered; [recency] is the list, front first. *)
Abbreviation element := nat.

Record directoryCache := {
  capacity : nat;
  entries : gmap directoryKey element;
  recency : list (element * cachedDirectory);
  next_element : element;
}.

(** ** container/list *)

Definition Value (l : list (element * cachedDirectory)) (e : element) : option cachedDirectory := assoc e l.

Definition Remove (l : list (element * cachedDirectory)) (e : element) : list (element * cachedDirectory) :=
  assoc_delete e l.

Definition MoveToFront (l : list (element * cachedDirectory)) (e : element) : list (element * cachedDirectory) :=
  match Value l e with Some v => (e, v) :: Remove l e | None => l end.

Definition SetValue (l : list (element * cachedDirectory)) (e : element) (v : cachedDirectory)
    : list (element * cachedDirectory) :=
  (fun x => if decide (x.1 = e) then (e, v) else x) <$> l.

(** ** Operations *)

Definition newDirectoryCache (capacity : nat) : directoryCache :=
  {| capacity := capacity; entries := ∅; recency := []; next_element := 0%nat |}.

Definition cache_get (cache : directoryCache) (key : directoryKey) : option (list Message) * directoryCache :=
  match entries cache !! key with
  | None => (None, cache)
  | Some element =>
      let recency := MoveToFront (recency cache) element in
      (cd_messages <$> Value recency element,
       {| capacity := capacity cache; entries := entries cache; recency := recency;
          next_element := next_element cache |})
  end.

Definition cache_put (cache : directoryCache) (key : directoryKey) (messages : list Message) : directoryCache :=
  let value := {| cd_key := key; cd_messages := messages |} in
  match entries cache !! key with
  | Some element =>
      {| capacity := capacity cache; entries := entries cache;
         recency := MoveToFront (SetValue (recency cache) element value) element;
         next_element := next_element cache |}
  | None =>
      let element := next_element cache in
      let recency := (element, value) :: recency cache in
      let entries := <[key := element]> (entries cache) in
      let next := S (next_element cache) in
      if (capacity cache <? length recency)%nat then
        match last recency with
        | Some (oldest, old) =>
            {| capacity := capacity cache; entries := delete (cd_key old) entries;
               recency := Remove recency oldest; next_element := next |}
        | None => {| capacity := capacity cache; entries := entries; recency := recency; next_element := next |}
        end
      else {| capacity := capacity cache; entries := entries; recency := recency; next_element := next |}
  end.

(** ** Reference: an association list, most recently used first *)

Abbreviation lru := (list (directoryKey * list Message)).

Definition lru_get (key : directoryKey) (l : lru) : option (list Message) * lru :=
  match assoc key l with
  | None => (None, l)
  | Some messages => (Some messages, (key, messages) :: assoc_delete key l)
  end.

Definition lru_put (capacity : nat) (key : directoryKey) (messages : list Message) (l : lru) : lru :=
  match assoc key l with
  | Some _ => (key, messages) :: assoc_delete key l
  | None => take capacity ((key, messages) :: l)
  end.

Definition lru_of (cache : directoryCache) : lru :=
  (fun e => (cd_key e.2, cd_messages e.2)) <$> recency cache.

(** The map points at exactly the list's elements, keys are unique, the
    capacity holds and fresh elements are fresh. *)
Record cache_ok (cache : directoryCache) : Prop := {
  co_elements : NoDup (recency cache).*1;
  co_keys : NoDup (cd_key <$> (recency cache).*2);
  co_entries : forall key e, entries cache !! key = Some e <-> exists v, (e, v) ∈ recency cache /\ cd_key v = key;
  co_capacity : (length (recency cache) <= capacity cache)%nat;
  co_fresh : forall e, e ∈ (recency cache).*1 -> (e < next_element cache)%nat;
}.

(** ** The pointer structure refines the association list *)

Lemma cache_ok_new n : cache_ok (newDirectoryCache n).
Proof. split; cbn; try constructor; try set_solver; try lia. Qed.

(** Removing an element is removing its key. *)
Lemma Remove_key (l : list (element * cachedDirectory)) (e : element) (v : cachedDirectory) :
  NoDup l.*1 -> NoDup (cd_key <$> l.*2) -> (e, v) ∈ l ->
  (fun x => (cd_key x.2, cd_messages x.2)) <$> Remove l e
  = assoc_delete (cd_key v) ((fun x => (cd_key x.2, cd_messages x.2)) <$> l).
Proof.
  intros HN HK Hin. unfold Remove, assoc_delete.
  assert (forall x, x ∈ l -> x.1 <> e <-> cd_key x.2 <> cd_key v) as Hiff.
  { intros [e' v'] Hx. cbn. rewrite <- list_fmap_compose in HK.
    apply list_elem_of_lookup in Hx as [i Hi]. apply list_elem_of_lookup in Hin as [j Hj].
    split; intros Hne E; apply Hne.
    - assert (i = j) as ->; [|congruence].
      eapply NoDup_lookup; [exact HK|..]; rewrite list_lookup_fmap, ?Hi, ?Hj; cbn; [done | congruence].
    - assert (i = j) as ->; [|congruence].
      eapply NoDup_lookup; [exact HN|..]; rewrite list_lookup_fmap, ?Hi, ?Hj; cbn; [done | congruence]. }
  clear HN HK Hin. induction l as [|x l IH]; [done|].
  rewrite filter_cons. cbn [fmap list_fmap]. rewrite filter_cons. cbn [fst].
  specialize (Hiff x ltac:(set_solver)) as Hx.
  rewrite (decide_ext _ _ _ _ Hx). case_decide; cbn [fmap list_fmap]; rewrite IH by set_solver; done.
Qed.

Lemma Remove_SetValue l e v : Remove (SetValue l e v) e = Remove l e.
Proof.
  unfold Remove, SetValue, assoc_delete. induction l as [|[e' v'] l IH]; [done|].
  cbn [fmap list_fmap fst]. case_decide; rewrite !filter_cons; cbn [fst]; repeat case_decide; congruence.
Qed.

Lemma SetValue_keys l e v : (SetValue l e v).*1 = l.*1.
Proof.
  unfold SetValue. rewrite <- list_fmap_compose. apply list_fmap_ext. intros _ [e' v'] _. cbn.
  by case_decide.
Qed.

Lemma Value_SetValue l e v : e ∈ l.*1 -> Value (SetValue l e v) e = Some v.
Proof.
  unfold Value, SetValue. induction l as [|[e' v'] l IH]; [by intros ?%elem_of_nil|].
  cbn. intros [->|Hin]%elem_of_cons; case_decide; cbn; rewrite ?decide_True by done; try done.
  rewrite decide_False by done. by apply IH.
Qed.

(** Looking a key up in the list finds the element the map points to. *)
Lemma lru_of_lookup cache key : cache_ok cache ->
  assoc key (lru_of cache) = match entries cache !! key with
                             | Some e => cd_messages <$> Value (recency cache) e
                             | None => None end.
Proof.
  intros Hok. destruct (entries cache !! key) as [e|] eqn:E.
  - apply (co_entries _ Hok) in E as (v & Hin & Hk). unfold Value.
    rewrite (assoc_NoDup e v) by (done || apply Hok). cbn. apply assoc_NoDup.
    + unfold lru_of. rewrite <- list_fmap_compose.
      replace ((fst ∘ (fun e0 : element * cachedDirectory => (cd_key e0.2, cd_messages e0.2))) <$> recency cache)
        with (cd_key <$> (recency cache).*2) by (by rewrite <- list_fmap_compose). apply Hok.
    + unfold lru_of. apply list_elem_of_fmap. exists (e, v). by subst.
  - apply assoc_None. unfold lru_of. rewrite <- list_fmap_compose.
    intros ([e v] & -> & Hin)%list_elem_of_fmap. cbn in E.
    assert (entries cache !! cd_key v = Some e) as E' by (apply Hok; eauto). congruence.
Qed.

Lemma map_entry cache key e : cache_ok cache -> entries cache !! key = Some e ->
  exists v, Value (recency cache) e = Some v /\ (e, v) ∈ recency cache /\ cd_key v = key.
Proof.
  intros Hok (v & Hin & Hk)%(co_entries _ Hok). exists v. split; [|done].
  apply assoc_NoDup; [apply Hok | done].
Qed.

Lemma Remove_fields l e (v : cachedDirectory) :
  NoDup (cd_key <$> l.*2) -> NoDup (cd_key <$> (Remove l e).*2).
Proof.
  unfold Remove, assoc_delete. induction l as [|[e' v'] l IH]; [done|]. cbn [fmap list_fmap].
  intros [Hk HN]%NoDup_cons. rewrite filter_cons. case_decide; [|auto]. cbn [fmap list_fmap].
  apply NoDup_cons. split; [|auto]. intros Hin. apply Hk. rewrite <- list_fmap_compose in *.
  apply list_elem_of_fmap in Hin as (y & E & Hy%list_elem_of_filter). rewrite E.
  apply (list_elem_of_fmap_2 (cd_key ∘ snd)). tauto.
Qed.

(** Moving the element of [key], with a new value for that key, to the front. *)
Lemma move_ok cache key e old v :
  cache_ok cache -> (e, old) ∈ recency cache -> cd_key old = key -> cd_key v = key ->
  let cache' := {| capacity := capacity cache; entries := entries cache;
                   recency := (e, v) :: Remove (recency cache) e; next_element := next_element cache |} in
  cache_ok cache' /\ lru_of cache' = (key, cd_messages v) :: assoc_delete key (lru_of cache).
Proof.
  intros Hok Hin Hold Hv cache'.
  pose proof (Remove_key _ _ _ (co_elements _ Hok) (co_keys _ Hok) Hin) as Halpha.
  split; [|unfold lru_of, cache'; cbn; rewrite Halpha, Hold, Hv; done].
  assert (key ∉ cd_key <$> (Remove (recency cache) e).*2) as Hnot.
  { rewrite <- list_fmap_compose. intros ([e' v'] & E & [Hne Hin']%elem_of_assoc_delete)%list_elem_of_fmap.
    cbn in *. apply Hne.
    assert (entries cache !! key = Some e) as E1 by (apply Hok; eauto).
    assert (entries cache !! key = Some e') as E2 by (apply Hok; eauto). congruence. }
  split; cbn.
  - apply NoDup_cons. split; [|apply NoDup_assoc_delete, Hok].
    intros ([e' v'] & -> & [Hne _]%elem_of_assoc_delete)%list_elem_of_fmap. by apply Hne.
  - rewrite Hv. apply NoDup_cons. split; [done|]. apply Remove_fields; [done | apply Hok].
  - intros k x. rewrite (co_entries _ Hok). split.
    + intros (w & Hw & Hk). destruct (decide (x = e)) as [->|Hne].
      * exists v. split; [set_solver|]. rewrite <- Hk, Hv, <- Hold. f_equal.
        pose proof (assoc_NoDup _ _ _ (co_elements _ Hok) Hw).
        pose proof (assoc_NoDup _ _ _ (co_elements _ Hok) Hin). congruence.
      * exists w. split; [|done]. right. by apply elem_of_assoc_delete.
    + intros (w & [[= -> ->]|Hw]%elem_of_cons & Hk); [exists old; by rewrite Hold, <- Hk|].
      apply elem_of_assoc_delete in Hw. naive_solver.
  - pose proof (assoc_delete_length _ _ _ Hin). pose proof (co_capacity _ Hok). unfold Remove. lia.
  - intros x [->|(y & -> & [_ Hy]%elem_of_assoc_delete)%list_elem_of_fmap]%elem_of_cons;
      apply (co_fresh _ Hok); [by apply (list_elem_of_fmap_2 fst _ (e, old)) | by apply list_elem_of_fmap_2].
Qed.

Lemma cache_get_refines cache key : cache_ok cache ->
  cache_ok (cache_get cache key).2
  /\ (cache_get cache key).1 = (lru_get key (lru_of cache)).1
  /\ lru_of (cache_get cache key).2 = (lru_get key (lru_of cache)).2.
Proof.
  intros Hok. unfold cache_get, lru_get. rewrite lru_of_lookup by done.
  destruct (entries cache !! key) as [e|] eqn:E; [|done].
  destruct (map_entry _ _ _ Hok E) as (v & HV & Hin & Hk).
  unfold MoveToFront. rewrite HV. cbn.
  destruct (move_ok cache key e v v Hok Hin Hk Hk) as [H1 H2].
  split_and!; [exact H1 | by rewrite decide_True | exact H2].
Qed.

Lemma cache_put_existing cache key e messages : cache_ok cache -> entries cache !! key = Some e ->
  cache_ok (cache_put cache key messages)
  /\ lru_of (cache_put cache key messages) = (key, messages) :: assoc_delete key (lru_of cache).
Proof.
  intros Hok E. destruct (map_entry _ _ _ Hok E) as (v & HV & Hin & Hk).
  unfold cache_put. rewrite E. unfold MoveToFront.
  rewrite Value_SetValue by by apply (list_elem_of_fmap_2 fst _ (e, v)).
  rewrite Remove_SetValue. by apply (move_ok cache key e v).
Qed.

(** A new key goes to the front; over capacity the last element is dropped. *)
Lemma push_ok cache key messages : cache_ok cache -> entries cache !! key = None ->
  let pushed := {| capacity := S (capacity cache);
                   entries := <[key := next_element cache]> (entries cache);
                   recency := (next_element cache, {| cd_key := key; cd_messages := messages |}) :: recency cache;
                   next_element := S (next_element cache) |} in
  cache_ok pushed.
Proof.
  intros Hok E pushed. split; cbn.
  - apply NoDup_cons. split; [|apply Hok]. intros Hin%(co_fresh _ Hok). lia.
  - apply NoDup_cons. split; [|apply Hok]. rewrite <- list_fmap_compose.
    intros ([e v] & -> & Hin)%list_elem_of_fmap. cbn in E.
    assert (entries cache !! cd_key v = Some e) by (apply Hok; eauto). congruence.
  - intros k e. destruct (decide (k = key)) as [->|Hne].
    + rewrite lookup_insert_eq. split.
      * intros [= <-]. eexists. split; [by left | done].
      * intros (v & [[= -> ->]|Hin]%elem_of_cons & Hk); [done|].
        assert (entries cache !! key = Some e) by (apply Hok; eauto). congruence.
    + rewrite lookup_insert_ne by done. rewrite (co_entries _ Hok). split.
      * intros (v & ? & ?). exists v. split; [by right | done].
      * intros (v & [[= -> ->]|Hin]%elem_of_cons & Hk); [by cbn in Hk | eauto].
  - pose proof (co_capacity _ Hok). lia.
  - intros e [->|Hin%(co_fresh _ Hok)]%elem_of_cons; lia.
Qed.

Lemma evict_ok cache (rest : list (element * cachedDirectory)) oldest old :
  cache_ok cache -> recency cache = rest ++ [(oldest, old)] -> (length rest <= capacity cache - 1)%nat ->
  cache_ok {| capacity := capacity cache - 1; entries := delete (cd_key old) (entries cache);
              recency := rest; next_element := next_element cache |}.
Proof.
  intros Hok E Hl. pose proof (co_elements _ Hok) as HN. pose proof (co_keys _ Hok) as HK.
  pose proof (co_entries _ Hok) as HE. pose proof (co_fresh _ Hok) as HF.
  rewrite E in HN, HK, HE, HF. rewrite fmap_app in HN. rewrite !fmap_app in HK. rewrite fmap_app in HF.
  apply NoDup_app in HN as (HN & _ & _). apply NoDup_app in HK as (HK & HKd & _).
  split; cbn; [done | done | | done | set_solver].
  intros k e. destruct (decide (cd_key old = k)) as [<-|Hne].
  - rewrite lookup_delete_eq. split; [done|]. intros (v & Hin & Hk). exfalso.
    apply (HKd (cd_key v)); [|rewrite Hk; cbn; set_solver].
    by apply list_elem_of_fmap_2, (list_elem_of_fmap_2 snd _ (e, v)).
  - rewrite lookup_delete_ne by done. rewrite HE. split.
    + intros (v & [?|[= -> ->]%list_elem_of_singleton]%elem_of_app & Hk); [eauto | done].
    + intros (v & Hin & Hk). exists v. split; [set_solver | done].
Qed.

Lemma cache_put_new cache key messages : cache_ok cache -> entries cache !! key = None ->
  cache_ok (cache_put cache key messages)
  /\ lru_of (cache_put cache key messages) = take (capacity cache) ((key, messages) :: lru_of cache).
Proof.
  intros Hok E. pose proof (push_ok cache key messages Hok E) as Hpush. cbn zeta in Hpush.
  pose proof (co_capacity _ Hok) as Hcap.
  unfold cache_put. rewrite E. cbn zeta.
  set (value := {| cd_key := key; cd_messages := messages |}) in *.
  set (pushed := (next_element cache, value) :: recency cache) in *.
  destruct (Nat.ltb_spec (capacity cache) (length pushed)) as [Hlt|Hge].
  - destruct (exists_last (l := pushed)) as (rest & [oldest old] & Er); [done|]. rewrite Er, last_snoc.
    assert (length rest = capacity cache) as Hr.
    { apply (f_equal length) in Er. rewrite length_app in Er. unfold pushed in *. simpl in *. lia. }
    pose proof (evict_ok _ rest oldest old Hpush Er ltac:(cbn; lia)) as Hev. cbn in Hev.
    rewrite Nat.sub_0_r in Hev. unfold Remove. rewrite assoc_delete_last.
    2: { rewrite <- Er. apply Hpush. }
    split; [exact Hev|]. unfold lru_of. cbn.
    change ((key, messages) :: ((fun e => (cd_key e.2, cd_messages e.2)) <$> recency cache))
      with ((fun e : element * cachedDirectory => (cd_key e.2, cd_messages e.2)) <$> pushed).
    by rewrite Er, <- fmap_take, <- Hr, take_app_length.
  - split.
    + destruct Hpush as [H1 H2 H3 H4 H5]. by split.
    + unfold lru_of. cbn. rewrite take_ge; [done|]. unfold pushed in Hge. cbn in *. rewrite length_fmap. lia.
Qed.

Lemma cache_put_refines cache key messages : cache_ok cache ->
  cache_ok (cache_put cache key messages)
  /\ lru_of (cache_put cache key messages) = lru_put (capacity cache) key messages (lru_of cache).
Proof.
  intros Hok. unfold lru_put. rewrite lru_of_lookup by done.
  destruct (entries cache !! key) as [e|] eqn:E; [|by apply cache_put_new].
  destruct (map_entry _ _ _ Hok E) as (v & -> & _). by apply (cache_put_existing _ _ e).
Qed.

Lemma cache_put_capacity cache key messages : capacity (cache_put cache key messages) = capacity cache.
Proof. unfold cache_put. repeat case_match; done. Qed.

Lemma cache_get_capacity cache key : capacity (cache_get cache key).2 = capacity cache.
Proof. unfold cache_get. by case_match. Qed.

(** What the cache holds was put there under that key. *)
Definition cache_holds (P : directoryKey -> list Message -> Prop) (cache : directoryCache) : Prop :=
  Forall (fun e => P e.1 e.2) (lru_of cache).

Lemma cache_get_holds P cache key messages : cache_ok cache -> cache_holds P cache ->
  (cache_get cache key).1 = Some messages -> P key messages.
Proof.
  intros Hok HP. destruct (cache_get_refines cache key Hok) as (_ & -> & _). unfold lru_get.
  destruct (assoc key (lru_of cache)) as [m|] eqn:E; [|done]. intros [= ->].
  apply assoc_elem in E. unfold cache_holds in HP. rewrite Forall_forall in HP. by apply (HP _ E).
Qed.

Lemma cache_get_keeps P cache key : cache_ok cache -> cache_holds P cache ->
  cache_holds P (cache_get cache key).2.
Proof.
  intros Hok HP. unfold cache_holds. destruct (cache_get_refines cache key Hok) as (_ & _ & ->).
  unfold lru_get. destruct (assoc key (lru_of cache)) as [m|] eqn:E; [|done]. cbn.
  unfold cache_holds in HP. rewrite Forall_forall in HP.
  constructor; [by apply assoc_elem in E; apply (HP _ E)|].
  apply Forall_forall. intros x [_ Hx]%elem_of_assoc_delete. by apply HP.
Qed.

Lemma cache_put_keeps P cache key messages : cache_ok cache -> cache_holds P cache -> P key messages ->
  cache_holds P (cache_put cache key messages).
Proof.
  intros Hok HP Hkm. unfold cache_holds. destruct (cache_put_refines cache key messages Hok) as [_ ->].
  unfold lru_put, cache_holds in *. case_match.
  - constructor; [done|]. rewrite Forall_forall in *. intros x [_ Hx]%elem_of_assoc_delete. by apply HP.
  - apply Forall_take. by constructor.
Qed.

(** ** Properties *)

(** the map of pointers and the recency list implement a least-recently-used
    association list: a [get] finds what the list holds and moves it to the
    front, a [put] replaces or inserts in front and evicts the last entry when
    the capacity is exceeded, and the structural invariant is preserved. *)
Theorem cache_is_lru cache key messages : cache_ok cache ->
  (cache_ok (cache_get cache key).2
   /\ ((cache_get cache key).1, lru_of (cache_get cache key).2) = lru_get key (lru_of cache))
  /\ (cache_ok (cache_put cache key messages)
      /\ lru_of (cache_put cache key messages) = lru_put (capacity cache) key messages (lru_of cache)
      /\ (length (lru_of (cache_put cache key messages)) <= capacity cache)%nat).
Proof.
  intros Hok. destruct (cache_get_refines cache key Hok) as (H1 & H2 & H3).
  destruct (cache_put_refines cache key messages Hok) as [H4 H5]. split.
  - split; [done|]. rewrite H2, H3. by destruct (lru_get _ _).
  - split_and!; [done | done |]. unfold lru_of. rewrite length_fmap.
    etransitivity; [apply (co_capacity _ H4)|]. by rewrite cache_put_capacity.
Qed.

Lemma cache_is_lru_witness :
  lru_of (cache_put (newDirectoryCache 1) {| dk_path := "1"; dk_tree := "t" |} [])
  = [({| dk_path := "1"; dk_tree := "t" |}, [])].
Proof.
  destruct (cache_is_lru (newDirectoryCache 1) {| dk_path := "1"; dk_tree := "t" |} [] (cache_ok_new 1)) as [_ (_ & -> & _)].
  by vm_compute.
Defined.
