(* ===== verification/Tree.v ===== *)
(** * Git tree objects (internal/archive/tree.go)

    [parseTree] decodes the binary form of a tree; the theorems show it accepts
    exactly the encodings of well-formed archive directories, and inverts the
    encoder. *)

From S2P Require Import Prelude GoStrings.

(** ** encoding/hex *)

Definition hex_digit (d : Z) : ascii := digit_char d.

Definition EncodeToString (data : str) : str :=
  mjoin ((fun c => [hex_digit (code c / 16); hex_digit (code c mod 16)]) <$> data).

(** [hex.DecodeString]: pairs of hexadecimal digits of either case. *)
Fixpoint DecodeString (s : str) : result str :=
  match s with
  | [] => Ok []
  | [_] => Err (New "encoding/hex: odd length hex string")
  | a :: b :: t =>
      match digit_value a, digit_value b with
      | Some x, Some y =>
          if (x <? 16) && (y <? 16) then
            let! rest := DecodeString t in Ok (byte_of (x * 16 + y) :: rest)
          else Err (New "encoding/hex: invalid byte")
      | _, _ => Err (New "encoding/hex: invalid byte")
      end
  end.

(** ** Data *)

Record treeEntry := { mode : str; name : str; oid : str }.

#[export] Instance treeEntry_eq_dec : EqDecision treeEntry.
Proof. solve_decision. Defined.

Definition NUL : ascii := byte_of 0.
Definition CR : ascii := byte_of 13.
Definition LF : ascii := byte_of 10.

(** ** Operations *)

(** The guard on one entry, [seen] holding the names before it. *)
Definition tree_entry_ok (ok : bool) (mode name : str) (seen : gset str) : bool :=
  ok && negb (bool_decide (name = []) || ContainsAny name ["/"%char; CR; LF]
              || bool_decide (name = ".") || bool_decide (name = "..") || bool_decide (name ∈ seen)
              || negb (bool_decide (mode = "40000") || bool_decide (mode = "100644"))).

(** The loop of [parseTree]; each round consumes at least the NUL. *)
Fixpoint parse_entries (fuel : nat) (data : str) (hashBytes : nat) (seen : gset str)
    : result (list treeEntry) :=
  match data, fuel with
  | [], _ => Ok []
  | _, O => Err (Panicked "out of fuel")
  | _, S fuel =>
      match IndexByte data NUL with
      | None => Err (New "truncated Git tree entry")
      | Some e =>
          if (length data - e - 1 <? hashBytes)%nat then Err (New "truncated Git tree entry")
          else
            let '(mode, name, ok) := Cut (take e data) " "%char in
            if negb (tree_entry_ok ok mode name seen) then Err (New "invalid archive tree entry")
            else
              let! rest := parse_entries fuel (drop (e + 1 + hashBytes) data) hashBytes ({[ name ]} ∪ seen) in
              Ok ({| mode := mode; name := name;
                     oid := EncodeToString (take hashBytes (drop (e + 1) data)) |} :: rest)
      end
  end.

Definition parseTree (data : str) (hashBytes : nat) : result (list treeEntry) :=
  parse_entries (length data) data hashBytes ∅.

(** ** Reference encoder *)

(** An entry with its raw object ID, as Git stores it. *)
Record rawEntry := { raw_mode : str; raw_name : str; raw_oid : str }.

Definition encode_entry (e : rawEntry) : str :=
  raw_mode e ++ " " ++ raw_name e ++ NUL :: raw_oid e.

Definition encode_tree (es : list rawEntry) : str := mjoin (encode_entry <$> es).

Definition entry_of_raw (e : rawEntry) : treeEntry :=
  {| mode := raw_mode e; name := raw_name e; oid := EncodeToString (raw_oid e) |}.

(** Names an archive directory may hold. *)
Definition archive_name (name : str) : Prop :=
  name <> [] /\ "/"%char ∉ name /\ CR ∉ name /\ LF ∉ name /\ NUL ∉ name /\ name <> "." /\ name <> "..".

Definition raw_ok (hashBytes : nat) (e : rawEntry) : Prop :=
  (raw_mode e = "40000" \/ raw_mode e = "100644") /\ archive_name (raw_name e) /\ length (raw_oid e) = hashBytes.

(** ** Lemmas *)

Lemma hex_table :
  forallb (fun n => bool_decide (digit_value (hex_digit (Z.of_nat n)) = Some (Z.of_nat n))) (seq 0 16) = true.
Proof. vm_compute. reflexivity. Qed.

Lemma hex_digit_value d : 0 <= d < 16 -> digit_value (hex_digit d) = Some d.
Proof. intros Hd. apply digit_char_ok. lia. Qed.

Lemma EncodeToString_cons c s :
  EncodeToString (c :: s) = hex_digit (code c / 16) :: hex_digit (code c mod 16) :: EncodeToString s.
Proof. done. Qed.

Lemma DecodeString_Encode s : DecodeString (EncodeToString s) = Ok s.
Proof.
  induction s as [|c s IH]; [done|]. rewrite EncodeToString_cons. cbn [DecodeString].
  pose proof (code_range c) as Hc.
  assert (0 <= code c / 16 < 16) by (split; [apply Z.div_pos; lia | apply Z.div_lt_upper_bound; lia]).
  pose proof (Z.mod_pos_bound (code c) 16 eq_refl).
  rewrite !hex_digit_value by done. rewrite !(proj2 (Z.ltb_lt _ _)) by lia. cbn [andb].
  rewrite IH. cbn [rbind]. repeat f_equal.
  rewrite <- (byte_of_code c) at 3. f_equal. pose proof (Z.div_mod (code c) 16). lia.
Qed.

Lemma EncodeToString_length s : length (EncodeToString s) = (2 * length s)%nat.
Proof. induction s as [|c s IH]; [done|]. rewrite EncodeToString_cons. cbn [length]. rewrite IH. lia. Qed.

Lemma EncodeToString_inj s s' : EncodeToString s = EncodeToString s' -> s = s'.
Proof. intros E. apply Ok_inj. by rewrite <- (DecodeString_Encode s), <- (DecodeString_Encode s'), E. Qed.

Lemma IndexByte_app p c s : c ∉ p -> IndexByte (p ++ c :: s) c = Some (length p).
Proof.
  induction p as [|x p IH]; intros Hn; simpl; [by rewrite decide_True|].
  rewrite decide_False by set_solver. by rewrite IH by set_solver.
Qed.

Lemma IndexByte_Some s c n : IndexByte s c = Some n -> s = take n s ++ c :: drop (S n) s /\ c ∉ take n s.
Proof.
  revert n. induction s as [|x s IH]; intros n; simpl; [done|].
  case_decide as E; [intros [= <-]; subst; simpl; rewrite drop_0; split; [done | apply not_elem_of_nil]|].
  destruct (IndexByte s c) as [m|]; [|done]. intros [= <-].
  destruct (IH m eq_refl) as [H1 H2]. simpl. split; [by rewrite <- H1 | set_solver].
Qed.

Lemma ContainsAny_false s chars : ContainsAny s chars = false <-> forall c, c ∈ chars -> c ∉ s.
Proof.
  unfold ContainsAny. rewrite <- not_true_iff_false, existsb_exists. split.
  - intros H c Hc Hs. apply H. exists c. split; [by apply list_elem_of_In | by apply bool_decide_eq_true].
  - intros H (c & Hs%list_elem_of_In & Hc%bool_decide_eq_true). by apply (H c).
Qed.

(** ** parseTree and the encoder are inverse *)

Lemma tree_entry_ok_spec mode name seen :
  tree_entry_ok true mode name seen = true <->
  (mode = "40000" \/ mode = "100644") /\ name <> [] /\ "/"%char ∉ name /\ CR ∉ name /\ LF ∉ name
  /\ name <> "." /\ name <> ".." /\ name ∉ seen.
Proof.
  unfold tree_entry_ok. rewrite andb_true_l, negb_true_iff, !orb_false_iff, !bool_decide_eq_false.
  rewrite ContainsAny_false, negb_false_iff, orb_true_iff, !bool_decide_eq_true. set_solver.
Qed.

Lemma mode_plain (m : str) : m = "40000" \/ m = "100644" -> " "%char ∉ m /\ NUL ∉ m.
Proof. intros [->| ->]; split; apply (bool_decide_unpack _); vm_compute; exact I. Qed.

Lemma encode_entry_length e : (1 <= length (encode_entry e))%nat.
Proof. unfold encode_entry. rewrite !length_app. simpl. lia. Qed.

(** One round of the loop on data that is not used up. *)
Lemma parse_entries_step fuel data h seen : data <> [] ->
  parse_entries (S fuel) data h seen =
  match IndexByte data NUL with
  | None => Err (New "truncated Git tree entry")
  | Some e =>
      if (length data - e - 1 <? h)%nat then Err (New "truncated Git tree entry")
      else
        let '(mode, name, ok) := Cut (take e data) " "%char in
        if negb (tree_entry_ok ok mode name seen) then Err (New "invalid archive tree entry")
        else
          let! rest := parse_entries fuel (drop (e + 1 + h) data) h ({[ name ]} ∪ seen) in
          Ok ({| mode := mode; name := name; oid := EncodeToString (take h (drop (e + 1) data)) |} :: rest)
  end.
Proof. by destruct data. Qed.

Lemma parse_encoded fuel h seen es :
  Forall (raw_ok h) es -> NoDup (raw_name <$> es) -> (forall e, e ∈ es -> raw_name e ∉ seen) ->
  (length (encode_tree es) <= fuel)%nat ->
  parse_entries fuel (encode_tree es) h seen = Ok (entry_of_raw <$> es).
Proof.
  intros HF. revert fuel seen. induction HF as [|e es He HF IH]; intros fuel seen HN Hs Hf.
  { by destruct fuel. }
  destruct He as (Hm & (Hn1 & Hn2 & Hn3 & Hn4 & Hn5 & Hn6 & Hn7) & Ho).
  destruct (mode_plain _ Hm) as [Hsp Hnul].
  change (encode_tree (e :: es)) with (encode_entry e ++ encode_tree es) in *.
  set (head := raw_mode e ++ " " ++ raw_name e).
  assert (encode_entry e ++ encode_tree es = head ++ NUL :: raw_oid e ++ encode_tree es) as E.
  { unfold encode_entry, head. by rewrite <- !app_assoc. }
  assert (NUL ∉ head) as Hh.
  { unfold head. rewrite !not_elem_of_app. split_and!; [done| |done]. apply (bool_decide_unpack _). by vm_compute. }
  rewrite length_app in Hf. pose proof (encode_entry_length e). destruct fuel as [|fuel]; [lia|].
  rewrite E, parse_entries_step by (by destruct head).
  rewrite IndexByte_app by done. rewrite (proj2 (Nat.ltb_ge _ _)).
  2: { rewrite length_app. cbn [length]. rewrite length_app. lia. }
  rewrite take_app_length. unfold head at 1. change (" " ++ raw_name e) with (" "%char :: raw_name e).
  rewrite Cut_app by done.
  rewrite (proj2 (tree_entry_ok_spec _ _ _)) by (split_and!; try done; apply Hs; set_solver).
  cbn [negb].
  replace (length head + 1)%nat with (length (head ++ [NUL])) by (rewrite length_app; done).
  replace (head ++ NUL :: raw_oid e ++ encode_tree es) with ((head ++ [NUL]) ++ raw_oid e ++ encode_tree es)
    by (by rewrite <- app_assoc).
  rewrite drop_app_length, <- Ho, take_app_length.
  rewrite <- length_app, app_assoc, drop_app_length.
  cbn [fmap list_fmap] in HN. apply NoDup_cons in HN as [Hd HN]. rewrite Ho.
  rewrite (IH fuel); [done | done | | lia].
  intros e' He'. rewrite not_elem_of_union, not_elem_of_singleton. split; [|apply Hs; set_solver].
  intros E'. apply Hd. rewrite <- E'. by apply list_elem_of_fmap_2.
Qed.

(** Decoding an archive tree gives its entries back. *)
Lemma parseTree_encode h es : Forall (raw_ok h) es -> NoDup (raw_name <$> es) ->
  parseTree (encode_tree es) h = Ok (entry_of_raw <$> es).
Proof. intros HF HN. apply parse_encoded; [done | done | set_solver | done]. Qed.

Lemma parse_entries_sound fuel data h seen l :
  parse_entries fuel data h seen = Ok l ->
  exists es, data = encode_tree es /\ l = entry_of_raw <$> es /\ Forall (raw_ok h) es
    /\ NoDup (raw_name <$> es) /\ (forall e, e ∈ es -> raw_name e ∉ seen).
Proof.
  revert data seen l. induction fuel as [|fuel IH]; intros data seen l H.
  { destruct data; [|done]. simpl in H. ok_inv. exists []. split_and!; try done; [constructor | set_solver]. }
  destruct (decide (data = [])) as [->|Hne]; [simpl in H; ok_inv; exists []; split_and!; try done; [constructor | set_solver]|].
  rewrite parse_entries_step in H by done.
  destruct (IndexByte data NUL) as [k|] eqn:Ek; [|done].
  apply IndexByte_Some in Ek as [Ek Hk].
  destruct (Nat.ltb_spec (length data - k - 1) h) as [|Hlen]; [done|].
  destruct (Cut (take k data) " "%char) as [[m n] ok] eqn:Ec.
  destruct (tree_entry_ok ok m n seen) eqn:Eok; [|done]. cbn [negb] in H. ok_inv.
  destruct ok; [|done]. apply tree_entry_ok_spec in Eok as (H1 & H2 & H3 & H4 & H5 & H6 & H7 & H8).
  apply Cut_found in Ec as [Ec Hsp].
  apply IH in Ha as (es & E & -> & HF & HN & Hs).
  exists ({| raw_mode := m; raw_name := n; raw_oid := take h (drop (k + 1) data) |} :: es).
  assert (NUL ∉ n) as Hnn by (rewrite Ec in Hk; set_solver).
  split_and!.
  - change (encode_tree (?e :: es)) with (encode_entry e ++ encode_tree es).
    rewrite <- E. unfold encode_entry. cbn [raw_mode raw_name raw_oid].
    rewrite Ek at 1. rewrite Ec. replace (S k) with (k + 1)%nat by lia.
    rewrite <- (take_drop h (drop (k + 1) data)) at 1. rewrite drop_drop.
    by rewrite <- !app_assoc.
  - done.
  - constructor; [|done]. split; [done|]. split; [done|]. cbn. rewrite length_take, length_drop.
    assert (k < length data)%nat; [|lia].
    apply (f_equal length) in Ek. rewrite length_app, length_take in Ek. cbn [length] in Ek.
    rewrite length_drop in Ek. lia.
  - cbn. apply NoDup_cons. split; [|done]. intros (e & E' & He)%list_elem_of_fmap.
    specialize (Hs e He). set_solver.
  - intros e [->|He]%elem_of_cons; [done|]. specialize (Hs e He). set_solver.
Qed.

(** Whatever [parseTree] accepts is the encoding of a well-formed directory
    without duplicate names, and the entries are those of the directory. *)
Lemma parseTree_sound data h l : parseTree data h = Ok l ->
  exists es, data = encode_tree es /\ l = entry_of_raw <$> es /\ Forall (raw_ok h) es /\ NoDup (raw_name <$> es).
Proof. intros (es & ? & ? & ? & ? & _)%parse_entries_sound. eauto. Qed.

(** ** Properties *)

(** C31: [parseTree] accepts exactly the encodings of well-formed archive
    directories (plain files and subdirectories, safe names, no duplicates, full
    object IDs), and returns their entries in order. *)
Theorem parseTree_decodes data hashBytes entries :
  parseTree data hashBytes = Ok entries <->
  exists es, data = encode_tree es /\ entries = entry_of_raw <$> es
    /\ Forall (raw_ok hashBytes) es /\ NoDup (raw_name <$> es).
Proof.
  split; [apply parseTree_sound|]. intros (es & -> & -> & HF & HN). by apply parseTree_encode.
Qed.
