(* ===== verification/CatFile.v ===== *)
(** * Reading Git objects (internal/archive/read.go, tree.go)

    One long-lived [git cat-file --batch-command] process answers metadata and
    content requests.  Its answers are a byte stream that must be consumed
    exactly: the model keeps the unread bytes of the pipe, so framing is a
    theorem.  Git itself is a parameter: the reply it writes to each request. *)

From S2P Require Import Prelude GoStrings IdPath Cache Tree.

(** ** Data *)

Record objectHeader := { h_oid : str; h_kind : str; h_size : Z }.

(** The reader fields of [Store]: [process] is [s.reader] with the output not
    yet read, [leased] says a [blobReader] holds [readMu]. *)
Record readState := {
  process : option str;
  readClosed : bool;
  leased : bool;
  readIdleGeneration : Z;
  readIdleTimer : option Z;
}.

Record blobReader := {
  br_header : objectHeader;
  br_remaining : Z;
  br_closed : bool;
  br_closeError : option error;
}.

(** Git and the operating system: whether a child starts, whether writing a
    request fails, the bytes git answers a request line with, how many bytes
    beyond the first one read from the pipe may return, and whether the deadline
    of [watchGit] interrupts an operation that starts with these unread bytes. *)
Class CatFile := {
  start_error : option error;
  write_error : option error;
  interruption : string -> str -> option error;
  reply : str -> str;
  chunk : nat -> nat;
}.

(** ** Operations *)

Definition set_process (st : readState) (p : option str) : readState :=
  {| process := p; readClosed := readClosed st; leased := leased st;
     readIdleGeneration := readIdleGeneration st; readIdleTimer := readIdleTimer st |}.

Definition set_leased (st : readState) (l : bool) : readState :=
  {| process := process st; readClosed := readClosed st; leased := l;
     readIdleGeneration := readIdleGeneration st; readIdleTimer := readIdleTimer st |}.

Definition validObjectID (id : str) : bool :=
  ((length id =? 40)%nat || (length id =? 64)%nat)
  && forallb (fun r => ((48 <=? r) && (r <=? 57)) || ((97 <=? r) && (r <=? 102))) (runes id).*1.

(** The result of [watchGit] and [gitProcess.watch]: the operation's error joined
    with the interruption, if the deadline passed and the child was killed. *)
Definition watchGit {A} (interruption : option error) (r : result A) : result A :=
  match interruption, r with
  | None, r => r
  | Some i, Ok _ => Err i
  | Some i, Err e => Err (Joined i e)
  end.

(** [process.line]: [ReadString] up to the newline, which is dropped. *)
Definition read_line (pipe : str) : result str * str :=
  match Cut pipe LF with
  | (line, rest, true) => (Ok line, rest)
  | (_, _, false) => (Err (Sentinel IoEOF), [])
  end.

Section CatFile.
Context `{CatFile}.

(** [readerLocked]: stops the idle timer and starts a child if none runs. *)
Definition readerLocked : M readState str := fun st =>
  let st := {| process := process st; readClosed := readClosed st; leased := leased st;
               readIdleGeneration := u64 (readIdleGeneration st + 1); readIdleTimer := None |} in
  if readClosed st then (Err (New "archive is closed"), st)
  else match process st with
  | Some pipe => (Ok pipe, st)
  | None => match start_error with
            | Some e => (Err e, st)
            | None => (Ok [], set_process st (Some []))
            end
  end.

(** [armReadIdleLocked]; the timer remembers the generation it was armed at. *)
Definition armReadIdleLocked (st : readState) : readState :=
  match process st with
  | None => st
  | Some _ =>
      if readClosed st then st
      else let generation := u64 (readIdleGeneration st + 1) in
           {| process := process st; readClosed := readClosed st; leased := leased st;
              readIdleGeneration := generation; readIdleTimer := Some generation |}
  end.

(** [closeReaderLocked] and [abortReaderLocked] both forget the child. *)
Definition closeReaderLocked (st : readState) : readState := set_process st None.
Definition abortReaderLocked (cause : error) (st : readState) : error * readState :=
  match process st with
  | Some _ => (Wrap "" cause, set_process st None)
  | None => (cause, st)
  end.

(** The callback of the idle timer armed at [generation]. *)
Definition read_idle_fire (generation : Z) (st : readState) : readState :=
  if readIdleGeneration st =? generation then closeReaderLocked st else st.

Definition queryObjectInner (command spec kind pipe : str) : result objectHeader * str :=
  if ContainsAny spec [CR; LF] then (Err (New "invalid Git object query"), pipe)
  else match write_error with
  | Some e => (Err e, pipe)
  | None =>
      let pipe := pipe ++ reply (command ++ " " ++ spec ++ [LF]) in
      match read_line pipe with
      | (Err e, pipe) => (Err e, pipe)
      | (Ok line, pipe) =>
          if decide (line = spec ++ " missing") then (Err (Sentinel ErrNoSuchMessage), pipe)
          else
            match Fields line with
            | [oid; kind'; size] =>
                if negb (validObjectID oid) || negb (bool_decide (kind' = kind))
                then (Err (New "invalid git object header"), pipe)
                else match ParseInt size with
                | Err _ => (Err (New "invalid git object size"), pipe)
                | Ok n =>
                    if n <? 0 then (Err (New "invalid git object size"), pipe)
                    else (Ok {| h_oid := oid; h_kind := kind'; h_size := n |}, pipe)
                end
            | _ => (Err (New "invalid git object header"), pipe)
            end
      end
  end.

Definition queryObject (command spec kind : str) : M readState objectHeader := fun st =>
  match process st with
  | None => (Err (Panicked "nil process"), st)
  | Some pipe =>
      let '(r, pipe') := queryObjectInner command spec kind pipe in
      (watchGit (interruption "query" pipe) r, set_process st (Some pipe'))
  end.

(** [objectInfo]: any answer other than a header or "missing" ends the child. *)
Definition objectInfo (spec kind : str) : M readState objectHeader := fun st =>
  let '(r, st) :=
    match readerLocked st with
    | (Err e, st) => (Err e, st)
    | (Ok _, st) =>
        match queryObject "info" spec kind st with
        | (Ok header, st) => (Ok header, st)
        | (Err e, st) =>
            if errors_Is e ErrNoSuchMessage then (Err e, st)
            else let '(e, st) := abortReaderLocked e st in (Err e, st)
        end
    end in
  (r, armReadIdleLocked st).

(** [readObject]: on success the pipe stays leased until [Close]. *)
Definition readObject (spec kind : str) : M readState blobReader := fun st =>
  match readerLocked st with
  | (Err e, st) => (Err e, armReadIdleLocked st)
  | (Ok _, st) =>
      match queryObject "contents" spec kind st with
      | (Ok header, st) =>
          (Ok {| br_header := header; br_remaining := h_size header; br_closed := false;
                 br_closeError := None |}, set_leased st true)
      | (Err e, st) =>
          if errors_Is e ErrNoSuchMessage then (Err e, armReadIdleLocked st)
          else let '(e, st) := abortReaderLocked e st in (Err e, armReadIdleLocked st)
      end
  end.

(** [blobReader.Read] into a buffer of [len] bytes; the pipe hands out at most
    [avail] bytes at once.  The bytes, the error and the new states. *)
Definition blobReader_Read (len avail : nat) (reader : blobReader) (st : readState)
    : str * option error * blobReader * readState :=
  if br_closed reader then ([], Some (Sentinel OsErrClosed), reader, st)
  else if (len =? 0)%nat then ([], None, reader, st)
  else if br_remaining reader =? 0 then ([], Some (Sentinel IoEOF), reader, st)
  else
    let len := Nat.min len (Z.to_nat (br_remaining reader)) in
    let pipe := default [] (process st) in
    let got := take (Nat.min len avail) pipe in
    let rest := drop (Nat.min len avail) pipe in
    let remaining := br_remaining reader - Z.of_nat (length got) in
    let reader := {| br_header := br_header reader; br_remaining := remaining;
                     br_closed := false; br_closeError := br_closeError reader |} in
    let err :=
      match watchGit (interruption "read" pipe) (if decide (pipe = []) then Err (Sentinel IoEOF) else Ok tt) with
      | Ok _ => None
      | Err e => Some (if errors_Is e IoEOF && (0 <? remaining) then Sentinel IoErrUnexpectedEOF else e)
      end in
    (got, err, reader, set_process st ((fun _ => rest) <$> process st)).

(** [blobReader.Close]: drain what is left and the terminator. *)
Definition blobReader_Close (reader : blobReader) (st : readState)
    : option error * blobReader * readState :=
  if br_closed reader then (br_closeError reader, reader, st)
  else
    let pipe := default [] (process st) in
    let n := Z.to_nat (br_remaining reader) in
    let '(r, rest) :=
      if (length pipe <? n)%nat then (Err (Sentinel IoEOF), [])
      else match drop n pipe with
      | [] => (Err (Sentinel IoEOF), [])
      | c :: rest => (if decide (c = LF) then Ok tt else Err (New "invalid git object terminator"), rest)
      end in
    let st := set_process st ((fun _ => rest) <$> process st) in
    let '(err, st) :=
      match watchGit (interruption "close" pipe) r with
      | Ok _ => (None, st)
      | Err e => let '(e, st) := abortReaderLocked e st in (Some e, st)
      end in
    let reader := {| br_header := br_header reader; br_remaining := br_remaining reader;
                     br_closed := true; br_closeError := err |} in
    (err, reader, set_leased (armReadIdleLocked st) false).

(** [io.ReadAll]: reads of at least one byte until end of file. *)
Fixpoint ReadAll (fuel : nat) (acc : str) (reader : blobReader) (st : readState)
    : result str * blobReader * readState :=
  match fuel with
  | O => (Err (Panicked "out of fuel"), reader, st)
  | S fuel =>
      match blobReader_Read 512 (S (chunk fuel)) reader st with
      | (got, None, reader, st) => ReadAll fuel (acc ++ got) reader st
      | (got, Some e, reader, st) =>
          if errors_Is e IoEOF then (Ok (acc ++ got), reader, st) else (Err e, reader, st)
      end
  end.

(** [Store.tree]. *)
Definition tree (spec : str) : M readState (list treeEntry * str) := fun st =>
  match readObject spec "tree" st with
  | (Err e, st) => (Err e, st)
  | (Ok reader, st) =>
      if 256 * 1024 <? br_remaining reader then
        let '(_, _, st) := blobReader_Close reader st in
        (Err (New "archive tree exceeds bounded directory size"), st)
      else
        let '(data, reader, st) := ReadAll (S (S (Z.to_nat (br_remaining reader)))) [] reader st in
        let '(closeErr, reader, st) := blobReader_Close reader st in
        match data, closeErr with
        | Err e, _ => (Err e, st)
        | _, Some e => (Err e, st)
        | Ok data, None =>
            let parsed := parseTree data (length (h_oid (br_header reader)) / 2) in
            let count := match parsed with Ok entries => Z.of_nat (length entries) | Err _ => 0 end in
            if idRadix + 3 <? count then (Err (New "archive directory exceeds fanout"), st)
            else (let! entries := parsed in Ok (entries, h_oid (br_header reader)), st)
        end
  end.
End CatFile.

(** ** What git promises *)

Record gitObject := { o_oid : str; o_kind : str; o_content : str }.

(** The answer of [cat-file --batch-command] to one request. *)
Definition answer (objects : str -> option gitObject) (command spec : str) : str :=
  match objects spec with
  | None => (spec ++ " missing") ++ LF :: []
  | Some o =>
      Join [o_oid o; o_kind o; FormatUint (Z.of_nat (length (o_content o))) 10] " " ++ LF ::
      (if decide (command = "contents") then o_content o ++ [LF] else [])
  end.

Definition query_spec (spec : str) : Prop := CR ∉ spec /\ LF ∉ spec.

(** Documented behaviour of Git: the child starts and answers every request in
    time with the object's header, object IDs are hexadecimal hashes of the content
    (so equal IDs name the same object), and an object can be asked for by its
    own ID. *)
Class GitObjects `{CatFile} (objects : str -> option gitObject) : Prop := {
  git_starts : start_error = None;
  git_reads : write_error = None;
  git_in_time op pipe : interruption op pipe = None;
  git_answers (command : str) spec : command = "info" \/ command = "contents" -> query_spec spec ->
    reply (command ++ " " ++ spec ++ [LF]) = answer objects command spec;
  git_header spec o : objects spec = Some o ->
    validObjectID (o_oid o) = true /\ word (o_oid o) /\ word (o_kind o) /\ query_spec (o_oid o)
    /\ LF ∉ o_kind o /\ Z.of_nat (length (o_content o)) < 2 ^ 63;
  git_content_addressed s s' o o' : objects s = Some o -> objects s' = Some o' -> o_oid o = o_oid o' -> o = o';
  git_by_id spec o : objects spec = Some o -> objects (o_oid o) = Some o;
}.

(** The reader at a request boundary: open, not leased, nothing left unread. *)
Definition ready (st : readState) : Prop :=
  readClosed st = false /\ leased st = false /\ (process st = None \/ process st = Some []).

(** A leased reader of [content] from which [pos] bytes were taken. *)
Definition reading (content : str) (pos : nat) (reader : blobReader) (st : readState) : Prop :=
  readClosed st = false /\ process st = Some (drop pos content ++ [LF]) /\ (pos <= length content)%nat
  /\ br_remaining reader = Z.of_nat (length content - pos) /\ br_closed reader = false.

(** ** Lemmas *)

Lemma is_digit_LF c : is_digit c = true -> c <> LF.
Proof. by intros H ->. Qed.

Lemma validObjectID_bytes id c : validObjectID id = true -> c ∈ id -> 48 <= code c <= 57 \/ 97 <= code c <= 102.
Proof.
  intros [_ HF]%andb_true_iff Hc. rewrite forallb_forall in HF.
  assert (forall r, r ∈ (runes id).*1 -> 48 <= r <= 57 \/ 97 <= r <= 102) as Hr.
  { intros r Hin. specialize (HF r (proj1 (list_elem_of_In _ _) Hin)).
    rewrite orb_true_iff, !andb_true_iff, !Z.leb_le in HF. lia. }
  assert (ascii_only id) as Ha.
  { apply runes_all_ascii, Forall_forall. intros rb Hin. specialize (Hr rb.1 (list_elem_of_fmap_2 fst _ _ Hin)). lia. }
  rewrite runes_ascii in Hr by done. apply Hr. rewrite <- list_fmap_compose. by apply (list_elem_of_fmap_2 code).
Qed.

Lemma validObjectID_query id : validObjectID id = true -> query_spec id.
Proof.
  intros Hid. split; intros Hc; pose proof (validObjectID_bytes id _ Hid Hc) as Hb;
    [change (code CR) with 13 in Hb | change (code LF) with 10 in Hb]; lia.
Qed.

Lemma header_no_LF objects `{GitObjects objects} spec o : objects spec = Some o ->
  LF ∉ Join [o_oid o; o_kind o; FormatUint (Z.of_nat (length (o_content o))) 10] " ".
Proof.
  intros Ho. destruct (git_header spec o Ho) as (_ & _ & _ & [_ H1] & H2 & _).
  cbn [Join]. rewrite !not_elem_of_app. split_and!; try done.
  - apply (bool_decide_unpack _). by vm_compute.
  - apply (bool_decide_unpack _). by vm_compute.
  - intros Hin. pose proof (FormatUint_decimal (Z.of_nat (length (o_content o)))) as HF.
    rewrite Forall_forall in HF. by apply (is_digit_LF LF); [apply HF|].
Qed.

(** A header line ends in a digit, a "missing" line does not. *)
Lemma header_not_missing a b n spec :
  Join [a; b; FormatUint n 10] " " = spec ++ " missing" -> False.
Proof.
  intros E. pose proof (FormatUint_decimal n) as HF. pose proof (FormatUint_nonempty n 10) as Hne.
  destruct (exists_last Hne) as (d & c & Ed). rewrite Ed in *.
  apply Forall_app in HF as [_ Hc]. inversion Hc as [|? ? Hd]; subst.
  change (Join [a; b; d ++ [c]] " ") with (a ++ " " ++ b ++ " " ++ d ++ [c]) in E.
  change (list_ascii_of_string " missing") with (list_ascii_of_string " missin" ++ ["g"%char]) in E.
  rewrite !app_assoc in E. apply app_inj_tail in E as [_ ->]. done.
Qed.

Section Lemmas.
Context `{GitObjects objects}.

Lemma queryObjectInner_ok (command : str) spec kind :
  command = "info" \/ command = "contents" -> query_spec spec ->
  queryObjectInner command spec kind [] =
  match objects spec with
  | None => (Err (Sentinel ErrNoSuchMessage), [])
  | Some o =>
      (if decide (o_kind o = kind)
       then Ok {| h_oid := o_oid o; h_kind := o_kind o; h_size := Z.of_nat (length (o_content o)) |}
       else Err (New "invalid git object header"),
       if decide (command = "contents") then o_content o ++ [LF] else [])
  end.
Proof.
  intros Hcmd Hs. unfold queryObjectInner.
  rewrite (proj2 (ContainsAny_false _ _)) by (destruct Hs; set_solver).
  rewrite git_reads, git_answers by done. cbn [app]. unfold answer, read_line.
  destruct (objects spec) as [o|] eqn:Ho.
  - pose proof (header_no_LF objects spec o Ho) as Hl.
    destruct (git_header spec o Ho) as (Hid & Hw1 & Hw2 & Hq & Hk & Hlen).
    rewrite Cut_app by done. rewrite decide_False by (intros E; by apply header_not_missing in E).
    rewrite Fields_Join by (rewrite !Forall_cons; split_and!; auto using word_decimal, Forall_nil).
    rewrite Hid, ParseInt_FormatUint by lia. cbn [negb orb].
    destruct (decide (o_kind o = kind)) as [E|E];
      [rewrite (bool_decide_eq_true_2 _ E) | rewrite (bool_decide_eq_false_2 _ E); done].
    cbn [negb]. rewrite (proj2 (Z.ltb_ge _ 0)) by lia. done.
  - rewrite Cut_app.
    + rewrite decide_True by done. done.
    + rewrite not_elem_of_app. split; [apply Hs|]. apply (bool_decide_unpack _). by vm_compute.
Qed.

Lemma readerLocked_ready st : ready st ->
  exists st', readerLocked st = (Ok [], st') /\ readClosed st' = false /\ leased st' = false
    /\ process st' = Some [].
Proof.
  intros (Hc & Hl & Hp). unfold readerLocked. cbn. rewrite Hc.
  destruct (process st) as [p|] eqn:E.
  - destruct Hp as [?|[= ->]]; [done|]. eexists. split_and!; try done.
  - rewrite git_starts. eexists. split_and!; try done.
Qed.

Lemma arm_ready st : readClosed st = false -> leased st = false -> process st = Some [] ->
  ready (armReadIdleLocked st).
Proof. intros H1 H2 H3. unfold armReadIdleLocked. rewrite H3, H1. split_and!; cbn; auto. Qed.

Lemma arm_dead st : readClosed st = false -> leased st = false -> process st = None ->
  ready (armReadIdleLocked st).
Proof. intros H1 H2 H3. unfold armReadIdleLocked. rewrite H3. split_and!; auto. Qed.

(** [objectInfo] returns the header and leaves the pipe at a boundary. *)
Lemma objectInfo_ok st spec kind : ready st -> query_spec spec ->
  exists r st', objectInfo spec kind st = (r, st') /\ ready st' /\
  match objects spec with
  | None => r = Err (Sentinel ErrNoSuchMessage)
  | Some o => if decide (o_kind o = kind)
              then r = Ok {| h_oid := o_oid o; h_kind := o_kind o; h_size := Z.of_nat (length (o_content o)) |}
              else is_ok r = false
  end.
Proof.
  intros Hr Hs. unfold objectInfo. destruct (readerLocked_ready st Hr) as (s1 & -> & Hc & Hl & Hp).
  unfold queryObject. rewrite Hp, queryObjectInner_ok, git_in_time by auto.
  destruct (objects spec) as [o|].
  - rewrite (decide_False (P := list_ascii_of_string "info" = list_ascii_of_string "contents")) by done.
    case_decide.
    + do 2 eexists. split; [done|]. split; [|done]. unfold armReadIdleLocked; cbn; rewrite Hc; split_and!; cbn; auto.
    + cbn. do 2 eexists. split; [done|]. split; [|done]. split_and!; cbn; auto.
  - cbn. do 2 eexists. split; [done|]. split; [|done]. unfold armReadIdleLocked; cbn; rewrite Hc; split_and!; cbn; auto.
Qed.

Lemma readObject_ok st spec kind o : ready st -> query_spec spec -> objects spec = Some o -> o_kind o = kind ->
  exists reader st', readObject spec kind st = (Ok reader, st') /\ reading (o_content o) 0 reader st'
    /\ br_header reader = {| h_oid := o_oid o; h_kind := o_kind o; h_size := Z.of_nat (length (o_content o)) |}.
Proof.
  intros Hr Hs Ho Hk. unfold readObject. destruct (readerLocked_ready st Hr) as (s1 & -> & Hc & Hl & Hp).
  unfold queryObject. rewrite Hp, queryObjectInner_ok, git_in_time, Ho by auto. rewrite !decide_True by done.
  do 2 eexists. split; [done|]. split; [|done]. split_and!; cbn; try done; lia.
Qed.

Lemma readObject_fail st spec kind : ready st -> query_spec spec ->
  (forall o, objects spec = Some o -> o_kind o <> kind) ->
  exists e st', readObject spec kind st = (Err e, st') /\ ready st'
    /\ (objects spec = None -> e = Sentinel ErrNoSuchMessage).
Proof.
  intros Hr Hs Hk. unfold readObject. destruct (readerLocked_ready st Hr) as (s1 & -> & Hc & Hl & Hp).
  unfold queryObject. rewrite Hp, queryObjectInner_ok, git_in_time by auto.
  destruct (objects spec) as [o|].
  - rewrite decide_False by (by apply Hk). cbn. do 2 eexists. split; [done|]. split; [|done]. split_and!; cbn; auto.
  - cbn. do 2 eexists. split; [done|]. split; [|done]. unfold armReadIdleLocked; cbn; rewrite Hc; split_and!; cbn; auto.
Qed.

(** One [Read] returns the next bytes of the content. *)
Lemma Read_ok content pos reader st len avail : reading content pos reader st ->
  exists n reader' st', blobReader_Read len (S avail) reader st
      = (take n (drop pos content), (if (len =? 0)%nat then None else
           if (pos =? length content)%nat then Some (Sentinel IoEOF) else None), reader', st')
    /\ reading content (pos + n) reader' st' /\ br_header reader' = br_header reader
    /\ (len <> 0%nat -> (pos < length content)%nat -> (1 <= n)%nat).
Proof.
  intros (Hc & Hp & Hpos & Hrem & Hcl). unfold blobReader_Read. rewrite Hcl.
  destruct (Nat.eqb_spec len 0) as [->|Hlen].
  { exists 0%nat, reader, st. rewrite take_0, Nat.add_0_r. split_and!; try done. }
  destruct (Z.eqb_spec (br_remaining reader) 0) as [Hz|Hz].
  { rewrite (proj2 (Nat.eqb_eq pos (length content))) by lia.
    exists 0%nat, reader, st. rewrite take_0, Nat.add_0_r. split_and!; try done; lia. }
  rewrite (proj2 (Nat.eqb_neq pos (length content))) by lia.
  rewrite Hp. cbn [default from_option]. change (id ?x) with x.
  set (n := Nat.min (Nat.min len (Z.to_nat (br_remaining reader))) (S avail)).
  assert (n <= length content - pos)%nat as Hn by lia.
  exists n. rewrite git_in_time, take_app_le, drop_app_le by (rewrite length_drop; lia).
  rewrite decide_False by (intros E; apply (f_equal length) in E; rewrite length_app in E; simpl in E; lia).
  do 2 eexists. split; [done|]. unfold reading. split_and!; cbn; try done; try lia.
  - by rewrite drop_drop.
  - rewrite length_take, length_drop. lia.
Qed.

(** [Close] skips what was not read and stops at the next header. *)
Lemma Close_ok content pos reader st : reading content pos reader st ->
  exists reader' st', blobReader_Close reader st = (None, reader', st') /\ ready st'
    /\ br_header reader' = br_header reader.
Proof.
  intros (Hc & Hp & Hpos & Hrem & Hcl). unfold blobReader_Close. rewrite Hcl, Hp.
  cbn [default from_option]. change (id ?x) with x. rewrite Hrem, Nat2Z.id.
  rewrite (proj2 (Nat.ltb_ge _ _)) by (rewrite length_app, length_drop; lia).
  replace (length content - pos)%nat with (length (drop pos content)) by (by rewrite length_drop).
  rewrite drop_app_length, git_in_time. cbn. do 2 eexists. split; [done|]. split; [|done].
  unfold armReadIdleLocked. cbn. rewrite Hc. split_and!; cbn; auto.
Qed.

Lemma ReadAll_ok content fuel : forall pos acc reader st, reading content pos reader st ->
  (length content - pos + 2 <= fuel)%nat ->
  exists reader' st', ReadAll fuel acc reader st = (Ok (acc ++ drop pos content), reader', st')
    /\ reading content (length content) reader' st' /\ br_header reader' = br_header reader.
Proof.
  induction fuel as [|fuel IH]; intros pos acc reader st Hr Hf; [lia|]. cbn [ReadAll].
  destruct (Read_ok content pos reader st 512 (chunk fuel) Hr) as (n & r1 & s1 & -> & Hr1 & Hh & Hn).
  cbn [Nat.eqb]. pose proof Hr as (_ & _ & Hpos & _). destruct (Nat.eqb_spec pos (length content)) as [->|Hne].
  - cbn. rewrite drop_ge, take_nil by done. exists r1, s1. split; [done|]. split; [|done].
    destruct Hr1 as (H1 & H2 & H3 & H4 & H5). assert (n = 0)%nat as -> by lia.
    by rewrite Nat.add_0_r in *.
  - specialize (Hn ltac:(done) ltac:(lia)).
    destruct (IH (pos + n)%nat (acc ++ take n (drop pos content)) r1 s1 Hr1 ltac:(lia))
      as (r2 & s2 & -> & Hr2 & Hh2).
    exists r2, s2. split_and!; [|done|congruence].
    rewrite <- app_assoc, <- drop_drop, take_drop. done.
Qed.

(** [Store.tree]: the parsed entries of a tree object, the pipe at a boundary. *)
Lemma tree_ok st spec o : ready st -> query_spec spec -> objects spec = Some o -> o_kind o = "tree" ->
  Z.of_nat (length (o_content o)) <= 256 * 1024 ->
  exists r st', tree spec st = (r, st') /\ ready st' /\
  r = (let! entries := parseTree (o_content o) (length (o_oid o) / 2) in
       if idRadix + 3 <? Z.of_nat (length entries) then Err (New "archive directory exceeds fanout")
       else Ok (entries, o_oid o)).
Proof.
  intros Hr Hs Ho Hk Hlen. unfold tree.
  destruct (readObject_ok st spec "tree" o Hr Hs Ho Hk) as (r0 & s0 & -> & Hr0 & Hh).
  pose proof Hr0 as (_ & _ & _ & Hrem & _).
  rewrite (proj2 (Z.ltb_ge _ _)) by lia.
  destruct (ReadAll_ok (o_content o) (S (S (Z.to_nat (br_remaining r0)))) 0 [] r0 s0 Hr0 ltac:(lia))
    as (r1 & s1 & -> & Hr1 & Hh1).
  destruct (Close_ok _ _ _ _ Hr1) as (r2 & s2 & -> & Hr2 & Hh2).
  rewrite Hh2, Hh1, Hh. cbn [h_oid app drop]. rewrite drop_0.
  destruct (parseTree (o_content o) (length (o_oid o) / 2)) as [es|e] eqn:E; cbn [rbind].
  - case_match; do 2 eexists; split_and!; done.
  - cbn. do 2 eexists. split_and!; done.
Qed.

Lemma tree_missing st spec : ready st -> query_spec spec ->
  (forall o, objects spec = Some o -> o_kind o <> "tree") ->
  exists e st', tree spec st = (Err e, st') /\ ready st'.
Proof.
  intros Hr Hs Hk. unfold tree. destruct (readObject_fail st spec "tree" Hr Hs Hk) as (e & s & -> & ? & _). eauto.
Qed.
End Lemmas.
