(* ===== verification/GitCommand.v ===== *)
(** * Running Git (internal/archive/git.go: gitCommand, git, runGit; import.go: gitDiagnostics)

    Every Git process gets the same options and an environment in which no
    [GIT_] variable of the daemon's own survives; a command that fails carries
    Git's diagnostics, which are bounded. *)

From S2P Require Import Prelude GoStrings Tree CatFile.

(** ** Data *)

(** [exec.Cmd]: the program, its arguments, the environment and the process group. *)
Record command := { cmd_name : str; cmd_args : list str; cmd_env : list str; cmd_Setpgid : bool }.

(** What a started process does with its input: the two output streams, how
    [Wait] ends, and the interruption [watchGit] reports within a timeout. *)
Record finished := { fin_stdout : str; fin_stderr : str; fin_wait : option error; fin_interruption : option error }.

(** The operating system: whether a command starts, and what it does. *)
Class Processes := { execute : command -> Z -> str -> result finished }.

(** ** Operations *)

Definition gitOperationTimeout : Z := 30000000000.
Definition gitIdleTimeout : Z := 30000000000.

Definition git_options (root : str) : list str :=
  ["--git-dir=" ++ root;
   "-c" : str; "core.hooksPath=/dev/null" : str; "-c" : str; "core.fsmonitor=false" : str;
   "-c" : str; "core.attributesFile=/dev/null" : str; "-c" : str; "core.autocrlf=false" : str;
   "-c" : str; "commit.gpgSign=false" : str; "-c" : str; "gc.auto=0" : str; "-c" : str; "maintenance.auto=false" : str;
   "-c" : str; "core.fsync=committed" : str; "-c" : str; "core.fsyncMethod=fsync" : str].

Definition git_variables : list (str * str) :=
  [("GIT_CONFIG_NOSYSTEM" : str, "1" : str); ("GIT_CONFIG_GLOBAL" : str, "/dev/null" : str);
   ("GIT_NO_REPLACE_OBJECTS" : str, "1" : str); ("GIT_TERMINAL_PROMPT" : str, "0" : str);
   ("GIT_AUTHOR_NAME" : str, "picomx" : str); ("GIT_AUTHOR_EMAIL" : str, "picomx@localhost" : str);
   ("GIT_COMMITTER_NAME" : str, "picomx" : str); ("GIT_COMMITTER_EMAIL" : str, "picomx@localhost" : str)].

Definition assignment (kv : str * str) : str := kv.1 ++ "=" ++ kv.2.

(** The loop over [os.Environ()]. *)
Fixpoint inherited_env (environ : list str) : list str :=
  match environ with
  | [] => []
  | variable :: rest =>
      if negb (HasPrefix variable "GIT_") then variable :: inherited_env rest else inherited_env rest
  end.

(** [gitCommand]; [environ] is [os.Environ()]. *)
Definition gitCommand (root : str) (environ args : list str) : command :=
  {| cmd_name := "git"; cmd_args := git_options root ++ args;
     cmd_env := inherited_env environ ++ (assignment <$> git_variables); cmd_Setpgid := true |}.

Section Run.
Context `{Processes}.

(** [runGit]; the arguments are never empty where it is called. *)
Definition runGit (root : str) (environ : list str) (timeout : Z) (input : str) (args : list str) : result str :=
  match execute (gitCommand root environ args) timeout input with
  | Err e => Err e
  | Ok f =>
      match watchGit (fin_interruption f) (match fin_wait f with Some e => Err e | None => Ok tt end) with
      | Err e => Err (Joined (Wrap "git" e) (New (string_of_list_ascii (TrimSpace (fin_stderr f)))))
      | Ok _ => Ok (fin_stdout f)
      end
  end.

Definition git (root : str) (environ : list str) (input : str) (args : list str) : result str :=
  runGit root environ gitOperationTimeout input args.
End Run.

(** *** gitDiagnostics *)

Definition diagnostics_limit : nat := 4096.

(** [gitDiagnostics.Write]: what is reported as written, and the data kept.  A
    negative slice bound panics. *)
Definition gitDiagnostics_Write (data kept : str) : result Z * str :=
  let remaining := Z.of_nat diagnostics_limit - Z.of_nat (length kept) in
  let remaining := if Z.of_nat (length data) <? remaining then Z.of_nat (length data) else remaining in
  if remaining <? 0 then (Err (Panicked "slice bounds out of range"), kept)
  else (Ok (Z.of_nat (length data)), kept ++ take (Z.to_nat remaining) data).

Definition gitDiagnostics_String (kept : str) : str := TrimSpace kept.

(** The writes of a child's standard error, in order. *)
Definition diagnostics (writes : list str) : str :=
  foldl (fun kept data => (gitDiagnostics_Write data kept).2) [] writes.

(** ** The environment a process sees *)

(** The value of [key]: [os/exec] keeps the last assignment of a name. *)
Fixpoint env_value (key : str) (env : list str) : option str :=
  match env with
  | [] => None
  | variable :: rest =>
      match env_value key rest with
      | Some value => Some value
      | None => if HasPrefix variable (key ++ "=") then Some (drop (length key + 1) variable) else None
      end
  end.

(** ** Lemmas *)

Lemma env_value_app key a b :
  env_value key (a ++ b) = match env_value key b with Some v => Some v | None => env_value key a end.
Proof.
  induction a as [|x a IH]; cbn; [by destruct (env_value key b)|]. rewrite IH. by destruct (env_value key b).
Qed.

Lemma HasPrefix_trans s p q : HasPrefix s (p ++ q) = true -> HasPrefix s p = true.
Proof. rewrite !HasPrefix_spec. intros [t ->]. exists (q ++ t). by rewrite app_assoc. Qed.

Lemma HasPrefix_same s p q : HasPrefix s p = true -> HasPrefix s q = true -> (length q <= length p)%nat -> HasPrefix p q = true.
Proof.
  rewrite !HasPrefix_spec. intros [t ->] [u E] Hl. apply (f_equal (take (length p))) in E.
  rewrite take_app_length, take_app_ge in E by done. by eexists.
Qed.

(** A name that begins with [GIT_] is never inherited; any other is kept. *)
Lemma inherited_git key environ : HasPrefix key "GIT_" = true -> env_value key (inherited_env environ) = None.
Proof.
  intros Hk. induction environ as [|x environ IH]; [done|]. cbn [inherited_env].
  destruct (HasPrefix x "GIT_") eqn:Hx; cbn [negb env_value]; [exact IH|].
  rewrite IH. destruct (HasPrefix x (key ++ "=")) eqn:E; [|done]. exfalso.
  apply HasPrefix_trans in E. apply HasPrefix_spec in Hk as [t ->]. apply HasPrefix_trans in E. congruence.
Qed.

Lemma inherited_other key environ : HasPrefix (key ++ "=") "GIT_" = false ->
  env_value key (inherited_env environ) = env_value key environ.
Proof.
  intros Hk. induction environ as [|x environ IH]; [done|]. cbn [inherited_env].
  destruct (HasPrefix x "GIT_") eqn:Hx; cbn [negb env_value]; rewrite IH; [|done].
  destruct (env_value key environ); [done|]. destruct (HasPrefix x (key ++ "=")) eqn:E; [|done]. exfalso.
  destruct (decide (length key < 3)%nat) as [Hs|Hs].
  - apply (HasPrefix_same x "GIT_") in E; [|done | rewrite length_app; cbn; lia].
    apply HasPrefix_spec in E as [t E]. assert ("="%char ∈ ("GIT_" : str)) as Hin.
    { rewrite E. apply elem_of_app. left. apply elem_of_app. right. by left. }
    revert Hin. apply (bool_decide_unpack ("="%char ∉ ("GIT_" : str))). by vm_compute.
  - apply (HasPrefix_same x (key ++ "=") "GIT_") in E; [congruence | done | rewrite length_app; cbn; lia].
Qed.

Lemma env_value_assigned (k v key : str) env : "="%char ∉ key -> "="%char ∉ k ->
  env_value key (assignment (k, v) :: env) =
    match env_value key env with Some value => Some value | None => if decide (k = key) then Some v else None end.
Proof.
  intros Hk Hk'. cbn [env_value]. destruct (env_value key env); [done|]. unfold assignment. cbn [fst snd]. case_decide as E.
  - subst k. rewrite (proj2 (HasPrefix_spec _ _)) by (exists v; by rewrite <- app_assoc).
    rewrite app_assoc, drop_app_length' by (rewrite length_app; done). done.
  - destruct (HasPrefix _ _) eqn:Hp; [|done]. exfalso. apply HasPrefix_spec in Hp as [t Hp].
    apply (f_equal (fun s => (Cut s "="%char).1.1)) in Hp. rewrite <- app_assoc in Hp.
    change (k ++ ("=" : str) ++ v) with (k ++ "="%char :: v) in Hp.
    change (key ++ ("=" : str) ++ t) with (key ++ "="%char :: t) in Hp. by rewrite !Cut_app in Hp.
Qed.

Lemma fixed_variable (l : list (str * str)) key : "="%char ∉ key -> Forall (fun kv => "="%char ∉ kv.1) l -> NoDup l.*1 ->
  env_value key (assignment <$> l) = assoc key l.
Proof.
  intros Hk. induction l as [|[k v] l IH]; [done|]. intros [Hk' HF]%Forall_cons. rewrite !fmap_cons. intros [Hnk HN]%NoDup_cons.
  rewrite env_value_assigned, IH by done. cbn [assoc]. case_decide as E; [|by destruct (assoc key l)].
  subst k. by rewrite (proj2 (assoc_None key l)).
Qed.

Lemma git_variables_named : Forall (fun kv : str * str => "="%char ∉ kv.1) git_variables /\ NoDup git_variables.*1.
Proof. split; apply (bool_decide_unpack _); by vm_compute. Qed.

Lemma diagnostics_snoc writes data : diagnostics (writes ++ [data]) = (gitDiagnostics_Write data (diagnostics writes)).2.
Proof. unfold diagnostics. by rewrite foldl_app. Qed.

Lemma diagnostics_kept writes : diagnostics writes = take diagnostics_limit (mjoin writes).
Proof.
  induction writes as [|data writes IH] using rev_ind; [done|]. rewrite diagnostics_snoc, IH, join_app.
  unfold gitDiagnostics_Write. rewrite length_take. set (all := mjoin writes). cbn [mjoin list_join]. rewrite app_nil_r.
  rewrite take_app.
  destruct (Z.ltb_spec (Z.of_nat (length data)) (Z.of_nat diagnostics_limit - Z.of_nat (diagnostics_limit `min` length all))) as [Hlt|Hge].
  - rewrite (proj2 (Z.ltb_ge _ _)) by lia. cbn [snd]. f_equal. rewrite Nat2Z.id. rewrite !take_ge by lia. done.
  - rewrite (proj2 (Z.ltb_ge _ _)) by lia. cbn [snd]. f_equal. f_equal. lia.
Qed.

(** ** Properties *)

(** Git runs in a fixed environment.  Whatever variables the daemon was
    started with, a [GIT_] variable has the value the program sets or none, every
    other variable is passed on, and the options that turn off hooks, user
    configuration and automatic maintenance precede the command's own. *)
Theorem git_runs_in_a_fixed_environment (root : str) (environ args : list str) (key : str) :
  "="%char ∉ key ->
  let c := gitCommand root environ args in
  env_value key (cmd_env c) = (if HasPrefix key "GIT_" then assoc key git_variables
                               else env_value key environ) /\
  cmd_args c = git_options root ++ args /\ cmd_Setpgid c = true.
Proof.
  intros Hn c. split; [|done]. destruct git_variables_named as [Hf Hd]. cbn [cmd_env c gitCommand].
  rewrite env_value_app, (fixed_variable git_variables key Hn Hf Hd). destruct (HasPrefix key "GIT_") eqn:Hp.
  - destruct (assoc key git_variables); [done|]. by apply inherited_git.
  - destruct (assoc key git_variables) as [v|] eqn:E.
    + exfalso. apply assoc_elem in E. assert (forallb (fun kv : str * str => HasPrefix kv.1 "GIT_") git_variables = true) as Ht by (by vm_compute).
      rewrite forallb_Forall, Forall_forall in Ht. specialize (Ht _ E). cbn [fst] in Ht. congruence.
    + apply inherited_other. destruct (HasPrefix (key ++ "=") "GIT_") eqn:E2; [|done]. exfalso.
      destruct (decide (length key < 4)%nat) as [Hs|Hs].
      * apply HasPrefix_spec in E2 as [t E2]. apply (f_equal (fun s : str => s !! length key)) in E2.
        rewrite lookup_app_r, Nat.sub_diag in E2 by lia.
        change (("=" : str) !! 0%nat) with (Some "="%char) in E2. rewrite lookup_app_l in E2 by (cbn; lia).
        do 4 (destruct key as [|? key]; [by vm_compute in E2|]). cbn in Hs. lia.
      * assert (HasPrefix (key ++ "=") key = true) as Hk by (apply HasPrefix_spec; by eexists).
        apply (HasPrefix_same _ _ _ Hk) in E2; [congruence | cbn; lia].
Qed.

(** The diagnostics of a child are bounded and lose nothing that fits: after
    any writes they are the first 4096 bytes of what was written, every write
    reports all of its bytes, and none panics. *)
Theorem diagnostics_are_bounded (writes : list str) (data : str) :
  let kept := diagnostics writes in
  kept = take diagnostics_limit (mjoin writes) /\ (length kept <= diagnostics_limit)%nat /\
  (gitDiagnostics_Write data kept).1 = Ok (Z.of_nat (length data)).
Proof.
  intros kept. assert (kept = take diagnostics_limit (mjoin writes)) as E by apply diagnostics_kept.
  split; [exact E|]. assert (length kept <= diagnostics_limit)%nat as Hl by (rewrite E, length_take; lia).
  split; [exact Hl|]. unfold gitDiagnostics_Write.
  destruct (Z.ltb_spec (Z.of_nat (length data)) (Z.of_nat diagnostics_limit - Z.of_nat (length kept)));
    rewrite (proj2 (Z.ltb_ge _ _)) by lia; done.
Qed.

(** ** Witness *)

Lemma git_runs_in_a_fixed_environment_witness :
  let environ := ["PATH=/bin" : str; "GIT_DIR=/elsewhere" : str; "GIT_AUTHOR_NAME=mallory" : str] in
  env_value "GIT_DIR" (cmd_env (gitCommand "/a" environ [])) = None /\
  env_value "GIT_AUTHOR_NAME" (cmd_env (gitCommand "/a" environ [])) = Some ("picomx" : str).
Proof.
  intros environ. assert (forall key : str, bool_decide ("="%char ∉ key) = true -> "="%char ∉ key) as Hn
    by (intros key Hk; by apply bool_decide_eq_true in Hk).
  split.
  - rewrite (proj1 (git_runs_in_a_fixed_environment "/a" environ [] "GIT_DIR" (Hn "GIT_DIR" ltac:(by vm_compute)))). reflexivity.
  - rewrite (proj1 (git_runs_in_a_fixed_environment "/a" environ [] "GIT_AUTHOR_NAME" (Hn "GIT_AUTHOR_NAME" ltac:(by vm_compute)))).
    reflexivity.
Defined.
