(* ===== verification/Listing.v ===== *)
(** * Directory listings (internal/archive/tree.go, mailbox.go readers)

    [Store.directory] asks git for the tree object of an archive directory and
    returns its messages in ID order, through the LRU cache keyed by path and
    tree object.  The theorems relate it to a pure listing of the repository,
    and the listing to the files a commit contains. *)

From S2P Require Import Prelude GoStrings IdPath Directories Numbering Cache Tree CatFile.

(** ** Data *)

(** The part of [Store] guarded by [readMu], and the directory cache. *)
Record readerStore := { rs_read : readState; rs_cache : directoryCache }.

(** ** Operations *)

Definition with_read {A} (m : M readState A) : M readerStore A := fun st =>
  let '(r, read) := m (rs_read st) in (r, {| rs_read := read; rs_cache := rs_cache st |}).

Definition less_id (a b : Message) : bool := ID a <? ID b.

Fixpoint directory_entries (path : str) (entries : list treeEntry) : result (list Message) :=
  match entries with
  | [] => Ok []
  | entry :: rest =>
      if negb (bool_decide (mode entry = "100644")) then Err (New "message directory contains a subtree")
      else
        let! message := messageFromPath (path ++ "/" ++ name entry) in
        let! messages := directory_entries path rest in
        Ok (message :: messages)
  end.

(** The loop that compares each message with its predecessor. *)
Fixpoint repeated_id (messages : list Message) : bool :=
  match messages with
  | a :: (b :: _) as rest => (ID a =? ID b) || repeated_id rest
  | _ => false
  end.

Definition directory_messages (path : str) (entries : list treeEntry) : result (list Message) :=
  let! messages := directory_entries path entries in
  let messages := sort_Slice less_id messages in
  if repeated_id messages then Err (New "duplicate message ID in directory") else Ok messages.

Section Directory.
Context `{CatFile}.

(** [Store.directory]. *)
Definition directory (commit path : str) : M readerStore (list Message) :=
  let* header := with_read (objectInfo (commit ++ ":" ++ path) "tree") in
  let key := {| dk_path := path; dk_tree := h_oid header |} in
  fun st =>
    match cache_get (rs_cache st) key with
    | (Some messages, cache) => (Ok messages, {| rs_read := rs_read st; rs_cache := cache |})
    | (None, cache) =>
        (let* (entries, _) := with_read (tree (h_oid header)) in
         let* messages := mlift (directory_messages path entries) in
         fun st => (Ok messages, {| rs_read := rs_read st; rs_cache := cache_put (rs_cache st) key messages |}))
        {| rs_read := rs_read st; rs_cache := cache |}
    end.

(** [Store.readBlob]. *)
Definition readBlob (commit path : str) : M readState blobReader := readObject (commit ++ ":" ++ path) "blob".
End Directory.

(** ** Specification: what a repository lists *)

Definition tree_messages (o : gitObject) (path : str) : result (list Message) :=
  if 256 * 1024 <? Z.of_nat (length (o_content o)) then Err (New "archive tree exceeds bounded directory size")
  else
    let! entries := parseTree (o_content o) (length (o_oid o) / 2) in
    if idRadix + 3 <? Z.of_nat (length entries) then Err (New "archive directory exceeds fanout")
    else directory_messages path entries.

Definition listing (objects : str -> option gitObject) (commit path : str) : result (list Message) :=
  match objects (commit ++ ":" ++ path) with
  | None => Err (Sentinel ErrNoSuchMessage)
  | Some o =>
      if decide (o_kind o = "tree") then tree_messages o path else Err (New "invalid git object header")
  end.

(** What is cached is the listing of that tree object. *)
Definition cached (objects : str -> option gitObject) (key : directoryKey) (messages : list Message) : Prop :=
  exists o, objects (dk_tree key) = Some o /\ o_oid o = dk_tree key /\ o_kind o = "tree"
    /\ tree_messages o (dk_path key) = Ok messages.

Record reader_ok (objects : str -> option gitObject) (st : readerStore) : Prop := {
  ro_ready : ready (rs_read st);
  ro_cache : cache_ok (rs_cache st);
  ro_holds : cache_holds (cached objects) (rs_cache st);
}.

(** A path and commit that can be put in a request line. *)
Definition request (commit path : str) : Prop := query_spec (commit ++ ":" ++ path).

(** ** [directory] computes the listing *)

Section Refinement.
Context `{GitObjects objects}.

Lemma tree_result st spec o path : ready st -> query_spec spec -> objects spec = Some o -> o_kind o = "tree" ->
  exists r st', tree spec st = (r, st') /\ ready st'
    /\ rbind r (fun x => directory_messages path x.1) = tree_messages o path.
Proof.
  intros Hr Hs Ho Hk. unfold tree_messages.
  destruct (Z.ltb_spec (256 * 1024) (Z.of_nat (length (o_content o)))) as [Hbig|Hsmall].
  - unfold tree. destruct (readObject_ok st spec "tree" o Hr Hs Ho Hk) as (r0 & s0 & -> & Hr0 & Hh).
    pose proof Hr0 as (_ & _ & _ & Hrem & _). rewrite (proj2 (Z.ltb_lt _ _)) by lia.
    destruct (Close_ok _ _ _ _ Hr0) as (r1 & s1 & -> & Hr1 & _). do 2 eexists. split_and!; done.
  - destruct (tree_ok st spec o Hr Hs Ho Hk Hsmall) as (r & st' & -> & Hr' & ->).
    do 2 eexists. split; [done|]. split; [done|].
    destruct (parseTree _ _); [|done]. cbn [rbind]. by case_match.
Qed.

Lemma directory_listing st commit path : reader_ok objects st -> request commit path ->
  exists r st', directory commit path st = (r, st') /\ reader_ok objects st'
    /\ (forall messages, r = Ok messages <-> listing objects commit path = Ok messages)
    /\ (objects (commit ++ ":" ++ path) = None -> r = Err (Sentinel ErrNoSuchMessage)).
Proof.
  intros [Hr Hc Hh] Hq. unfold directory, mbind_, with_read, listing.
  destruct (objectInfo_ok (rs_read st) _ "tree" Hr Hq) as (r & s1 & -> & Hr1 & Hres).
  destruct (objects (commit ++ ":" ++ path)) as [o|] eqn:Ho.
  2: { subst. do 2 eexists. split; [done|]. split; [by split|]. done. }
  destruct (decide (o_kind o = "tree")) as [Hk|Hk].
  2: { destruct r; [done|]. do 2 eexists. split; [done|]. split; [by split|]. done. }
  subst. cbn [rs_read rs_cache h_oid].
  set (key := {| dk_path := path; dk_tree := o_oid o |}).
  pose proof (cache_get_refines (rs_cache st) key Hc) as (Hc1 & _ & _).
  pose proof (cache_get_keeps _ _ key Hc Hh) as Hh1.
  destruct (cache_get (rs_cache st) key) as [[ms|] cache] eqn:Eg; cbn in Hc1, Hh1.
  - assert (cached objects key ms) as (o' & Ho' & Eo & Hk' & Hm) by (by eapply cache_get_holds; [| |rewrite Eg]).
    assert (o' = o) as -> by (by eapply git_content_addressed).
    do 2 eexists. split; [done|]. split; [by split|]. cbn in Hm. rewrite Hm. done.
  - assert (query_spec (o_oid o)) as Hqo by (destruct (git_header _ _ Ho) as (_ & _ & _ & ? & _); done).
    destruct (tree_result s1 (o_oid o) o path Hr1 Hqo (git_by_id _ _ Ho) Hk) as (r & s2 & -> & Hr2 & Hm).
    destruct r as [[es oid]|e]; cbn [rbind fst] in Hm.
    2: { do 2 eexists. split; [done|]. split; [by split|]. by rewrite <- Hm. }
    unfold mlift. cbn [rs_cache]. rewrite <- Hm. destruct (directory_messages path es) as [ms|e] eqn:Em.
    + do 2 eexists. split; [done|]. split; [|done]. split; [done|by apply cache_put_refines|].
      apply cache_put_keeps; [done | done |]. exists o. cbn. split_and!; try done. by apply (git_by_id _ _ Ho).
    + do 2 eexists. split; [done|]. split; [by split|]. done.
Qed.
End Refinement.
