(* ===== verification/Contents.v ===== *)
(** * What a commit contains, and the listing it gives

    The mail archived in a commit as an abstract map from live IDs to message
    contents, the files that represent it, and Git's documented tree objects for
    those files.  The listing of a leaf directory is then exactly its messages. *)

From S2P Require Import Prelude GoStrings IdPath Directories Numbering Cache Tree CatFile Listing.

(** ** Data *)

(** Live archive IDs and their contents. *)
Abbreviation mailbox := (gmap Z str).

Definition octets (content : str) : Z := Z.of_nat (length content).

Definition file_name (id size : Z) : str :=
  Sprintf_03x (id mod idRadix) ++ "-s" ++ FormatUint size 10 ++ ".eml".

Definition mail_path (id size : Z) : str := leaf_dir id ++ "/"%char :: file_name id size.

Definition message_of (live : mailbox) (id : Z) : Message :=
  let size := octets (default [] (live !! id)) in {| ID := id; Size := size; Path := mail_path id size |}.

Definition live_ids (live : mailbox) : list Z := (map_to_list live).*1.

(** The files an archive may hold besides mail. *)
Definition root_files : list str := [("state" : str); (".gitignore" : str); (".gitattributes" : str)].

(** A commit's files are the mail and possibly the root files. *)
Record represents (files : gmap str str) (live : mailbox) : Prop := {
  rp_mail id content : live !! id = Some content -> files !! mail_path id (octets content) = Some content;
  rp_only path content : files !! path = Some content ->
    path ∈ root_files \/ exists id, live !! id = Some content /\ path = mail_path id (octets content);
}.

Definition live_ok (live : mailbox) (lastID : Z) : Prop :=
  forall id content, live !! id = Some content -> 1 <= id <= lastID /\ is_u64 (octets content).

(** Git's documented tree and blob objects for the files of a commit. *)
Record commit_holds (objects : str -> option gitObject) (commit : str) (files : gmap str str) : Prop := {
  ch_blob path content : files !! path = Some content ->
    exists o, objects (commit ++ ":" ++ path) = Some o /\ o_kind o = "blob" /\ o_content o = content;
  ch_tree dir name : files !! (dir ++ "/" ++ name) <> None ->
    exists o es, objects (commit ++ ":" ++ dir) = Some o /\ o_kind o = "tree" /\ o_content o = encode_tree es
      /\ Forall (fun e => length (raw_oid e) = (length (o_oid o) / 2)%nat /\ "/"%char ∉ raw_name e) es
      /\ NoDup (raw_name <$> es)
      /\ (forall e, e ∈ es ->
          (raw_mode e = "100644" /\ files !! (dir ++ "/" ++ raw_name e) <> None)
          \/ (raw_mode e = "40000" /\ exists rest, files !! (dir ++ "/" ++ raw_name e ++ "/" ++ rest) <> None))
      /\ (forall name, "/"%char ∉ name -> files !! (dir ++ "/" ++ name) <> None -> name ∈ raw_name <$> es);
  ch_only path o : objects (commit ++ ":" ++ path) = Some o -> o_kind o = "blob" -> files !! path = Some (o_content o);
  ch_directory id o : valid_id id -> objects (commit ++ ":" ++ leaf_dir id) = Some o -> o_kind o = "tree" ->
    exists name, files !! (leaf_dir id ++ "/" ++ name) <> None;
}.

(** ** Paths *)

Lemma messagePath_mail id size : valid_id id -> messagePath id size = Ok (mail_path id size).
Proof.
  intros Hv. rewrite messagePath_last by done. unfold mail_path, leaf_dir, file_name.
  change (list_ascii_of_string "/") with ["/"%char]. by rewrite Join_app.
Qed.

Lemma slash_notin_file id size : "/"%char ∉ file_name id size.
Proof.
  unfold file_name. rewrite !not_elem_of_app.
  split_and!; [apply hex3_notin; [apply mod_range | done] | set_solver | by apply FormatUint_notin | set_solver].
Qed.

Lemma FormatUint_length10 z : is_u64 z -> (length (FormatUint z 10) <= 20)%nat.
Proof.
  intros [H0 H1]. unfold FormatUint.
  assert (forall fuel z acc k, 0 <= z < 10 ^ Z.of_nat k -> (1 <= k)%nat ->
    (length (format_digits fuel 10 z acc) <= k + length acc)%nat) as Hl.
  { clear. induction fuel as [|fuel IH]; intros z acc k Hz Hk; cbn [format_digits]; [lia|].
    destruct k as [|k]; [lia|]. case_match; [simpl; lia|].
    rewrite Nat2Z.inj_succ, Z.pow_succ_r in Hz by lia.
    assert (0 <= z / 10 < 10 ^ Z.of_nat k) as Hd by (split; [apply Z.div_pos; lia | apply Z.div_lt_upper_bound; lia]).
    destruct k as [|k]; [simpl in Hd; lia|]. specialize (IH (z / 10) (digit_char (z mod 10) :: acc) (S k) Hd ltac:(lia)).
    simpl in *. lia. }
  specialize (Hl 64%nat z [] 20%nat). rewrite Nat.add_0_r in Hl. apply Hl; [|lia].
  change (10 ^ Z.of_nat 20) with 100000000000000000000. unfold MaxUint64 in *. lia.
Qed.

Lemma file_name_length id size : is_u64 size -> (length (file_name id size) <= 29)%nat.
Proof.
  intros Hs. unfold file_name. rewrite !length_app, hex3_length by apply mod_range.
  pose proof (FormatUint_length10 size Hs). simpl. lia.
Qed.

(** The characters a path is made of. *)
Lemma notin_Join c (l : list str) : c <> "/"%char -> Forall (fun p => c ∉ p) l -> c ∉ Join l "/".
Proof.
  intros Hc. induction 1 as [|p l Hp HF IH]; [set_solver|]. destruct l as [|q l]; [done|].
  change (Join (p :: q :: l) "/") with (p ++ ["/"%char] ++ Join (q :: l) "/").
  rewrite !not_elem_of_app. split_and!; [done | set_solver | done].
Qed.

Lemma notin_leaf_dir c id : valid_id id -> lower_alnum c = false -> c <> "/"%char -> c ∉ leaf_dir id.
Proof.
  intros Hv Hc Hs. apply notin_Join; [done|]. constructor.
  - destruct (Itoa_depth (depth id) (depth_bounds id Hv)) as (d & -> & Hd). pose proof (depth_bounds id Hv).
    intros ->%list_elem_of_singleton. revert Hc. unfold lower_alnum, is_digit.
    rewrite (proj2 (Z.leb_le 48 (code d))), (proj2 (Z.leb_le (code d) 57)) by lia. done.
  - unfold hexes. apply Forall_forall. intros p (d & -> & Hin)%list_elem_of_fmap.
    rewrite elem_of_reverse in Hin. pose proof (id_digits_bound 7 (id / idRadix)) as HB.
    rewrite Forall_forall in HB. apply hex3_notin; [by apply HB | done].
Qed.

Lemma notin_mail_path c id size : valid_id id -> lower_alnum c = false ->
  c <> "/"%char -> c <> "-"%char -> c <> "."%char -> c ∉ mail_path id size.
Proof.
  intros Hv Hc H1 H2 H3. unfold mail_path, file_name.
  rewrite !not_elem_of_app, not_elem_of_cons, !not_elem_of_app.
  split_and!; [by apply notin_leaf_dir | done | apply hex3_notin; [apply mod_range | done] | | by apply FormatUint_notin |].
  - intros Hin. apply list_elem_of_In in Hin. simpl in Hin. destruct Hin as [<-|[<-|[]]]; done.
  - intros Hin. apply list_elem_of_In in Hin. simpl in Hin. destruct Hin as [<-|[<-|[<-|[<-|[]]]]]; done.
Qed.

(** A file name inside a leaf directory comes from one message. *)
Lemma last_slash_inj (a b x y : str) : "/"%char ∉ x -> "/"%char ∉ y ->
  a ++ "/"%char :: x = b ++ "/"%char :: y -> a = b /\ x = y.
Proof.
  intros Hx Hy E. apply (f_equal (fun s => LastIndex s ["/"%char])) in E as EL.
  change (LastIndex (a ++ ["/"%char] ++ x) ["/"%char] = LastIndex (b ++ ["/"%char] ++ y) ["/"%char]) in EL.
  rewrite (LastIndex_single a "/"%char x Hx), (LastIndex_single b "/"%char y Hy) in EL. injection EL as EL.
  apply app_inj_1 in E as [-> E]; [|done]. by injection E as ->.
Qed.

Lemma mail_path_leaf id id0 size name : valid_id id -> valid_id id0 -> "/"%char ∉ name ->
  leaf_dir id0 ++ "/" ++ name = mail_path id size -> leaf_dir id = leaf_dir id0 /\ name = file_name id size.
Proof.
  intros _ _ Hn E. apply (last_slash_inj (leaf_dir id0) (leaf_dir id)) in E as [? ?];
    [done | done | apply slash_notin_file].
Qed.

(** A leaf directory has no subdirectory. *)
Lemma mail_path_not_below id id0 size a b : valid_id id -> valid_id id0 ->
  leaf_dir id0 ++ "/" ++ a ++ "/" ++ b = mail_path id size -> False.
Proof.
  intros Hv Hv0 E. apply (f_equal (fun s => Split s "/"%char)) in E.
  change (leaf_dir id0 ++ "/"%char :: a ++ "/"%char :: b = _) with
    (leaf_dir id0 ++ "/" ++ a ++ "/" ++ b = mail_path id size) in E.
  unfold mail_path in E. change ("/" ++ a ++ "/" ++ b) with ("/"%char :: a ++ "/"%char :: b) in E.
  rewrite !Split_app in E. unfold leaf_dir in E.
  rewrite !Split_Join_plain in E by auto with picomx.
  rewrite (Split_notin (file_name id size)) in E by apply slash_notin_file.
  assert (depth id0 = depth id) as Hd.
  { injection E as E _. apply (f_equal Atoi) in E.
    rewrite !Atoi_depth in E by (by apply depth_bounds). by injection E. }
  apply (f_equal length) in E. rewrite !length_app in E.
  pose proof (dir_parts_length id Hv). pose proof (dir_parts_length id0 Hv0).
  pose proof (Split_nonempty a "/"%char) as Ha. pose proof (Split_nonempty b "/"%char) as Hb.
  destruct (Split a "/"%char), (Split b "/"%char); try done. cbn [length] in E. lia.
Qed.

Lemma root_file_slash p dir name : p ∈ root_files -> p <> dir ++ "/" ++ name.
Proof.
  intros Hp ->. assert (forallb (fun p => negb (bool_decide ("/"%char ∈ p))) root_files = true) as HF by done.
  rewrite forallb_forall in HF. specialize (HF _ (proj1 (list_elem_of_In _ _) Hp)).
  apply negb_true_iff, bool_decide_eq_false in HF. apply HF. set_solver.
Qed.

(** ** The listing of a leaf directory *)

Lemma elem_of_live_ids live id : id ∈ live_ids live <-> is_Some (live !! id).
Proof.
  unfold live_ids. rewrite list_elem_of_fmap. split.
  - intros ([k c] & -> & Hin%elem_of_map_to_list). by exists c.
  - intros [c Hc]. exists (id, c). split; [done|]. by apply elem_of_map_to_list.
Qed.

Lemma NoDup_live_ids (live : mailbox) : NoDup (live_ids live).
Proof. apply NoDup_fst_map_to_list. Qed.

Lemma live_ids_bound (live : mailbox) lastID : live_ok live lastID -> Forall (fun id => 1 <= id <= lastID) (live_ids live).
Proof. intros Hl. apply Forall_forall. intros id [c Hc]%elem_of_live_ids. by destruct (Hl id c Hc). Qed.

Lemma live_ids_valid (live : mailbox) lastID : live_ok live lastID -> lastID <= MaxUint64 -> Forall valid_id (live_ids live).
Proof.
  intros Hl HM. eapply Forall_impl; [by apply (live_ids_bound live lastID)|]. unfold valid_id. simpl. lia.
Qed.

Lemma messageFromPath_mail id size : valid_id id -> is_u64 size ->
  messageFromPath (mail_path id size) = Ok {| ID := id; Size := size; Path := mail_path id size |}.
Proof.
  intros Hv Hs. pose proof (messagePath_mail id size Hv) as E. rewrite messagePath_form in E by done.
  apply Ok_inj in E. rewrite <- E. by apply messageFromPath_form.
Qed.

Lemma directory_entries_ok path (es : list treeEntry) (g : treeEntry -> Message) :
  (forall e, e ∈ es -> mode e = "100644" /\ messageFromPath (path ++ "/" ++ name e) = Ok (g e)) ->
  directory_entries path es = Ok (g <$> es).
Proof.
  induction es as [|e es IH]; intros He; [done|]. cbn [directory_entries].
  destruct (He e ltac:(set_solver)) as [-> ->]. rewrite bool_decide_eq_true_2 by done.
  cbn [negb rbind]. rewrite IH by (intros; apply He; set_solver). done.
Qed.

Lemma less_id_not_after x y : not_after less_id x y <-> ID x <= ID y.
Proof. unfold not_after, less_id. apply Z.ltb_ge. Qed.

#[export] Instance less_id_trans : Transitive (not_after less_id).
Proof. intros x y z. rewrite !less_id_not_after. lia. Qed.

Lemma less_id_asym x y : less_id x y = true -> less_id y x = false.
Proof. apply ltb_asym. Qed.

Lemma message_of_ID live id : ID (message_of live id) = id.
Proof. done. Qed.

Lemma sort_messages live (ms : list Message) (l : list Z) :
  ms ≡ₚ message_of live <$> l -> StronglySorted Z.lt l -> sort_Slice less_id ms = message_of live <$> l.
Proof.
  intros HP HS. apply (StronglySorted_unique_strong (not_after less_id)).
  - intros x y Hx Hy. rewrite !less_id_not_after. rewrite sort_Slice_perm, HP in Hx.
    apply list_elem_of_fmap in Hx as (i & -> & _). apply list_elem_of_fmap in Hy as (j & -> & _).
    rewrite !message_of_ID. intros. by assert (i = j) as -> by lia.
  - apply sort_Slice_sorted; [apply less_id_asym | apply _].
  - eapply StronglySorted_fmap; [|exact HS]. intros i j. rewrite less_id_not_after, !message_of_ID. lia.
  - by rewrite sort_Slice_perm.
Qed.

Lemma repeated_id_sorted live (l : list Z) : StronglySorted Z.lt l -> repeated_id (message_of live <$> l) = false.
Proof.
  induction 1 as [|x l HS IH HF]; [done|]. destruct l as [|y l]; [done|].
  change (repeated_id (message_of live <$> x :: y :: l))
    with ((x =? y) || repeated_id (message_of live <$> y :: l)). rewrite IH.
  apply Forall_inv in HF. destruct (Z.eqb_spec x y); [lia | done].
Qed.

Lemma encode_tree_bound (es : list rawEntry) n :
  Forall (fun e => (length (encode_entry e) <= n)%nat) es -> (length (encode_tree es) <= n * length es)%nat.
Proof.
  induction 1 as [|e es He HF IH]; [simpl; lia|].
  change (encode_tree (e :: es)) with (encode_entry e ++ encode_tree es). rewrite length_app. simpl. lia.
Qed.

Lemma file_archive_name id size : archive_name (file_name id size).
Proof.
  pose proof (slash_notin_file id size) as Hs.
  assert (forall c, lower_alnum c = false -> c <> "/"%char -> c <> "-"%char -> c <> "."%char ->
    c ∉ file_name id size) as Hn.
  { intros c H1 H2 H3 H4 Hin. apply (notin_mail_path c 1 size) in H1 as Hp; try done.
    unfold file_name in Hin. rewrite !elem_of_app in Hin.
    destruct Hin as [Hin|Hin]; [by apply hex3_notin in Hin; [|apply mod_range|]|].
    apply Hp. unfold mail_path, file_name. rewrite elem_of_app, elem_of_cons, !elem_of_app. tauto. }
  assert (9 <= length (file_name id size))%nat as Hl.
  { unfold file_name. rewrite !length_app, hex3_length by apply mod_range. simpl. lia. }
  split_and!; try (apply Hn; done); try done; intros E; rewrite E in Hl; simpl in Hl; lia.
Qed.

Section LeafListing.
Context (objects : str -> option gitObject) (commit : str) (files : gmap str str).
Context (live : mailbox) (lastID : Z).
Context (Hholds : commit_holds objects commit files) (Hrep : represents files live).
Context (Hlive : live_ok live lastID) (HM : lastID <= MaxUint64).

Lemma live_valid_id id content : live !! id = Some content -> valid_id id.
Proof using Hlive HM. intros Hc. destruct (Hlive _ _ Hc). unfold valid_id. lia. Qed.

(** A file directly inside a leaf directory is one of its messages. *)
Lemma file_in_leaf id0 name : valid_id id0 -> "/"%char ∉ name ->
  files !! (leaf_dir id0 ++ "/" ++ name) <> None ->
  exists id, id ∈ live_ids live /\ leaf_dir id = leaf_dir id0 /\ name = file_name id (octets (default [] (live !! id))).
Proof using Hrep Hlive HM.
  intros Hv Hn Hf. destruct (files !! _) as [content|] eqn:E; [|done].
  destruct (rp_only _ _ Hrep _ _ E) as [Hr|(id & Hid & Ep)]; [by eapply root_file_slash in Hr|].
  apply mail_path_leaf in Ep as [El En]; [|by eapply live_valid_id|done|done].
  exists id. rewrite Hid. split; [by apply elem_of_live_ids; exists content | done].
Qed.

Lemma no_subdirectory id0 a b : valid_id id0 -> files !! (leaf_dir id0 ++ "/" ++ a ++ "/" ++ b) = None.
Proof using Hrep Hlive HM.
  intros Hv. destruct (files !! _) as [content|] eqn:E; [|done]. exfalso.
  destruct (rp_only _ _ Hrep _ _ E) as [Hr|(id & Hid & Ep)].
  - by apply (root_file_slash _ (leaf_dir id0) (a ++ "/" ++ b)) in Hr.
  - by apply mail_path_not_below in Ep; [|eapply live_valid_id|].
Qed.

Lemma leaf_message id : id ∈ live_ids live ->
  messageFromPath (leaf_dir id ++ "/" ++ file_name id (octets (default [] (live !! id)))) = Ok (message_of live id).
Proof using Hlive HM.
  intros [content Hc]%elem_of_live_ids. rewrite Hc. cbn [default from_option]. unfold Datatypes.id.
  change (leaf_dir id ++ "/" ++ file_name id (octets content)) with (mail_path id (octets content)).
  rewrite messageFromPath_mail; [|by eapply live_valid_id|by destruct (Hlive _ _ Hc)].
  unfold message_of. by rewrite Hc.
Qed.

Context (id0 : Z) (Hid0 : id0 ∈ live_ids live).

Let ids := in_leaf (leaf_dir id0) (live_ids live).
Let file id := file_name id (octets (default [] (live !! id))).

Lemma valid_id0 : valid_id id0.
Proof using Hlive HM Hid0. apply elem_of_live_ids in Hid0 as [c Hc]. by eapply live_valid_id. Qed.

Lemma elem_of_leaf id : id ∈ ids <-> id ∈ live_ids live /\ leaf_dir id = leaf_dir id0.
Proof using. unfold ids, in_leaf. rewrite list_elem_of_filter. split; intros [? ?]; split; assumption. Qed.

(** The tree object of the leaf holds one blob entry per live message. *)
Lemma leaf_tree : exists o es, objects (commit ++ ":" ++ leaf_dir id0) = Some o /\ o_kind o = "tree"
  /\ o_content o = encode_tree es /\ Forall (raw_ok (length (o_oid o) / 2)) es /\ NoDup (raw_name <$> es)
  /\ raw_name <$> es ≡ₚ file <$> ids /\ Forall (fun e => raw_mode e = "100644") es.
Proof using Hholds Hrep Hlive HM Hid0.
  pose proof valid_id0 as Hv.
  assert (forall id, id ∈ ids -> files !! (leaf_dir id0 ++ "/" ++ file id) <> None) as Hfile.
  { intros id [[c Hc]%elem_of_live_ids El]%elem_of_leaf. unfold file. rewrite Hc, <- El.
    change (files !! mail_path id (octets c) <> None). by rewrite (rp_mail _ _ Hrep _ _ Hc). }
  assert (id0 ∈ ids) as H0 by (by apply elem_of_leaf).
  destruct (ch_tree _ _ _ Hholds (leaf_dir id0) (file id0) (Hfile id0 H0))
    as (o & es & Ho & Hk & Hc & Hr & HN & Hin & Hcover).
  assert (forall e, e ∈ es -> raw_mode e = "100644" /\ exists id, id ∈ ids /\ raw_name e = file id) as Hes.
  { intros e He. destruct (Hin e He) as [[Hm Hf]|[_ [rest Hf]]].
    2: { by rewrite no_subdirectory in Hf. }
    split; [done|]. rewrite Forall_forall in Hr. destruct (Hr e He) as [_ Hsl].
    destruct (file_in_leaf id0 (raw_name e) Hv Hsl Hf) as (id & ? & ? & ?).
    exists id. split; [by apply elem_of_leaf | done]. }
  exists o, es. split_and!; try done.
  - rewrite Forall_forall in *. intros e He. destruct (Hes e He) as [Hm (id & _ & En)].
    split; [by right|]. split; [rewrite En; apply file_archive_name | by apply Hr].
  - apply NoDup_Permutation; [done | |].
    + apply NoDup_fmap_2_strong; [|apply NoDup_in_leaf, NoDup_live_ids].
      intros i j [Hi Ei]%elem_of_leaf [Hj Ej]%elem_of_leaf E.
      pose proof (leaf_message i Hi) as Mi. pose proof (leaf_message j Hj) as Mj.
      unfold file in E. rewrite Ei, E in Mi. rewrite Ej in Mj. rewrite Mi in Mj.
      apply Ok_inj in Mj. by rewrite <- (message_of_ID live i), Mj.
    + intros x. rewrite !list_elem_of_fmap. split.
      * intros (e & -> & He). destruct (Hes e He) as [_ (id & ? & ?)]. eauto.
      * intros (id & -> & Hid). specialize (Hcover (file id) (slash_notin_file _ _) (Hfile id Hid)).
        by apply list_elem_of_fmap in Hcover.
  - apply Forall_forall. intros e He. by destruct (Hes e He).
Qed.

Lemma leaf_entries es : raw_name <$> es ≡ₚ file <$> ids -> Forall (fun e => raw_mode e = "100644") es ->
  directory_messages (leaf_dir id0) (entry_of_raw <$> es) = Ok (message_of live <$> sort_ids ids).
Proof using Hlive HM.
  intros HP Hm. unfold directory_messages.
  set (g := fun e => match messageFromPath (leaf_dir id0 ++ "/" ++ name e) with
                     | Ok m => m | Err _ => message_of live 0 end).
  assert (forall id, id ∈ ids -> messageFromPath (leaf_dir id0 ++ "/" ++ file id) = Ok (message_of live id)) as Hmsg.
  { intros id [Hid El]%elem_of_leaf. rewrite <- El. by apply leaf_message. }
  rewrite (directory_entries_ok _ _ g).
  2: { intros e (r & -> & Hr)%list_elem_of_fmap. rewrite Forall_forall in Hm. split; [by apply Hm|].
    unfold g. cbn [name entry_of_raw].
    assert (raw_name r ∈ file <$> ids) as Hf by (rewrite <- HP; by apply list_elem_of_fmap_2).
    apply list_elem_of_fmap in Hf as (id & -> & Hid). by rewrite Hmsg. }
  cbn [rbind]. assert (StronglySorted Z.lt (sort_ids ids)) as HS by apply sort_ids_sorted, NoDup_in_leaf, NoDup_live_ids.
  rewrite (sort_messages live _ (sort_ids ids)), repeated_id_sorted; [done | done | | done].
  rewrite sort_ids_perm. rewrite <- list_fmap_compose.
  transitivity ((fun n => match messageFromPath (leaf_dir id0 ++ "/" ++ n) with
                          | Ok m => m | Err _ => message_of live 0 end) <$> (raw_name <$> es)).
  { rewrite <- list_fmap_compose. done. }
  rewrite HP, <- list_fmap_compose. apply Permutation_refl', list_fmap_ext.
  intros i id Hi%list_elem_of_lookup_2. unfold compose. by rewrite Hmsg.
Qed.

Lemma leaf_listing : (forall spec o, objects spec = Some o -> validObjectID (o_oid o) = true) ->
  listing objects commit (leaf_dir id0) = Ok (message_of live <$> leaf_ids (live_ids live)
    {| dc_path := leaf_dir id0; dc_count := 0; dc_accumulated := 0 |}).
Proof using Hholds Hrep Hlive HM Hid0.
  intros Hoid. destruct leaf_tree as (o & es & Ho & Hk & Hc & Hr & HN & HP & Hm).
  unfold listing. rewrite Ho, decide_True by done. unfold tree_messages.
  assert (length es = length ids) as Hlen by (rewrite <- (length_fmap raw_name), HP; apply length_fmap).
  pose proof (count_in_bound id0 (live_ids live) valid_id0 (live_ids_valid _ _ Hlive HM) (NoDup_live_ids _)) as [Hcount _].
  unfold count_in in Hcount. fold ids in Hcount. unfold idRadix in *.
  assert (length (o_oid o) / 2 <= 32)%nat as Hh.
  { specialize (Hoid _ _ Ho). unfold validObjectID in Hoid. apply andb_true_iff in Hoid as [Hoid _].
    apply orb_true_iff in Hoid as [E|E]; apply Nat.eqb_eq in E; rewrite E; vm_compute; lia. }
  rewrite (proj2 (Z.ltb_ge _ _)).
  2: { rewrite Hc. assert (length (encode_tree es) <= 69 * length es)%nat; [|lia].
    apply encode_tree_bound. rewrite Forall_forall in *. intros e He.
    destruct (Hr e He) as (_ & _ & Hro).
    assert (raw_name e ∈ file <$> ids) as Hf by (rewrite <- HP; by apply list_elem_of_fmap_2).
    apply list_elem_of_fmap in Hf as (id & En & [[c Hlc]%elem_of_live_ids _]%elem_of_leaf).
    unfold encode_entry. rewrite !length_app. cbn [length]. rewrite (Hm e He), En, Hro.
    unfold file. rewrite Hlc. change (default [] (Some c)) with c. pose proof (file_name_length id (octets c) ltac:(by destruct (Hlive _ _ Hlc))).
    change (length (list_ascii_of_string "100644")) with 6%nat.
    change (length (list_ascii_of_string " ")) with 1%nat. lia. }
  rewrite Hc, parseTree_encode by done. cbn [rbind].
  rewrite length_fmap, (proj2 (Z.ltb_ge _ _)) by lia. by apply leaf_entries.
Qed.
End LeafListing.
