(* ===== verification/State.v ===== *)
(** * The mailbox state and its JSON form (internal/archive/state.go)

    The state blob committed with every change: the data type, and
    [encoding/json]'s encoding of it. *)

From S2P Require Import Prelude GoStrings IdPath Directories.

(** ** Data *)

Definition mailboxStateVersion : Z := 2.
Definition mailboxStateName : str := "state".

(** quota.go *)
Record dailyReceipt := { Day : str; ChargedBytes : Z }.

#[export] Instance dailyReceipt_eq_dec : EqDecision dailyReceipt.
Proof. solve_decision. Defined.

Record mailboxState := {
  Version : Z;
  LastID : Z;
  TotalOctets : Z;
  Directories : directoryCounts;
  DailyReceipt : option dailyReceipt;
  ms_index : option directoryIndex;
}.

Definition emptyMailboxState : mailboxState :=
  {| Version := mailboxStateVersion; LastID := 0; TotalOctets := 0; Directories := ∅;
     DailyReceipt := None; ms_index := None |}.

(** ** encoding/json: strings, as [Marshal] writes them (HTML escaping on) *)

Definition DQ : ascii := byte_of 34.
Definition BS : ascii := byte_of 92.

Definition json_safe (b : Z) : bool :=
  (32 <=? b) && negb ((b =? 34) || (b =? 92) || (b =? 60) || (b =? 62) || (b =? 38)).

Definition hex4 (r : Z) : str :=
  [digit_char (r / 4096); digit_char (r / 256 mod 16); digit_char (r / 16 mod 16); digit_char (r mod 16)].

Definition json_escape (rb : Z * str) : str :=
  let '(r, bytes) := rb in
  if (r =? RuneError) && (length bytes =? 1)%nat then BS :: "u" ++ hex4 RuneError
  else if r <? 128 then
    if json_safe r then bytes
    else if (r =? 34) || (r =? 92) then [BS; byte_of r]
    else if r =? 8 then [BS; "b"%char]
    else if r =? 9 then [BS; "t"%char]
    else if r =? 10 then [BS; "n"%char]
    else if r =? 12 then [BS; "f"%char]
    else if r =? 13 then [BS; "r"%char]
    else BS :: "u" ++ hex4 r
  else if (r =? 8232) || (r =? 8233) then BS :: "u" ++ hex4 r
  else bytes.

Definition json_string (s : str) : str := DQ :: mjoin (json_escape <$> runes s) ++ [DQ].

(** ** encoding/json: the two struct types *)

Definition json_field (key : str) (value : str) : str := json_string key ++ ":" ++ value.

Definition json_object (fields : list str) : str := "{" ++ Join fields "," ++ "}".

(** A map is written with its keys sorted. *)
Definition key_less (a b : str * Z) : bool := str_lt a.1 b.1.

Definition marshal_counts (counts : directoryCounts) : str :=
  json_object ((fun e => json_field e.1 (FormatUint e.2 10)) <$> sort_Slice key_less (map_to_list counts)).

Definition marshal_receipt (usage : dailyReceipt) : str :=
  json_object [json_field "day" (json_string (Day usage)); json_field "charged_bytes" (FormatUint (ChargedBytes usage) 10)].

(** [json.Marshal(state)]; [omitempty] drops an empty map and a nil pointer. *)
Definition Marshal (state : mailboxState) : str :=
  json_object
    ([json_field "version" (Itoa (Version state));
      json_field "last_id" (FormatUint (LastID state) 10);
      json_field "total_octets" (FormatUint (TotalOctets state) 10)]
     ++ (if decide (Directories state = ∅) then [] else [json_field "directories" (marshal_counts (Directories state))])
     ++ match DailyReceipt state with
        | None => []
        | Some usage => [json_field "daily_receipt" (marshal_receipt usage)]
        end).

(** [json.NewEncoder(file).Encode(usage)]. *)
Definition Encode_receipt (usage : dailyReceipt) : str := marshal_receipt usage ++ [byte_of 10].
