(* ===== verification/Json.v ===== *)
(** * Reading JSON (encoding/json, as internal/archive/state.go uses it)

    [json.Decoder] on a byte string: one value and what follows it; strings with
    their escapes, numbers as their text, and the matching of object keys with
    struct fields. *)

From S2P Require Import Prelude GoStrings State.

(** ** Values *)

Inductive json :=
  | JNull
  | JBool (b : bool)
  | JNumber (text : str)
  | JString (s : str)
  | JArray (elements : list json)
  | JObject (members : list (str * json)).

Definition json_space (c : ascii) : bool :=
  (code c =? 32) || (code c =? 9) || (code c =? 10) || (code c =? 13).

Fixpoint skip_space (s : str) : str :=
  match s with
  | c :: t => if json_space c then skip_space t else s
  | [] => []
  end.

Fixpoint span (f : ascii -> bool) (s : str) : str * str :=
  match s with
  | c :: t => if f c then let '(a, b) := span f t in (c :: a, b) else ([], s)
  | [] => ([], [])
  end.

(** ** Numbers *)

(** At least one digit. *)
Definition digits (s : str) : option (str * str) :=
  match span is_digit s with ([], _) => None | (d, rest) => Some (d, rest) end.

Definition json_fraction (s : str) : option (str * str) :=
  match s with
  | c :: t => if code c =? 46 then '(d, rest) ← digits t; Some (c :: d, rest) else Some ([], s)
  | [] => Some ([], [])
  end.

Definition json_exponent (s : str) : option (str * str) :=
  match s with
  | e :: t =>
      if (code e =? 101) || (code e =? 69) then
        let '(sign, t) := match t with
                          | c :: u => if (code c =? 43) || (code c =? 45) then ([c], u) else ([], t)
                          | [] => ([], [])
                          end in
        '(d, rest) ← digits t; Some (e :: sign ++ d, rest)
      else Some ([], s)
  | [] => Some ([], [])
  end.

Definition json_number (s : str) : option (str * str) :=
  let '(sign, s) := match s with
                    | c :: t => if code c =? 45 then ([c], t) else ([], s)
                    | [] => ([], [])
                    end in
  '(int, s) ← match s with
              | c :: t => if code c =? 48 then Some ([c], t) else digits s
              | [] => None
              end;
  '(frac, s) ← json_fraction s;
  '(exp, s) ← json_exponent s;
  Some (sign ++ int ++ frac ++ exp, s).

(** ** Strings *)

Definition hex_value (c : ascii) : option Z :=
  match digit_value c with Some d => if d <? 16 then Some d else None | None => None end.

(** [getu4]: the four digits after backslash and u. *)
Definition hex4_value (s : str) : option (Z * str) :=
  match s with
  | a :: b :: c :: d :: rest =>
      a ← hex_value a; b ← hex_value b; c ← hex_value c; d ← hex_value d;
      Some (((a * 16 + b) * 16 + c) * 16 + d, rest)
  | _ => None
  end.

Definition is_surrogate (r : Z) : bool := (55296 <=? r) && (r <? 57344).

(** [utf16.DecodeRune]. *)
Definition surrogate_pair (hi lo : Z) : option Z :=
  if (55296 <=? hi) && (hi <? 56320) && (56320 <=? lo) && (lo <? 57344)
  then Some ((hi - 55296) * 1024 + (lo - 56320) + 65536) else None.

(** The low half of a pair, when another u-escape follows. *)
Definition low_half (s : str) : option (Z * str) :=
  match s with
  | c :: u :: rest => if (code c =? 92) && (code u =? 117) then hex4_value rest else None
  | _ => None
  end.

Definition json_unescape (c : ascii) : option ascii :=
  if (code c =? 34) || (code c =? 92) || (code c =? 47) then Some c
  else if code c =? 98 then Some (byte_of 8)
  else if code c =? 102 then Some (byte_of 12)
  else if code c =? 110 then Some (byte_of 10)
  else if code c =? 114 then Some (byte_of 13)
  else if code c =? 116 then Some (byte_of 9)
  else None.

(** The string after the opening quote, and what follows the closing one.  A
    byte that is no UTF-8 becomes the replacement character. *)
Fixpoint json_unquote (fuel : nat) (s : str) : option (str * str) :=
  match fuel with
  | O => None
  | S fuel =>
      match s with
      | [] => None
      | c :: t =>
          if code c =? 34 then Some ([], t)
          else if code c <? 32 then None
          else if code c =? 92 then
            match t with
            | [] => None
            | e :: t =>
                if code e =? 117 then
                  '(r, t) ← hex4_value t;
                  let '(r, t) :=
                    if is_surrogate r then
                      match low_half t with
                      | Some (lo, t') =>
                          match surrogate_pair r lo with Some r => (r, t') | None => (RuneError, t) end
                      | None => (RuneError, t)
                      end
                    else (r, t) in
                  '(more, rest) ← json_unquote fuel t; Some (EncodeRune r ++ more, rest)
                else b ← json_unescape e; '(more, rest) ← json_unquote fuel t; Some (b :: more, rest)
            end
          else
            let '(r, w) := DecodeRune c t in
            '(more, rest) ← json_unquote fuel (drop (w - 1) t); Some (EncodeRune r ++ more, rest)
      end
  end.

(** ** Values *)

(** [maxNestingDepth]. *)
Definition maxNestingDepth : Z := 10000.

Definition literal (text : str) (v : json) (s : str) : option (json * str) :=
  if HasPrefix s text then Some (v, drop (length text) s) else None.

(** One value, after any spaces; [depth] containers are open. *)
Fixpoint parse_value (fuel : nat) (depth : Z) (s : str) : option (json * str) :=
  match fuel with
  | O => None
  | S fuel =>
      match skip_space s with
      | [] => None
      | c :: t =>
          if code c =? 123 then
            if maxNestingDepth <=? depth then None
            else match skip_space t with
                 | d :: rest =>
                     if code d =? 125 then Some (JObject [], rest)
                     else '(members, rest) ← parse_members fuel (depth + 1) t; Some (JObject members, rest)
                 | [] => None
                 end
          else if code c =? 91 then
            if maxNestingDepth <=? depth then None
            else match skip_space t with
                 | d :: rest =>
                     if code d =? 93 then Some (JArray [], rest)
                     else '(elements, rest) ← parse_elements fuel (depth + 1) t; Some (JArray elements, rest)
                 | [] => None
                 end
          else if code c =? 34 then '(text, rest) ← json_unquote fuel t; Some (JString text, rest)
          else if code c =? 116 then literal "true" (JBool true) (c :: t)
          else if code c =? 102 then literal "false" (JBool false) (c :: t)
          else if code c =? 110 then literal "null" JNull (c :: t)
          else '(number, rest) ← json_number (c :: t); Some (JNumber number, rest)
      end
  end
with parse_members (fuel : nat) (depth : Z) (s : str) : option (list (str * json) * str) :=
  match fuel with
  | O => None
  | S fuel =>
      match skip_space s with
      | q :: t =>
          if negb (code q =? 34) then None
          else
            '(key, t) ← json_unquote fuel t;
            match skip_space t with
            | colon :: t =>
                if negb (code colon =? 58) then None
                else
                  '(v, t) ← parse_value fuel depth t;
                  match skip_space t with
                  | d :: t =>
                      if code d =? 125 then Some ([(key, v)], t)
                      else if code d =? 44 then '(more, rest) ← parse_members fuel depth t; Some ((key, v) :: more, rest)
                      else None
                  | [] => None
                  end
            | [] => None
            end
      | [] => None
      end
  end
with parse_elements (fuel : nat) (depth : Z) (s : str) : option (list json * str) :=
  match fuel with
  | O => None
  | S fuel =>
      '(v, t) ← parse_value fuel depth s;
      match skip_space t with
      | d :: t =>
          if code d =? 93 then Some ([v], t)
          else if code d =? 44 then '(more, rest) ← parse_elements fuel depth t; Some (v :: more, rest)
          else None
      | [] => None
      end
  end.

(** [decoder.Decode], up to the conversion to a Go type. *)
Definition Decode (s : str) : result (json * str) :=
  if bool_decide (skip_space s = []) then Err (Sentinel IoEOF)
  else match parse_value (2 * length s + 2) 0 s with
       | Some r => Ok r
       | None => Err (New "invalid JSON")
       end.

Definition ensureJSONEOF (rest : str) : option error :=
  match Decode rest with
  | Err e => if errors_Is e IoEOF then None else Some e
  | Ok _ => Some (New "mailbox state contains trailing JSON value")
  end.

(** ** Conversion to Go types *)

(** [foldName]: ASCII letters to upper case, and the two other runes that fold
    to one; no other rune folds to an ASCII letter. *)
Definition fold_key (key : str) : list Z :=
  (fun rb => let r := rb.1 in
             if (97 <=? r) && (r <=? 122) then r - 32
             else if r =? 383 then 83 else if r =? 8490 then 75 else r) <$> runes key.

(** The struct field a key names. *)
Definition field_named (names : list str) (key : str) : option str :=
  if bool_decide (key ∈ names) then Some key
  else List.find (fun name => bool_decide (fold_key name = fold_key key)) names.

(** Into a [uint64], an [int], a [string]; [null] leaves the variable as it is. *)
Definition into_uint64 (v : json) (old : Z) : result Z :=
  match v with
  | JNull => Ok old
  | JNumber text => ParseUint text 10 64
  | _ => Err (New "cannot unmarshal")
  end.

Definition into_int (v : json) (old : Z) : result Z :=
  match v with
  | JNull => Ok old
  | JNumber text => ParseInt text
  | _ => Err (New "cannot unmarshal")
  end.

Definition into_string (v : json) (old : str) : result str :=
  match v with
  | JNull => Ok old
  | JString text => Ok text
  | _ => Err (New "cannot unmarshal")
  end.

(** A map keeps the entries it had; each value starts from zero. *)
Fixpoint into_map_members (members : list (str * json)) (m : gmap str Z) : result (gmap str Z) :=
  match members with
  | [] => Ok m
  | (key, v) :: rest => let! n := into_uint64 v 0 in into_map_members rest (<[key := n]> m)
  end.

Definition into_map (v : json) (old : gmap str Z) : result (gmap str Z) :=
  match v with
  | JNull => Ok ∅
  | JObject members => into_map_members members old
  | _ => Err (New "cannot unmarshal")
  end.

(** Members into the fields of a struct, with [DisallowUnknownFields]. *)
Section Struct.
Context {T : Type} (names : list str) (set_field : str -> json -> T -> result T).

Fixpoint into_fields (members : list (str * json)) (x : T) : result T :=
  match members with
  | [] => Ok x
  | (key, v) :: rest =>
      match field_named names key with
      | None => Err (New "json: unknown field")
      | Some name => let! x := set_field name v x in into_fields rest x
      end
  end.

Definition into_struct (v : json) (x : T) : result T :=
  match v with
  | JNull => Ok x
  | JObject members => into_fields members x
  | _ => Err (New "cannot unmarshal")
  end.
End Struct.
