(* ===== verification/JsonLaws.v ===== *)
(** * What is written is read back

    The encoder's strings, numbers and objects are values of the reader, one for
    one, and nothing that follows them is read. *)

From S2P Require Import Prelude GoStrings Tree State Json.

(** ** Characters written as they are *)

Definition json_plain (c : ascii) : bool := (code c <? 128) && json_safe (code c).

Definition plain (s : str) : Prop := Forall (fun c => json_plain c = true) s.

Lemma json_plain_spec c : json_plain c = true -> 32 <= code c < 128 /\ code c <> 34 /\ code c <> 92.
Proof. unfold json_plain, json_safe. lia. Qed.

Lemma plain_ascii s : plain s -> ascii_only s.
Proof. intros HF. eapply Forall_impl; [exact HF|]. intros c Hc%json_plain_spec. lia. Qed.

Lemma json_string_plain s : plain s -> json_string s = DQ :: s ++ [DQ].
Proof.
  intros HF. unfold json_string. rewrite runes_ascii by (by apply plain_ascii). do 2 f_equal.
  induction HF as [|c s Hc HF IH]; [done|]. pose proof (json_plain_spec c Hc) as Hr.
  change (json_escape (code c, [c]) ++ mjoin (json_escape <$> ((fun c => (code c, [c])) <$> s)) = c :: s). rewrite IH.
  unfold json_plain in Hc. apply andb_true_iff in Hc as [_ Hc].
  unfold json_escape at 1. rewrite Hc, (proj2 (Z.ltb_lt _ _)), (proj2 (Z.eqb_neq (code c) RuneError)) by (unfold RuneError; lia).
  done.
Qed.

(** ** Single tokens *)

Lemma skip_space_at c t : json_space c = false -> skip_space (c :: t) = c :: t.
Proof. intros Hc. cbn. by rewrite Hc. Qed.

Lemma span_stop f s c t : Forall (fun x => f x = true) s -> f c = false -> span f (s ++ c :: t) = (s, c :: t).
Proof. intros HF Hc. induction HF as [|x s Hx HF IH]; cbn; [by rewrite Hc|]. by rewrite Hx, IH. Qed.

Lemma DecodeRune_ascii c t : code c < 128 -> DecodeRune c t = (code c, 1%nat).
Proof.
  intros Hc. unfold DecodeRune, first_byte. by rewrite (proj2 (Z.ltb_lt _ _) Hc).
Qed.

Lemma EncodeRune_ascii c : code c < 128 -> EncodeRune (code c) = [c].
Proof.
  intros Hc. pose proof (code_range c). unfold EncodeRune.
  destruct (Z.ltb_spec (code c) 0); [lia|]. destruct (Z.ltb_spec 1114111 (code c)); [lia|].
  destruct (Z.leb_spec 55296 (code c)); [lia|]. cbn [orb andb]. rewrite (proj2 (Z.ltb_lt _ _) Hc). by rewrite byte_of_code.
Qed.

Lemma json_unquote_plain s rest : plain s -> forall fuel, (length s < fuel)%nat ->
  json_unquote fuel (s ++ DQ :: rest) = Some (s, rest).
Proof.
  induction 1 as [|c s Hc HF IH]; intros [|fuel] Hf; cbn [length] in Hf; try lia; [done|].
  pose proof (json_plain_spec c Hc) as Hr. cbn [app json_unquote].
  destruct (Z.eqb_spec (code c) 34); [lia|]. destruct (Z.ltb_spec (code c) 32); [lia|]. destruct (Z.eqb_spec (code c) 92); [lia|].
  rewrite DecodeRune_ascii by lia. cbn [Nat.sub drop]. rewrite IH by lia. cbn. by rewrite EncodeRune_ascii by lia.
Qed.

(** ** Values *)

(** What may follow a value: a comma, a closing brace, the end of the line. *)
Definition ends_value (s : str) : Prop := exists c t, s = c :: t /\ (c = ","%char \/ c = "}"%char \/ c = LF).

(** [text] is the value [v], [k] objects deep. *)
Definition renders (k : Z) (text : str) (v : json) : Prop :=
  forall fuel depth rest, ends_value rest -> (2 * length text < fuel)%nat -> depth + k <= maxNestingDepth ->
    parse_value fuel depth (text ++ rest) = Some (v, rest).

Lemma renders_string s : plain s -> renders 0 (json_string s) (JString s).
Proof.
  intros Hs fuel depth rest _ Hf _. rewrite json_string_plain in * by done. cbn [length] in Hf. rewrite length_app in Hf.
  destruct fuel as [|fuel]; [lia|]. cbn [app parse_value]. rewrite skip_space_at by done.
  change (code DQ) with 34. cbn [Z.eqb Pos.eqb]. rewrite <- app_assoc. cbn [app].
  by rewrite json_unquote_plain by (done || lia).
Qed.

(** A decimal has no leading zero. *)
Lemma format_digits_head fuel z acc c t : (1 <= fuel)%nat -> 0 < z -> format_digits fuel 10 z acc = c :: t ->
  z < 10 ^ Z.of_nat fuel -> c <> "0"%char.
Proof.
  revert z acc. induction fuel as [|fuel IH]; intros z acc Hf Hz; [lia|]. cbn [format_digits].
  destruct (Z.ltb_spec z 10) as [Hlt|Hge].
  - intros [= <- _] _ E. rewrite Z.mod_small in E by lia. unfold digit_char in E. rewrite (proj2 (Z.ltb_lt _ _) Hlt) in E.
    apply (f_equal code) in E. rewrite code_byte_of in E by lia. change (code "0"%char) with 48 in E. lia.
  - intros E Hb. destruct fuel as [|fuel]; [cbn in Hb; lia|]. apply (IH (z / 10) _ ltac:(lia)) in E; [done | |].
    + apply Z.div_str_pos. lia.
    + apply Z.div_lt_upper_bound; [lia|]. rewrite <- Z.pow_succ_r by lia. by rewrite <- Nat2Z.inj_succ.
Qed.

Lemma FormatUint_head z : is_u64 z -> exists c t, FormatUint z 10 = c :: t /\ is_digit c = true /\
  Forall (fun x => is_digit x = true) t /\ (c = "0"%char -> t = []).
Proof.
  intros [H0 H1]. pose proof (FormatUint_decimal z) as HF. destruct (FormatUint z 10) as [|c t] eqn:E; [by apply FormatUint_nonempty in E|].
  apply Forall_cons in HF as [Hc Ht]. exists c, t. split_and!; [done..|]. intros ->.
  destruct (decide (z = 0)) as [->|Hz].
  - change (FormatUint 0 10) with ("0" : str) in E. by injection E.
  - unfold FormatUint in E. apply format_digits_head in E; [done | lia | lia |].
    pose proof (pow_bound 10 ltac:(lia)). lia.
Qed.

Lemma ends_value_number rest : ends_value rest -> exists c t, rest = c :: t /\ is_digit c = false /\
  code c <> 46 /\ code c <> 101 /\ code c <> 69.
Proof. intros (c & t & -> & [->|[->| ->]]); eexists _, t; (split; [reflexivity|]); (split; [done|]); vm_compute; (split_and!; discriminate). Qed.

Lemma renders_uint z : is_u64 z -> renders 0 (FormatUint z 10) (JNumber (FormatUint z 10)).
Proof.
  intros Hz fuel depth rest Hr Hf _. destruct (FormatUint_head z Hz) as (c & t & E & Hc & Ht & H0). rewrite E in *.
  destruct (ends_value_number rest Hr) as (d & u & -> & Hd & H46 & H101 & H69).
  apply Z.eqb_neq in H46, H101, H69. destruct fuel as [|fuel]; [lia|]. cbn [parse_value app].
  assert (48 <= code c <= 57) as Hcode by (unfold is_digit in Hc; lia).
  rewrite skip_space_at by (unfold json_space; lia).
  assert (forall k, (k < 48 \/ 57 < k) -> (code c =? k) = false) as Hne by (intros k Hk; apply Z.eqb_neq; lia).
  rewrite !Hne by lia. unfold json_number. rewrite (Hne 45) by lia.
  assert ((if code c =? 48 then Some ([c], t ++ d :: u) else digits (c :: t ++ d :: u)) = Some (c :: t, d :: u)) as ->.
  { destruct (Z.eqb_spec (code c) 48) as [E48|_].
    - rewrite H0; [done|]. rewrite <- (byte_of_code c), E48. done.
    - unfold digits. change (c :: t ++ d :: u) with ((c :: t) ++ d :: u). rewrite span_stop; [done | by constructor | done]. }
  cbn. rewrite H46. cbn. rewrite H101, H69. cbn. by rewrite !app_nil_r.
Qed.

(** ** Objects *)

(** A member as it is written. *)
Definition renders_member (k : Z) (text : str) (m : str * json) : Prop :=
  plain m.1 /\ exists value, text = json_field m.1 value /\ renders k value m.2.

Lemma ends_value_comma t : ends_value (","%char :: t).
Proof. exists ","%char, t. auto. Qed.

Lemma ends_value_brace t : ends_value ("}"%char :: t).
Proof. exists "}"%char, t. auto. Qed.

Lemma parse_member k text m fuel depth c rest : renders_member k text m -> c = ","%char \/ c = "}"%char ->
  (2 * length text + 1 < fuel)%nat -> depth + k <= maxNestingDepth ->
  parse_members fuel depth (text ++ c :: rest) =
    (if code c =? 125 then Some ([m], rest)
     else if code c =? 44 then '(more, rest) ← parse_members (pred fuel) depth rest; Some (m :: more, rest) else None).
Proof.
  intros [Hp (value & -> & Hv)] He Hf Hd. destruct m as [key v]. cbn [fst snd] in *. unfold json_field in *.
  rewrite json_string_plain in * by done. rewrite !length_app in Hf. cbn [length] in Hf. rewrite length_app in Hf. cbn [length] in Hf.
  destruct fuel as [|fuel]; [lia|]. cbn [app parse_members pred]. rewrite skip_space_at by done.
  change (code DQ) with 34. cbn [Z.eqb Pos.eqb negb]. rewrite <- !app_assoc. cbn [app].
  rewrite json_unquote_plain by (done || lia). cbn [mbind option_bind].
  change (skip_space ((":" : str) ++ value ++ c :: rest)) with (":"%char :: value ++ c :: rest). cbn beta iota.
  change (code ":"%char) with 58. cbn [Z.eqb Pos.eqb negb]. rewrite Hv by (done || lia || (destruct He as [->| ->]; [apply ends_value_comma | apply ends_value_brace])). cbn [mbind option_bind].
  rewrite skip_space_at; [done|]. by destruct He as [->| ->].
Qed.

Lemma Join_cons2 (a b : str) l sep : Join (a :: b :: l) sep = a ++ sep ++ Join (b :: l) sep.
Proof. done. Qed.

Lemma parse_members_list k texts ms : Forall2 (renders_member k) texts ms -> ms <> [] -> forall fuel depth rest,
  (2 * length (Join texts ",") + 2 < fuel)%nat -> depth + k <= maxNestingDepth ->
  parse_members fuel depth (Join texts "," ++ "}"%char :: rest) = Some (ms, rest).
Proof.
  induction 1 as [|text m texts ms Hm HF IH]; intros Hne fuel depth rest Hf Hd; [done|].
  destruct HF as [|text' m' texts ms Hm' HF].
  - cbn [Join] in *. rewrite (parse_member k text m) by (done || lia || by right). done.
  - rewrite Join_cons2, <- app_assoc in *. rewrite !length_app in Hf. cbn [length] in Hf.
    change (text ++ (("," : str) ++ Join (text' :: texts) ",") ++ "}"%char :: rest)
      with (text ++ ","%char :: Join (text' :: texts) "," ++ "}"%char :: rest).
    rewrite (parse_member k text m) by (done || lia || by left). change (code ","%char) with 44. cbn [Z.eqb Pos.eqb].
    rewrite IH; [done | done | cbn in *; lia | lia].
Qed.

Lemma renders_object k texts ms : 0 <= k -> Forall2 (renders_member k) texts ms -> renders (k + 1) (json_object texts) (JObject ms).
Proof.
  intros Hk HF fuel depth rest _ Hf Hd. unfold json_object in *. rewrite !length_app in Hf. cbn [length] in Hf.
  destruct fuel as [|fuel]; [lia|]. rewrite <- !app_assoc.
  change (("{" : str) ++ Join texts "," ++ ("}" : str) ++ rest) with ("{"%char :: Join texts "," ++ "}"%char :: rest).
  cbn [parse_value]. rewrite skip_space_at by done. change (code "{"%char) with 123. cbn [Z.eqb Pos.eqb].
  destruct (Z.leb_spec maxNestingDepth depth); [lia|]. destruct ms as [|m ms].
  - apply Forall2_nil_inv_r in HF as ->. reflexivity.
  - assert (exists t, Join texts "," ++ "}"%char :: rest = DQ :: t) as [t Et].
    { destruct texts as [|text texts]; [by apply Forall2_nil_cons_inv in HF|]. apply Forall2_cons in HF as [[Hp (value & -> & _)] _].
      unfold json_field. rewrite json_string_plain by done. destruct texts; cbn [Join app]; eexists; reflexivity. }
    pose proof (parse_members_list k texts (m :: ms) HF ltac:(done) fuel (depth + 1) rest ltac:(cbn in *; lia) ltac:(lia)) as Hm.
    rewrite Et in *. rewrite skip_space_at by done. change (code DQ) with 34. cbn [Z.eqb Pos.eqb]. by rewrite Hm.
Qed.

(** ** Keys *)

(** A key that is a field's name is that field. *)
Lemma field_named_exact names key : key ∈ names -> field_named names key = Some key.
Proof. intros Hk. unfold field_named. by rewrite bool_decide_eq_true_2. Qed.

Lemma into_uint64_FormatUint z old : is_u64 z -> into_uint64 (JNumber (FormatUint z 10)) old = Ok z.
Proof. intros Hz. cbn. apply ParseUint_FormatUint; [lia | done | destruct Hz; unfold MaxUint64 in *; lia]. Qed.

Lemma into_fields_app {T} names (set_field : str -> json -> T -> result T) a b x :
  into_fields names set_field (a ++ b) x = let! y := into_fields names set_field a x in into_fields names set_field b y.
Proof.
  revert x. induction a as [|[key v] a IH]; intros x; [done|]. cbn [app into_fields].
  destruct (field_named names key); [|done]. cbn [rbind]. destruct (set_field _ v x); [apply IH | done].
Qed.

(** ** Documents *)

(** A value and a line feed are one document. *)
Lemma Decode_renders k text v : renders k text v -> k <= maxNestingDepth ->
  (exists c t, text = c :: t /\ json_space c = false) -> Decode (text ++ [LF]) = Ok (v, [LF]).
Proof.
  intros Hr Hk (c & t & -> & Hc). unfold Decode. cbn [app]. rewrite (skip_space_at c (t ++ [LF]) Hc), bool_decide_eq_false_2 by done.
  change (c :: t ++ [LF]) with ((c :: t) ++ [LF]) at 2. rewrite (Hr _ 0 [LF]); [done | | cbn [length]; rewrite ?length_app; cbn [length]; lia | lia].
  exists LF, []. auto.
Qed.

Lemma ensureJSONEOF_LF : ensureJSONEOF [LF] = None.
Proof. reflexivity. Qed.
