(* ===== verification/StateBound.v ===== *)
(** * A mailbox state fits in a Go string

    Whatever the archive holds, the JSON form of its state is shorter than 2^63
    bytes: the recorded directories are at most seven prefixes of each of the
    2^54 leaves that 64-bit IDs have. *)

From S2P Require Import Prelude GoStrings IdPath Directories Tree Contents State Json JsonLaws.

(** ** Length of the encoding *)

Definition path_char (c : ascii) : bool := lower_alnum c || bool_decide (c = "/"%char).

Lemma path_char_safe c : path_char c = true -> code c < 128 /\ json_safe (code c) = true.
Proof.
  assert (forall c, negb (path_char c) || ((code c <? 128) && json_safe (code c)) = true) as Hall.
  { intros [[] [] [] [] [] [] [] []]; vm_compute; reflexivity. }
  intros Hc. specialize (Hall c). rewrite Hc in Hall. cbn [negb orb] in Hall.
  apply andb_true_iff in Hall as [H1%Z.ltb_lt H2]. done.
Qed.

Lemma json_string_path s : Forall (fun c => path_char c = true) s -> length (json_string s) = (length s + 2)%nat.
Proof.
  intros HF. unfold json_string. cbn [length]. rewrite length_app, runes_ascii.
  2: { eapply Forall_impl; [exact HF|]. intros c Hc. by apply path_char_safe. }
  assert (mjoin (json_escape <$> ((fun c => (code c, [c])) <$> s)) = s) as ->; [|cbn; lia].
  induction HF as [|c s Hc HF IH]; [done|]. destruct (path_char_safe c Hc) as [H1 H2].
  change (json_escape (code c, [c]) ++ mjoin (json_escape <$> ((fun c => (code c, [c])) <$> s)) = c :: s). rewrite IH.
  unfold json_escape at 1. rewrite H2, (proj2 (Z.ltb_lt _ _) H1), (proj2 (Z.eqb_neq (code c) RuneError)) by (unfold RuneError; lia).
  done.
Qed.

Lemma Join_octets (l : list str) (sep : str) n : length sep = 1%nat -> Forall (fun e => (length e <= n)%nat) l ->
  (length (Join l sep) <= length l * (n + 1))%nat.
Proof.
  intros Hs. induction 1 as [|e l He HF IH]; [done|]. destruct l as [|e' l]; [cbn in *; lia|].
  change (Join (e :: e' :: l) sep) with (e ++ sep ++ Join (e' :: l) sep). rewrite !length_app, Hs. cbn [length] in *. lia.
Qed.

Lemma Join_fits (l : list str) : Forall (Forall (fun c => path_char c = true)) l -> Forall (fun c => path_char c = true) (Join l "/").
Proof.
  induction 1 as [|e l He HF IH]; [constructor|]. destruct l as [|e' l]; [done|].
  change (Join (e :: e' :: l) "/") with (e ++ ["/"%char] ++ Join (e' :: l) "/").
  rewrite !Forall_app. split_and!; [done | by repeat constructor | done].
Qed.

Lemma json_object_length fields n : Forall (fun e => (length e <= n)%nat) fields ->
  (length (json_object fields) <= length fields * (n + 1) + 2)%nat.
Proof.
  intros HF. unfold json_object. rewrite !length_app. pose proof (Join_octets fields "," n eq_refl HF). cbn in *. lia.
Qed.

Lemma json_field_length key value : length (json_field key value) = (length (json_string key) + 1 + length value)%nat.
Proof. unfold json_field. rewrite !length_app. cbn. lia. Qed.

(** ** The recorded directories *)

(** The parts of a leaf directory, from the ID without its last digit. *)
Definition prefix_parts (q : Z) : list str := Itoa (depth q + 1) :: hexes q.

Lemma dir_parts_prefix id : valid_id id -> dir_parts id = prefix_parts (id / idRadix).
Proof. intros Hv. unfold dir_parts, prefix_parts. by rewrite (depth_step id Hv). Qed.

Definition directory_of (k q : Z) : str := Join (take (Z.to_nat k) (prefix_parts q)) "/".

Lemma directory_length id k : valid_id id ->
  (length (Join (take k (dir_parts id)) "/") <= 28)%nat /\ Forall (fun c => path_char c = true) (Join (take k (dir_parts id)) "/").
Proof.
  intros Hv. pose proof (dir_parts_length id Hv) as Hl. pose proof (depth_bounds id Hv) as Hd.
  assert (Forall (fun e => (length e <= 3)%nat /\ Forall (fun c => path_char c = true) e) (dir_parts id)) as HF.
  { unfold dir_parts. constructor.
    - destruct (Itoa_depth (depth id) Hd) as (c & -> & Hc). split; [cbn; lia|]. constructor; [|done].
      unfold path_char, lower_alnum, is_digit. rewrite (proj2 (Z.leb_le 48 (code c))), (proj2 (Z.leb_le (code c) 57)) by lia. done.
    - unfold hexes. apply Forall_fmap, Forall_reverse. eapply Forall_impl; [apply id_digits_bound|].
      intros d Hd'. unfold compose. unfold idRadix in Hd'. split; [rewrite hex3_length; lia|].
      apply Forall_forall. intros c Hc. unfold path_char. destruct (lower_alnum c) eqn:E; [done|].
      by apply (hex3_notin d c Hd') in E. }
  pose proof (Forall_take _ k _ HF) as HT. apply Forall_and in HT as [H1 H2]. split; [|by apply Join_fits].
  pose proof (Join_octets _ "/" 3 eq_refl H1) as H3. rewrite length_take in H3. lia.
Qed.

(** Two prefixes with the same depth and the same leaf are the same. *)
Definition key_rel (p : str) (z : Z) : Prop :=
  exists k q, 1 <= k <= 7 /\ 0 <= q < 2 ^ 54 /\ z = k * 2 ^ 54 + q /\ p = directory_of k q.

Lemma key_rel_fun p p' z : key_rel p z -> key_rel p' z -> p = p'.
Proof.
  intros (k & q & _ & Hq & -> & ->) (k' & q' & _ & Hq' & E & ->).
  assert (k = k') as -> by lia. assert (q = q') as -> by lia. done.
Qed.

Lemma key_rel_range p z : key_rel p z -> 2 ^ 54 <= z < 2 ^ 54 + 7 * 2 ^ 54.
Proof. intros (k & q & ? & ? & -> & _). lia. Qed.

Lemma keys_bounded (l : list str) : NoDup l -> (forall p, p ∈ l -> exists z, key_rel p z) -> Z.of_nat (length l) <= 7 * 2 ^ 54.
Proof.
  intros HN Hl. assert (exists zs, Forall2 key_rel l zs) as [zs HF].
  { clear HN. induction l as [|p l IH]; [by exists []|]. destruct (Hl p) as [z Hz]; [set_solver|].
    destruct IH as [zs HF]; [set_solver|]. exists (z :: zs). by constructor. }
  assert (NoDup zs) as HZ.
  { clear Hl. induction HF as [|p z l zs Hp HF IH]; [constructor|]. apply NoDup_cons in HN as [Hn HN].
    constructor; [|by apply IH]. intros Hz. apply list_elem_of_lookup in Hz as [i Hi].
    destruct (Forall2_lookup_r _ _ _ _ _ HF Hi) as (p' & Hp' & Hr). apply Hn.
    rewrite (key_rel_fun p p' z Hp Hr). by eapply list_elem_of_lookup_2. }
  rewrite (Forall2_length _ _ _ HF). pose proof (NoDup_bounded zs (2 ^ 54) (7 * 2 ^ 54) HZ) as Hb.
  rewrite Z.max_r in Hb by lia. apply Hb. intros z Hz. apply list_elem_of_lookup in Hz as [i Hi].
  destruct (Forall2_lookup_r _ _ _ _ _ HF Hi) as (p & _ & Hr). by apply key_rel_range in Hr.
Qed.

(** The lengths of the fixed parts. *)
Lemma key_lengths : length (json_string "version") = 9%nat /\ length (json_string "last_id") = 9%nat /\
  length (json_string "total_octets") = 14%nat /\ length (json_string "directories") = 13%nat /\
  length (Itoa mailboxStateVersion) = 1%nat /\ length ("{" : str) = 1%nat /\ length ("," : str) = 1%nat /\ length ("}" : str) = 1%nat.
Proof. by vm_compute. Qed.

Section Bound.
Context (counts : directoryCounts) (ids : list Z).
Context (Hmatch : counts_match counts ids) (HN : NoDup ids) (Hvalid : Forall valid_id ids).

Lemma ids_to_max : Forall (fun id => 1 <= id <= MaxUint64) ids.
Proof using Hvalid. exact Hvalid. Qed.

Lemma recorded_count : Z.of_nat (length (map_to_list counts)) <= 7 * 2 ^ 54.
Proof using Hmatch Hvalid.
  rewrite <- (length_fmap fst). apply keys_bounded; [apply NoDup_fst_map_to_list|].
  intros p ([p' n] & -> & He)%list_elem_of_fmap. cbn [fst].
  destruct (entry_of_live counts ids MaxUint64 Hmatch ids_to_max (Z.le_refl _) p' n He)
    as (id & k & _ & Hv & Hk & -> & _). pose proof (dir_parts_length id Hv) as Hl. pose proof (depth_bounds id Hv).
  pose proof (u64_prefix id ltac:(destruct Hv; lia)) as Hq. change (MaxUint64 / idRadix) with (2 ^ 54 - 1) in Hq.
  exists (Z.of_nat k * 2 ^ 54 + id / idRadix), (Z.of_nat k), (id / idRadix).
  split_and!; [lia | lia | lia | lia | done |]. unfold directory_of. by rewrite Nat2Z.id, <- dir_parts_prefix.
Qed.

Lemma marshal_counts_length : Z.of_nat (length (marshal_counts counts)) <= 364 * 2 ^ 54 + 2.
Proof using Hmatch HN Hvalid.
  unfold marshal_counts. set (fields := _ <$> sort_Slice key_less (map_to_list counts)).
  assert (Z.of_nat (length fields) <= 7 * 2 ^ 54) as Hl.
  { unfold fields. rewrite length_fmap, (Permutation_length (sort_Slice_perm key_less _)). apply recorded_count. }
  assert (Forall (fun e => (length e <= 51)%nat) fields) as HF.
  { unfold fields. apply Forall_fmap, Forall_forall. intros [p n] He. rewrite sort_Slice_perm in He.
    destruct (entry_of_live counts ids MaxUint64 Hmatch ids_to_max (Z.le_refl _) p n He)
      as (id & k & _ & Hv & _ & -> & -> & _). destruct (directory_length id k Hv) as [H1 H2].
    cbn [compose fst snd]. rewrite json_field_length, (json_string_path _ H2).
    pose proof (live_length ids MaxUint64 HN ids_to_max) as Hlen. unfold MaxUint64 in Hlen.
    pose proof (tally_range ids (Join (take k (dir_parts id)) "/")) as Ht.
    pose proof (FormatUint_length10 (tally ids (Join (take k (dir_parts id)) "/"))) as Hf.
    unfold is_u64, MaxUint64 in Hf. specialize (Hf ltac:(lia)). lia. }
  pose proof (json_object_length fields 51 HF) as Ho. lia.
Qed.

(** The recorded directories are written as they are. *)
Lemma recorded_plain : map_Forall (fun path n => plain path /\ is_u64 n) counts.
Proof using Hmatch HN Hvalid.
  intros p n He%elem_of_map_to_list.
  destruct (entry_of_live counts ids MaxUint64 Hmatch ids_to_max (Z.le_refl _) p n He)
    as (id & k & _ & Hv & _ & -> & -> & _). destruct (directory_length id k Hv) as [_ Hp]. split.
  - eapply Forall_impl; [exact Hp|]. intros c Hc. destruct (path_char_safe c Hc) as [H1 H2].
    unfold json_plain. rewrite H2, (proj2 (Z.ltb_lt _ _) H1). done.
  - pose proof (live_length ids MaxUint64 HN ids_to_max) as Hlen.
    pose proof (tally_range ids (Join (take k (dir_parts id)) "/")) as Ht. unfold is_u64, MaxUint64 in *. lia.
Qed.

(** The state of an archive fits in a Go string. *)
Lemma Marshal_fits (state : mailboxState) : Directories state = counts -> Version state = mailboxStateVersion ->
  DailyReceipt state = None -> is_u64 (LastID state) -> is_u64 (TotalOctets state) ->
  octets (Marshal state ++ [LF]) < 2 ^ 63.
Proof using Hmatch HN Hvalid.
  intros HD HV HR HL HT. unfold octets, Marshal. rewrite HD, HV, HR.
  pose proof marshal_counts_length as Hc. destruct key_lengths as (K1 & K2 & K3 & K4 & K5 & K6 & K7 & K8). pose proof (FormatUint_length10 _ HL) as H1. pose proof (FormatUint_length10 _ HT) as H2.
  assert (forall d : str, length (json_object ([json_field "version" (Itoa mailboxStateVersion);
    json_field "last_id" (FormatUint (LastID state) 10); json_field "total_octets" (FormatUint (TotalOctets state) 10)]
    ++ [json_field "directories" d] ++ [])) =
    (length (FormatUint (LastID state) 10) + length (FormatUint (TotalOctets state) 10) + length d + 55)%nat) as Hlen.
  { intros d. unfold json_object. cbn [app Join]. rewrite !length_app, !json_field_length. lia. }
  rewrite length_app. destruct (decide (counts = ∅)).
  - unfold json_object. cbn [app Join]. rewrite !length_app, !json_field_length. cbn [length]. lia.
  - rewrite Hlen. cbn [length]. lia.
Qed.
End Bound.
