(* ===== verification/Quota.v ===== *)
(** * The daily receipt budget (internal/archive/quota.go, Stage and Discard)

    Every accepted octet is charged to a durable per-day budget, at least 4 KiB
    per message.  Connections reserve while they stream, under the store lock;
    the lock sections are the atomic steps of a transition system whose
    invariants hold for every interleaving and every clock behaviour, counting the
    times the clock goes back while one [Publish] reads it twice. *)

From S2P Require Import Prelude GoStrings Directories State.

(** ** Data *)

Definition DefaultMaxDailyBytes : Z := 52428800.
Definition minimumReceiptCharge : Z := 4096.

(** The budget fields of [Store], guarded by [mu]. *)
Record budget := { maxDailyBytes : Z; receipt : option dailyReceipt; reservedBytes : Z }.

(** [archive.StagedMessage], less its back pointer. *)
Record StagedMessage := { sm_path : str; sm_size : Z; sm_reserved : Z; sm_done : bool }.

Record quotaReader := { qr_consumed : Z }.

(** ** Operations *)

Definition set_receipt (r : option dailyReceipt) (b : budget) : budget :=
  {| maxDailyBytes := maxDailyBytes b; receipt := r; reservedBytes := reservedBytes b |}.

Definition set_reserved (n : Z) (b : budget) : budget :=
  {| maxDailyBytes := maxDailyBytes b; receipt := receipt b; reservedBytes := n |}.

(** [receiptUsageLocked]; [day] is [s.now().UTC().Format(time.DateOnly)]. *)
Definition receiptUsageLocked (day : str) (b : budget) : str * Z :=
  match receipt b with
  | Some usage => if negb (str_lt (Day usage) day) then (Day usage, ChargedBytes usage) else (day, 0)
  | None => (day, 0)
  end.

Definition canReserveLocked (day : str) (b : budget) (extra : Z) : bool :=
  let used := (receiptUsageLocked day b).2 in
  (used <=? maxDailyBytes b)
  && (reservedBytes b <=? u64 (maxDailyBytes b - used))
  && (extra <=? u64 (u64 (maxDailyBytes b - used) - reservedBytes b)).

(** [CheckReceive]: [None] accepts. *)
Definition CheckReceive (failure : option error) (day : str) (b : budget) : option error :=
  match failure with
  | Some e => Some e
  | None => if canReserveLocked day b minimumReceiptCharge then None else Some (Sentinel ErrDailyLimit)
  end.

(** The first lock section of [Stage]. *)
Definition stage_reserve (failure : option error) (day : str) (b : budget) : result (StagedMessage * budget) :=
  match failure with
  | Some e => Err e
  | None =>
      if negb (canReserveLocked day b minimumReceiptCharge) then Err (Sentinel ErrDailyLimit)
      else Ok ({| sm_path := []; sm_size := 0; sm_reserved := minimumReceiptCharge; sm_done := false |},
               set_reserved (u64 (reservedBytes b + minimumReceiptCharge)) b)
  end.

(** [quotaReader.Read] after the source returned [n] bytes and [err]. *)
Definition quotaReader_Read (day : str) (n : Z) (err : option error)
    (r : quotaReader) (m : StagedMessage) (b : budget) : Z * option error * quotaReader * StagedMessage * budget :=
  if n =? 0 then (n, err, r, m, b)
  else
    let charge := u64 (qr_consumed r + n) in
    let charge := if charge <? minimumReceiptCharge then minimumReceiptCharge else charge in
    let extra := u64 (charge - sm_reserved m) in
    if negb (canReserveLocked day b extra) then (0, Some (Sentinel ErrDailyLimit), r, m, b)
    else
      (n, err, {| qr_consumed := u64 (qr_consumed r + n) |},
       {| sm_path := sm_path m; sm_size := sm_size m; sm_reserved := charge; sm_done := sm_done m |},
       set_reserved (u64 (reservedBytes b + extra)) b).

(** [discardLocked] (removing the file aside). *)
Definition discardLocked (m : StagedMessage) (b : budget) : StagedMessage * budget :=
  if sm_done m then (m, b)
  else ({| sm_path := sm_path m; sm_size := sm_size m; sm_reserved := 0; sm_done := true |},
        set_reserved (u64 (reservedBytes b - sm_reserved m)) b).

(** The charge of [Publish]: the receipt is durable before it is believed. *)
Definition publish_charge (day : str) (write : dailyReceipt -> option error) (m : StagedMessage) (b : budget)
    : option error * StagedMessage * budget :=
  let '(day, used) := receiptUsageLocked day b in
  let usage := {| Day := day; ChargedBytes := u64 (used + sm_reserved m) |} in
  match write usage with
  | Some e => (Some (Wrap "persist receipt budget" e), m, b)
  | None => let '(m, b) := discardLocked m (set_receipt (Some usage) b) in (None, m, b)
  end.

(** ** Staging a whole message *)

(** The temporary file of a staged message, by the operation that may fail. *)
Class TempFile := {
  mkdir_error : option error;
  create_temp : result str;
  write_temp : str -> option error;
  sync_error : option error;
  close_error : option error;
}.

Section Stage.
Context `{TempFile}.

(** [io.Copy] into the file through the quota reader.  [reads] are the
    source's reads: the bytes, the error, the clock's day at that moment. *)
Fixpoint stage_copy (reads : list (str * option error * str)) (written : Z)
    (r : quotaReader) (m : StagedMessage) (b : budget) : result Z * StagedMessage * budget :=
  match reads with
  | [] => (Err (Panicked "out of reads"), m, b)
  | (data, err, day) :: rest =>
      let '(n, err, r, m, b) := quotaReader_Read day (Z.of_nat (length data)) err r m b in
      let data := take (Z.to_nat n) data in
      match (if 0 <? n then write_temp data else None) with
      | Some e => (Err e, m, b)
      | None =>
          match err with
          | Some e => if errors_Is e IoEOF then (Ok (written + n), m, b) else (Err e, m, b)
          | None => stage_copy rest (written + n) r m b
          end
      end
  end.

(** [Store.Stage]; any failure discards the reservation. *)
Definition Stage (failure : option error) (day : str) (reads : list (str * option error * str)) (b : budget)
    : result StagedMessage * budget :=
  match stage_reserve failure day b with
  | Err e => (Err e, b)
  | Ok (m, b) =>
      let fail (e : error) (m : StagedMessage) (b : budget) : result StagedMessage * budget :=
        (Err e, (discardLocked m b).2) in
      match mkdir_error with
      | Some e => fail (Wrap "create temporary archive directory" e) m b
      | None =>
          match create_temp with
          | Err e => fail (Wrap "create temporary message" e) m b
          | Ok path =>
              let m := {| sm_path := path; sm_size := sm_size m; sm_reserved := sm_reserved m; sm_done := sm_done m |} in
              match stage_copy reads 0 {| qr_consumed := 0 |} m b with
              | (Err e, m, b) => fail (Wrap "write message" e) m b
              | (Ok written, m, b) =>
                  match sync_error with
                  | Some e => fail (Wrap "sync message" e) m b
                  | None =>
                      match close_error with
                      | Some e => fail (Wrap "close message" e) m b
                      | None =>
                          (Ok {| sm_path := sm_path m; sm_size := u64 written;
                                 sm_reserved := sm_reserved m; sm_done := sm_done m |}, b)
                      end
                  end
              end
          end
      end
  end.
End Stage.

(** ** Loading the receipt *)

Definition two_digits (s : str) : option Z :=
  match s with
  | [a; b] => if is_digit a && is_digit b then Some ((code a - 48) * 10 + (code b - 48)) else None
  | _ => None
  end.

Definition days_in (month year : Z) : Z :=
  if month =? 2 then
    if (year mod 4 =? 0) && (negb (year mod 100 =? 0) || (year mod 400 =? 0)) then 29 else 28
  else if existsb (Z.eqb month) [4; 6; 9; 11] then 30 else 31.

(** [time.Parse(time.DateOnly, day)] succeeds: [YYYY-MM-DD], a real date. *)
Definition valid_DateOnly (day : str) : bool :=
  match day with
  | y1 :: y2 :: y3 :: y4 :: d1 :: m1 :: m2 :: d2 :: e1 :: [e2] =>
      bool_decide (d1 = "-"%char) && bool_decide (d2 = "-"%char) &&
      match two_digits [y1; y2], two_digits [y3; y4], two_digits [m1; m2], two_digits [e1; e2] with
      | Some yh, Some yl, Some month, Some date =>
          (1 <=? month) && (month <=? 12) && (1 <=? date) && (date <=? days_in month (yh * 100 + yl))
      | _, _, _, _ => false
      end
  | _ => false
  end.

(** [validateReceipt]. *)
Definition validateReceipt (usage : dailyReceipt) : option error :=
  if negb (valid_DateOnly (Day usage)) || (ChargedBytes usage =? 0)
  then Some (New "invalid daily receipt accounting") else None.

(** [loadReceipt]: [stored] is the decoded sibling file ([None] when there is
    none); a receipt of the old Git-backed state is transferred once. *)
Definition loadReceipt (stored : result (option dailyReceipt)) (legacy : option dailyReceipt)
    (write : dailyReceipt -> option error) (b : budget) : result budget :=
  match stored with
  | Err e => Err e
  | Ok (Some usage) =>
      match validateReceipt usage with Some e => Err e | None => Ok (set_receipt (Some usage) b) end
  | Ok None =>
      match legacy with
      | None => Ok b
      | Some usage =>
          match write usage with Some e => Err e | None => Ok (set_receipt (Some usage) b) end
      end
  end.

(** ** The concurrent system *)

(** All connections, the clock, the receipt file, whether the store failed, the
    octets published so far with the day they were charged to, and how often the
    clock went back between the two times one [Publish] reads it. *)
Record system := {
  q_budget : budget;
  q_staged : list (StagedMessage * quotaReader);
  q_day : str;
  q_disk : option dailyReceipt;
  q_failed : bool;
  q_published : list (str * Z);
  q_rollbacks : nat;
}.

Definition q_failure (s : system) : option error := if q_failed s then Some (New "failed") else None.

Definition with_budget (b : budget) (staged : list (StagedMessage * quotaReader)) (s : system) : system :=
  {| q_budget := b; q_staged := staged; q_day := q_day s; q_disk := q_disk s; q_failed := q_failed s;
     q_published := q_published s; q_rollbacks := q_rollbacks s |}.

(** The clock is read again. *)
Definition count_rollback (day day' : str) (n : nat) : nat := if str_lt day' day then S n else n.

Definition finished (m : StagedMessage) (r : quotaReader) : StagedMessage :=
  {| sm_path := sm_path m; sm_size := qr_consumed r; sm_reserved := sm_reserved m; sm_done := sm_done m |}.

Inductive quota_step (s : system) : system -> Prop :=
  (** The clock moves, forwards or backwards. *)
  | q_clock day : quota_step s
      {| q_budget := q_budget s; q_staged := q_staged s; q_day := day; q_disk := q_disk s;
         q_failed := q_failed s; q_published := q_published s; q_rollbacks := q_rollbacks s |}
  (** A connection enters [Stage]. *)
  | q_stage m b : stage_reserve (q_failure s) (q_day s) (q_budget s) = Ok (m, b) ->
      quota_step s (with_budget b (q_staged s ++ [(m, {| qr_consumed := 0 |})]) s)
  (** A read of [n] octets by connection [k]. *)
  | q_read k m r n err n' err' r' m' b' : q_staged s !! k = Some (m, r) -> sm_done m = false ->
      0 <= n -> qr_consumed r + n <= MaxUint64 ->
      quotaReader_Read (q_day s) n err r m (q_budget s) = (n', err', r', m', b') ->
      quota_step s (with_budget b' (<[k := (m', r')]> (q_staged s)) s)
  (** [Stage] returns: the size is what was read. *)
  | q_finish k m r : q_staged s !! k = Some (m, r) ->
      quota_step s (with_budget (q_budget s) (<[k := (finished m r, r)]> (q_staged s)) s)
  | q_discard k m r m' b' : q_staged s !! k = Some (m, r) -> discardLocked m (q_budget s) = (m', b') ->
      quota_step s (with_budget b' (<[k := (m', r)]> (q_staged s)) s)
  (** [Publish], the receipt written and the message committed or not.  It reads
      the clock twice, and the day may be another one the second time. *)
  | q_publish k m r day' m' b' (committed : bool) : q_staged s !! k = Some (m, r) -> q_failed s = false -> sm_done m = false ->
      canReserveLocked (q_day s) (q_budget s) 0 = true ->
      publish_charge day' (fun _ => None) m (q_budget s) = (None, m', b') ->
      quota_step s
        {| q_budget := b'; q_staged := <[k := (m', r)]> (q_staged s); q_day := day'; q_disk := receipt b';
           q_failed := negb committed;
           q_published := (if committed then [((receiptUsageLocked day' (q_budget s)).1, sm_size m)] else [])
                          ++ q_published s;
           q_rollbacks := count_rollback (q_day s) day' (q_rollbacks s) |}
  (** [Publish] fails to write the receipt, which may have reached the disk. *)
  | q_unwritten k m r day' e (reached : bool) : q_staged s !! k = Some (m, r) -> q_failed s = false -> sm_done m = false ->
      canReserveLocked (q_day s) (q_budget s) 0 = true ->
      quota_step s
        {| q_budget := (publish_charge day' (fun _ => Some e) m (q_budget s)).2; q_staged := q_staged s;
           q_day := day';
           q_disk := (if reached then receipt (publish_charge day' (fun _ => None) m (q_budget s)).2
                      else q_disk s);
           q_failed := true; q_published := q_published s;
           q_rollbacks := count_rollback (q_day s) day' (q_rollbacks s) |}
  (** The process dies and starts again from the file. *)
  | q_restart : quota_step s
      {| q_budget := {| maxDailyBytes := maxDailyBytes (q_budget s); receipt := q_disk s; reservedBytes := 0 |};
         q_staged := []; q_day := q_day s; q_disk := q_disk s; q_failed := false; q_published := q_published s;
         q_rollbacks := q_rollbacks s |}.

Definition q_initial (max : Z) (day : str) : system :=
  {| q_budget := {| maxDailyBytes := max; receipt := None; reservedBytes := 0 |}; q_staged := []; q_day := day;
     q_disk := None; q_failed := false; q_published := []; q_rollbacks := 0 |}.

(** What a message costs, and what was published on a day. *)
Definition cost (octets : Z) : Z := Z.max octets minimumReceiptCharge.

Definition spent (day : str) (published : list (str * Z)) : Z :=
  foldr (fun e acc => (if decide (e.1 = day) then cost e.2 else 0) + acc) 0 published.

Definition reserved_sum (staged : list (StagedMessage * quotaReader)) : Z :=
  foldr (fun e acc => sm_reserved e.1 + acc) 0 staged.

(** ** The invariant *)

Definition staged_ok (e : StagedMessage * quotaReader) : Prop :=
  if sm_done e.1 then sm_reserved e.1 = 0
  else sm_reserved e.1 = cost (qr_consumed e.2) /\ 0 <= sm_size e.1 <= qr_consumed e.2.

(** A receipt covers what was published up to it. *)
Definition covers (max : Z) (r : option dailyReceipt) (published : list (str * Z)) : Prop :=
  match r with
  | None => published = []
  | Some u => 0 <= ChargedBytes u <= max /\ spent (Day u) published <= ChargedBytes u
      /\ Forall (fun e => str_lt (Day u) e.1 = false) published
  end.

(** The budget, once more for every time the clock went back inside [Publish]: the
    check may then see a new day, and the charge go to the day before. *)
Definition allowance (max : Z) (s : system) : Z := max * (1 + Z.of_nat (q_rollbacks s)).

Record quota_ok (max : Z) (s : system) : Prop := {
  qo_max : maxDailyBytes (q_budget s) = max;
  qo_reserved : reservedBytes (q_budget s) = reserved_sum (q_staged s);
  qo_bound : 0 <= reservedBytes (q_budget s) <= max;
  qo_staged : Forall staged_ok (q_staged s);
  qo_receipt : covers (allowance max s) (receipt (q_budget s)) (q_published s);
  qo_disk : covers (allowance max s) (q_disk s) (q_published s);
  qo_same : q_failed s = false -> receipt (q_budget s) = q_disk s;
  qo_spent day : spent day (q_published s) <= allowance max s;
}.

(** ** Lemmas *)

Lemma reserved_sum_app l l' : reserved_sum (l ++ l') = reserved_sum l + reserved_sum l'.
Proof. unfold reserved_sum. induction l as [|e l IH]; simpl; lia. Qed.

Lemma reserved_sum_insert l k x y : l !! k = Some x ->
  reserved_sum (<[k := y]> l) = reserved_sum l - sm_reserved x.1 + sm_reserved y.1.
Proof.
  revert k. induction l as [|e l IH]; intros [|k] Hk; try done.
  - injection Hk as ->. unfold reserved_sum. simpl. lia.
  - change (reserved_sum (<[S k := y]> (e :: l))) with (sm_reserved e.1 + reserved_sum (<[k := y]> l)).
    rewrite (IH k Hk). unfold reserved_sum. simpl. lia.
Qed.

Lemma reserved_nonneg x : staged_ok x -> 0 <= sm_reserved x.1.
Proof. unfold staged_ok, cost, minimumReceiptCharge. case_match; lia. Qed.

Lemma reserved_sum_elem l k x : Forall staged_ok l -> l !! k = Some x -> 0 <= sm_reserved x.1 <= reserved_sum l.
Proof.
  intros HF. revert k. induction HF as [|e l He HF IH]; intros [|k] Hk; try done; cbn in *.
  - injection Hk as ->. pose proof (reserved_nonneg x He).
    assert (0 <= reserved_sum l) as Hn; [|unfold reserved_sum in Hn; lia].
    clear -HF. unfold reserved_sum. induction HF as [|e l He HF IH]; simpl; [lia|].
    pose proof (reserved_nonneg e He). lia.
  - pose proof (reserved_nonneg e He). specialize (IH k Hk). unfold reserved_sum in IH. lia.
Qed.

(** The guard, without the machine arithmetic. *)
Lemma canReserve_spec max day b extra : 0 <= max <= MaxUint64 -> maxDailyBytes b = max ->
  0 <= (receiptUsageLocked day b).2 -> 0 <= reservedBytes b ->
  canReserveLocked day b extra = true <-> (receiptUsageLocked day b).2 + reservedBytes b + extra <= max
    /\ (receiptUsageLocked day b).2 + reservedBytes b <= max.
Proof.
  intros Hmax E Hu Hr. unfold canReserveLocked. rewrite E. set (used := (receiptUsageLocked day b).2) in *.
  rewrite !andb_true_iff, !Z.leb_le. destruct (decide (used <= max)); [|split; lia].
  rewrite (u64_small (max - used)) by (unfold is_u64; lia).
  destruct (decide (reservedBytes b <= max - used)); [|split; lia].
  rewrite u64_small by (unfold is_u64; lia). lia.
Qed.

Lemma usage_covers max day b published : covers max (receipt b) published ->
  0 <= (receiptUsageLocked day b).2
  /\ spent (receiptUsageLocked day b).1 published <= (receiptUsageLocked day b).2
  /\ Forall (fun e => str_lt (receiptUsageLocked day b).1 e.1 = false) published.
Proof.
  unfold covers, receiptUsageLocked. destruct (receipt b) as [u|].
  2: { intros ->. split_and!; [cbn; lia | cbn; lia | constructor]. }
  intros (Hc & Hs & HF). destruct (str_lt (Day u) day) eqn:E; cbn [negb fst snd]; [|split_and!; [lia | done | done]].
  assert (Forall (fun e => str_lt e.1 day = true) published) as Hlt.
  { eapply Forall_impl; [exact HF|]. intros e He. destruct (str_lt e.1 day) eqn:E'; [done|].
    destruct (str_lt e.1 (Day u)) eqn:E2.
    - pose proof (str_lt_trans _ _ _ E2 E). congruence.
    - pose proof (str_lt_total _ _ E2 He) as E3. rewrite E3 in E'. congruence. }
  split_and!; [lia | |].
  - clear -Hlt. induction Hlt as [|e l He HF IH]; [done|]. cbn in *. rewrite decide_False; [exact IH|].
    intros E. rewrite E, str_lt_irrefl in He. done.
  - eapply Forall_impl; [exact Hlt|]. intros e He. by apply str_lt_asym.
Qed.

Lemma spent_nonneg day published : 0 <= spent day published.
Proof.
  unfold spent, cost, minimumReceiptCharge. induction published as [|e l IH]; simpl; [lia|]. case_decide; lia.
Qed.

(** A later clock finds no more used. *)
Lemma usage_later max day day' b published : covers max (receipt b) published -> str_lt day' day = false ->
  (receiptUsageLocked day' b).2 <= (receiptUsageLocked day b).2.
Proof.
  unfold covers, receiptUsageLocked. intros Hc Hd. destruct (receipt b) as [u|]; [|done]. destruct Hc as (Hc & _).
  destruct (str_lt (Day u) day') eqn:E', (str_lt (Day u) day) eqn:E; cbn [negb snd]; try lia.
  destruct (decide (day = day')) as [->|Hne]; [congruence|].
  destruct (str_lt day day') eqn:Ed; [pose proof (str_lt_trans _ _ _ E Ed); congruence|].
  by pose proof (str_lt_total _ _ Ed Hd).
Qed.

(** What is used is within what is covered. *)
Lemma usage_bound max day b published : 0 <= max -> covers max (receipt b) published -> (receiptUsageLocked day b).2 <= max.
Proof.
  intros H0. unfold covers, receiptUsageLocked. destruct (receipt b) as [u|]; [|done]. intros (Hc & _).
  destruct (negb _); cbn; lia.
Qed.

Lemma covers_mono max max' r published : max <= max' -> covers max r published -> covers max' r published.
Proof. intros Hle. destruct r as [u|]; [|done]. intros (? & ? & ?). split_and!; [lia | lia | done | done]. Qed.

(** The receipt [Publish] writes covers the message it pays for. *)
Lemma charge_covers max limit now day b m r published (committed : bool) :
  let limit' := if str_lt day now then limit + max else limit in
  0 <= max <= limit -> limit' <= MaxUint64 -> maxDailyBytes b = max -> covers limit (receipt b) published ->
  staged_ok (m, r) -> sm_done m = false -> sm_reserved m <= reservedBytes b -> canReserveLocked now b 0 = true ->
  let d := (receiptUsageLocked day b).1 in
  let published' := (if committed then [(d, sm_size m)] else []) ++ published in
  exists b', publish_charge day (fun _ => None) m b
      = (None, {| sm_path := sm_path m; sm_size := sm_size m; sm_reserved := 0; sm_done := true |}, b')
    /\ maxDailyBytes b' = max /\ reservedBytes b' = u64 (reservedBytes b - sm_reserved m)
    /\ covers limit' (receipt b') published'
    /\ (forall day', spent day' published <= limit -> spent day' published' <= limit').
Proof.
  intros limit' Hmax Hlimit Eb Hc Hm Hd Hr Hcan. unfold publish_charge.
  destruct (usage_covers limit day b published Hc) as (Hu & Hs & HF).
  destruct (usage_covers limit now b published Hc) as (Hu' & _ & _).
  assert (limit <= limit') as Hle by (unfold limit'; destruct (str_lt day now); lia).
  assert ((receiptUsageLocked day b).2 + sm_reserved m <= limit') as Hcharge.
  { apply (canReserve_spec max) in Hcan; [|lia | done | done |
      unfold staged_ok, cost, minimumReceiptCharge in Hm; cbn [fst] in Hm; rewrite Hd in Hm; lia].
    unfold limit' in *. destruct (str_lt day now) eqn:E.
    - assert ((receiptUsageLocked day b).2 <= limit); [|lia].
      apply (usage_bound limit day b published); [lia | done].
    - pose proof (usage_later limit now day b published Hc E). lia. }
  unfold staged_ok in Hm. cbn [fst snd] in Hm. rewrite Hd in Hm. unfold cost, minimumReceiptCharge in *. clearbody limit'.
  destruct (receiptUsageLocked day b) as [d used]. cbn [fst snd] in *.
  unfold discardLocked. rewrite Hd. rewrite (u64_small (used + sm_reserved m)) by (unfold is_u64; lia).
  eexists. split; [reflexivity|]. cbn [set_reserved set_receipt maxDailyBytes receipt reservedBytes covers Day ChargedBytes].
  split_and!; [done | done | lia | lia | | |].
  - destruct committed; cbn [app]; [|lia]. cbn [spent foldr fst snd]. rewrite decide_True by done.
    fold (spent d published). unfold cost, minimumReceiptCharge. lia.
  - destruct committed; [|done]. constructor; [apply str_lt_irrefl | done].
  - intros day' Hday'. destruct committed; cbn [app]; [|lia]. cbn [spent foldr fst snd]. fold (spent day' published).
    case_decide; [subst|lia]. unfold cost, minimumReceiptCharge. lia.
Qed.

Lemma discard_ok max s k m r m' b' : quota_ok max s -> q_staged s !! k = Some (m, r) ->
  0 <= max <= MaxUint64 -> discardLocked m (q_budget s) = (m', b') -> quota_ok max (with_budget b' (<[k := (m', r)]> (q_staged s)) s).
Proof.
  intros [H1 H2 H3 H4 H5 H6 H7 H8] Hk Hmax Hd. pose proof (reserved_sum_elem _ _ _ H4 Hk) as Hin. cbn in Hin.
  unfold discardLocked in Hd. destruct (sm_done m) eqn:E; injection Hd as <- <-.
  - rewrite list_insert_id by done. by split.
  - split; cbn; try done.
    + rewrite (reserved_sum_insert _ _ _ _ Hk). cbn. rewrite u64_small by (unfold is_u64; lia). lia.
    + rewrite u64_small by (unfold is_u64; lia). lia.
    + by apply Forall_insert.
Qed.

Lemma read_ok max s k m r n err n' err' r' m' b' : quota_ok max s -> 0 <= max <= MaxUint64 ->
  q_staged s !! k = Some (m, r) -> sm_done m = false -> 0 <= n -> qr_consumed r + n <= MaxUint64 ->
  quotaReader_Read (q_day s) n err r m (q_budget s) = (n', err', r', m', b') ->
  quota_ok max (with_budget b' (<[k := (m', r')]> (q_staged s)) s).
Proof.
  intros [H1 H2 H3 H4 H5 H6 H7 H8] Hmax Hk Hd Hn Hfit Hr.
  pose proof (reserved_sum_elem _ _ _ H4 Hk) as Hin. cbn in Hin.
  pose proof H4 as HS. rewrite Forall_lookup in HS. specialize (HS k _ Hk).
  unfold staged_ok in HS. cbn [fst snd] in HS. rewrite Hd in HS.
  unfold quotaReader_Read in Hr. destruct (Z.eqb_spec n 0) as [->|Hn0].
  { injection Hr as <- <- <- <- <-. rewrite list_insert_id by done. by split. }
  rewrite (u64_small (qr_consumed r + n)) in Hr by (unfold is_u64; lia).
  assert ((if qr_consumed r + n <? minimumReceiptCharge then minimumReceiptCharge else qr_consumed r + n)
    = cost (qr_consumed r + n)) as Ec
    by (unfold cost; destruct (Z.ltb_spec (qr_consumed r + n) minimumReceiptCharge); lia).
  rewrite Ec in Hr.
  assert (sm_reserved m <= cost (qr_consumed r + n) <= MaxUint64) as Hc
    by (destruct HS as [-> _]; unfold cost, minimumReceiptCharge, MaxUint64 in *; lia).
  rewrite (u64_small (cost _ - _)) in Hr by (unfold is_u64; lia).
  destruct (canReserveLocked _ _ _) eqn:Hcan; cbn [negb] in Hr; injection Hr as <- <- <- <- <-.
  2: { rewrite list_insert_id by done. by split. }
  pose proof (usage_covers _ (q_day s) (q_budget s) _ H5) as (Hu & _).
  apply (canReserve_spec max) in Hcan; [|done|done|done|lia].
  rewrite u64_small by (unfold is_u64; lia).
  split; cbn; try done.
  - rewrite (reserved_sum_insert _ _ _ _ Hk). cbn. lia.
  - lia.
  - apply Forall_insert; [done|]. unfold staged_ok. cbn. rewrite Hd. lia.
Qed.

Lemma count_rollback_le day day' n : (n <= count_rollback day day' n)%nat.
Proof. unfold count_rollback. destruct (str_lt _ _); lia. Qed.

Lemma quota_step_rollbacks s s' : quota_step s s' -> (q_rollbacks s <= q_rollbacks s')%nat.
Proof. destruct 1; cbn; try done; apply count_rollback_le. Qed.

Lemma allowance_rollback max s day' :
  (if str_lt day' (q_day s) then allowance max s + max else allowance max s) = max * (1 + Z.of_nat (count_rollback (q_day s) day' (q_rollbacks s))).
Proof. unfold allowance, count_rollback. destruct (str_lt _ _); lia. Qed.

(** Every step of every connection keeps the books. *)
Lemma quota_step_ok max s s' : 0 <= max <= MaxUint64 -> allowance max s' <= MaxUint64 -> quota_ok max s -> quota_step s s' -> quota_ok max s'.
Proof.
  intros Hmax Hall Hok Hstep. pose proof Hok as [H1 H2 H3 H4 H5 H6 H7 H8].
  assert (max <= allowance max s) as Hone by (unfold allowance; nia).
  destruct Hstep as [day|m b H|k m r n err n' err' r' m' b' Hk Hd Hn Hfit Hr|k m r H|k m r m' b' Hk Hd
    |k m r day' m' b' committed H Hf Hd Hcan Hpub|k m r day' e reached H Hf Hd Hcan|].
  - by split.
  - unfold stage_reserve in H. destruct (q_failure s); [done|].
    destruct (canReserveLocked _ _ _) eqn:Hcan; [|done]. cbn [negb] in H. injection H as <- <-.
    pose proof (usage_covers _ (q_day s) (q_budget s) _ H5) as (Hu & _).
    unfold minimumReceiptCharge in *.
    apply (canReserve_spec max) in Hcan; [|done|done|done|lia].
    split; cbn; try done; rewrite ?u64_small by (unfold is_u64; lia); try lia.
    + rewrite reserved_sum_app. unfold reserved_sum at 2. cbn. lia.
    + apply Forall_app. split; [done|]. constructor; [|done].
      unfold staged_ok, cost, minimumReceiptCharge. cbn. lia.
  - by eapply read_ok.
  - pose proof H4 as HS. rewrite Forall_lookup in HS. specialize (HS k _ H).
    split; cbn; try done.
    + rewrite (reserved_sum_insert _ _ _ _ H). cbn. lia.
    + apply Forall_insert; [done|]. unfold staged_ok, cost, minimumReceiptCharge in *. cbn in *. case_match; lia.
  - by eapply discard_ok.
  - pose proof H4 as HS. rewrite Forall_lookup in HS. specialize (HS k _ H).
    pose proof (reserved_sum_elem _ _ _ H4 H) as Hin. cbn in Hin.
    destruct (charge_covers max (allowance max s) (q_day s) day' (q_budget s) m r (q_published s) committed)
      as (b2 & E & Hb1 & Hb2 & Hb3 & Hb4); try done; [lia | by rewrite allowance_rollback | lia|].
    rewrite allowance_rollback in Hb3, Hb4.
    rewrite E in Hpub. injection Hpub as <- <-. rewrite u64_small in Hb2 by (unfold is_u64; lia).
    split; cbn; try done; try lia.
    + rewrite (reserved_sum_insert _ _ _ _ H). cbn. lia.
    + apply Forall_insert; [done|]. done.
    + intros day. by apply Hb4.
  - pose proof H4 as HS. rewrite Forall_lookup in HS. specialize (HS k _ H).
    pose proof (reserved_sum_elem _ _ _ H4 H) as Hin. cbn in Hin.
    destruct (charge_covers max (allowance max s) (q_day s) day' (q_budget s) m r (q_published s) false)
      as (b2 & E & Hb1 & Hb2 & Hb3 & Hb4); try done; [lia | by rewrite allowance_rollback | lia|].
    rewrite allowance_rollback in Hb3, Hb4.
    assert ((publish_charge day' (fun _ => Some e) m (q_budget s)).2 = q_budget s) as ->.
    { unfold publish_charge. by destruct (receiptUsageLocked _ _). }
    assert (allowance max s <= max * (1 + Z.of_nat (count_rollback (q_day s) day' (q_rollbacks s)))) as Hgrow
      by (pose proof (count_rollback_le (q_day s) day' (q_rollbacks s)); unfold allowance; nia).
    rewrite E. split; cbn; try done.
    + by eapply covers_mono.
    + destruct reached; [done | by eapply covers_mono].
    + intros day. etransitivity; [apply H8 | exact Hgrow].
  - split; cbn; try done. lia.
Qed.

Lemma quota_initial_ok max day : 0 <= max <= MaxUint64 -> quota_ok max (q_initial max day).
Proof. intros. split; unfold allowance; cbn; try done; lia. Qed.

Lemma rtc_rollbacks s s' : rtc quota_step s s' -> (q_rollbacks s <= q_rollbacks s')%nat.
Proof. induction 1 as [|s s1 s2 Hs _ IH]; [done|]. apply quota_step_rollbacks in Hs. lia. Qed.

Lemma quota_reachable_ok max day s : 0 <= max -> is_u64 (allowance max s) -> rtc quota_step (q_initial max day) s -> quota_ok max s.
Proof.
  intros H0 Hall Hr. assert (0 <= max <= MaxUint64) as Hmax by (unfold is_u64, allowance in Hall; nia).
  assert (forall s0, rtc quota_step s0 s -> quota_ok max s0 -> quota_ok max s) as Hind.
  { clear Hr. induction 1 as [|s0 s1 s2 Hs Hr IH]; [done|]. intros Hok. apply IH; [done|].
    eapply quota_step_ok; [done | | exact Hok | exact Hs]. apply rtc_rollbacks in Hr. unfold is_u64, allowance in *. nia. }
  apply (Hind _ Hr). by apply quota_initial_ok.
Qed.

(** ** Properties *)

(** C23: The daily budget.  However connections interleave, the clock moves,
    publications fail or the process restarts, the octets published against any
    one day (each message counted as at least 4 KiB) stay within the configured
    budget as long as the clock never goes back between the two times one
    [Publish] reads it; each time it does, at most one more budget is spent. *)
Theorem daily_budget_never_exceeded max start s day :
  0 <= max -> is_u64 (allowance max s) -> rtc quota_step (q_initial max start) s ->
  (q_rollbacks s = 0%nat -> spent day (q_published s) <= max) /\
  spent day (q_published s) <= max * (1 + Z.of_nat (q_rollbacks s)).
Proof.
  intros H0 Hmax Hr. pose proof (qo_spent max s (quota_reachable_ok max start s H0 Hmax Hr) day) as Hs. unfold allowance in Hs.
  split; [intros E; rewrite E in Hs; lia | exact Hs].
Qed.

(** Two messages of one day's whole budget each.  The second is checked after
    midnight and charged to the day before, for the clock was set back. *)
Definition budget_after (receipt : option dailyReceipt) (reserved : Z) : budget :=
  {| maxDailyBytes := 4096; receipt := receipt; reservedBytes := reserved |}.

Definition one_message (done : bool) : StagedMessage * quotaReader :=
  ({| sm_path := []; sm_size := 0; sm_reserved := if done then 0 else 4096; sm_done := done |}, {| qr_consumed := 0 |}).

Definition overrun : system :=
  let u := Some {| Day := "2024-01-02"; ChargedBytes := 8192 |} in
  {| q_budget := budget_after u 0; q_staged := [one_message true; one_message true]; q_day := "2024-01-02"; q_disk := u;
     q_failed := false; q_published := [("2024-01-02" : str, 0); ("2024-01-02" : str, 0)]; q_rollbacks := 1 |}.

Lemma publish_leads_to s k m r day' m' b' committed s' : q_staged s !! k = Some (m, r) -> q_failed s = false -> sm_done m = false ->
  canReserveLocked (q_day s) (q_budget s) 0 = true -> publish_charge day' (fun _ => None) m (q_budget s) = (None, m', b') ->
  s' = {| q_budget := b'; q_staged := <[k := (m', r)]> (q_staged s); q_day := day'; q_disk := receipt b';
          q_failed := negb committed;
          q_published := (if committed then [((receiptUsageLocked day' (q_budget s)).1, sm_size m)] else []) ++ q_published s;
          q_rollbacks := count_rollback (q_day s) day' (q_rollbacks s) |} ->
  quota_step s s'.
Proof. intros H1 H2 H3 H4 H5 ->. by eapply q_publish. Qed.

Lemma overrun_reachable : rtc quota_step (q_initial 4096 "2024-01-02") overrun.
Proof.
  set (u := Some {| Day := "2024-01-02"; ChargedBytes := 4096 |}).
  set (s0 := q_initial 4096 "2024-01-02").
  set (s1 := with_budget (budget_after None 4096) [one_message false] s0).
  set (s2 := {| q_budget := budget_after u 0; q_staged := [one_message true]; q_day := "2024-01-02"; q_disk := u; q_failed := false;
                q_published := [("2024-01-02" : str, 0)]; q_rollbacks := 0 |}).
  set (s3 := {| q_budget := budget_after u 0; q_staged := [one_message true]; q_day := "2024-01-03"; q_disk := u; q_failed := false;
                q_published := [("2024-01-02" : str, 0)]; q_rollbacks := 0 |}).
  set (s4 := with_budget (budget_after u 4096) [one_message true; one_message false] s3).
  apply (rtc_l _ s0 s1); [eapply (q_stage s0 (one_message false).1); by vm_compute|].
  apply (rtc_l _ s1 s2); [eapply (publish_leads_to s1 0 (one_message false).1 (one_message false).2 "2024-01-02" (one_message true).1 _ true); by vm_compute|].
  apply (rtc_l _ s2 s3); [apply (q_clock s2 "2024-01-03")|].
  apply (rtc_l _ s3 s4); [eapply (q_stage s3 (one_message false).1); by vm_compute|].
  apply rtc_once. eapply (publish_leads_to s4 1 (one_message false).1 (one_message false).2 "2024-01-02" (one_message true).1 _ true); by vm_compute.
Qed.

Lemma daily_budget_never_exceeded_witness :
  spent "2024-01-02" (q_published overrun) <= 4096 * (1 + Z.of_nat (q_rollbacks overrun)) /\
  spent "2024-01-02" (q_published overrun) = 8192.
Proof.
  split; [|by vm_compute].
  apply (daily_budget_never_exceeded 4096 "2024-01-02" overrun "2024-01-02"); [lia | unfold is_u64, MaxUint64; split; by vm_compute | exact overrun_reachable].
Defined.

(** in every reachable state the reservation counter is the sum of what the
    connections hold, never above the budget (so no uint64 subtraction wraps);
    each open connection has reserved at least 4 KiB and at least what it read. *)
Theorem reservations_add_up max start s :
  0 <= max -> is_u64 (allowance max s) -> rtc quota_step (q_initial max start) s ->
  reservedBytes (q_budget s) = reserved_sum (q_staged s) /\ 0 <= reservedBytes (q_budget s) <= max
  /\ Forall staged_ok (q_staged s).
Proof. intros H0 Hmax Hr. destruct (quota_reachable_ok max start s) as [_ ? ? ? _ _ _ _]; done. Qed.

Lemma reservations_add_up_witness :
  exists s, rtc quota_step (q_initial 8192 "2024-01-01") s /\ reservedBytes (q_budget s) = 4096.
Proof.
  set (s := with_budget {| maxDailyBytes := 8192; receipt := None; reservedBytes := 4096 |}
    [({| sm_path := []; sm_size := 0; sm_reserved := 4096; sm_done := false |}, {| qr_consumed := 0 |})]
    (q_initial 8192 "2024-01-01")).
  assert (rtc quota_step (q_initial 8192 "2024-01-01") s) as Hr.
  { apply rtc_once. eapply (q_stage (q_initial 8192 "2024-01-01")). by vm_compute. }
  exists s. split; [exact Hr|].
  destruct (reservations_add_up 8192 "2024-01-01" s) as (-> & _); [lia | unfold is_u64, MaxUint64; split; by vm_compute | exact Hr | by vm_compute].
Defined.

(** C24: the durable receipt survives restarts and clock rollbacks: it always
    covers everything published on its day, is within the budget (once more for
    every time the clock went back inside a [Publish]), and nothing was ever
    published against a later day. *)
Theorem receipt_covers_published max start s r :
  0 <= max -> is_u64 (allowance max s) -> rtc quota_step (q_initial max start) s -> q_disk s = Some r ->
  spent (Day r) (q_published s) <= ChargedBytes r <= max * (1 + Z.of_nat (q_rollbacks s))
  /\ (q_rollbacks s = 0%nat -> ChargedBytes r <= max)
  /\ Forall (fun e => str_lt (Day r) e.1 = false) (q_published s).
Proof.
  intros H0 Hmax Hr Hd. pose proof (qo_disk max s (quota_reachable_ok max start s H0 Hmax Hr)) as Hc. unfold allowance in Hc.
  rewrite Hd in Hc. destruct Hc as (? & ? & ?). split_and!; [lia | lia | intros E; rewrite E in *; lia | done].
Qed.

Lemma receipt_covers_published_witness :
  exists s r, rtc quota_step (q_initial 8192 "2024-01-01") s /\ q_disk s = Some r /\ ChargedBytes r <= 8192.
Proof.
  set (r := {| Day := "2024-01-01"; ChargedBytes := 4096 |}).
  set (s1 := with_budget {| maxDailyBytes := 8192; receipt := None; reservedBytes := 4096 |} [one_message false] (q_initial 8192 "2024-01-01")).
  set (s2 := {| q_budget := {| maxDailyBytes := 8192; receipt := Some r; reservedBytes := 0 |}; q_staged := [one_message true];
    q_day := "2024-01-01"; q_disk := Some r; q_failed := false; q_published := [("2024-01-01" : str, 0)]; q_rollbacks := 0 |}).
  assert (rtc quota_step (q_initial 8192 "2024-01-01") s2) as Hr.
  { eapply rtc_l; [eapply (q_stage (q_initial 8192 "2024-01-01") (one_message false).1); by vm_compute|].
    apply rtc_once. eapply (publish_leads_to s1 0 (one_message false).1 (one_message false).2 "2024-01-01" (one_message true).1 _ true); by vm_compute. }
  exists s2, r. split; [exact Hr|]. split; [reflexivity|].
  destruct (receipt_covers_published 8192 "2024-01-01" s2 r) as (_ & H & _);
    [lia | unfold is_u64, MaxUint64; split; by vm_compute | exact Hr | reflexivity | by apply H].
Defined.
