(* ===== verification/StateCodec.v ===== *)
(** * Reading and recovering the mailbox state (state.go, recovery.go, quota.go)

    The decoders of the state blob, of a file archive's state file and of the
    receipt file, the writer of the state file, and the recovery of a file
    archive that lost its last update. *)

From S2P Require Import Prelude GoStrings IdPath Directories Tree State Json JsonLaws Quota.

(** ** Fields *)

Definition receipt_names : list str := ["day" : str; "charged_bytes" : str].

Definition set_receipt_field (name : str) (v : json) (u : dailyReceipt) : result dailyReceipt :=
  if decide (name = "day")
  then let! day := into_string v (Day u) in Ok {| Day := day; ChargedBytes := ChargedBytes u |}
  else let! n := into_uint64 v (ChargedBytes u) in Ok {| Day := Day u; ChargedBytes := n |}.

Definition zero_receipt : dailyReceipt := {| Day := []; ChargedBytes := 0 |}.

Definition into_receipt : json -> dailyReceipt -> result dailyReceipt := into_struct receipt_names set_receipt_field.

Definition legacy_names : list str := ["version" : str; "last_id" : str; "total_octets" : str].
Definition state_names : list str := legacy_names ++ ["directories" : str; "daily_receipt" : str].

Definition zero_state : mailboxState :=
  {| Version := 0; LastID := 0; TotalOctets := 0; Directories := ∅; DailyReceipt := None; ms_index := None |}.

Definition set_state_field (name : str) (v : json) (s : mailboxState) : result mailboxState :=
  let make version last total dirs receipt :=
    {| Version := version; LastID := last; TotalOctets := total; Directories := dirs; DailyReceipt := receipt; ms_index := ms_index s |} in
  if decide (name = "version") then
    let! n := into_int v (Version s) in Ok (make n (LastID s) (TotalOctets s) (Directories s) (DailyReceipt s))
  else if decide (name = "last_id") then
    let! n := into_uint64 v (LastID s) in Ok (make (Version s) n (TotalOctets s) (Directories s) (DailyReceipt s))
  else if decide (name = "total_octets") then
    let! n := into_uint64 v (TotalOctets s) in Ok (make (Version s) (LastID s) n (Directories s) (DailyReceipt s))
  else if decide (name = "directories") then
    let! m := into_map v (Directories s) in Ok (make (Version s) (LastID s) (TotalOctets s) m (DailyReceipt s))
  else match v with
       | JNull => Ok (make (Version s) (LastID s) (TotalOctets s) (Directories s) None)
       | _ => let! u := into_receipt v (default zero_receipt (DailyReceipt s)) in
              Ok (make (Version s) (LastID s) (TotalOctets s) (Directories s) (Some u))
       end.

(** ** Decoders *)

Definition wrap {A} (context : string) (r : result A) : result A :=
  match r with Ok a => Ok a | Err e => Err (Wrap context e) end.

(** [decoder.Decode(&x)] and what follows. *)
Definition decode_into {T} (names : list str) (set_field : str -> json -> T -> result T) (zero : T) (source : str)
    : result (T * str) :=
  let! vr := Decode source in
  let! x := into_struct names set_field vr.1 zero in
  Ok (x, vr.2).

Definition with_index (index : option directoryIndex) (s : mailboxState) : mailboxState :=
  {| Version := Version s; LastID := LastID s; TotalOctets := TotalOctets s; Directories := Directories s;
     DailyReceipt := DailyReceipt s; ms_index := index |}.

Definition decodeMailboxState (source : str) : result mailboxState :=
  let! sr := wrap "decode mailbox state" (decode_into state_names set_state_field zero_state source) in
  let '(state, rest) := sr in
  match ensureJSONEOF rest with
  | Some e => Err (Wrap "decode mailbox state" e)
  | None =>
      if negb (Version state =? mailboxStateVersion) then Err (New "unsupported Git mailbox state version")
      else
        let! index := buildDirectoryIndex (Directories state) (LastID state) in
        if (total index =? 0) && negb (TotalOctets state =? 0) then Err (New "empty mailbox has nonzero octets")
        else match DailyReceipt state with
             | Some usage =>
                 match validateReceipt usage with
                 | Some e => Err e
                 | None => Ok (with_index (Some index) state)
                 end
             | None => Ok (with_index (Some index) state)
             end
  end.

(** [file] is the content of the archive's state file. *)
Definition readMailboxState (file : result str) : result mailboxState :=
  match file with
  | Err e => if errors_Is e OsErrNotExist then Ok emptyMailboxState else Err (Wrap "open mailbox state" e)
  | Ok source =>
      let! sr := decode_into legacy_names set_state_field zero_state source in
      let '(legacy, rest) := sr in
      match ensureJSONEOF rest with
      | Some e => Err e
      | None =>
          if negb (Version legacy =? 1) || ((LastID legacy =? 0) && negb (TotalOctets legacy =? 0))
          then Err (New "invalid legacy mailbox state")
          else Ok {| Version := mailboxStateVersion; LastID := LastID legacy; TotalOctets := TotalOctets legacy;
                     Directories := ∅; DailyReceipt := None; ms_index := None |}
      end
  end.

(** The file that [loadReceipt] opens. *)
Definition decodeReceipt (source : str) : result dailyReceipt :=
  let! ur := wrap "decode receipt budget" (decode_into receipt_names set_receipt_field zero_receipt source) in
  match ensureJSONEOF ur.2 with
  | Some e => Err e
  | None => Ok ur.1
  end.

Definition readReceipt (file : result str) : result (option dailyReceipt) :=
  match file with
  | Err e => if errors_Is e OsErrNotExist then Ok None else Err (Wrap "open receipt budget" e)
  | Ok source => let! usage := decodeReceipt source in Ok (Some usage)
  end.

(** ** Writing and recovering a file archive's state *)

(** The steps of replacing the state file, each of which may fail. *)
Class StateDirectory := {
  state_mkdir : option error;
  state_create : option error;
  state_write : option error;
  state_sync : option error;
  state_close : option error;
  state_rename : option error;
  state_open_root : option error;
  state_sync_root : option error;
}.

Definition legacy_document (s : mailboxState) : str :=
  json_object [json_field "version" (Itoa 1); json_field "last_id" (FormatUint (LastID s) 10);
               json_field "total_octets" (FormatUint (TotalOctets s) 10)] ++ [LF].

(** The error, and the state file afterwards: the new one appears when it is
    renamed. *)
Definition writeMailboxState `{StateDirectory} (s : mailboxState) (file : option str) : option error * option str :=
  if negb (Version s =? mailboxStateVersion) then (Some (New "refuse to write mailbox state version"), file)
  else match state_mkdir with Some e => (Some (Wrap "create archive root" e), file) | None =>
  match state_create with Some e => (Some (Wrap "create temporary mailbox state" e), file) | None =>
  match state_write with Some e => (Some (Wrap "encode mailbox state" e), file) | None =>
  match state_sync with Some e => (Some (Wrap "sync mailbox state" e), file) | None =>
  match state_close with Some e => (Some (Wrap "close mailbox state" e), file) | None =>
  match state_rename with Some e => (Some (Wrap "publish mailbox state" e), file) | None =>
  let file := Some (legacy_document s) in
  match state_open_root with Some e => (Some (Wrap "open archive root for sync" e), file) | None =>
  match state_sync_root with Some e => (Some (Wrap "sync archive root" e), file) | None =>
  (None, file) end end end end end end end end.

(** [os.Lstat] of a path under the archive's root: whether it is a regular file,
    and its size. *)
Class MailFiles := { lstat : str -> result (bool * Z) }.

Definition statMessage `{MailFiles} (id : Z) : result (bool * Z) :=
  let! relativePath := messageRelativePath id in lstat relativePath.

(** The check of the last indexed message. *)
Definition check_last `{MailFiles} (s : mailboxState) : option error :=
  if 0 <? LastID s then
    match statMessage (LastID s) with
    | Err e => Some (Wrap "validate last indexed message" e)
    | Ok (regular, _) => if (regular : bool) then None else Some (New "last indexed message is not a regular file")
    end
  else None.

Definition recoverMailboxTail `{MailFiles, StateDirectory} (s : mailboxState) (file : option str)
    : result mailboxState * option str :=
  match check_last s with
  | Some e => (Err e, file)
  | None =>
      if LastID s =? MaxUint64 then (Ok s, file)
      else
        let nextID := u64 (LastID s + 1) in
        match statMessage nextID with
        | Err e => (if errors_Is e OsErrNotExist then Ok s else Err (Wrap "check recovery message" e), file)
        | Ok (regular, size) =>
            if negb regular then (Err (New "recovery message is not a regular file"), file)
            else if u64 (MaxUint64 - TotalOctets s) <? u64 size then (Err (New "recovered mailbox octet count overflow"), file)
            else
              let after := if nextID <? MaxUint64 then
                             match statMessage (u64 (nextID + 1)) with
                             | Ok _ => Some (New "mailbox state trails more than one published message")
                             | Err e => if errors_Is e OsErrNotExist then None
                                        else Some (Wrap "check message after recovery tail" e)
                             end
                           else None in
              match after with
              | Some e => (Err e, file)
              | None =>
                  let recovered := {| Version := mailboxStateVersion; LastID := nextID;
                    TotalOctets := u64 (TotalOctets s + u64 size); Directories := ∅; DailyReceipt := None; ms_index := None |} in
                  let '(err, file) := writeMailboxState recovered file in
                  match err with
                  | Some e => (Err (Wrap "record recovered mailbox tail" e), file)
                  | None => (Ok recovered, file)
                  end
              end
        end
  end.

(** ** What is written is what is read *)

(** A map's members, in any order. *)
Lemma into_map_members_list (l : list (str * Z)) m : Forall (fun e => is_u64 e.2) l -> NoDup l.*1 ->
  into_map_members ((fun e => (e.1, JNumber (FormatUint e.2 10))) <$> l) m = Ok (list_to_map l ∪ m).
Proof.
  intros HF. revert m. induction HF as [|[k n] l Hn HF IH]; intros m HN; cbn [fmap list_fmap into_map_members list_to_map foldr].
  - by rewrite map_empty_union.
  - cbn [fmap list_fmap] in HN. apply NoDup_cons in HN as [Hk HN]. cbn [fst snd] in *.
    rewrite into_uint64_FormatUint by done. cbn [rbind]. rewrite IH by done. f_equal.
    rewrite <- insert_union_r by (by apply not_elem_of_list_to_map_1). apply insert_union_l.
Qed.

(** Counts that the encoder writes plainly. *)
Definition plain_counts (counts : directoryCounts) : Prop := map_Forall (fun k n => plain k /\ is_u64 n) counts.

Lemma renders_counts counts : plain_counts counts -> exists v, renders 1 (marshal_counts counts) v /\
  into_map v ∅ = Ok counts.
Proof.
  intros HP. set (l := sort_Slice key_less (map_to_list counts)).
  pose proof (sort_Slice_perm key_less (map_to_list counts)) as Hperm. fold l in Hperm.
  assert (Forall (fun e => plain e.1 /\ is_u64 e.2) l) as HF.
  { rewrite Hperm. apply Forall_forall. intros [k n] He%elem_of_map_to_list. by apply HP. }
  assert (NoDup l.*1) as HN by (rewrite Hperm; apply NoDup_fst_map_to_list).
  exists (JObject ((fun e => (e.1, JNumber (FormatUint e.2 10))) <$> l)). split.
  - apply (renders_object 0); [done|]. apply Forall2_fmap_l, Forall2_fmap_r. fold l.
    apply Forall_Forall2_diag. eapply Forall_impl; [exact HF|]. intros [k n] [Hk Hn]. cbn [fst snd] in *.
    split; [done|]. exists (FormatUint n 10). split; [done | by apply renders_uint].
  - cbn [into_map]. rewrite into_map_members_list; [|eapply Forall_impl; [exact HF|]; simpl; tauto | done].
    rewrite map_union_empty. f_equal. rewrite (list_to_map_proper l (map_to_list counts)) by done. apply list_to_map_to_list.
Qed.

(** What the codec requires of a state: what any store's state has. *)
Record codable (s : mailboxState) : Prop := {
  cd_version : Version s = mailboxStateVersion;
  cd_last : is_u64 (LastID s);
  cd_total : is_u64 (TotalOctets s);
  cd_counts : plain_counts (Directories s);
  cd_receipt : match DailyReceipt s with Some u => plain (Day u) /\ is_u64 (ChargedBytes u) | None => True end;
}.

Lemma plain_names : Forall plain (state_names ++ receipt_names).
Proof. apply (bool_decide_unpack _). vm_compute. exact I. Qed.

Lemma plain_name k : k ∈ state_names ++ receipt_names -> plain k.
Proof. pose proof plain_names as HF. rewrite Forall_forall in HF. apply HF. Qed.

Lemma renders_field k name text v : name ∈ state_names ++ receipt_names -> renders k text v ->
  renders_member k (json_field name text) (name, v).
Proof. intros Hn Hr. split; [by apply plain_name|]. by exists text. Qed.

Lemma renders_weaken k k' text v : k <= k' -> renders k text v -> renders k' text v.
Proof. intros Hk Hr fuel depth rest He Hf Hd. apply Hr; [done | done | lia]. Qed.

Lemma renders_receipt u : plain (Day u) -> is_u64 (ChargedBytes u) -> exists v, renders 1 (marshal_receipt u) v /\
  v <> JNull /\ into_receipt v zero_receipt = Ok u.
Proof.
  intros Hd Hc. eexists (JObject [("day" : str, JString (Day u)); ("charged_bytes" : str, JNumber (FormatUint (ChargedBytes u) 10))]).
  split; [|split; [done|]].
  - apply (renders_object 0); [done|]. repeat constructor; apply renders_field; try set_solver; [by apply renders_string | by apply renders_uint].
  - unfold into_receipt. cbn [into_struct into_fields]. rewrite !field_named_exact by set_solver.
    unfold set_receipt_field at 1. rewrite decide_True by done. cbn [into_string rbind].
    unfold set_receipt_field. rewrite decide_False by done. rewrite into_uint64_FormatUint by done. by destruct u.
Qed.

Definition make_state (s : mailboxState) (counts : directoryCounts) (receipt : option dailyReceipt) : mailboxState :=
  {| Version := Version s; LastID := LastID s; TotalOctets := TotalOctets s; Directories := counts; DailyReceipt := receipt;
     ms_index := None |}.

Lemma directories_member s : plain_counts (Directories s) -> exists ms,
  Forall2 (renders_member 2) (if decide (Directories s = ∅) then [] else [json_field "directories" (marshal_counts (Directories s))]) ms /\
  into_fields state_names set_state_field ms (make_state s ∅ None) = Ok (make_state s (Directories s) None).
Proof.
  intros Hc. destruct (decide (Directories s = ∅)) as [->|_]; [by exists []|].
  destruct (renders_counts _ Hc) as (v & Hr & Hm). exists [("directories" : str, v)]. split.
  - constructor; [|constructor]. apply renders_field; [set_solver|]. by apply (renders_weaken 1).
  - cbn [into_fields]. rewrite field_named_exact by set_solver. unfold set_state_field.
    rewrite !decide_False by done. rewrite decide_True by done. cbn [Directories make_state]. by rewrite Hm.
Qed.

Lemma receipt_member s : match DailyReceipt s with Some u => plain (Day u) /\ is_u64 (ChargedBytes u) | None => True end ->
  exists ms, Forall2 (renders_member 2) (match DailyReceipt s with
      | None => [] | Some u => [json_field "daily_receipt" (marshal_receipt u)] end) ms /\
    into_fields state_names set_state_field ms (make_state s (Directories s) None) = Ok (make_state s (Directories s) (DailyReceipt s)).
Proof.
  destruct (DailyReceipt s) as [u|]; [|by exists []]. intros [Hd Hc].
  destruct (renders_receipt u Hd Hc) as (v & Hr & Hne & Hi). exists [("daily_receipt" : str, v)]. split.
  - constructor; [|constructor]. apply renders_field; [set_solver|]. by apply (renders_weaken 1).
  - cbn [into_fields]. rewrite field_named_exact by set_solver. unfold set_state_field. rewrite !decide_False by done.
    cbn [DailyReceipt make_state default]. destruct v; try done; by rewrite Hi.
Qed.

Lemma set_last_id s z : is_u64 z -> set_state_field "last_id" (JNumber (FormatUint z 10)) s =
  Ok {| Version := Version s; LastID := z; TotalOctets := TotalOctets s; Directories := Directories s;
        DailyReceipt := DailyReceipt s; ms_index := ms_index s |}.
Proof. intros Hz. unfold set_state_field. rewrite decide_False, decide_True by done. by rewrite into_uint64_FormatUint. Qed.

Lemma set_total_octets s z : is_u64 z -> set_state_field "total_octets" (JNumber (FormatUint z 10)) s =
  Ok {| Version := Version s; LastID := LastID s; TotalOctets := z; Directories := Directories s;
        DailyReceipt := DailyReceipt s; ms_index := ms_index s |}.
Proof. intros Hz. unfold set_state_field. rewrite !decide_False, decide_True by done. by rewrite into_uint64_FormatUint. Qed.

(** The members of a state. *)
Lemma state_members s : codable s -> exists ms, renders 3 (Marshal s) (JObject ms) /\
  into_fields state_names set_state_field ms zero_state = Ok (with_index None s).
Proof.
  intros [Hv Hl Ht Hc Hr]. destruct (directories_member s Hc) as (dms & Hd1 & Hd2). destruct (receipt_member s Hr) as (rms & Hr1 & Hr2).
  exists ([("version" : str, JNumber (FormatUint 2 10)); ("last_id" : str, JNumber (FormatUint (LastID s) 10));
           ("total_octets" : str, JNumber (FormatUint (TotalOctets s) 10))] ++ dms ++ rms). split.
  - apply (renders_object 2); [done|]. apply Forall2_app; [|by apply Forall2_app]. rewrite Hv.
    repeat first [apply Forall2_nil_2 | apply Forall2_cons_2];
      (apply renders_field; [set_solver | apply (renders_weaken 0); [done | by apply renders_uint]]).
  - rewrite into_fields_app. cbn [into_fields]. rewrite !field_named_exact by set_solver. cbn [rbind].
    change (set_state_field "version" (JNumber (FormatUint 2 10)) zero_state) with (Ok (with_index None
      {| Version := 2; LastID := 0; TotalOctets := 0; Directories := ∅; DailyReceipt := None; ms_index := None |})).
    cbn [rbind]. rewrite set_last_id by done. cbn [rbind]. rewrite set_total_octets by done. cbn [rbind].
    rewrite into_fields_app. unfold make_state in Hd2, Hr2. rewrite Hv in Hd2, Hr2. cbn [with_index Version LastID Directories DailyReceipt ms_index].
    change mailboxStateVersion with 2 in Hd2, Hr2. rewrite Hd2. cbn [rbind]. rewrite Hr2. unfold with_index. by rewrite Hv.
Qed.

Lemma Marshal_head s : exists c t, Marshal s = c :: t /\ json_space c = false.
Proof. eexists _, _. split; [reflexivity | done]. Qed.

(** Decoding what was encoded. *)
Lemma decode_Marshal s index : codable s -> buildDirectoryIndex (Directories s) (LastID s) = Ok index ->
  (total index = 0 -> TotalOctets s = 0) -> (forall u, DailyReceipt s = Some u -> validateReceipt u = None) ->
  decodeMailboxState (Marshal s ++ [LF]) = Ok (with_index (Some index) s).
Proof.
  intros Hs Hi Ht Hu. destruct (state_members s Hs) as (ms & Hr & Hf).
  unfold decodeMailboxState, decode_into. rewrite (Decode_renders 3 _ _ Hr) by (done || apply Marshal_head).
  cbn [rbind fst snd into_struct]. rewrite Hf. cbn [rbind wrap]. rewrite ensureJSONEOF_LF. cbn [Version with_index].
  rewrite (cd_version _ Hs). cbn [Z.eqb negb]. rewrite Z.eqb_refl. cbn [negb Directories LastID with_index]. rewrite Hi.
  cbn [rbind TotalOctets DailyReceipt with_index]. assert ((total index =? 0) && negb (TotalOctets s =? 0) = false) as ->.
  { destruct (Z.eqb_spec (total index) 0); [|done]. by rewrite Ht. }
  destruct (DailyReceipt s) as [u|]; [|done]. by rewrite (Hu u eq_refl).
Qed.

(** The receipt file. *)
Lemma decode_Encode_receipt u : plain (Day u) -> is_u64 (ChargedBytes u) -> readReceipt (Ok (Encode_receipt u)) = Ok (Some u).
Proof.
  intros Hd Hc. destruct (renders_receipt u Hd Hc) as (v & Hr & _ & Hi). unfold readReceipt, decodeReceipt, decode_into, Encode_receipt.
  change [byte_of 10] with [LF]. rewrite (Decode_renders 1 _ _ Hr); [|done | eexists _, _; split; [reflexivity | done]].
  cbn [rbind fst snd]. unfold into_receipt in Hi. rewrite Hi. cbn [rbind wrap snd]. by rewrite ensureJSONEOF_LF.
Qed.

(** A file archive's state, as it is read. *)
Definition legacy_state (last octets : Z) : mailboxState :=
  {| Version := mailboxStateVersion; LastID := last; TotalOctets := octets; Directories := ∅; DailyReceipt := None; ms_index := None |}.

Lemma read_legacy_document s : is_u64 (LastID s) -> is_u64 (TotalOctets s) -> (LastID s = 0 -> TotalOctets s = 0) ->
  readMailboxState (Ok (legacy_document s)) = Ok (legacy_state (LastID s) (TotalOctets s)).
Proof.
  intros Hl Ht H0. unfold readMailboxState, decode_into, legacy_document.
  rewrite (Decode_renders 3 _ (JObject [("version" : str, JNumber (FormatUint 1 10)); ("last_id" : str, JNumber (FormatUint (LastID s) 10));
     ("total_octets" : str, JNumber (FormatUint (TotalOctets s) 10))])); [| |done | eexists _, _; split; [reflexivity | done]].
  2: { apply (renders_object 2); [done|]. change (Itoa 1) with (FormatUint 1 10).
    repeat first [apply Forall2_nil_2 | apply Forall2_cons_2];
      (apply renders_field; [set_solver | apply (renders_weaken 0); [done | by apply renders_uint]]). }
  cbn [rbind fst snd into_struct into_fields]. rewrite !field_named_exact by set_solver.
  change (set_state_field "version" (JNumber (FormatUint 1 10)) zero_state) with (Ok
    {| Version := 1; LastID := 0; TotalOctets := 0; Directories := ∅; DailyReceipt := None; ms_index := None |}).
  cbn [rbind]. rewrite set_last_id by done. cbn [rbind]. rewrite set_total_octets by done. cbn [rbind]. rewrite ensureJSONEOF_LF.
  cbn [Version LastID TotalOctets Z.eqb negb orb]. destruct (Z.eqb_spec (LastID s) 0) as [E|_]; [|done]. by rewrite H0.
Qed.

(** ** Recovery *)

Section Recovery.
Context `{MF : MailFiles, SD : StateDirectory}.

(** The message files of a file archive: IDs from 1 to [n], with their sizes. *)
Record file_archive (sizes : Z -> Z) (n : Z) : Prop := {
  fa_count : 0 <= n <= MaxUint64;
  fa_file id : 1 <= id <= n -> statMessage id = Ok (true, sizes id) /\ 0 <= sizes id <= MaxUint64;
  fa_none id : n < id <= MaxUint64 -> exists e, statMessage id = Err e /\ errors_Is e OsErrNotExist = true;
}.

(** Every step of a write succeeds. *)
Definition writable : Prop :=
  state_mkdir = None /\ state_create = None /\ state_write = None /\ state_sync = None /\ state_close = None /\
  state_rename = None /\ state_open_root = None /\ state_sync_root = None.

Lemma writeMailboxState_writable s file : writable -> Version s = mailboxStateVersion ->
  writeMailboxState s file = (None, Some (legacy_document s)).
Proof.
  intros (H1 & H2 & H3 & H4 & H5 & H6 & H7 & H8) Hv. unfold writeMailboxState. by rewrite Hv, H1, H2, H3, H4, H5, H6, H7, H8.
Qed.

Lemma check_last_ok sizes n last total : file_archive sizes n -> 0 <= last <= n -> check_last (legacy_state last total) = None.
Proof.
  intros Hf Hl. unfold check_last. cbn [LastID legacy_state]. destruct (Z.ltb_spec 0 last); [|done].
  destruct (fa_file _ _ Hf last ltac:(lia)) as [-> _]. done.
Qed.

(** Nothing to recover. *)
Lemma recover_current sizes n total file : file_archive sizes n ->
  recoverMailboxTail (legacy_state n total) file = (Ok (legacy_state n total), file).
Proof.
  intros Hf. pose proof (fa_count _ _ Hf). unfold recoverMailboxTail. rewrite (check_last_ok sizes n) by (done || lia).
  cbn [LastID legacy_state]. destruct (Z.eqb_spec n MaxUint64); [done|]. rewrite (u64_small (n + 1)) by (unfold is_u64; lia).
  destruct (fa_none _ _ Hf (n + 1) ltac:(lia)) as (e & -> & He). by rewrite He.
Qed.

(** One message that the state file does not know. *)
Lemma recover_one sizes n total file : file_archive sizes n -> 1 <= n -> 0 <= total -> total + sizes n <= MaxUint64 -> writable ->
  recoverMailboxTail (legacy_state (n - 1) total) file =
    (Ok (legacy_state n (total + sizes n)), Some (legacy_document (legacy_state n (total + sizes n)))).
Proof.
  intros Hf Hn Ht Hsum Hw. pose proof (fa_count _ _ Hf). destruct (fa_file _ _ Hf n ltac:(lia)) as [Hstat Hsize].
  unfold recoverMailboxTail. rewrite (check_last_ok sizes n) by (done || lia). cbn [LastID TotalOctets legacy_state].
  destruct (Z.eqb_spec (n - 1) MaxUint64); [lia|]. replace (n - 1 + 1) with n by lia.
  rewrite (u64_small n), Hstat by (unfold is_u64; lia). cbn [negb]. rewrite !u64_small by (unfold is_u64; lia).
  destruct (Z.ltb_spec (MaxUint64 - total) (sizes n)); [lia|].
  assert ((if n <? MaxUint64 then match statMessage (u64 (n + 1)) with
     | Ok _ => Some (New "mailbox state trails more than one published message")
     | Err e => if errors_Is e OsErrNotExist then None else Some (Wrap "check message after recovery tail" e) end else None) = None) as ->.
  { destruct (Z.ltb_spec n MaxUint64); [|done]. rewrite u64_small by (unfold is_u64; lia).
    destruct (fa_none _ _ Hf (n + 1) ltac:(lia)) as (e & -> & He). by rewrite He. }
  rewrite (u64_small (total + sizes n)) by (unfold is_u64; lia). by rewrite writeMailboxState_writable.
Qed.

(** Two or more: the archive is left alone. *)
Lemma recover_refuses sizes n last total file : file_archive sizes n -> 0 <= last -> last + 2 <= n -> 0 <= total <= MaxUint64 ->
  exists e, recoverMailboxTail (legacy_state last total) file = (Err e, file).
Proof.
  intros Hf Hl Hn Ht. pose proof (fa_count _ _ Hf). destruct (fa_file _ _ Hf (last + 1) ltac:(lia)) as [Hstat Hsize].
  destruct (fa_file _ _ Hf (last + 2) ltac:(lia)) as [Hnext _].
  unfold recoverMailboxTail. rewrite (check_last_ok sizes n) by (done || lia). cbn [LastID TotalOctets legacy_state].
  destruct (Z.eqb_spec last MaxUint64); [lia|]. rewrite (u64_small (last + 1)), Hstat by (unfold is_u64; lia). cbn [negb].
  destruct (_ <? _); [by eexists|]. destruct (Z.ltb_spec (last + 1) MaxUint64); [|lia].
  rewrite u64_small by (unfold is_u64; lia). replace (last + 1 + 1) with (last + 2) by lia. rewrite Hnext. by eexists.
Qed.
End Recovery.
