(* ===== verification/ReceiptFile.v ===== *)
(** * Writing the receipt file (internal/archive/quota.go: writeReceipt; store.go: syncDirectory)

    The receipt replaces the old one through a synced temporary file, a rename and
    a sync of the directory.  The steps are states of a disk on which unsynced
    data may be lost: at no step can a crash leave anything but the old receipt or
    the whole new one, and after success only the new one is left. *)

From S2P Require Import Prelude GoStrings Directories State Quota Json JsonLaws StateBound StateCodec.

(** ** The disk *)

(** The file the receipt's name refers to and whether its data are on disk; the
    temporary file, with the same; and, while a rename is not durable, what the
    name referred to before. *)
Record disk := {
  dk_current : option (str * bool);
  dk_temp : option (str * bool);
  dk_before : option (option (str * bool));
}.

(** What a file that may be torn can hold after a crash. *)
Definition file_survives (file : option (str * bool)) (content : option str) : Prop :=
  match file with
  | None => content = None
  | Some (data, true) => content = Some data
  | Some (_, false) => content <> None
  end.

(** What the receipt's name can refer to after a crash. *)
Definition survives (d : disk) (content : option str) : Prop :=
  file_survives (dk_current d) content \/
  exists before, dk_before d = Some before /\ file_survives before content.

(** A receipt at rest. *)
Definition at_rest (content : option str) : disk :=
  {| dk_current := (fun c => (c, true)) <$> content; dk_temp := None; dk_before := None |}.

(** The system calls that may fail; a failed write leaves some of its bytes. *)
Class ReceiptCalls := {
  rc_create : option error;
  rc_write : option (error * str);
  rc_sync : option error;
  rc_close : option error;
  rc_rename : option error;
  rc_open_dir : option error;
  rc_sync_dir : option error;
}.

(** ** Operations *)

Definition history : Type := list disk.

(** The latest state. *)
Definition now (h : history) : disk := default (at_rest None) (last h).

Definition step (f : disk -> disk) (h : history) : history := h ++ [f (now h)].

Definition create_temp_file (d : disk) : disk :=
  {| dk_current := dk_current d; dk_temp := Some ([], false); dk_before := dk_before d |}.

Definition write_temp_file (data : str) (d : disk) : disk :=
  {| dk_current := dk_current d; dk_temp := (fun _ => (data, false)) <$> dk_temp d; dk_before := dk_before d |}.

Definition sync_temp_file (d : disk) : disk :=
  {| dk_current := dk_current d; dk_temp := (fun f => (f.1, true)) <$> dk_temp d; dk_before := dk_before d |}.

(** [os.Rename] of the temporary file to the receipt's name. *)
Definition rename_temp_file (d : disk) : disk :=
  {| dk_current := dk_temp d; dk_temp := None; dk_before := Some (dk_current d) |}.

Definition sync_dir (d : disk) : disk := {| dk_current := dk_current d; dk_temp := dk_temp d; dk_before := None |}.

Definition remove_temp_file (d : disk) : disk := {| dk_current := dk_current d; dk_temp := None; dk_before := dk_before d |}.

Section Write.
Context `{ReceiptCalls}.

(** [syncDirectory]. *)
Definition syncDirectory : M history unit := fun h =>
  match rc_open_dir with
  | Some e => (Err (Wrap "open archive directory for sync" e), h)
  | None =>
      match rc_sync_dir with
      | Some e => (Err (Wrap "sync archive directory" e), h)
      | None => (Ok tt, step sync_dir h)
      end
  end.

(** The body of [writeReceipt] after the temporary file exists. *)
Definition fill_and_rename (usage : dailyReceipt) : M history unit := fun h =>
  match rc_write with
  | Some (e, partial) => (Err e, step (write_temp_file partial) h)
  | None =>
      let h := step (write_temp_file (Encode_receipt usage)) h in
      match rc_sync with
      | Some e => (Err e, h)
      | None =>
          let h := step sync_temp_file h in
          match rc_close with
          | Some e => (Err e, h)
          | None =>
              match rc_rename with
              | Some e => (Err e, h)
              | None => syncDirectory (step rename_temp_file h)
              end
          end
      end
  end.

(** [writeReceipt]; the deferred call removes the temporary name. *)
Definition writeReceipt (usage : dailyReceipt) : M history unit := fun h =>
  match rc_create with
  | Some e => (Err e, h)
  | None => let '(r, h) := fill_and_rename usage (step create_temp_file h) in (r, step remove_temp_file h)
  end.
End Write.

(** ** Lemmas *)

(** A state that only the old or the new receipt survives. *)
Definition safe (old : option str) (new : str) (d : disk) : Prop :=
  forall content, survives d content -> content = old \/ content = Some new.

(** Before the rename the receipt's name is untouched. *)
Definition untouched (old : option str) (d : disk) : Prop :=
  dk_current d = (fun c => (c, true)) <$> old /\ dk_before d = None.

Lemma untouched_safe old new d : untouched old d -> safe old new d.
Proof.
  intros [Hc Hb] content [Hs|(before & E & _)]; [|congruence]. rewrite Hc in Hs. left. by destruct old.
Qed.

Lemma renamed_safe old new d : dk_current d = Some (new, true) ->
  dk_before d = None \/ dk_before d = Some ((fun c => (c, true)) <$> old) -> safe old new d.
Proof.
  intros Hc Hb content [Hs|(before & E & Hs)].
  - rewrite Hc in Hs. by right.
  - destruct Hb as [Hb|Hb]; rewrite Hb in E; [done|]. injection E as <-. left. by destruct old.
Qed.

Lemma now_step f h : now (step f h) = f (now h).
Proof. unfold now, step. by rewrite last_snoc. Qed.

Lemma Forall_step (P : disk -> Prop) f h : Forall P h -> P (f (now h)) -> Forall P (step f h).
Proof. intros Hh Hf. apply Forall_app. split; [done | by apply Forall_singleton]. Qed.

Section WriteLemmas.
Context `{ReceiptCalls}.
Context (old : option str) (usage : dailyReceipt).

Definition new : str := Encode_receipt usage.

(** What holds whenever [writeReceipt] returns. *)
Definition outcome (r : result unit) (h : history) : Prop :=
  Forall (safe old new) h /\
  (untouched old (now h) \/
   (dk_current (now h) = Some (new, true) /\ (dk_before (now h) = None \/ dk_before (now h) = Some ((fun c => (c, true)) <$> old)))) /\
  (is_ok r = true -> dk_current (now h) = Some (new, true) /\ dk_before (now h) = None).

Lemma outcome_untouched e h : Forall (safe old new) h -> untouched old (now h) -> outcome (Err e) h.
Proof. intros Hh Hu. by split_and!; [| left |]. Qed.

Lemma syncDirectory_outcome h : Forall (safe old new) h -> dk_current (now h) = Some (new, true) ->
  dk_before (now h) = Some ((fun c => (c, true)) <$> old) ->
  outcome (syncDirectory h).1 (syncDirectory h).2.
Proof.
  intros Hh Hc Hb. unfold syncDirectory. destruct rc_open_dir; [by split_and!; [| right; auto |]|].
  destruct rc_sync_dir; [by split_and!; [| right; auto |]|]. unfold outcome. cbn [fst snd]. rewrite now_step.
  assert (dk_current (sync_dir (now h)) = Some (new, true) /\ dk_before (sync_dir (now h)) = None) as Hs by done.
  split_and!; [|right; split; [apply Hs | left; apply Hs] | intros _; exact Hs].
  apply Forall_step; [done|]. apply renamed_safe; [apply Hs | left; apply Hs].
Qed.

Lemma fill_and_rename_outcome h : Forall (safe old new) h -> untouched old (now h) -> dk_temp (now h) <> None ->
  outcome (fill_and_rename usage h).1 (fill_and_rename usage h).2.
Proof.
  intros Hh Hu Ht. assert (forall f, untouched old (f (now h)) -> Forall (safe old new) (step f h)) as Hstep
    by (intros f Hf; apply Forall_step; [done | by apply untouched_safe]).
  unfold fill_and_rename. fold new. destruct rc_write as [[e partial]|].
  { apply outcome_untouched; cbn [snd]; [apply Hstep | rewrite now_step]; exact Hu. }
  set (h1 := step (write_temp_file new) h).
  assert (untouched old (now h1)) as Hu1 by (unfold h1; rewrite now_step; exact Hu).
  assert (Forall (safe old new) h1) as Hh1 by (apply Hstep; exact Hu).
  assert (dk_temp (now h1) = Some (new, false)) as Ht1.
  { unfold h1. rewrite now_step. unfold write_temp_file. cbn [dk_temp]. destruct (dk_temp (now h)) as [[data synced]|]; [reflexivity | congruence]. }
  destruct rc_sync; [by apply outcome_untouched|]. set (h2 := step sync_temp_file h1).
  assert (untouched old (now h2)) as Hu2 by (unfold h2; rewrite now_step; exact Hu1).
  assert (Forall (safe old new) h2) as Hh2 by (apply Forall_step; [done | apply untouched_safe; exact Hu1]).
  assert (dk_temp (now h2) = Some (new, true)) as Ht2 by (unfold h2; rewrite now_step; unfold sync_temp_file; cbn [dk_temp]; rewrite Ht1; reflexivity).
  destruct rc_close; [by apply outcome_untouched|]. destruct rc_rename; [by apply outcome_untouched|].
  destruct Hu2 as [Hc2 _]. apply syncDirectory_outcome; rewrite ?now_step; unfold rename_temp_file; cbn [dk_current dk_before]; [|exact Ht2 | by rewrite Hc2].
  apply Forall_step; [done|]. apply renamed_safe; unfold rename_temp_file; cbn [dk_current dk_before]; [exact Ht2 | right; by rewrite Hc2].
Qed.

Lemma writeReceipt_outcome : outcome (writeReceipt usage [at_rest old]).1 (writeReceipt usage [at_rest old]).2 /\
  dk_temp (now (writeReceipt usage [at_rest old]).2) = None.
Proof.
  assert (untouched old (at_rest old)) as Hu by done.
  assert (Forall (safe old new) [at_rest old]) as Hh by (by apply Forall_singleton, untouched_safe).
  unfold writeReceipt. destruct rc_create; [split; [by apply outcome_untouched | done]|].
  pose proof (fill_and_rename_outcome (step create_temp_file [at_rest old])) as Ho.
  destruct (fill_and_rename usage _) as [r h]. cbn [fst snd] in Ho |- *.
  destruct Ho as (H1 & H2 & H3).
  - apply Forall_step; [done | by apply untouched_safe].
  - done.
  - done.
  - split; [|by rewrite now_step]. unfold outcome. rewrite now_step. split_and!; [|exact H2 | exact H3].
    apply Forall_step; [done|]. destruct H2 as [H2|[H2 H4]]; [by apply untouched_safe | by apply renamed_safe].
Qed.
End WriteLemmas.

(** ** Properties *)

(** C25: The receipt is replaced atomically.  Whichever system call fails and
    wherever the process dies, what is found afterwards under the receipt's name
    is the old receipt or the whole new one; when the write succeeds it is the
    new one, on disk, which the next start reads back; and no temporary file is
    left behind. *)
Theorem receipt_write_is_atomic `{ReceiptCalls} (old : option str) (usage : dailyReceipt) :
  plain (Day usage) -> is_u64 (ChargedBytes usage) ->
  let '(r, h) := writeReceipt usage [at_rest old] in
  (forall d content, d ∈ h -> survives d content -> content = old \/ content = Some (Encode_receipt usage)) /\
  (r = Ok tt -> forall content, survives (now h) content -> content = Some (Encode_receipt usage)) /\
  dk_temp (now h) = None /\ readReceipt (Ok (Encode_receipt usage)) = Ok (Some usage).
Proof.
  intros Hd Hc. destruct (writeReceipt_outcome old usage) as [(Hsafe & _ & Hok) Htemp].
  destruct (writeReceipt usage [at_rest old]) as [r h]. cbn [fst snd] in *. split_and!.
  - intros d content Hin. rewrite Forall_forall in Hsafe. by apply Hsafe.
  - intros -> content Hs. destruct (Hok eq_refl) as [Hcur Hbefore].
    destruct Hs as [Hs|(before & E & _)]; [by rewrite Hcur in Hs | congruence].
  - exact Htemp.
  - by apply decode_Encode_receipt.
Qed.

(** ** Witness *)

Module Demo.
(** The directory cannot be synced after the rename. *)
#[local] Instance unsynced : ReceiptCalls := {|
  rc_create := None; rc_write := None; rc_sync := None; rc_close := None; rc_rename := None; rc_open_dir := None;
  rc_sync_dir := Some (New "input/output error") |}.

Definition today : dailyReceipt := {| Day := "2024-01-01"; ChargedBytes := 4096 |}.

Lemma today_plain : plain (Day today).
Proof. apply forallb_Forall. reflexivity. Qed.

Lemma receipt_write_is_atomic_witness :
  is_ok (writeReceipt today [at_rest None]).1 = false /\
  forall content, survives (now (writeReceipt today [at_rest None]).2) content ->
    content = None \/ content = Some (Encode_receipt today).
Proof.
  assert (is_u64 (ChargedBytes today)) as Hc by (unfold is_u64, MaxUint64; cbn; lia).
  pose proof (receipt_write_is_atomic None today today_plain Hc) as H.
  assert (exists a l, writeReceipt today [at_rest None] = (Err a, l) /\ now l ∈ l) as (a & l & E & Hin).
  { eexists _, _. split; [reflexivity|]. unfold now, step. rewrite last_snoc. cbn [default from_option].
    apply elem_of_app. right. by left. }
  rewrite E in *. split; [reflexivity|]. intros content Hs. exact (proj1 H _ content Hin Hs).
Defined.
End Demo.
