(* ===== verification/Import.v ===== *)
(** * Committing through git fast-import (internal/archive/import.go)

    A commit is one transaction written to a long-lived [git fast-import], whose
    answers and the published HEAD are checked before the store believes it.
    The grammar Git documents for the stream is an executable parser, so "what
    the program writes means what it intends" is a theorem, whatever bytes the
    message contents, the title and the paths hold. *)

From S2P Require Import Prelude GoStrings IdPath Directories Numbering Cache Tree CatFile Listing Contents State.

(** ** Git's fast-import grammar, the part the program uses *)

Inductive fi_change :=
  | FileModify (path content : str)
  | FileDelete (path : str).

Record fi_commit := {
  fc_ref : str; fc_mark : str; fc_committer : str; fc_title : str;
  fc_from : option str; fc_changes : list fi_change;
}.

(** The rest of a line after a keyword. *)
Definition after (keyword s : str) : option str :=
  if HasPrefix s keyword then Some (drop (length keyword) s) else None.

Definition take_line (s : str) : option (str * str) :=
  match Cut s LF with (line, rest, true) => Some (line, rest) | _ => None end.

(** [keyword] value LF. *)
Definition fi_line (keyword s : str) : option (str * str) :=
  '(line, rest) ← take_line s; value ← after keyword line; Some (value, rest).

(** ['data' SP count LF raw LF]: exactly [count] bytes, whatever they are. *)
Definition fi_data (s : str) : option (str * str) :=
  '(count, rest) ← fi_line "data " s;
  match ParseUint count 10 63 with
  | Err _ => None
  | Ok n =>
      let n := Z.to_nat n in
      if (length rest <? n)%nat then None
      else match drop n rest with
           | c :: rest' => if decide (c = LF) then Some (take n rest, rest') else None
           | [] => None
           end
  end.

(** A path is the rest of the line unless it is quoted. *)
Definition fi_path (path : str) : option str :=
  if bool_decide (path = []) || HasPrefix path [byte_of 34] then None else Some path.

Fixpoint fi_changes (fuel : nat) (s : str) : option (list fi_change * str) :=
  match fuel with
  | O => None
  | S fuel =>
      '(line, rest) ← take_line s;
      if decide (line = []) then Some ([], rest)
      else match after "M 100644 inline " line with
      | Some path =>
          path ← fi_path path;
          '(content, rest) ← fi_data rest;
          '(changes, rest) ← fi_changes fuel rest;
          Some (FileModify path content :: changes, rest)
      | None =>
          path ← after "D " line ≫= fi_path;
          '(changes, rest) ← fi_changes fuel rest;
          Some (FileDelete path :: changes, rest)
      end
  end.

Definition fi_parse (s : str) : option fi_commit :=
  '(ref, s) ← fi_line "commit " s;
  '(mark, s) ← fi_line "mark :" s;
  '(committer, s) ← fi_line "committer " s;
  '(title, s) ← fi_data s;
  let '(from, s) := match fi_line "from " s with Some (id, s) => (Some id, s) | None => (None, s) end in
  '(changes, s) ← fi_changes (S (length s)) s;
  '(mark', s) ← fi_line "get-mark :" s;
  if decide (mark' = mark /\ s = [])
  then Some {| fc_ref := ref; fc_mark := mark; fc_committer := committer; fc_title := title;
               fc_from := from; fc_changes := changes |}
  else None.

(** The effect of a commit on the files of its parent. *)
Definition apply_change (files : gmap str str) (change : fi_change) : gmap str str :=
  match change with
  | FileModify path content => <[path := content]> files
  | FileDelete path => delete path files
  end.

Definition apply_changes (files : gmap str str) (changes : list fi_change) : gmap str str :=
  foldl apply_change files changes.

(** ** Data *)

(** The importer fields guarded by [gitMu]; [importer] keeps the process's
    [nextMark], the timer the generation it was armed at. *)
Record importState := {
  importer : option Z;
  importError : option error;
  closed : bool;
  idleTimer : option Z;
  idleGeneration : Z;
}.

(** Go visits a map in an unspecified order. *)
Class MapOrder := {
  map_order : gmap str (option str) -> list (str * option str);
  map_order_perm m : map_order m ≡ₚ map_to_list m;
}.

(** Git, the file system and the clock: the output and error of
    [git rev-parse --verify HEAD], the failure to start fast-import, the line it
    answers to a transaction and to the checkpoint that follows (an error stands
    for any failed write or read), the repository afterwards, the repository after
    a maintenance command (finished, failed or cut off), a passed deadline,
    the error of closing the child, legacy message files, and the time. *)
Class Git := {
  repo : Type;
  rev_parse : repo -> str * option error;
  import_start_error : option error;
  mark_line : repo -> str -> result str;
  checkpoint_line : repo -> str -> str -> result str;
  published : repo -> str -> repo;
  maintained : repo -> list str -> repo;
  import_interruption : str -> option error;
  import_close_error : option error;
  legacy_file : str -> result str;
  Unix_now : Z;
}.

Section Importing.
Context `{Git, MapOrder}.

Record gitState := {
  headID : str;
  failure : option error;
  refName : str;
  import : importState;
  commitsSinceMaintenance : Z;
  maintenanceRequests : bool;
  lastMaintenanceHead : str;
  repository : repo;
}.

Definition set_failure (e : option error) (g : gitState) : gitState :=
  {| headID := headID g; failure := e; refName := refName g; import := import g;
     commitsSinceMaintenance := commitsSinceMaintenance g; maintenanceRequests := maintenanceRequests g;
     lastMaintenanceHead := lastMaintenanceHead g; repository := repository g |}.

Definition set_import (i : importState) (g : gitState) : gitState :=
  {| headID := headID g; failure := failure g; refName := refName g; import := i;
     commitsSinceMaintenance := commitsSinceMaintenance g; maintenanceRequests := maintenanceRequests g;
     lastMaintenanceHead := lastMaintenanceHead g; repository := repository g |}.

Definition set_headID (id : str) (g : gitState) : gitState :=
  {| headID := id; failure := failure g; refName := refName g; import := import g;
     commitsSinceMaintenance := commitsSinceMaintenance g; maintenanceRequests := maintenanceRequests g;
     lastMaintenanceHead := lastMaintenanceHead g; repository := repository g |}.

Definition set_repository (r : repo) (g : gitState) : gitState :=
  {| headID := headID g; failure := failure g; refName := refName g; import := import g;
     commitsSinceMaintenance := commitsSinceMaintenance g; maintenanceRequests := maintenanceRequests g;
     lastMaintenanceHead := lastMaintenanceHead g; repository := r |}.

Definition set_maintenance (n : Z) (requested : bool) (head : str) (g : gitState) : gitState :=
  {| headID := headID g; failure := failure g; refName := refName g; import := import g;
     commitsSinceMaintenance := n; maintenanceRequests := requested;
     lastMaintenanceHead := head; repository := repository g |}.

Definition set_importer (p : option Z) (i : importState) : importState :=
  {| importer := p; importError := importError i; closed := closed i;
     idleTimer := idleTimer i; idleGeneration := idleGeneration i |}.

(** ** Operations: the child process *)

Definition stop_idle (i : importState) : importState :=
  {| importer := importer i; importError := importError i; closed := closed i;
     idleTimer := None; idleGeneration := u64 (idleGeneration i + 1) |}.

Definition importerLocked : M importState Z := fun i =>
  let i := stop_idle i in
  if closed i then (Err (New "archive is closed"), i)
  else match importError i with
  | Some e => (Err e, i)
  | None =>
      match importer i with
      | Some process => (Ok process, i)
      | None => match import_start_error with
                | Some e => (Err e, i)
                | None => (Ok 0, set_importer (Some 0) i)
                end
      end
  end.

Definition armIdleLocked (i : importState) : importState :=
  match importer i with
  | None => i
  | Some _ =>
      let generation := u64 (idleGeneration i + 1) in
      {| importer := importer i; importError := importError i; closed := closed i;
         idleTimer := Some generation; idleGeneration := generation |}
  end.

Definition closeImporterLocked (i : importState) : option error * importState :=
  match importer i with
  | None => (None, i)
  | Some _ => (import_close_error, set_importer None i)
  end.

(** The callback of the timer armed at [generation]. *)
Definition import_idle_fire (generation : Z) (i : importState) : importState :=
  if negb (idleGeneration i =? generation) then i
  else match closeImporterLocked i with
       | (None, i) => i
       | (Some e, i) =>
           {| importer := importer i; importError := Some e; closed := closed i;
              idleTimer := idleTimer i; idleGeneration := idleGeneration i |}
       end.

Definition abortImporterLocked (cause : error) (i : importState) : error * importState :=
  let cause := match importer i with Some _ => Wrap "" cause | None => cause end in
  (cause, {| importer := None; importError := Some cause; closed := closed i;
             idleTimer := idleTimer i; idleGeneration := idleGeneration i |}).

(** The importer's half of [Store.Close]. *)
Definition close_import (i : importState) : option error * importState :=
  let i := stop_idle i in
  closeImporterLocked {| importer := importer i; importError := importError i; closed := true;
                         idleTimer := idleTimer i; idleGeneration := idleGeneration i |}.

(** ** Operations: one transaction *)

Definition head (r : repo) : str * option error :=
  let '(out, err) := rev_parse r in (TrimSpace out, err).

Definition validArchivePath (path : str) : bool :=
  if bool_decide (path = mailboxStateName) || bool_decide (path = ".gitignore")
     || bool_decide (path = ".gitattributes")
  then true
  else is_ok (messageFromPath path).

(** [process.data]. *)
Definition process_data (source : str) : str :=
  "data " ++ Itoa (octets source) ++ LF :: source ++ [LF].

(** The body of the loop over [changes]: a nil content is a legacy file. *)
Definition import_change (path : str) (content : option str) : result str :=
  if negb (validArchivePath path) then Err (New "invalid archive path")
  else
    let! data :=
      match content with
      | Some content => Ok content
      | None =>
          let! message := messageFromPath path in
          let legacyPath := match messageRelativePath (ID message) with Ok p => p | Err _ => [] end in
          legacy_file legacyPath
      end in
    Ok ("M 100644 inline " ++ path ++ LF :: process_data data).

Fixpoint import_changes (changes : list (str * option str)) : result str :=
  match changes with
  | [] => Ok []
  | (path, content) :: rest =>
      let! one := import_change path content in
      let! more := import_changes rest in
      Ok (one ++ more)
  end.

Fixpoint import_removals (removals : list str) : result str :=
  match removals with
  | [] => Ok []
  | path :: rest =>
      if negb (validArchivePath path) then Err (New "invalid archive path")
      else let! more := import_removals rest in Ok ("D " ++ path ++ LF :: more)
  end.

(** What [importCommitLocked] writes before the first flush. *)
Definition import_transaction (mark : Z) (title : str) (ref parent : str)
    (changes : list (str * option str)) (removals : list str) : result str :=
  let! modifications := import_changes changes in
  let! deletions := import_removals removals in
  Ok ("commit " ++ ref ++ LF :: "mark :" ++ Itoa mark ++ LF ::
      "committer picomx <picomx@localhost> " ++ Itoa Unix_now ++ " +0000" ++ LF ::
      process_data title ++
      (if bool_decide (parent = []) then [] else "from " ++ parent ++ [LF]) ++
      modifications ++ deletions ++ LF :: "get-mark :" ++ Itoa mark ++ [LF]).

Definition importCommitLocked (process : Z) (title : str) (state : mailboxState)
    (changes : gmap str (option str)) (removals : list str) : M gitState unit := fun g =>
  let changes := <[mailboxStateName := Some (Marshal state ++ [LF])]> changes in
  let mark := u64 (process + 1) in
  let g := set_import (set_importer (Some mark) (import g)) g in
  match import_transaction mark title (refName g) (headID g) (map_order changes) removals with
  | Err e => (Err e, g)
  | Ok transaction =>
      match mark_line (repository g) transaction with
      | Err e => (Err e, g)
      | Ok next =>
          if negb (validObjectID next) then (Err (New "invalid commit object ID from git"), g)
          else
            let checkpoint := "checkpoint" ++ LF :: "progress " ++ next ++ [LF] in
            let answer := checkpoint_line (repository g) transaction checkpoint in
            let g := set_repository (published (repository g) transaction) g in
            match answer with
            | Err e => (Err e, g)
            | Ok progress =>
                if negb (bool_decide (progress = "progress " ++ next))
                then (Err (New "invalid git checkpoint response"), g)
                else match head (repository g) with
                | (_, Some e) => (Err e, g)
                | (current, None) =>
                    if negb (bool_decide (current = next))
                    then (Err (New "git checkpoint did not publish the expected HEAD"), g)
                    else (Ok tt, set_headID next g)
                end
            end
      end
  end.

Definition maintenanceCommitThreshold : Z := 256.

Definition commitChanges (title : str) (state : mailboxState) (changes : gmap str (option str))
    (removals : list str) : M gitState unit := fun g =>
  match failure g with
  | Some e => (Err e, g)
  | None =>
      match buildDirectoryIndex (Directories state) (LastID state) with
      | Err e => (Err e, g)
      | Ok _ =>
          let '(r, g) :=
            let '(current, err) := head (repository g) in
            if (bool_decide (err <> None) && bool_decide (headID g <> [])) || bool_decide (current <> headID g)
            then (Err (New "archive HEAD changed outside picomx; restart required"), g)
            else match importerLocked (import g) with
            | (Err e, i) => (Err e, set_import i g)
            | (Ok process, i) =>
                let '(r, g) := importCommitLocked process title state changes removals (set_import i g) in
                match watchGit (import_interruption title) r with
                | Err e =>
                    let '(e, i) := abortImporterLocked e (import g) in
                    (Err e, set_failure (Some e) (set_import i g))
                | Ok _ =>
                    let n := u64 (commitsSinceMaintenance g + 1) in
                    (Ok tt, set_maintenance n (maintenanceRequests g || (maintenanceCommitThreshold <=? n))
                              (lastMaintenanceHead g) g)
                end
            end in
          (r, set_import (armIdleLocked (import g)) g)
      end
  end.
End Importing.

(** ** The bytes written parse back to the intended commit *)

Lemma take_line_app x rest : LF ∉ x -> take_line (x ++ LF :: rest) = Some (x, rest).
Proof. intros Hx. unfold take_line. by rewrite Cut_app. Qed.

Lemma HasPrefix_app p s : HasPrefix (p ++ s) p = true.
Proof. apply HasPrefix_spec. eauto. Qed.

Lemma after_app p s : after p (p ++ s) = Some s.
Proof. unfold after. by rewrite HasPrefix_app, drop_app_length. Qed.

Lemma fi_line_app (p v rest : str) : LF ∉ p -> LF ∉ v -> fi_line p (p ++ v ++ LF :: rest) = Some (v, rest).
Proof.
  intros Hp Hv. unfold fi_line. rewrite app_assoc, take_line_app by (rewrite not_elem_of_app; done).
  cbn. by rewrite after_app.
Qed.

Lemma LF_notin_decimal z : LF ∉ FormatUint z 10.
Proof.
  intros Hin. pose proof (FormatUint_decimal z) as HF. rewrite Forall_forall in HF.
  by apply (is_digit_LF LF); [apply HF|].
Qed.

Lemma LF_notin_Itoa z : LF ∉ Itoa z.
Proof.
  unfold Itoa. case_match; [|apply LF_notin_decimal].
  intros [?|?]%elem_of_cons; [done | by eapply LF_notin_decimal].
Qed.

Lemma fi_data_ok content rest : octets content < 2 ^ 63 ->
  fi_data (process_data content ++ rest) = Some (content, rest).
Proof.
  intros Hl. unfold fi_data, process_data.
  replace (("data " ++ Itoa (octets content) ++ LF :: content ++ [LF]) ++ rest)
    with ("data " ++ Itoa (octets content) ++ LF :: content ++ LF :: rest)
    by (rewrite <- !app_assoc; cbn [app]; by rewrite <- !app_assoc).
  rewrite fi_line_app; [|by apply (bool_decide_unpack _); vm_compute|apply LF_notin_Itoa].
  cbn [mbind option_bind]. unfold octets, Itoa in *. rewrite (proj2 (Z.ltb_ge _ 0)) by lia.
  rewrite ParseUint_FormatUint; [|lia|unfold is_u64, MaxUint64; lia|lia].
  rewrite Nat2Z.id, (proj2 (Nat.ltb_ge _ _)) by (rewrite length_app; lia).
  by rewrite drop_app_length, take_app_length, decide_True.
Qed.

(** A path of the archive can stand unquoted on a line. *)
Definition line_path (path : str) : Prop := LF ∉ path /\ fi_path path = Some path.

Lemma mail_path_line id size : valid_id id -> line_path (mail_path id size).
Proof.
  intros Hv. split; [by apply notin_mail_path|].
  destruct (Itoa_depth (depth id) (depth_bounds id Hv)) as (c & Ec & Hc).
  unfold fi_path, mail_path, leaf_dir, dir_parts. rewrite Ec, Join_flat. cbn [app].
  rewrite bool_decide_eq_false_2 by done. cbn [orb].
  rewrite (HasPrefix_hd c _ (byte_of 34) []); [done|]. intros ->.
  change (code (byte_of 34)) with 34 in Hc. pose proof (depth_bounds id Hv). lia.
Qed.

Lemma root_file_line path : path ∈ root_files -> line_path path.
Proof.
  intros Hp. assert (forallb (fun p : str => bool_decide (LF ∉ p) && bool_decide (fi_path p = Some p)) root_files = true) as HF
    by (vm_compute; reflexivity).
  rewrite forallb_forall in HF. specialize (HF _ (proj1 (list_elem_of_In _ _) Hp)).
  apply andb_true_iff in HF as [H1%bool_decide_eq_true H2%bool_decide_eq_true]. done.
Qed.

Section Framing.
Context `{Git, MapOrder}.

(** A valid archive path is a root file or the path of a message. *)
Lemma validArchivePath_spec path : validArchivePath path = true <->
  path ∈ root_files \/ exists m, messageFromPath path = Ok m.
Proof.
  unfold validArchivePath. destruct (_ || _) eqn:E.
  - rewrite !orb_true_iff, !bool_decide_eq_true in E. split; [intros _; left | done].
    destruct E as [[->| ->]| ->]; apply list_elem_of_In; simpl; auto.
  - rewrite !orb_false_iff, !bool_decide_eq_false in E. rewrite is_ok_true. split; [by right|].
    intros [Hr|?]; [|done]. exfalso. apply list_elem_of_In in Hr.
    destruct E as [[? ?] ?]. by destruct Hr as [<-|[<-|[<-|[]]]].
Qed.

Lemma valid_path_line path : validArchivePath path = true -> line_path path.
Proof.
  intros [Hr|(m & Hm)]%validArchivePath_spec; [by apply root_file_line|].
  apply messageFromPath_sound in Hm as (Hv & _ & _ & E). rewrite messagePath_mail in E by done.
  apply Ok_inj in E as <-. by apply mail_path_line.
Qed.

Definition change_of (e : str * option str) (content : str) : fi_change := FileModify e.1 content.

(** The contents the changes resolve to, legacy files read from disk. *)
Definition change_content (e : str * option str) : result str :=
  match e.2 with
  | Some content => Ok content
  | None =>
      let! message := messageFromPath e.1 in
      legacy_file (match messageRelativePath (ID message) with Ok p => p | Err _ => [] end)
  end.

Lemma after_other kw s : HasPrefix s kw = false -> after kw s = None.
Proof. intros Hp. unfold after. by rewrite Hp. Qed.

Lemma fi_changes_modify fuel path content rest : line_path path -> octets content < 2 ^ 63 ->
  fi_changes (S fuel) (("M 100644 inline " ++ path ++ LF :: process_data content) ++ rest)
  = '(changes, rest) ← fi_changes fuel rest; Some (FileModify path content :: changes, rest).
Proof.
  intros [Hp Hq] Hl. cbn [fi_changes].
  replace (("M 100644 inline " ++ path ++ LF :: process_data content) ++ rest)
    with (("M 100644 inline " ++ path) ++ LF :: process_data content ++ rest) by (by rewrite <- !app_assoc).
  rewrite take_line_app.
  2: { rewrite not_elem_of_app. split; [|done]. apply (bool_decide_unpack _). by vm_compute. }
  cbn [mbind option_bind]. rewrite decide_False by done. rewrite after_app, Hq. cbn [mbind option_bind].
  by rewrite fi_data_ok.
Qed.

Lemma fi_changes_delete fuel path rest : line_path path ->
  fi_changes (S fuel) ("D " ++ path ++ LF :: rest)
  = '(changes, rest) ← fi_changes fuel rest; Some (FileDelete path :: changes, rest).
Proof.
  intros [Hp Hq]. cbn [fi_changes]. rewrite app_assoc, take_line_app.
  2: { rewrite not_elem_of_app. split; [|done]. apply (bool_decide_unpack _). by vm_compute. }
  cbn [mbind option_bind]. rewrite decide_False by done.
  rewrite (after_other "M 100644 inline ") by done. rewrite after_app. cbn [mbind option_bind]. by rewrite Hq.
Qed.

Lemma fi_changes_end fuel rest : fi_changes (S fuel) (LF :: rest) = Some ([], rest).
Proof. done. Qed.

Lemma removals_parse removals bytes fuel rest : import_removals removals = Ok bytes ->
  (length removals < fuel)%nat ->
  fi_changes fuel (bytes ++ LF :: rest) = Some (FileDelete <$> removals, rest).
Proof.
  revert bytes fuel. induction removals as [|path removals IH]; intros bytes fuel Hb Hf.
  { simpl in Hb. ok_inv. destruct fuel; [lia|]. apply fi_changes_end. }
  cbn [import_removals] in Hb. destruct (validArchivePath path) eqn:Hv; [|done]. cbn [negb] in Hb. ok_inv.
  cbn [length] in Hf. destruct fuel as [|fuel]; [lia|].
  replace (("D " ++ path ++ LF :: a) ++ LF :: rest) with ("D " ++ path ++ LF :: (a ++ LF :: rest))
    by (by rewrite <- !app_assoc).
  rewrite fi_changes_delete by (by apply valid_path_line). rewrite (IH a) by (done || lia). done.
Qed.

(** The contents written for the changes, in order. *)
Fixpoint contents_of (changes : list (str * option str)) : result (list fi_change) :=
  match changes with
  | [] => Ok []
  | e :: rest =>
      let! content := change_content e in
      let! more := contents_of rest in
      Ok (change_of e content :: more)
  end.

Definition small_contents (changes : list fi_change) : Prop :=
  Forall (fun c => match c with FileModify _ content => octets content < 2 ^ 63 | FileDelete _ => True end) changes.

Lemma import_change_ok path content bytes : import_change path content = Ok bytes ->
  validArchivePath path = true /\ exists data, change_content (path, content) = Ok data
    /\ bytes = "M 100644 inline " ++ path ++ LF :: process_data data.
Proof.
  unfold import_change. destruct (validArchivePath path) eqn:Hv; [|done]. cbn [negb]. intros Hb. ok_inv.
  split; [done|]. exists a. split; [|done]. exact Ha.
Qed.

Lemma changes_parse changes bytes tail parsed fuel rest : import_changes changes = Ok bytes ->
  (length changes <= fuel)%nat -> (forall k, (fuel - length changes <= k)%nat -> fi_changes k tail = Some (parsed, rest)) ->
  (forall cs, contents_of changes = Ok cs -> small_contents cs) ->
  exists cs, contents_of changes = Ok cs /\ fi_changes fuel (bytes ++ tail) = Some (cs ++ parsed, rest).
Proof.
  revert bytes fuel. induction changes as [|[path content] changes IH]; intros bytes fuel Hb Hf Ht Hs.
  { simpl in Hb. ok_inv. exists []. split; [done|]. simpl in *. apply Ht. lia. }
  cbn [import_changes] in Hb. ok_inv. cbn [length] in Hf, Ht. destruct fuel as [|fuel]; [lia|].
  apply import_change_ok in Ha as (Hv & data & Hd & ->).
  destruct (IH a0 fuel Ha0 ltac:(lia)) as (cs & Hcs & Hp).
  { intros k Hk. apply Ht. lia. }
  { intros cs Hcs. cbn [contents_of] in Hs. rewrite Hd, Hcs in Hs. specialize (Hs _ eq_refl). by inversion Hs. }
  exists (FileModify path data :: cs). cbn [contents_of]. rewrite Hd, Hcs. split; [done|].
  rewrite <- app_assoc, fi_changes_modify; [|by apply valid_path_line|].
  - by rewrite Hp.
  - cbn [contents_of] in Hs. rewrite Hd, Hcs in Hs. specialize (Hs _ eq_refl). by inversion Hs.
Qed.

(** A line that starts otherwise is not a [from] line. *)
Lemma fi_line_from_other c s : c <> "f"%char -> fi_line "from " (c :: s) = None.
Proof.
  intros Hc. unfold fi_line, take_line. cbn [Cut]. destruct (decide (c = LF)); [done|].
  destruct (Cut s LF) as [[line rest] ok]. destruct ok; [|done]. cbn [mbind option_bind].
  rewrite after_other; [done|]. by apply HasPrefix_hd.
Qed.

Lemma modifications_head changes bytes : import_changes changes = Ok bytes ->
  bytes = [] \/ exists s, bytes = "M"%char :: s.
Proof.
  destruct changes as [|[path content] changes]; cbn [import_changes]; intros Hb; ok_inv; [by left|].
  apply import_change_ok in Ha as (_ & data & _ & ->). right. eexists. reflexivity.
Qed.

Lemma deletions_head removals bytes : import_removals removals = Ok bytes ->
  bytes = [] \/ exists s, bytes = "D"%char :: s.
Proof.
  destruct removals as [|path removals]; cbn [import_removals]; intros Hb; ok_inv; [by left|].
  destruct (validArchivePath path); [|done]. cbn [negb] in Hb. ok_inv. right. eexists. reflexivity.
Qed.

Lemma modifications_length changes bytes : import_changes changes = Ok bytes -> (length changes <= length bytes)%nat.
Proof.
  revert bytes. induction changes as [|[path content] changes IH]; intros bytes Hb; cbn [import_changes] in Hb; ok_inv; [simpl; lia|].
  apply import_change_ok in Ha as (_ & data & _ & ->). specialize (IH _ Ha0).
  rewrite length_app. cbn [length app]. simpl. lia.
Qed.

Lemma deletions_length removals bytes : import_removals removals = Ok bytes -> (length removals <= length bytes)%nat.
Proof.
  revert bytes. induction removals as [|path removals IH]; intros bytes Hb; cbn [import_removals] in Hb; ok_inv; [simpl; lia|].
  destruct (validArchivePath path); [|done]. cbn [negb] in Hb. ok_inv. specialize (IH _ Ha). simpl. rewrite length_app. simpl. lia.
Qed.

(** Git reads back the commit the program meant: the title and the contents
    byte for byte, the parent, and exactly these files changed. *)
Lemma transaction_parse mark title ref parent changes removals bytes :
  import_transaction mark title ref parent changes removals = Ok bytes ->
  LF ∉ ref -> LF ∉ parent -> octets title < 2 ^ 63 ->
  (forall cs, contents_of changes = Ok cs -> small_contents cs) ->
  exists cs, contents_of changes = Ok cs /\
    fi_parse bytes = Some {| fc_ref := ref; fc_mark := Itoa mark;
      fc_committer := "picomx <picomx@localhost> " ++ Itoa Unix_now ++ " +0000"; fc_title := title;
      fc_from := if bool_decide (parent = []) then None else Some parent;
      fc_changes := cs ++ (FileDelete <$> removals) |}.
Proof.
  intros Hb Href Hpar Htitle Hsmall. unfold import_transaction in Hb. ok_inv.
  set (tail := LF :: "get-mark :" ++ Itoa mark ++ [LF]).
  pose proof (modifications_length _ _ Ha) as HL1. pose proof (deletions_length _ _ Ha0) as HL2.
  set (body := a ++ a0 ++ tail).
  assert (forall k, (length removals < k)%nat ->
    fi_changes k (a0 ++ tail) = Some (FileDelete <$> removals, "get-mark :" ++ Itoa mark ++ [LF])) as Hrem
    by (intros k Hk; by apply removals_parse).
  destruct (changes_parse changes a (a0 ++ tail) (FileDelete <$> removals) (S (length body))
    ("get-mark :" ++ Itoa mark ++ [LF]) Ha) as (cs & Hcs & Hparse).
  { unfold body. rewrite length_app. lia. }
  { intros k Hk. apply Hrem. unfold body in Hk. rewrite !length_app in Hk. lia. }
  { done. }
  exists cs. split; [done|]. unfold fi_parse.
  rewrite fi_line_app by (done || (apply (bool_decide_unpack _); vm_compute; done)). cbn [mbind option_bind].
  rewrite fi_line_app by (apply LF_notin_Itoa || (apply (bool_decide_unpack _); vm_compute; done)).
  cbn [mbind option_bind].
  assert (forall rest, "committer picomx <picomx@localhost> " ++ Itoa Unix_now ++ " +0000" ++ LF :: rest
    = "committer " ++ ("picomx <picomx@localhost> " ++ Itoa Unix_now ++ " +0000") ++ LF :: rest) as ->.
  { intros rest. change (list_ascii_of_string "committer picomx <picomx@localhost> ")
      with ("committer " ++ "picomx <picomx@localhost> "). by rewrite <- !app_assoc. }
  rewrite fi_line_app; [|by apply (bool_decide_unpack _); vm_compute|].
  2: { rewrite !not_elem_of_app. split_and!; [|apply LF_notin_Itoa|]; by apply (bool_decide_unpack _); vm_compute. }
  cbn [mbind option_bind]. rewrite fi_data_ok by done. cbn [mbind option_bind].
  fold tail. fold body.
  assert (fi_line "from " body = None) as Hno.
  { unfold body. destruct (modifications_head _ _ Ha) as [->|[s ->]]; [|by apply fi_line_from_other].
    destruct (deletions_head _ _ Ha0) as [->|[s ->]]; by apply fi_line_from_other. }
  destruct (bool_decide (parent = [])).
  - cbn [app]. rewrite Hno. unfold body. unfold body in Hparse. rewrite Hparse. cbn [mbind option_bind].
    rewrite fi_line_app by (apply LF_notin_Itoa || (apply (bool_decide_unpack _); vm_compute; done)).
    cbn [mbind option_bind]. by rewrite decide_True.
  - replace (("from " ++ parent ++ [LF]) ++ body) with ("from " ++ parent ++ LF :: body) by (by rewrite <- !app_assoc).
    rewrite fi_line_app by (done || (apply (bool_decide_unpack _); vm_compute; done)).
    unfold body. unfold body in Hparse. rewrite Hparse. cbn [mbind option_bind].
    rewrite fi_line_app by (apply LF_notin_Itoa || (apply (bool_decide_unpack _); vm_compute; done)).
    cbn [mbind option_bind]. by rewrite decide_True.
Qed.
End Framing.
