(* ===== verification/Mailbox.v ===== *)
(** * The mailbox (internal/archive/mailbox.go, Store.Publish)

    Snapshots, lookup by number or ID, listing, opening, publishing and
    deleting.  The abstract mailbox is a map from live IDs to contents and the
    last allocated ID; every operation is related to it, for any Git that
    behaves as documented. *)

From S2P Require Import Prelude GoStrings IdPath Directories Numbering Cache Tree CatFile Listing Contents State Quota Import.

(** ** Data *)

Record Snapshot := {
  sn_LastID : Z;
  sn_TotalOctets : Z;
  sn_MessageCount : Z;
  sn_index : option directoryIndex;
  sn_commit : str;
}.

(** The files besides Git: a staged message, and writing the receipt. *)
Class StoreFiles := {
  read_staged : str -> result str;
  write_receipt : dailyReceipt -> option error;
}.

(** The reader of each repository. *)
Class GitReader `{Git} := { cat : repo -> CatFile }.

(** [unicode.IsPrint] and the [strconv] graphic list above ASCII. *)
Class GraphicTable := { is_graphic : Z -> bool }.

(** ** strconv.QuoteToGraphic *)

Definition hex2 (r : Z) : str := [digit_char (r / 16); digit_char (r mod 16)].

Definition hex8 (r : Z) : str := hex4 (r / 65536) ++ hex4 (r mod 65536).

Section Quote.
Context `{GraphicTable}.

Definition graphic (r : Z) : bool := if r <? 128 then (32 <=? r) && (r <=? 126) else is_graphic r.

Definition quote_rune (rb : Z * str) : str :=
  let '(r, bytes) := rb in
  if (r =? RuneError) && (length bytes =? 1)%nat
  then BS :: "x" ++ hex2 (code (List.hd NUL bytes))
  else if (r =? 34) || (r =? 92) then [BS; byte_of r]
  else if graphic r then EncodeRune r
  else if r =? 7 then [BS; "a"%char]
  else if r =? 8 then [BS; "b"%char]
  else if r =? 12 then [BS; "f"%char]
  else if r =? 10 then [BS; "n"%char]
  else if r =? 13 then [BS; "r"%char]
  else if r =? 9 then [BS; "t"%char]
  else if r =? 11 then [BS; "v"%char]
  else if (r <? 32) || (r =? 127) then BS :: "x" ++ hex2 r
  else if r <? 65536 then BS :: "u" ++ hex4 r
  else BS :: "U" ++ hex8 r.

Definition QuoteToGraphic (s : str) : str := DQ :: mjoin (quote_rune <$> runes s) ++ [DQ].

(** The commit message of a deletion. *)
Definition delete_title (count : Z) (username : str) : str :=
  let title := "mail: delete " ++ Itoa count ++ " messages" in
  if bool_decide (username = []) then title
  else
    let printable := QuoteToGraphic username in
    let printable := if bool_decide (printable = DQ :: username ++ [DQ]) then username else printable in
    title ++ LF :: LF :: "POP3 user: " ++ printable.
End Quote.

(** ** Operations on a snapshot *)

Section Reading.
Context `{CatFile}.

(** [Lookup]. *)
Definition Lookup (snapshot : Snapshot) (number : Z) : M readerStore Message :=
  let* found := mlift (selectLeaf (sn_index snapshot) number) in
  match found with
  | None => mfail (Sentinel ErrNoSuchMessage)
  | Some (leaf, offset) =>
      let* messages := directory (sn_commit snapshot) (dc_path leaf) in
      if negb (Z.of_nat (length messages) =? dc_count leaf)
      then mfail (New "directory listing does not match count")
      else match messages !! Z.to_nat offset with
      | Some message => mret_ message
      | None => mfail (Panicked "index out of range")
      end
  end.

(** [messageByID]; [sort.Search] finds the leaf, then the message. *)
Definition messageByID (snapshot : Snapshot) (id : Z) : M readerStore Message :=
  match sn_index snapshot with
  | None => mfail (Sentinel ErrNoSuchMessage)
  | Some index =>
      if (id =? 0) || (sn_LastID snapshot <? id) then mfail (Sentinel ErrNoSuchMessage)
      else
        let legacy := match messageRelativePath id with Ok path => path | Err _ => [] end in
        let path := ToSlash (Dir legacy) in
        match leaves index !! find_leaf (leaves index) path with
        | None => mfail (Sentinel ErrNoSuchMessage)
        | Some leaf =>
            if negb (bool_decide (dc_path leaf = path)) then mfail (Sentinel ErrNoSuchMessage)
            else
              let* messages := directory (sn_commit snapshot) path in
              if negb (Z.of_nat (length messages) =? dc_count leaf)
              then mfail (New "directory listing does not match count")
              else
                let position := sort_Search (length messages)
                  (fun i => match messages !! i with Some m => id <=? ID m | None => false end) in
                match messages !! position with
                | None => mfail (Sentinel ErrNoSuchMessage)
                | Some message =>
                    if negb (ID message =? id) then mfail (Sentinel ErrNoSuchMessage) else mret_ message
                end
        end
  end.

(** [ListAt]: [visit] may stop the listing; the calls made are returned. *)
Fixpoint visit_messages (lastID : Z) (visit : Z -> Z -> Z -> option error) (messages : list Message) (number : Z)
    : list (Z * Z * Z) * result Z :=
  match messages with
  | [] => ([], Ok number)
  | message :: rest =>
      if lastID <? ID message then ([], Err (New "directory contains unallocated message ID"))
      else
        let number := u64 (number + 1) in
        match visit number (ID message) (Size message) with
        | Some e => ([(number, ID message, Size message)], Err e)
        | None =>
            let '(calls, r) := visit_messages lastID visit rest number in
            ((number, ID message, Size message) :: calls, r)
        end
  end.

Fixpoint list_leaves (commit : str) (lastID : Z) (visit : Z -> Z -> Z -> option error)
    (leaves : list directoryCount) (number : Z) (st : readerStore) : list (Z * Z * Z) * option error * readerStore :=
  match leaves with
  | [] => ([], None, st)
  | leaf :: rest =>
      match directory commit (dc_path leaf) st with
      | (Err e, st) => ([], Some e, st)
      | (Ok messages, st) =>
          if negb (Z.of_nat (length messages) =? dc_count leaf)
          then ([], Some (New "directory listing does not match count"), st)
          else match visit_messages lastID visit messages number with
          | (calls, Err e) => (calls, Some e, st)
          | (calls, Ok number) =>
              let '(more, e, st) := list_leaves commit lastID visit rest number st in (calls ++ more, e, st)
          end
      end
  end.

Definition ListAt (snapshot : Snapshot) (visit : Z -> Z -> Z -> option error) (st : readerStore)
    : list (Z * Z * Z) * option error * readerStore :=
  match sn_index snapshot with
  | None => ([], Some (Sentinel ErrNoSuchMessage), st)
  | Some index => list_leaves (sn_commit snapshot) (sn_LastID snapshot) visit (leaves index) 0 st
  end.

Definition SizeAt (snapshot : Snapshot) (id : Z) : M readerStore Z :=
  let* message := messageByID snapshot id in mret_ (Size message).

(** [OpenMessage]; an [int64] conversion of the size. *)
Definition int64 (z : Z) : Z := (z + 2 ^ 63) mod 2 ^ 64 - 2 ^ 63.

Definition OpenMessage (snapshot : Snapshot) (message : Message) : M readerStore blobReader := fun st =>
  match messageFromPath (Path message) with
  | Err _ => (Err (Sentinel ErrNoSuchMessage), st)
  | Ok parsed =>
      if negb (bool_decide (parsed = message)) || (sn_LastID snapshot <? ID message)
      then (Err (Sentinel ErrNoSuchMessage), st)
      else match with_read (readBlob (sn_commit snapshot) (Path message)) st with
      | (Err e, st) => (Err e, st)
      | (Ok reader, st) =>
          if negb (br_remaining reader =? int64 (Size message))
          then
            let '(_, _, read) := blobReader_Close reader (rs_read st) in
            (Err (New "message size does not match filename"), {| rs_read := read; rs_cache := rs_cache st |})
          else (Ok reader, st)
      end
  end.

Definition OpenAt (snapshot : Snapshot) (id : Z) : M readerStore blobReader :=
  let* message := messageByID snapshot id in OpenMessage snapshot message.

(** The loop of [DeleteAs] that resolves the sorted IDs. *)
Fixpoint resolve_ids (snapshot : Snapshot) (ids : list Z) (previous : Z) : M readerStore (list Message) := fun st =>
  match ids with
  | [] => (Ok [], st)
  | id :: rest =>
      if (id =? 0) || (sn_LastID snapshot <? id) then (Err (Sentinel ErrNoSuchMessage), st)
      else if id =? previous then resolve_ids snapshot rest previous st
      else match messageByID snapshot id st with
      | (Err e, st) =>
          if errors_Is e ErrNoSuchMessage then resolve_ids snapshot rest id st else (Err e, st)
      | (Ok message, st) =>
          match resolve_ids snapshot rest id st with
          | (Ok messages, st) => (Ok (message :: messages), st)
          | (Err e, st) => (Err e, st)
          end
      end
  end.
End Reading.

(** ** Operations on the store *)

Section Store.
Context `{Git, MapOrder, !GitReader, StoreFiles, GraphicTable}.

Record Store := { mb : mailboxState; gs : gitState; bud : budget; rd : readerStore }.

Definition set_rd (r : readerStore) (s : Store) : Store := {| mb := mb s; gs := gs s; bud := bud s; rd := r |}.

Definition snapshotLocked (s : Store) : Snapshot :=
  {| sn_LastID := LastID (mb s); sn_TotalOctets := TotalOctets (mb s);
     sn_MessageCount := match ms_index (mb s) with Some index => total index | None => 0 end;
     sn_index := ms_index (mb s); sn_commit := headID (gs s) |}.

(** The loop over the messages of [deleteLocked]. *)
Fixpoint remove_messages (messages : list Message) (total : Z) (counts : directoryCounts)
    : result (Z * directoryCounts) :=
  match messages with
  | [] => Ok (total, counts)
  | message :: rest =>
      if total <? Size message then Err (New "message size exceeds mailbox octets")
      else
        let! counts := counts_remove counts (ToSlash (Dir (Path message))) in
        remove_messages rest (total - Size message) counts
  end.

(** The state [deleteLocked] commits. *)
Definition deleted_state (messages : list Message) (state : mailboxState) : result mailboxState :=
  let! (total, counts) :=
    remove_messages messages (TotalOctets state) (cloneDirectoryCounts (Directories state)) in
  let! index := buildDirectoryIndex counts (LastID state) in
  Ok {| Version := Version state; LastID := LastID state; TotalOctets := total;
        Directories := counts; DailyReceipt := DailyReceipt state; ms_index := Some index |}.

Definition deleteLocked (messages : list Message) (username : str) : M Store unit := fun s =>
  match failure (gs s) with
  | Some e => (Err e, s)
  | None =>
      if bool_decide (messages = []) then (Ok tt, s)
      else
        match deleted_state messages (mb s) with
        | Err e => (Err e, s)
        | Ok next =>
            let title := delete_title (Z.of_nat (length messages)) username in
            match commitChanges title next ∅ (Path <$> messages) (gs s) with
            | (Err e, g) => (Err e, {| mb := mb s; gs := g; bud := bud s; rd := rd s |})
            | (Ok _, g) => (Ok tt, {| mb := next; gs := g; bud := bud s; rd := rd s |})
            end
        end
  end.

(** [DeleteAs]: resolve against a snapshot without the lock, retry if a writer
    ran meanwhile.  [rival k] is what other connections do during attempt [k]. *)
Fixpoint DeleteAs_loop (fuel : nat) (rival : nat -> Store -> Store) (ids : list Z) (username : str) (k : nat)
    : M Store unit := fun s =>
  match fuel with
  | O => (Err (Panicked "out of fuel"), s)
  | S fuel =>
      let snapshot := snapshotLocked s in
      match resolve_ids (H := cat (repository (gs s))) snapshot ids 0 (rd s) with
      | (Err e, r) => (Err e, set_rd r s)
      | (Ok messages, r) =>
          let s := rival k (set_rd r s) in
          if negb (bool_decide (headID (gs s) = sn_commit snapshot))
          then DeleteAs_loop fuel rival ids username (S k) s
          else deleteLocked messages username s
      end
  end.

Definition DeleteAs (fuel : nat) (rival : nat -> Store -> Store) (ids : list Z) (username : str) : M Store unit :=
  DeleteAs_loop fuel rival (sort_ids ids) username 0.

(** The path and state [Publish] commits for a message of [size] octets. *)
Definition next_state (size : Z) (state : mailboxState) : result (str * mailboxState) :=
  if LastID state =? MaxUint64 then Err (New "message ID space exhausted")
  else
    let nextID := u64 (LastID state + 1) in
    let! relativePath := messagePath nextID size in
    if MaxUint64 - TotalOctets state <? size then Err (New "mailbox octet count overflow")
    else
      let counts := counts_add (cloneDirectoryCounts (Directories state)) (ToSlash (Dir relativePath)) in
      let! index := buildDirectoryIndex counts nextID in
      Ok (ToSlash relativePath,
          {| Version := mailboxStateVersion; LastID := nextID; TotalOctets := TotalOctets state + size;
             Directories := counts; DailyReceipt := None; ms_index := Some index |}).

(** [Store.Publish]; [staged] is [None] for a message of another store.  The
    clock is read twice: [now] by the check, [day] for the charge. *)
Definition Publish (now day : str) (staged : option StagedMessage) (s : Store)
    : result (Z * str) * option StagedMessage * Store :=
  match staged with
  | None => (Err (New "staged message does not belong to this store"), staged, s)
  | Some message =>
      if bool_decide (sm_path message = [])
      then (Err (New "staged message does not belong to this store"), staged, s)
      else match failure (gs s) with
      | Some e => (Err e, staged, s)
      | None =>
          if sm_done message then (Err (New "staged message is no longer available"), staged, s)
          else if negb (canReserveLocked now (bud s) 0) then (Err (Sentinel ErrDailyLimit), staged, s)
          else
            match next_state (sm_size message) (mb s) with
            | Err e => (Err e, staged, s)
            | Ok (finalPath, nextState) =>
                match read_staged (sm_path message) with
                | Err e => (Err e, staged, s)
                | Ok content =>
                    match publish_charge day write_receipt message (bud s) with
                    | (Some e, message, b) =>
                        (Err e, Some message,
                         {| mb := mb s; gs := set_failure (Some e) (gs s); bud := b; rd := rd s |})
                    | (None, message, b) =>
                        match commitChanges ("mail: receive " ++ FormatUint (LastID nextState) 10) nextState
                                {[ finalPath := Some content ]} [] (gs s) with
                        | (Err e, g) => (Err e, Some message, {| mb := mb s; gs := g; bud := b; rd := rd s |})
                        | (Ok _, g) =>
                            (Ok (LastID nextState, finalPath), Some message,
                             {| mb := nextState; gs := g; bud := b; rd := rd s |})
                        end
                    end
                end
            end
      end
  end.
End Store.
