(* ===== verification/MailboxSpec.v ===== *)
(** * The mailbox refines a map of live messages

    The abstract mailbox and the theorems that relate every operation of
    [Mailbox] to it: reading a snapshot, publishing, deleting. *)

From S2P Require Import Prelude GoStrings IdPath Directories Numbering Cache Tree CatFile Listing Contents State StateBound Quota Import Mailbox.

(** ** Specification *)

Definition total_octets (live : mailbox) : Z := map_fold (fun _ content acc => octets content + acc) 0 live.

(** A snapshot shows [live] as committed in a repository. *)
Record snapshot_shows (objects : str -> option gitObject) (snapshot : Snapshot) (live : mailbox) : Prop := {
  ss_live : live_ok live (sn_LastID snapshot);
  ss_last : 0 <= sn_LastID snapshot <= MaxUint64;
  ss_total : sn_TotalOctets snapshot = total_octets live;
  ss_count : sn_MessageCount snapshot = Z.of_nat (size live);
  ss_index : exists index, sn_index snapshot = Some index /\ index_match index (live_ids live);
  ss_commit : query_spec (sn_commit snapshot);
  ss_files : exists files, commit_holds objects (sn_commit snapshot) files /\ represents files live;
}.

(** The messages in the order POP3 numbers them. *)
Definition numbered (live : mailbox) : list Message := message_of live <$> sort_ids (live_ids live).

(** The calls of a visitor over a list, up to its first error. *)
Fixpoint visit_spec (visit : Z -> Z -> Z -> option error) (l : list (Z * Z * Z)) : list (Z * Z * Z) * option error :=
  match l with
  | [] => ([], None)
  | (number, id, size) :: rest =>
      match visit number id size with
      | Some e => ([(number, id, size)], Some e)
      | None => let '(calls, e) := visit_spec visit rest in ((number, id, size) :: calls, e)
      end
  end.

(** Consecutive numbers after [number]. *)
Fixpoint enumerate (number : Z) (messages : list Message) : list (Z * Z * Z) :=
  match messages with
  | [] => []
  | m :: rest => (number + 1, ID m, Size m) :: enumerate (number + 1) rest
  end.

(** A sorted list without its repetitions, as the loop of [DeleteAs] skips them. *)
Fixpoint distinct_from (previous : Z) (l : list Z) : list Z :=
  match l with
  | [] => []
  | x :: rest => if x =? previous then distinct_from previous rest else x :: distinct_from x rest
  end.

(** The messages left after deleting [ids]. *)
Definition without (ids : list Z) (live : mailbox) : mailbox := filter (fun e => e.1 ∉ ids) live.

(** ** Reading a snapshot *)

Lemma size_live_ids (live : mailbox) : length (live_ids live) = size live.
Proof. unfold live_ids. by rewrite length_fmap, length_map_to_list. Qed.

Section Snapshot.
Context `{GO : GitObjects objects} (snapshot : Snapshot) (live : mailbox) (Hshow : snapshot_shows objects snapshot live).

Let ids := live_ids live.

Lemma shows_valid : Forall valid_id ids.
Proof using Hshow. apply (live_ids_valid live (sn_LastID snapshot)); [apply Hshow | apply (ss_last _ _ _ Hshow)]. Qed.

Lemma shows_NoDup : NoDup ids.
Proof using. apply NoDup_live_ids. Qed.

Lemma leaf_request id : valid_id id -> request (sn_commit snapshot) (leaf_dir id).
Proof using Hshow.
  intros Hv. destruct (ss_commit _ _ _ Hshow) as [H1 H2].
  split; rewrite !not_elem_of_app; split_and!; try done; try (by apply notin_leaf_dir);
    intros Hin; apply list_elem_of_In in Hin; by destruct Hin as [?|[]].
Qed.

Lemma mail_request id size : valid_id id -> request (sn_commit snapshot) (mail_path id size).
Proof using Hshow.
  intros Hv. destruct (ss_commit _ _ _ Hshow) as [H1 H2].
  split; rewrite !not_elem_of_app; split_and!; try done; try (by apply notin_mail_path);
    intros Hin; apply list_elem_of_In in Hin; by destruct Hin as [?|[]].
Qed.

(** A leaf of the index lists exactly its live messages. *)
Lemma leaf_directory index leaf st : sn_index snapshot = Some index -> index_match index ids ->
  leaf ∈ leaves index -> reader_ok objects st ->
  exists st', directory (sn_commit snapshot) (dc_path leaf) st = (Ok (message_of live <$> leaf_ids ids leaf), st')
    /\ reader_ok objects st' /\ Z.of_nat (length (message_of live <$> leaf_ids ids leaf)) = dc_count leaf.
Proof using GO Hshow.
  intros Hi Hm Hleaf Hst.
  destruct (im_leaf _ _ Hm (dc_path leaf)) as (id & Hid & El); [by apply list_elem_of_fmap_2|].
  pose proof shows_valid as HV. rewrite Forall_forall in HV. specialize (HV id Hid).
  destruct (ss_files _ _ _ Hshow) as (files & Hh & Hrep).
  pose proof (leaf_listing objects (sn_commit snapshot) files live (sn_LastID snapshot) Hh Hrep
    (ss_live _ _ _ Hshow) ltac:(apply (ss_last _ _ _ Hshow)) id Hid) as HL.
  rewrite <- El in HL.
  destruct (directory_listing st (sn_commit snapshot) (dc_path leaf) Hst) as (r & st' & -> & Hst' & Hr & _).
  { rewrite El. by apply leaf_request. }
  exists st'. split; [|split; [done|]].
  - f_equal. apply Hr. rewrite HL; [done|]. intros spec o Ho. by destruct (git_header spec o Ho).
  - rewrite length_fmap. by apply (leaf_ids_length index).
Qed.

Lemma Lookup_in_range number st : reader_ok objects st -> 1 <= number <= Z.of_nat (size live) ->
  exists message st', Lookup snapshot number st = (Ok message, st') /\ reader_ok objects st'
    /\ numbered live !! Z.to_nat (number - 1) = Some message.
Proof using GO Hshow.
  intros Hst Hn. destruct (ss_index _ _ _ Hshow) as (index & Hi & Hm).
  rewrite <- size_live_ids in Hn.
  destruct (selectLeaf_number index ids number Hm shows_NoDup shows_valid Hn)
    as (leaf & offset & id & Hs & Hleaf & Ho & Hl & Hk).
  destruct (leaf_directory index leaf st Hi Hm Hleaf Hst) as (st' & Hd & Hst' & Hlen).
  exists (message_of live id), st'. unfold Lookup, mbind_, mlift. rewrite Hi, Hs, Hd, Hlen, Z.eqb_refl. cbn [negb].
  rewrite list_lookup_fmap, Hl. cbn [fmap option_fmap option_map mret_]. split; [done|]. split; [done|].
  unfold numbered. fold ids. by rewrite list_lookup_fmap, Hk.
Qed.

Lemma Lookup_out_of_range number st : 0 <= number -> ~ (1 <= number <= Z.of_nat (size live)) ->
  Lookup snapshot number st = (Err (Sentinel ErrNoSuchMessage), st).
Proof using Hshow.
  intros H0' Hn. destruct (ss_index _ _ _ Hshow) as (index & Hi & Hm). rewrite <- size_live_ids in Hn.
  unfold Lookup, mbind_, mlift. rewrite Hi, (selectLeaf_out_of_range index ids number Hm) by done. done.
Qed.

(** [find_leaf] finds the leaf of an ID exactly if it has live messages. *)
Lemma find_leaf_live index path : index_match index ids ->
  (exists leaf, leaves index !! find_leaf (leaves index) path = Some leaf /\ dc_path leaf = path
    /\ leaf ∈ leaves index)
  \/ ((forall id, id ∈ ids -> leaf_dir id <> path)
      /\ match leaves index !! find_leaf (leaves index) path with Some leaf => dc_path leaf <> path | None => True end).
Proof using.
  intros Hm. destruct (find_leaf_spec index path (im_ok _ _ Hm)) as [Hsome Hnone].
  destruct (leaves index !! find_leaf (leaves index) path) as [leaf|] eqn:E.
  - apply list_elem_of_lookup_2 in E as Hin. destruct (decide (dc_path leaf = path)) as [Ep|Ep].
    + left. eauto.
    + right. split; [|done]. destruct (Hsome leaf eq_refl) as [?|Hno]; [done|].
      intros id Hid El. apply Hno. rewrite <- El. by apply (im_cover _ _ Hm).
  - right. split; [|done]. intros id Hid El. apply (Hnone eq_refl). rewrite <- El. by apply (im_cover _ _ Hm).
Qed.

(** Binary search in a sorted listing. *)
Lemma search_sorted (l : list Z) id : StronglySorted Z.lt l ->
  let position := sort_Search (length l) (fun i => match l !! i with Some x => id <=? x | None => false end) in
  (id ∈ l -> l !! position = Some id) /\ (id ∉ l -> l !! position <> Some id).
Proof using.
  intros HS position.
  assert (forall i j x y, (i < j)%nat -> l !! i = Some x -> l !! j = Some y -> x < y) as Hord.
  { intros i j x y Hij Hx Hy. rewrite <- (take_drop j l) in HS.
    eapply (StronglySorted_app_1_elem_of Z.lt); [exact HS| |].
    - apply (list_elem_of_lookup_2 _ i). by rewrite lookup_take_lt.
    - apply (list_elem_of_lookup_2 _ 0%nat). by rewrite lookup_drop, Nat.add_0_r. }
  split; [|intros Hn Hp; apply Hn; by eapply list_elem_of_lookup_2].
  intros (k & Hk)%list_elem_of_lookup. apply lookup_lt_Some in Hk as Hkl.
  destruct (sort_Search_spec (length l) (fun i => match l !! i with Some x => id <=? x | None => false end)) as (Hle & Hlo & Hhi).
  { intros i j Hij. destruct (decide (i = j)) as [->|Hne]; [done|].
    destruct (l !! i) as [x|] eqn:Ei; [|done]. destruct (lookup_lt_is_Some_2 l j) as [y Ej]; [lia|]. rewrite Ej.
    rewrite !Z.leb_le. specialize (Hord i j x y ltac:(lia) Ei Ej). lia. }
  fold position in Hle, Hlo, Hhi.
  destruct (Nat.lt_trichotomy k position) as [Hlt|[->|Hgt]]; [|done|].
  - specialize (Hlo k Hlt). rewrite Hk in Hlo. apply Z.leb_gt in Hlo. lia.
  - specialize (Hhi position ltac:(lia)). destruct (lookup_lt_is_Some_2 l position) as [x Ex]; [lia|].
    rewrite Ex in Hhi. apply Z.leb_le in Hhi. specialize (Hord position k x id Hgt Ex Hk). lia.
Qed.

Lemma messageByID_spec id st : reader_ok objects st -> 0 <= id ->
  exists st', messageByID snapshot id st
      = (if decide (id ∈ ids) then Ok (message_of live id) else Err (Sentinel ErrNoSuchMessage), st')
    /\ reader_ok objects st'.
Proof using GO Hshow.
  intros Hst Hid0. destruct (ss_index _ _ _ Hshow) as (index & Hi & Hm). unfold messageByID. rewrite Hi.
  assert (id ∈ ids -> 1 <= id <= sn_LastID snapshot) as Hrange.
  { intros Hin. pose proof (live_ids_bound live _ (ss_live _ _ _ Hshow)) as HF. rewrite Forall_forall in HF. by apply HF. }
  destruct ((id =? 0) || (sn_LastID snapshot <? id)) eqn:E.
  { exists st. split; [|done]. rewrite decide_False; [done|]. intros Hin. specialize (Hrange Hin).
    apply orb_true_iff in E as [E%Z.eqb_eq|E%Z.ltb_lt]; lia. }
  apply orb_false_iff in E as [E1%Z.eqb_neq E2%Z.ltb_ge].
  assert (valid_id id) as Hv by (pose proof (ss_last _ _ _ Hshow); unfold valid_id; lia).
  assert (ToSlash (Dir (match messageRelativePath id with Ok path => path | Err _ => [] end)) = leaf_dir id) as ->.
  { destruct (messageRelativePath id) as [p|] eqn:Ep; [by eapply Dir_messageRelativePath|].
    rewrite messageRelativePath_form in Ep by done. done. }
  destruct (find_leaf_live index (leaf_dir id) Hm) as [(leaf & -> & El & Hleaf)|[Hno Hleaf]].
  2: { exists st. rewrite decide_False by (intros Hin; by apply (Hno id)).
    destruct (leaves index !! _) as [leaf|]; [|done]. by rewrite bool_decide_eq_false_2. }
  rewrite El, bool_decide_eq_true_2 by done. cbn [negb]. rewrite <- El.
  destruct (leaf_directory index leaf st Hi Hm Hleaf Hst) as (st' & Hd & Hst' & Hlen).
  unfold mbind_. rewrite Hd, Hlen, Z.eqb_refl. cbn [negb]. exists st'.
  assert (StronglySorted Z.lt (leaf_ids ids leaf)) as HS by apply sort_ids_sorted, NoDup_in_leaf, shows_NoDup.
  destruct (search_sorted (leaf_ids ids leaf) id HS) as [Hin Hout]. cbn zeta in Hin, Hout.
  rewrite length_fmap.
  erewrite (sort_Search_ext _ _ (fun i => match leaf_ids ids leaf !! i with Some x => id <=? x | None => false end)).
  2: { intros i. rewrite list_lookup_fmap. by destruct (leaf_ids ids leaf !! i). }
  rewrite list_lookup_fmap. rewrite elem_of_leaf_ids, El in Hin, Hout.
  destruct (decide (id ∈ ids)) as [Hid|Hid].
  - rewrite Hin by done. cbn. rewrite Z.eqb_refl. done.
  - destruct (leaf_ids ids leaf !! _) as [x|]; [|done]. cbn.
    destruct (Z.eqb_spec x id) as [->|]; [|done]. exfalso. apply Hout; [tauto | done].
Qed.

(** Listing *)

Lemma enumerate_app number (l l' : list Message) :
  enumerate number (l ++ l') = enumerate number l ++ enumerate (number + Z.of_nat (length l)) l'.
Proof using.
  revert number. induction l as [|m l IH]; intros number; cbn [app enumerate length]; [by rewrite Z.add_0_r|].
  rewrite IH. do 3 f_equal. lia.
Qed.

Lemma visit_spec_app visit (l l' : list (Z * Z * Z)) : visit_spec visit (l ++ l') =
  match visit_spec visit l with
  | (calls, Some e) => (calls, Some e)
  | (calls, None) => let '(more, e) := visit_spec visit l' in (calls ++ more, e)
  end.
Proof using.
  induction l as [|[[n i] z] l IH]; cbn [app visit_spec]; [by destruct (visit_spec visit l')|].
  destruct (visit n i z); [done|]. rewrite IH. destruct (visit_spec visit l) as [calls [e|]]; [done|].
  by destruct (visit_spec visit l').
Qed.

Lemma visit_messages_spec visit (messages : list Message) number :
  Forall (fun m => ID m <= sn_LastID snapshot) messages ->
  0 <= number -> number + Z.of_nat (length messages) <= MaxUint64 ->
  visit_messages (sn_LastID snapshot) visit messages number =
  match visit_spec visit (enumerate number messages) with
  | (calls, Some e) => (calls, Err e)
  | (calls, None) => (calls, Ok (number + Z.of_nat (length messages)))
  end.
Proof using.
  intros HF. revert number. induction HF as [|m l Hm HF IH]; intros number Hn Hl; cbn [visit_messages enumerate visit_spec length].
  { by rewrite Z.add_0_r. }
  cbn [length] in Hl. rewrite (proj2 (Z.ltb_ge _ _)) by lia. rewrite u64_small by (unfold is_u64; lia).
  destruct (visit _ _ _); [done|]. rewrite IH by lia.
  destruct (visit_spec visit (enumerate (number + 1) l)) as [calls [e|]]; [done|]. do 2 f_equal. lia.
Qed.

Lemma list_leaves_spec visit index (l : list directoryCount) : sn_index snapshot = Some index ->
  index_match index ids -> (forall leaf, leaf ∈ l -> leaf ∈ leaves index) ->
  forall number st, reader_ok objects st -> 0 <= number ->
  number + Z.of_nat (length (mjoin (leaf_ids ids <$> l))) <= MaxUint64 ->
  exists st', list_leaves (sn_commit snapshot) (sn_LastID snapshot) visit l number st
      = (visit_spec visit (enumerate number (message_of live <$> mjoin (leaf_ids ids <$> l))), st')
    /\ reader_ok objects st'.
Proof using GO Hshow.
  intros Hi Hm. induction l as [|leaf l IH]; intros Hsub number st Hst Hn Hl; [by exists st|].
  cbn [list_leaves]. assert (leaf ∈ leaves index) as Hleaf by (apply Hsub; set_solver).
  destruct (leaf_directory index leaf st Hi Hm Hleaf Hst) as (st1 & -> & Hst1 & Hlen).
  rewrite Hlen, Z.eqb_refl. cbn [negb]. change (mjoin (leaf_ids ids <$> leaf :: l))
    with (leaf_ids ids leaf ++ mjoin (leaf_ids ids <$> l)) in *.
  rewrite length_app in Hl. rewrite (fmap_app (message_of live)), enumerate_app, visit_spec_app.
  rewrite visit_messages_spec; [|  | done | rewrite length_fmap; lia].
  2: { apply Forall_forall. intros m (id & -> & Hid)%list_elem_of_fmap. apply elem_of_leaf_ids in Hid as [Hid _].
    pose proof (live_ids_bound live _ (ss_live _ _ _ Hshow)) as HF. rewrite Forall_forall in HF. by apply HF. }
  destruct (visit_spec visit (enumerate number (message_of live <$> leaf_ids ids leaf))) as [calls [e|]].
  { by exists st1. }
  rewrite length_fmap.
  destruct (IH ltac:(intros; apply Hsub; set_solver) (number + Z.of_nat (length (leaf_ids ids leaf))) st1 Hst1
    ltac:(lia) ltac:(lia)) as (st2 & -> & Hst2).
  exists st2. split; [|done]. by destruct (visit_spec visit _).
Qed.

Lemma ListAt_spec visit st : reader_ok objects st ->
  exists st', ListAt snapshot visit st = (visit_spec visit (enumerate 0 (numbered live)), st') /\ reader_ok objects st'.
Proof using GO Hshow.
  intros Hst. destruct (ss_index _ _ _ Hshow) as (index & Hi & Hm). unfold ListAt. rewrite Hi.
  pose proof (listing_by_leaf index ids Hm shows_NoDup shows_valid) as HL.
  destruct (list_leaves_spec visit index (leaves index) Hi Hm ltac:(done) 0 st Hst ltac:(lia)) as (st' & -> & Hst').
  { rewrite HL, sort_ids_perm. pose proof (io_u64 _ (im_ok _ _ Hm)) as HU. rewrite (im_total _ _ Hm) in HU. exact HU. }
  exists st'. rewrite HL. done.
Qed.

(** Opening *)

Lemma message_of_parsed id : id ∈ ids -> messageFromPath (Path (message_of live id)) = Ok (message_of live id).
Proof using Hshow.
  intros Hid. pose proof shows_valid as HV. rewrite Forall_forall in HV. specialize (HV id Hid).
  apply elem_of_live_ids in Hid as [content Hc]. destruct (ss_live _ _ _ Hshow _ _ Hc) as [_ Hs].
  unfold message_of. rewrite Hc. cbn [default from_option Path]. by apply messageFromPath_mail.
Qed.

Lemma OpenMessage_live id content st : reader_ok objects st -> live !! id = Some content ->
  exists reader st', OpenMessage snapshot (message_of live id) st = (Ok reader, st')
    /\ reading content 0 reader (rs_read st') /\ rs_cache st' = rs_cache st.
Proof using GO Hshow.
  intros [Hr Hc Hh] Hid. assert (id ∈ ids) as Hin by (apply elem_of_live_ids; eauto).
  unfold OpenMessage. rewrite message_of_parsed by done. rewrite bool_decide_eq_true_2 by done. cbn [negb orb].
  destruct (ss_live _ _ _ Hshow _ _ Hid) as [Hrange Hs]. rewrite message_of_ID, (proj2 (Z.ltb_ge (sn_LastID snapshot) id)) by lia.
  destruct (ss_files _ _ _ Hshow) as (files & Hholds & Hrep).
  pose proof shows_valid as HV. rewrite Forall_forall in HV. specialize (HV id Hin).
  assert (message_of live id = {| ID := id; Size := octets content; Path := mail_path id (octets content) |}) as Em
    by (unfold message_of; by rewrite Hid).
  destruct (ch_blob _ _ _ Hholds _ _ (rp_mail _ _ Hrep _ _ Hid)) as (o & Ho & Hk & Hco).
  rewrite Em. cbn [Path Size]. unfold with_read, readBlob.
  destruct (readObject_ok (rs_read st) _ "blob" o Hr (mail_request id (octets content) HV) Ho Hk) as (reader & st' & -> & Hrd & Hhd).
  pose proof Hrd as (_ & _ & _ & Hrem & _). rewrite Hrem, Hco, Nat.sub_0_r. cbn [rs_read rs_cache].
  assert (int64 (octets content) = octets content) as ->.
  { destruct (git_header _ _ Ho) as (_ & _ & _ & _ & _ & Hlen). rewrite Hco in Hlen. unfold int64, octets in *.
    rewrite Z.mod_small by lia. lia. }
  unfold octets. rewrite Z.eqb_refl. cbn [negb]. do 2 eexists. split; [done|]. split; [|done]. by rewrite <- Hco.
Qed.

Lemma OpenMessage_other message st : reader_ok objects st ->
  (forall id, id ∈ ids -> message <> message_of live id) ->
  exists e st', OpenMessage snapshot message st = (Err e, st') /\ reader_ok objects st'.
Proof using GO Hshow.
  intros Hst Hno. pose proof Hst as [Hr Hc Hh]. unfold OpenMessage.
  destruct (messageFromPath (Path message)) as [parsed|] eqn:Ep; [|by eauto].
  destruct (bool_decide (parsed = message)) eqn:E; cbn [negb orb]; [|by eauto]. apply bool_decide_eq_true in E as ->.
  case_match eqn:El; [by eauto|]. apply messageFromPath_sound in Ep as (Hv & Hs & _ & Ep).
  rewrite messagePath_mail in Ep by done. apply Ok_inj in Ep.
  destruct (ss_files _ _ _ Hshow) as (files & Hholds & Hrep). unfold with_read, readBlob.
  destruct (readObject_fail (rs_read st) (sn_commit snapshot ++ ":" ++ Path message) "blob" Hr) as (e & s' & -> & Hr' & _).
  - rewrite <- Ep. by apply mail_request.
  - intros o Ho Hk. apply (ch_only _ _ _ Hholds) in Ho; [|done].
    destruct (rp_only _ _ Hrep _ _ Ho) as [Hroot|(id & Hid & Epath)].
    + rewrite <- Ep in Hroot. unfold mail_path in Hroot.
      by apply (root_file_slash _ (leaf_dir (ID message)) (file_name (ID message) (Size message))) in Hroot.
    + apply (Hno id); [by apply elem_of_live_ids; eauto|].
      pose proof (message_of_parsed id ltac:(apply elem_of_live_ids; eauto)) as Hp.
      assert (message_of live id = {| ID := id; Size := octets (o_content o); Path := mail_path id (octets (o_content o)) |})
        as Em by (unfold message_of; by rewrite Hid).
      rewrite Em in Hp |- *. cbn [Path] in Hp. rewrite <- Epath, <- Ep, messageFromPath_mail in Hp by done.
      apply Ok_inj in Hp. rewrite <- Epath, <- Ep, <- Hp. rewrite Ep. by destruct message.
  - do 2 eexists. split; [done|]. by split.
Qed.

(** Resolving the IDs of a deletion *)

Lemma resolve_ids_spec (l : list Z) : (forall id, id ∈ l -> 1 <= id <= sn_LastID snapshot) ->
  forall previous st, reader_ok objects st ->
  exists st', resolve_ids snapshot l previous st
      = (Ok (message_of live <$> filter (fun id => id ∈ ids) (distinct_from previous l)), st')
    /\ reader_ok objects st'.
Proof using GO Hshow.
  induction l as [|id l IH]; intros Hr previous st Hst; [by exists st|]. cbn [resolve_ids distinct_from].
  assert (1 <= id <= sn_LastID snapshot) as Hid by (apply Hr; set_solver).
  rewrite (proj2 (Z.eqb_neq id 0)), (proj2 (Z.ltb_ge (sn_LastID snapshot) id)) by lia. cbn [orb].
  specialize (IH ltac:(intros; apply Hr; set_solver)).
  destruct (id =? previous); [by apply IH|].
  destruct (messageByID_spec id st Hst ltac:(lia)) as (st1 & -> & Hst1). rewrite filter_cons.
  destruct (decide (id ∈ ids)) as [Hin|Hin].
  - destruct (IH id st1 Hst1) as (st2 & -> & Hst2). exists st2. done.
  - cbn [errors_Is]. rewrite bool_decide_eq_true_2 by done. by apply IH.
Qed.

Lemma resolve_ids_unknown (l : list Z) id0 : id0 ∈ l -> ~ (1 <= id0 <= sn_LastID snapshot) -> Forall (fun id => 0 <= id) l ->
  forall previous st, reader_ok objects st ->
  exists st', resolve_ids snapshot l previous st = (Err (Sentinel ErrNoSuchMessage), st') /\ reader_ok objects st'.
Proof using GO Hshow.
  intros Hin Hbad. induction l as [|id l IH]; [by apply elem_of_nil in Hin|].
  intros [Hid HF]%Forall_cons previous st Hst. cbn [resolve_ids].
  destruct ((id =? 0) || (sn_LastID snapshot <? id)) eqn:E; [by exists st|].
  apply orb_false_iff in E as [E1%Z.eqb_neq E2%Z.ltb_ge].
  apply elem_of_cons in Hin as [->|Hin]; [lia|]. specialize (IH Hin HF).
  destruct (Z.eqb_spec id previous); [by apply IH|].
  destruct (messageByID_spec id st Hst Hid) as (st1 & -> & Hst1). case_decide.
  - destruct (IH id st1 Hst1) as (st2 & -> & Hst2). by exists st2.
  - cbn [errors_Is]. rewrite bool_decide_eq_true_2 by done. by apply IH.
Qed.
End Snapshot.

(** ** How publishing and deleting change the live messages *)

Lemma total_octets_insert (live : mailbox) id content : live !! id = None ->
  total_octets (<[id := content]> live) = octets content + total_octets live.
Proof. intros Hn. unfold total_octets. apply (map_fold_insert_L (fun (_ : Z) (c : str) acc => octets c + acc)); [intros; lia | done]. Qed.

Lemma total_octets_delete (live : mailbox) id content : live !! id = Some content ->
  total_octets live = octets content + total_octets (delete id live).
Proof. intros Hs. unfold total_octets. apply (map_fold_delete_L (fun (_ : Z) (c : str) acc => octets c + acc)); [intros; lia | done]. Qed.

Lemma total_octets_nonneg (live : mailbox) : 0 <= total_octets live.
Proof.
  unfold total_octets. apply (map_fold_weak_ind (fun acc _ => 0 <= acc)); [lia|].
  intros i x m r _ H. unfold octets. lia.
Qed.

Lemma live_ids_insert (live : mailbox) id content : live !! id = None ->
  live_ids (<[id := content]> live) ≡ₚ id :: live_ids live.
Proof. intros Hn. unfold live_ids. by rewrite map_to_list_insert. Qed.

Lemma live_ids_delete (live : mailbox) id content : live !! id = Some content ->
  live_ids live ≡ₚ id :: live_ids (delete id live).
Proof.
  intros Hs. rewrite <- (live_ids_insert (delete id live) id content) by apply lookup_delete_eq.
  by rewrite insert_delete_id.
Qed.

(** Messages with different IDs or sizes have different paths. *)
Lemma mail_path_inj id size id' size' : valid_id id -> valid_id id' -> is_u64 size -> is_u64 size' ->
  mail_path id size = mail_path id' size' -> id = id' /\ size = size'.
Proof.
  intros Hv Hv' Hs Hs' E. pose proof (messageFromPath_mail id size Hv Hs) as H1.
  rewrite E, messageFromPath_mail in H1 by done. by injection H1.
Qed.

Lemma mail_path_not_root id size : mail_path id size ∉ root_files.
Proof.
  intros Hin. by apply (root_file_slash _ (leaf_dir id) (file_name id size)) in Hin.
Qed.

(** The files after adding a message. *)
Lemma represents_insert files live lastID id content state :
  represents files live -> live_ok live lastID -> lastID <= MaxUint64 -> valid_id id -> is_u64 (octets content) ->
  live !! id = None ->
  represents (<[mailboxStateName := state]> (<[mail_path id (octets content) := content]> files)) (<[id := content]> live).
Proof.
  intros [Hm Ho] Hl HM Hv Hs Hn.
  assert (forall i z, mailboxStateName <> mail_path i z) as Hst.
  { intros i z E. apply (mail_path_not_root i z). rewrite <- E. apply list_elem_of_In. simpl. auto. }
  split.
  - intros i c Hi. rewrite lookup_insert_ne by apply Hst. destruct (decide (i = id)) as [->|Hne].
    + rewrite lookup_insert_eq in Hi. injection Hi as ->. by rewrite lookup_insert_eq.
    + rewrite lookup_insert_ne in Hi by done. rewrite lookup_insert_ne; [by apply Hm|].
      intros E. destruct (Hl _ _ Hi) as [Hr Hz]. apply mail_path_inj in E as [? _]; try done; unfold valid_id; lia.
  - intros p c. destruct (decide (p = mailboxStateName)) as [->|Hp].
    { intros _. left. apply list_elem_of_In. simpl. auto. }
    rewrite lookup_insert_ne by done. destruct (decide (p = mail_path id (octets content))) as [->|Hp'].
    + rewrite lookup_insert_eq. intros [= <-]. right. exists id. by rewrite lookup_insert_eq.
    + rewrite lookup_insert_ne by done. intros Hf. destruct (Ho p c Hf) as [?|(i & Hi & ->)]; [by left|].
      right. exists i. split; [|done]. rewrite lookup_insert_ne; [done|]. intros ->. congruence.
Qed.

Lemma represents_state files live state : represents files live ->
  represents (<[mailboxStateName := state]> files) live.
Proof.
  intros [Hm Ho]. split.
  - intros i c Hi. rewrite lookup_insert_ne; [by apply Hm|].
    intros E. apply (mail_path_not_root i (octets c)). rewrite <- E. apply list_elem_of_In. simpl. auto.
  - intros p c. destruct (decide (p = mailboxStateName)) as [->|Hp].
    { intros _. left. apply list_elem_of_In. simpl. auto. }
    rewrite lookup_insert_ne by done. apply Ho.
Qed.

Lemma represents_delete files live lastID id content : represents files live -> live_ok live lastID -> lastID <= MaxUint64 ->
  live !! id = Some content -> represents (delete (mail_path id (octets content)) files) (delete id live).
Proof.
  intros [Hm Ho] Hl HM Hid. destruct (Hl _ _ Hid) as [Hr Hz]. split.
  - intros i c [Hne Hi]%lookup_delete_Some. rewrite lookup_delete_ne; [by apply Hm|].
    intros E. destruct (Hl _ _ Hi) as [Hr' Hz']. apply mail_path_inj in E as [? _]; try done; unfold valid_id; lia.
  - intros p c [Hne Hp]%lookup_delete_Some. destruct (Ho p c Hp) as [?|(i & Hi & ->)]; [by left|].
    right. exists i. split; [|done]. rewrite lookup_delete_ne; [done|]. intros ->. congruence.
Qed.

Lemma live_ok_insert live lastID id content : live_ok live lastID -> lastID < id -> 1 <= id -> is_u64 (octets content) ->
  live_ok (<[id := content]> live) id.
Proof.
  intros Hl Hlt H1 Hs i c. destruct (decide (i = id)) as [->|Hne].
  - rewrite lookup_insert_eq. intros [= <-]. split; [lia | done].
  - rewrite lookup_insert_ne by done. intros Hi. destruct (Hl _ _ Hi). split; [lia | done].
Qed.

Lemma live_ok_delete live lastID id : live_ok live lastID -> live_ok (delete id live) lastID.
Proof. intros Hl i c [_ Hi]%lookup_delete_Some. by apply Hl. Qed.

(** ** Applying a transaction *)

Lemma apply_changes_app files (cs cs' : list fi_change) :
  apply_changes files (cs ++ cs') = apply_changes (apply_changes files cs) cs'.
Proof. apply foldl_app. Qed.

Lemma apply_modifies files (l : list (str * str)) : NoDup l.*1 ->
  apply_changes files ((fun e => FileModify e.1 e.2) <$> l) = list_to_map l ∪ files.
Proof.
  revert files. induction l as [|[p c] l IH]; intros files HN; [cbn; by rewrite (left_id_L ∅ (∪))|].
  cbn [fmap list_fmap] in HN. apply NoDup_cons in HN as [Hp HN].
  change (apply_changes files ((fun e => FileModify e.1 e.2) <$> (p, c) :: l))
    with (apply_changes (<[p := c]> files) ((fun e => FileModify e.1 e.2) <$> l)).
  rewrite IH by done. cbn [list_to_map foldr]. rewrite <- insert_union_r; [by rewrite insert_union_l|].
  by apply not_elem_of_list_to_map_1.
Qed.

Section Order.
Context `{Git, MapOrder}.

(** Whatever order the map is visited in, the files end up the same. *)
Lemma changes_order (m : gmap str str) :
  exists l, map_order (Some <$> m) = (fun e => (e.1, Some e.2)) <$> l /\ l ≡ₚ map_to_list m.
Proof.
  pose proof (map_order_perm (Some <$> m)) as HP. rewrite map_to_list_fmap in HP.
  apply Permutation_map_inv in HP as (l & E & HP). exists l. split; [|done].
  rewrite E. apply map_ext. by intros [].
Qed.

Lemma contents_of_some (l : list (str * str)) :
  contents_of ((fun e => (e.1, Some e.2)) <$> l) = Ok ((fun e => FileModify e.1 e.2) <$> l).
Proof. induction l as [|[p c] l IH]; [done|]. cbn [fmap list_fmap contents_of]. cbn. by rewrite IH. Qed.

Lemma apply_removals files (removals : list str) :
  apply_changes files (FileDelete <$> removals) = foldl (fun fs p => delete p fs) files removals.
Proof. revert files. induction removals as [|p l IH]; intros files; [done|]. cbn. apply IH. Qed.

Lemma committed_files (m : gmap str str) files removals cs : contents_of (map_order (Some <$> m)) = Ok cs ->
  apply_changes files (cs ++ (FileDelete <$> removals)) = foldl (fun fs p => delete p fs) (m ∪ files) removals.
Proof.
  destruct (changes_order m) as (l & -> & HP). rewrite contents_of_some. intros <-%Ok_inj.
  rewrite apply_changes_app, apply_modifies, apply_removals.
  - f_equal. f_equal. rewrite <- (list_to_map_to_list m). apply list_to_map_proper; [|done].
    rewrite HP. apply NoDup_fst_map_to_list.
  - rewrite HP. apply NoDup_fst_map_to_list.
Qed.

Lemma small_some (m : gmap str str) : (forall p c, m !! p = Some c -> octets c < 2 ^ 63) ->
  forall cs, contents_of (map_order (Some <$> m)) = Ok cs -> small_contents cs.
Proof.
  intros Hs cs. destruct (changes_order m) as (l & -> & HP). rewrite contents_of_some. intros <-%Ok_inj.
  apply Forall_forall. intros c ([p x] & -> & Hin)%list_elem_of_fmap. rewrite HP in Hin.
  apply elem_of_map_to_list in Hin. by apply (Hs p).
Qed.
End Order.

(** ** What Git promises about commits *)

(** [git gc] that prunes nothing, whatever options come before. *)
Definition gc_without_pruning (args : list str) : Prop := exists options, args = options ++ ["gc" : str; "--prune=never" : str].

(** Documented behaviour of Git: the reader serves the repository's objects; a
    known commit has its files as tree and blob objects; importing adds objects
    and never changes existing ones; when HEAD is the commit that answered
    [get-mark], that commit holds the parent's files with the transaction's
    changes applied; and [git gc --prune=never] drops no object and moves no
    branch, also when it is cut off. *)
Class GitLaws `{Git, !GitReader} (objects_of : repo -> str -> option gitObject)
    (files_of : repo -> str -> option (gmap str str)) : Prop := {
  gl_reader r :: @GitObjects (cat r) (objects_of r);
  gl_holds r commit files : files_of r commit = Some files -> commit_holds (objects_of r) commit files;
  gl_objects r tx spec o : objects_of r spec = Some o -> objects_of (published r tx) spec = Some o;
  gl_files r tx commit files : files_of r commit = Some files -> files_of (published r tx) commit = Some files;
  gl_import r tx c next parent files : fi_parse tx = Some c -> mark_line r tx = Ok next ->
    validObjectID next = true -> head (published r tx) = (next, None) ->
    fc_from c = Some parent -> files_of r parent = Some files ->
    files_of (published r tx) next = Some (apply_changes files (fc_changes c));
  gl_gc_objects r args spec o : gc_without_pruning args -> objects_of r spec = Some o -> objects_of (maintained r args) spec = Some o;
  gl_gc_files r args commit files : gc_without_pruning args -> files_of r commit = Some files ->
    files_of (maintained r args) commit = Some files;
  gl_gc_head r args : gc_without_pruning args -> rev_parse (maintained r args) = rev_parse r;
}.

Section Commit.
Context `{GitI : Git, MapOrder}.

(** The same repository, or the one after a transaction or a maintenance that
    prunes nothing. *)
Definition grown (r r' : repo) : Prop :=
  r' = r \/ (exists tx, r' = published r tx) \/ (exists args, gc_without_pruning args /\ r' = maintained r args).

(** A successful transaction, as the store saw it. *)
Record imported (title : str) (state : mailboxState) (changes : gmap str (option str)) (removals : list str)
    (g g' : gitState) (tx next : str) : Prop := {
  i_tx : exists mark, import_transaction mark title (refName g) (headID g)
           (map_order (<[mailboxStateName := Some (Marshal state ++ [LF])]> changes)) removals = Ok tx;
  i_mark : mark_line (repository g) tx = Ok next;
  i_valid : validObjectID next = true;
  i_repo : repository g' = published (repository g) tx;
  i_head : head (repository g') = (next, None);
  i_headID : headID g' = next;
  i_failure : failure g' = failure g;
  i_ref : refName g' = refName g;
}.

Lemma importCommitLocked_cases process title state changes removals g :
  match importCommitLocked process title state changes removals g with
  | (Ok _, g') => exists tx next, imported title state changes removals g g' tx next
  | (Err _, g') => headID g' = headID g /\ refName g' = refName g /\ failure g' = failure g
                   /\ grown (repository g) (repository g')
  end.
Proof.
  unfold importCommitLocked, grown. cbn [set_import refName headID repository].
  destruct (import_transaction _ _ _ _ _ _) as [tx|e] eqn:Etx; [|by cbn; split_and!; auto].
  destruct (mark_line _ _) as [next|e] eqn:Em; [|by cbn; split_and!; auto].
  destruct (validObjectID next) eqn:Ev; [|by cbn; split_and!; auto]. cbn [negb].
  destruct (checkpoint_line _ _ _) as [progress|e]; [|by cbn; split_and!; eauto].
  destruct (bool_decide _); [|by cbn; split_and!; eauto]. cbn [negb].
  cbn [set_repository set_import repository].
  destruct (head (published (repository g) tx)) as [current [e|]] eqn:Eh; [by cbn; split_and!; eauto|].
  destruct (bool_decide (current = next)) eqn:Ec; [|by cbn; split_and!; eauto]. apply bool_decide_eq_true in Ec as ->.
  exists tx, next. split; cbn; eauto.
Qed.

(** Whatever happens, at most this transaction is published. *)
Definition attempted (title : str) (state : mailboxState) (changes : gmap str (option str)) (removals : list str)
    (g : gitState) (r : repo) : Prop :=
  r = repository g \/ exists mark tx, r = published (repository g) tx /\
    import_transaction mark title (refName g) (headID g)
      (map_order (<[mailboxStateName := Some (Marshal state ++ [LF])]> changes)) removals = Ok tx.

Lemma importCommitLocked_attempted process title state changes removals g :
  attempted title state changes removals g (repository (importCommitLocked process title state changes removals g).2).
Proof.
  unfold importCommitLocked, attempted. cbn [set_import refName headID repository].
  destruct (import_transaction _ _ _ _ _ _) as [tx|e] eqn:Etx; [|by left].
  destruct (mark_line _ _) as [next|e]; [|by left]. destruct (negb _); [by left|].
  assert (forall g', repository g' = published (repository g) tx -> repository g' = repository g \/ exists mark tx0,
    repository g' = published (repository g) tx0 /\ import_transaction mark title (refName g) (headID g)
      (map_order (<[mailboxStateName := Some (Marshal state ++ [LF])]> changes)) removals = Ok tx0) as Hpub
    by (intros g' E; right; by exists (u64 (process + 1)), tx).
  destruct (checkpoint_line _ _ _); [|by apply Hpub]. destruct (negb _); [by apply Hpub|].
  destruct (head _) as [current [e|]]; [by apply Hpub|]. destruct (negb _); by apply Hpub.
Qed.

Lemma commitChanges_attempted title state changes removals g :
  attempted title state changes removals g (repository (commitChanges title state changes removals g).2).
Proof.
  unfold commitChanges. destruct (failure g); [by left|]. destruct (buildDirectoryIndex _ _); [|by left].
  destruct (head (repository g)) as [current err]. destruct (_ || _); [by left|].
  destruct (importerLocked (import g)) as [[process|e] i]; [|by left].
  pose proof (importCommitLocked_attempted process title state changes removals (set_import i g)) as Ha.
  destruct (importCommitLocked _ _ _ _ _ _) as [r g1]. unfold watchGit.
  destruct (import_interruption title) as [it|], r as [u|e]; try destruct (abortImporterLocked _ _) as [e2 i2]; exact Ha.
Qed.

Lemma commitChanges_cases title state changes removals g :
  match commitChanges title state changes removals g with
  | (Ok _, g') => failure g = None /\ exists tx next, imported title state changes removals g g' tx next
  | (Err _, g') => refName g' = refName g /\ grown (repository g) (repository g')
                   /\ (headID g' = headID g \/ failure g' <> None)
                   /\ (failure g <> None -> g' = g)
  end.
Proof.
  assert (grown (repository g) (repository g)) as Hsame by (by left).
  unfold commitChanges. destruct (failure g) as [e|] eqn:Ef; [by split_and!; auto|].
  destruct (buildDirectoryIndex _ _); [|by split_and!; auto]. destruct (head (repository g)) as [current err].
  destruct (_ || _); [by cbn; split_and!; auto|].
  destruct (importerLocked (import g)) as [[process|e] i]; [|by cbn; split_and!; auto].
  pose proof (importCommitLocked_cases process title state changes removals (set_import i g)) as Hc.
  destruct (importCommitLocked _ _ _ _ _ _) as [r g1].
  assert (forall e g2 i2, match r with
      | Ok _ => exists tx next, imported title state changes removals (set_import i g) g1 tx next
      | Err _ => headID g1 = headID (set_import i g) /\ refName g1 = refName (set_import i g)
          /\ failure g1 = failure (set_import i g) /\ grown (repository (set_import i g)) (repository g1)
      end -> g2 = set_import i2 (set_failure (Some e) g1) ->
      refName g2 = refName g /\ grown (repository g) (repository g2)
      /\ (headID g2 = headID g \/ failure g2 <> None) /\ (None <> None :> option error -> g2 = g)) as Hfail.
  { intros e g2 i2 Hr ->. cbn. destruct r as [u|e'].
    - destruct Hr as (tx & next & [? ? ? ? ? ? ? ?]). split_and!; try done; [right; left; by exists tx | by right].
    - destruct Hr as (? & ? & ? & ?). split_and!; auto; done. }
  unfold watchGit. destruct (import_interruption title) as [it|], r as [u|e].
  - destruct (abortImporterLocked it (import g1)) as [e2 i2]. by eapply (Hfail e2 _ _ Hc).
  - destruct (abortImporterLocked (Joined it e) (import g1)) as [e2 i2]. by eapply (Hfail e2 _ _ Hc).
  - split; [done|]. destruct Hc as (tx & next & [? ? ? ? ? ? ? ?]). exists tx, next. by split.
  - destruct (abortImporterLocked e (import g1)) as [e2 i2]. by eapply (Hfail e2 _ _ Hc).
Qed.

(** A commit that failed left HEAD's ID alone, or Git's HEAD is that ID; and the
    repository is the old one unless the store has failed. *)
Lemma commitChanges_failed title state changes removals g e g' : commitChanges title state changes removals g = (Err e, g') ->
  (headID g' = headID g \/ (head (repository g') = (headID g', None) /\ validObjectID (headID g') = true)) /\
  (failure g' = None -> repository g' = repository g).
Proof.
  unfold commitChanges. destruct (failure g) as [e0|]; [intros [= _ <-]; auto|].
  destruct (buildDirectoryIndex _ _); [|intros [= _ <-]; auto]. destruct (head (repository g)) as [current err].
  destruct (_ || _); [intros [= _ <-]; auto|].
  destruct (importerLocked (import g)) as [[process|e0] i]; [|intros [= _ <-]; auto].
  pose proof (importCommitLocked_cases process title state changes removals (set_import i g)) as Hc.
  destruct (importCommitLocked _ _ _ _ _ _) as [r g1].
  assert (headID g1 = headID g \/ (head (repository g1) = (headID g1, None) /\ validObjectID (headID g1) = true)) as Hh.
  { destruct r as [u|e0]; [right | left; apply Hc]. destruct Hc as (tx & next & Hi).
    rewrite (i_headID _ _ _ _ _ _ _ _ Hi). split; apply Hi. }
  unfold watchGit. destruct (import_interruption title) as [it|], r as [u|e0]; try destruct (abortImporterLocked _ _) as [e2 i2];
    intros [= _ <-]; by split.
Qed.
End Commit.

(** ** The store invariant *)

Section StoreOk.
Context `{GitI : Git, MO : MapOrder, GR : !GitReader, SF : StoreFiles, GT : GraphicTable}.
Context {objects_of : repo -> str -> option gitObject} {files_of : repo -> str -> option (gmap str str)}.
Context `{GL : !GitLaws objects_of files_of}.

(** The state blob of a commit. *)
Definition state_blob (state : mailboxState) : str := Marshal state ++ [LF].

#[global] Arguments state_blob : simpl never.

Record store_ok (s : Store) (live : mailbox) : Prop := {
  so_live : live_ok live (LastID (mb s));
  so_last : 0 <= LastID (mb s) <= MaxUint64;
  so_total : TotalOctets (mb s) = total_octets live;
  so_total_u64 : total_octets live <= MaxUint64;
  so_counts : counts_match (Directories (mb s)) (live_ids live);
  so_index : exists index, ms_index (mb s) = Some index /\ index_match index (live_ids live);
  so_head : validObjectID (headID (gs s)) = true;
  so_files : exists files, files_of (repository (gs s)) (headID (gs s)) = Some files /\ represents files live;
  so_ref : LF ∉ refName (gs s);
  so_reader : reader_ok (objects_of (repository (gs s))) (rd s);
  so_version : Version (mb s) = mailboxStateVersion;
  so_receipt : DailyReceipt (mb s) = None;
  so_state : exists files, files_of (repository (gs s)) (headID (gs s)) = Some files /\
    files !! mailboxStateName = Some (state_blob (mb s));
}.

(** The store's snapshot shows the live messages. *)
Lemma snapshotLocked_shows s live : store_ok s live ->
  snapshot_shows (objects_of (repository (gs s))) (snapshotLocked s) live.
Proof.
  intros Hok. destruct (so_index _ _ Hok) as (index & Hi & Hm).
  split; cbn; try apply Hok.
  - rewrite Hi, (im_total _ _ Hm), size_live_ids. done.
  - apply validObjectID_query, Hok.
  - destruct (so_files _ _ Hok) as (files & Hf & Hr). exists files. split; [|done]. by eapply gl_holds.
Qed.

Lemma grown_objects r r' spec o : grown r r' -> objects_of r spec = Some o -> objects_of r' spec = Some o.
Proof. intros [->|[[tx ->]|(args & Ha & ->)]]; [done | apply gl_objects | by apply gl_gc_objects]. Qed.

Lemma grown_files r r' commit files : grown r r' -> files_of r commit = Some files -> files_of r' commit = Some files.
Proof. intros [->|[[tx ->]|(args & Ha & ->)]]; [done | apply gl_files | by apply gl_gc_files]. Qed.

(** What is cached stays right as the repository grows. *)
Lemma grown_reader r r' st : grown r r' -> reader_ok (objects_of r) st -> reader_ok (objects_of r') st.
Proof.
  intros Hg [Hr Hc Hh]. split; [done | done |]. unfold cache_holds in *.
  eapply Forall_impl; [exact Hh|]. intros e (o & Ho & ? & ? & ?). exists o. split_and!; try done.
  by eapply grown_objects.
Qed.

(** A snapshot taken earlier keeps showing the same messages. *)
Lemma grown_shows r r' snapshot live : grown r r' ->
  (exists files, files_of r (sn_commit snapshot) = Some files /\ represents files live) ->
  snapshot_shows (objects_of r) snapshot live -> snapshot_shows (objects_of r') snapshot live.
Proof.
  intros Hg (files & Hf & Hrep) [H1 H2 H3 H4 H5 H6 _]. split; try done.
  exists files. split; [|done]. eapply gl_holds. by eapply grown_files.
Qed.

Lemma rtc_grown_files r r' commit files : rtc grown r r' -> files_of r commit = Some files -> files_of r' commit = Some files.
Proof. induction 1 as [|r r1 r2 Hg _ IH]; [done|]. intros Hf. by eapply IH, grown_files. Qed.

Lemma rtc_grown_reader r r' st : rtc grown r r' -> reader_ok (objects_of r) st -> reader_ok (objects_of r') st.
Proof. induction 1 as [|r r1 r2 Hg _ IH]; [done|]. intros Hr. by eapply IH, grown_reader. Qed.

Lemma rtc_grown_shows r r' snapshot live : rtc grown r r' ->
  (exists files, files_of r (sn_commit snapshot) = Some files /\ represents files live) ->
  snapshot_shows (objects_of r) snapshot live ->
  (exists files, files_of r' (sn_commit snapshot) = Some files /\ represents files live) /\
  snapshot_shows (objects_of r') snapshot live.
Proof.
  induction 1 as [r|r r1 r2 Hg _ IH]; intros Hf Hs; [done|]. apply IH.
  - destruct Hf as (files & Hf & Hr). exists files. split; [|done]. by eapply grown_files.
  - by eapply grown_shows.
Qed.

(** The store after a transaction that Git refused or lost. *)
Lemma store_ok_refused s live g b : store_ok s live ->
  grown (repository (gs s)) (repository g) -> headID g = headID (gs s) -> refName g = refName (gs s) ->
  store_ok {| mb := mb s; gs := g; bud := b; rd := rd s |} live.
Proof.
  intros Hok Hg Hh Href. split; cbn; try apply Hok.
  - rewrite Hh. apply Hok.
  - destruct (so_files _ _ Hok) as (files & Hf & Hr). exists files. rewrite Hh. split; [|done]. by eapply grown_files.
  - rewrite Href. apply Hok.
  - eapply grown_reader; [done | apply Hok].
  - destruct (so_state _ _ Hok) as (files & Hf & Hr). exists files. rewrite Hh. split; [|exact Hr]. by eapply grown_files.
Qed.

(** The files of a published transaction, when HEAD is its commit. *)
Lemma published_files (r : repo) (mark : Z) (title ref parent : str) (state : mailboxState) (m : gmap str str)
    (removals : list str) (tx next : str) (files : gmap str str) :
  LF ∉ ref -> validObjectID parent = true -> files_of r parent = Some files ->
  import_transaction mark title ref parent (map_order (<[mailboxStateName := Some (state_blob state)]> (Some <$> m))) removals = Ok tx ->
  mark_line r tx = Ok next -> validObjectID next = true -> head (published r tx) = (next, None) ->
  octets title < 2 ^ 63 -> octets (state_blob state) < 2 ^ 63 -> (forall p c, m !! p = Some c -> octets c < 2 ^ 63) ->
  files_of (published r tx) next
    = Some (foldl (fun fs p => delete p fs) (<[mailboxStateName := state_blob state]> m ∪ files) removals).
Proof.
  intros Href Hparent Hf Htx Hmark Hvalid Hhead Ht Hst Hm. rewrite <- fmap_insert in Htx.
  assert (parent <> []) as Hne by (by intros ->).
  destruct (transaction_parse _ _ _ _ _ _ _ Htx) as (cs & Hcs & Hparse); [done | | done | |].
  - by apply validObjectID_query.
  - apply small_some. intros p c [[<- <-]|[_ Hp]]%lookup_insert_Some; [done | by eapply Hm].
  - rewrite (bool_decide_eq_false_2 _ Hne) in Hparse.
    rewrite (gl_import _ _ _ _ parent files Hparse Hmark Hvalid Hhead); [|done | done].
    cbn [fc_changes]. f_equal. by apply committed_files.
Qed.

(** The files of the commit a successful [commitChanges] publishes. *)
Lemma commit_files (s : Store) (live : mailbox) (title : str) (state : mailboxState) (m : gmap str str)
    (removals : list str) (g' : gitState) (tx next : str) (files : gmap str str) :
  store_ok s live -> files_of (repository (gs s)) (headID (gs s)) = Some files ->
  imported title state (Some <$> m) removals (gs s) g' tx next ->
  octets title < 2 ^ 63 -> octets (Marshal state ++ [LF]) < 2 ^ 63 -> (forall p c, m !! p = Some c -> octets c < 2 ^ 63) ->
  files_of (repository g') (headID g')
    = Some (foldl (fun fs p => delete p fs) (<[mailboxStateName := Marshal state ++ [LF]]> m ∪ files) removals).
Proof.
  intros Hok Hf [(mark & Htx) Hmark Hvalid Hrepo Hhead HheadID _ _] Ht Hst Hm. rewrite HheadID, Hrepo.
  apply (published_files _ mark title (refName (gs s)) (headID (gs s)) state m); try done; [apply Hok.. | by rewrite <- Hrepo].
Qed.

(** Publishing *)

Lemma live_next_fresh s live : store_ok s live -> live !! (LastID (mb s) + 1) = None.
Proof.
  intros Hok. destruct (live !! _) as [c|] eqn:E; [|done]. destruct (so_live _ _ Hok _ _ E). lia.
Qed.

(** The next state of a publication is well formed. *)
Lemma next_state_ok s live size : store_ok s live -> is_u64 size -> LastID (mb s) < MaxUint64 ->
  total_octets live + size <= MaxUint64 ->
  exists state, next_state size (mb s) = Ok (mail_path (LastID (mb s) + 1) size, state)
    /\ LastID state = LastID (mb s) + 1 /\ TotalOctets state = total_octets live + size
    /\ counts_match (Directories state) (LastID (mb s) + 1 :: live_ids live)
    /\ (exists index, ms_index state = Some index /\ index_match index (LastID (mb s) + 1 :: live_ids live))
    /\ Version state = mailboxStateVersion /\ DailyReceipt state = None
    /\ octets (Marshal state ++ [LF]) < 2 ^ 63.
Proof.
  intros Hok Hs Hlast Htot. pose proof (so_last _ _ Hok) as Hl. unfold next_state.
  rewrite (proj2 (Z.eqb_neq _ _)) by lia. rewrite u64_small by (unfold is_u64; lia).
  set (id := LastID (mb s) + 1). assert (valid_id id) as Hv by (unfold valid_id, id; lia).
  rewrite messagePath_mail by done. cbn [rbind]. rewrite (so_total _ _ Hok), (proj2 (Z.ltb_ge _ _)) by lia.
  unfold ToSlash. rewrite (Dir_messagePath id size) by (done || by apply messagePath_mail). rewrite clone_id.
  pose proof (live_ids_bound live _ (so_live _ _ Hok)) as Hb.
  pose proof (live_length (live_ids live) (LastID (mb s)) (NoDup_live_ids live) Hb) as Hlen.
  assert (counts_match (counts_add (Directories (mb s)) (leaf_dir id)) (id :: live_ids live)) as Hc
    by (apply counts_match_add; [done | lia | apply Hok]).
  assert (NoDup (id :: live_ids live)) as HN.
  { constructor; [|apply NoDup_live_ids]. intros [c Hin]%elem_of_live_ids.
    unfold id in Hin. rewrite live_next_fresh in Hin; done. }
  assert (Forall (fun i => 1 <= i <= id) (id :: live_ids live)) as HB.
  { constructor; [unfold valid_id in Hv; lia|]. eapply Forall_impl; [exact Hb|]. unfold id. simpl. lia. }
  destruct (build_ok _ _ id Hc HN HB) as (index & -> & Hm); [unfold valid_id in Hv; lia|].
  pose proof (total_octets_nonneg live) as Hnn. unfold valid_id, is_u64 in *.
  cbn [rbind]. eexists. split; [reflexivity|]. split; [reflexivity|]. split; [reflexivity|]. split; [exact Hc|].
  split; [by exists index|]. split; [reflexivity|]. split; [reflexivity|].
  assert (Forall valid_id (id :: live_ids live)) as HV.
  { eapply Forall_impl; [exact HB|]. unfold valid_id. simpl. lia. }
  apply (Marshal_fits _ _ Hc HN HV); [reflexivity.. | |]; unfold is_u64; cbn [LastID TotalOctets]; lia.
Qed.

Lemma next_state_bounds size state path next : next_state size state = Ok (path, next) ->
  LastID state <> MaxUint64 /\ TotalOctets state + size <= MaxUint64.
Proof.
  unfold next_state. destruct (Z.eqb_spec (LastID state) MaxUint64); [done|]. intros Hn. ok_inv.
  destruct (Z.ltb_spec (MaxUint64 - TotalOctets state) size); [done|]. lia.
Qed.

(** An operation that failed left the messages alone, and the store in order
    unless Git's answer was lost after HEAD moved (the store is then failed
    and refuses every later write). *)
Definition refused (s s' : Store) (live : mailbox) : Prop :=
  mb s' = mb s /\ grown (repository (gs s)) (repository (gs s'))
  /\ (headID (gs s') = headID (gs s) -> store_ok s' live)
  /\ (failure (gs s') = None -> store_ok s' live).

Lemma refused_refl s live : store_ok s live -> refused s s live.
Proof. intros Hok. split_and!; try done. by left. Qed.

Lemma Publish_ok now day m s live content : store_ok s live -> read_staged (sm_path m) = Ok content ->
  octets content = sm_size m -> octets content < 2 ^ 63 ->
  match Publish now day (Some m) s with
  | (Ok (id, path), staged, s') =>
      id = LastID (mb s) + 1 /\ path = mail_path id (octets content) /\ store_ok s' (<[id := content]> live)
      /\ grown (repository (gs s)) (repository (gs s')) /\ failure (gs s) = None /\ LastID (mb s') = id
  | (Err _, staged, s') => refused s s' live
  end.
Proof.
  intros Hok Hread Hsize Hlen. unfold Publish.
  destruct (bool_decide _); [by apply refused_refl|].
  destruct (failure (gs s)) as [e|] eqn:Ef; [by apply refused_refl|].
  destruct (sm_done m); [by apply refused_refl|].
  destruct (canReserveLocked _ _ _); [|by apply refused_refl]. cbn [negb].
  destruct (next_state (sm_size m) (mb s)) as [[path state]|e] eqn:En; [|by apply refused_refl].
  rewrite Hread.
  assert (is_u64 (octets content)) as Hu by (unfold is_u64, MaxUint64, octets in *; lia).
  rewrite <- Hsize in En. destruct (next_state_bounds _ _ _ _ En) as [Hlast Htot].
  rewrite (so_total _ _ Hok) in Htot.
  destruct (next_state_ok s live (octets content) Hok Hu) as (state' & En' & H1 & H2 & H3 & H4 & H5 & H6 & Hjson);
    [destruct (so_last _ _ Hok); lia | lia |].
  rewrite En in En'. injection En' as -> <-.
  destruct (publish_charge _ _ _ _) as [[[e|] m'] b].
  { split_and!; [done | by left | intros _ | done]. by apply store_ok_refused; [| left | |]. }
  pose proof (commitChanges_cases ("mail: receive " ++ FormatUint (LastID state) 10) state
    {[mail_path (LastID (mb s) + 1) (octets content) := Some content]} [] (gs s)) as Hc.
  destruct (commitChanges _ _ _ _ (gs s)) as [[u|e] g].
  2: { destruct Hc as (Hr & Hg & Hh & _). split_and!; cbn; [done | done | |].
    - intros E. by apply store_ok_refused.
    - intros Hf. apply store_ok_refused; try done. by destruct Hh. }
  destruct Hc as [_ (tx & next & Hi)]. destruct (so_files _ _ Hok) as (files & Hf & Hrep).
  rewrite <- (map_fmap_singleton Some) in Hi.
  pose proof (commit_files s live _ state _ [] g tx next files Hok Hf Hi) as Hfiles.
  assert (valid_id (LastID (mb s) + 1)) as Hv by (destruct (so_last _ _ Hok); unfold valid_id; lia).
  pose proof (live_next_fresh s live Hok) as Hfresh.
  assert (grown (repository (gs s)) (repository g)) as Hgrown by (right; left; exists tx; apply Hi).
  assert (octets ("mail: receive " ++ FormatUint (LastID state) 10) < 2 ^ 63) as Htitle.
  { unfold octets. rewrite length_app. pose proof (FormatUint_length10 (LastID state)) as Hfl.
    change (length (list_ascii_of_string "mail: receive ")) with 14%nat.
    rewrite H1 in *. unfold is_u64, valid_id in *. specialize (Hfl ltac:(lia)). lia. }
  assert (forall p c, ({[mail_path (LastID (mb s) + 1) (octets content) := content]} : gmap str str) !! p = Some c -> octets c < 2 ^ 63) as Hsmall
    by (intros p c [<- <-]%lookup_singleton_Some; done).
  split_and!; [done | by rewrite H1 | | done | done | done].
  split; cbn; rewrite ?H1, ?H2.
  - apply (live_ok_insert live (LastID (mb s))); [apply Hok | lia | unfold valid_id in Hv; lia | done].
  - unfold valid_id in Hv. lia.
  - rewrite total_octets_insert by done. lia.
  - rewrite total_octets_insert by done. lia.
  - by rewrite (live_ids_insert live _ content Hfresh).
  - destruct H4 as (index & ? & Hm). exists index. split; [done|]. by rewrite (live_ids_insert live _ content Hfresh).
  - rewrite (i_headID _ _ _ _ _ _ _ _ Hi). apply Hi.
  - eexists. split; [apply Hfiles; [exact Htitle | exact Hjson | exact Hsmall]|].
    cbn [foldl]. rewrite <- insert_union_l, <- insert_union_singleton_l.
      apply (represents_insert files live (LastID (mb s))); try done; apply Hok.
  - rewrite (i_ref _ _ _ _ _ _ _ _ Hi). apply Hok.
  - eapply grown_reader; [done | apply Hok].
  - done.
  - done.
  - eexists. split; [apply Hfiles; [exact Htitle | exact Hjson | exact Hsmall]|].
    cbn [foldl]. apply lookup_union_Some_l, lookup_insert_eq.
Qed.

(** Deleting *)

Lemma remove_messages_ok live : forall (l : list Z) (now : mailbox) total counts lastID,
  NoDup l -> (forall id, id ∈ l -> is_Some (now !! id) /\ now !! id = live !! id) ->
  live_ok now lastID -> lastID <= MaxUint64 -> total = total_octets now -> counts_match counts (live_ids now) ->
  exists counts', remove_messages (message_of live <$> l) total counts
      = Ok (total_octets (foldl (fun m id => delete id m) now l), counts')
    /\ counts_match counts' (live_ids (foldl (fun m id => delete id m) now l)).
Proof.
  induction l as [|id l IH]; intros now total counts lastID HN Hin Hl HM -> Hc; [by exists counts|].
  apply NoDup_cons in HN as [Hid HN]. destruct (Hin id ltac:(set_solver)) as [[content Hnow] Heq].
  destruct (Hl _ _ Hnow) as [Hr Hs]. assert (valid_id id) as Hv by (unfold valid_id; lia).
  assert (message_of live id = {| ID := id; Size := octets content; Path := mail_path id (octets content) |}) as Em
    by (unfold message_of; by rewrite <- Heq, Hnow).
  cbn [fmap list_fmap remove_messages foldl]. rewrite Em. cbn [Size Path]. pose proof (total_octets_delete now id content Hnow) as Ht.
  pose proof (total_octets_nonneg (delete id now)).
  rewrite (proj2 (Z.ltb_ge _ _)) by lia. unfold ToSlash.
  rewrite (Dir_messagePath id (octets content)) by (done || by apply messagePath_mail).
  rewrite (live_ids_delete now id content Hnow) in Hc.
  destruct (counts_match_remove counts _ id Hv Hc) as (counts1 & -> & Hc1). cbn [rbind].
  replace (total_octets now - octets content) with (total_octets (delete id now)) by lia.
  apply (IH (delete id now) _ counts1 lastID HN); try done; [|by apply live_ok_delete].
  intros i Hi. assert (i <> id) by (by intros ->). rewrite lookup_delete_ne by done. apply Hin. set_solver.
Qed.

Lemma foldl_delete (l : list Z) (live : mailbox) : foldl (fun m id => delete id m) live l = without l live.
Proof.
  revert live. induction l as [|id l IH]; intros live; cbn [foldl].
  - apply map_eq. intros i. unfold without. rewrite map_lookup_filter. destruct (live !! i); [|done].
    cbn. case_guard; [done|]. set_solver.
  - rewrite IH. apply map_eq. intros i. unfold without. rewrite !map_lookup_filter.
    destruct (decide (i = id)) as [->|Hne].
    + rewrite lookup_delete_eq. destruct (live !! id); [|done]. cbn. case_guard; [set_solver | done].
    + rewrite lookup_delete_ne by done. destruct (live !! i); [|done]. cbn. repeat case_guard; set_solver.
Qed.

Lemma live_ok_without live ids lastID : live_ok live lastID -> live_ok (without ids live) lastID.
Proof. intros Hl i c [Hi _]%map_lookup_filter_Some. by apply Hl. Qed.

Lemma represents_without files live lastID (l : list Z) : represents files live -> live_ok live lastID -> lastID <= MaxUint64 ->
  NoDup l -> (forall id, id ∈ l -> is_Some (live !! id)) ->
  represents (foldl (fun fs p => delete p fs) files (Path <$> (message_of live <$> l))) (without l live).
Proof.
  intros Hrep Hl HM HN Hin. rewrite <- foldl_delete.
  assert (forall now, (forall id, id ∈ l -> now !! id = live !! id) -> represents files now -> live_ok now lastID ->
    represents (foldl (fun fs p => delete p fs) files (Path <$> (message_of live <$> l)))
      (foldl (fun m id => delete id m) now l)) as Hgen; [|by apply Hgen].
  clear Hrep. revert files. induction HN as [|id l Hid HN IH]; intros files now Heq Hrep Hnow; [done|].
  destruct (Hin id ltac:(set_solver)) as [content Hc]. cbn [fmap list_fmap foldl].
  unfold message_of at 1. cbn [Path]. rewrite Hc. cbn [default from_option]. unfold Datatypes.id.
  assert (now !! id = Some content) as Hn by (rewrite Heq by set_solver; done).
  eapply (IH ltac:(intros; apply Hin; set_solver)).
  - intros i Hi. rewrite lookup_delete_ne by (by intros ->). apply Heq. set_solver.
  - by eapply represents_delete.
  - by apply live_ok_delete.
Qed.

Lemma total_without live ids : total_octets (without ids live) <= total_octets live.
Proof.
  rewrite <- foldl_delete. revert live. induction ids as [|id l IH]; intros live; cbn [foldl]; [lia|].
  etransitivity; [apply IH|]. destruct (live !! id) as [c|] eqn:E.
  - rewrite (total_octets_delete live id c E). unfold octets. lia.
  - by rewrite delete_id.
Qed.

(** The title of a deletion fits in a Go string. *)
Lemma runes_length s : (length (runes s) <= length s)%nat.
Proof.
  unfold runes. generalize 0%nat as k. induction s as [|c s IH]; intros k; [by destruct k|].
  destruct k as [|k]; cbn [runes_skip length]; [|specialize (IH k); lia].
  destruct (DecodeRune c s) as [r w]. cbn [length]. specialize (IH (w - 1)%nat). lia.
Qed.

Lemma quote_rune_length rb : (length (quote_rune rb) <= 10)%nat.
Proof.
  assert (forall r, (length (EncodeRune r) <= 4)%nat) as He
    by (intros r; unfold EncodeRune; repeat case_match; cbn [length]; lia).
  destruct rb as [r bytes]. specialize (He r). unfold quote_rune, hex8, hex4, hex2.
  repeat case_match; cbn [length app list_ascii_of_string]; lia.
Qed.

Lemma join_length {A} (f : A -> str) n l : (forall x, length (f x) <= n)%nat -> (length (mjoin (f <$> l)) <= n * length l)%nat.
Proof.
  intros Hf. induction l as [|x l IH]; [cbn; lia|]. change (mjoin (f <$> x :: l)) with (f x ++ mjoin (f <$> l)).
  rewrite length_app. cbn [length]. specialize (Hf x). lia.
Qed.

Lemma delete_title_fits n username : is_u64 n -> octets username < 2 ^ 59 -> octets (delete_title n username) < 2 ^ 63.
Proof.
  intros Hn Hu. unfold octets in *.
  assert (length (Itoa n) <= 20)%nat as Hi.
  { unfold Itoa. rewrite (proj2 (Z.ltb_ge n 0)) by (destruct Hn; lia). by apply FormatUint_length10. }
  assert (length (QuoteToGraphic username) <= 10 * length username + 2)%nat as Hq.
  { unfold QuoteToGraphic. cbn [length]. rewrite length_app. cbn [length].
    pose proof (join_length quote_rune 10 (runes username) quote_rune_length) as Hj. pose proof (runes_length username). lia. }
  assert (length ("mail: delete " : str) = 13%nat /\ length (" messages" : str) = 9%nat /\ length ("POP3 user: " : str) = 11%nat)
    as (E1 & E2 & E3) by done.
  unfold delete_title. destruct (bool_decide _).
  - rewrite !length_app. lia.
  - assert (length (if bool_decide (QuoteToGraphic username = DQ :: username ++ [DQ]) then username else QuoteToGraphic username)
      <= 10 * length username + 2)%nat as Hp by (destruct (bool_decide _); lia).
    rewrite !length_app. cbn [length]. rewrite length_app. lia.
Qed.

Lemma lookup_deleted_paths (files : gmap str str) (paths : list str) path : (forall p, p ∈ paths -> p <> path) ->
  foldl (fun fs p => delete p fs) files paths !! path = files !! path.
Proof.
  revert files. induction paths as [|p paths IH]; intros files Hp; [done|]. cbn [foldl].
  rewrite IH by set_solver. apply lookup_delete_ne. apply Hp. left.
Qed.

Lemma deleteLocked_ok s live (l : list Z) username : store_ok s live -> NoDup l -> (forall id, id ∈ l -> is_Some (live !! id)) ->
  octets username < 2 ^ 59 ->
  match deleteLocked (message_of live <$> l) username s with
  | (Ok _, s') => store_ok s' (without l live) /\ grown (repository (gs s)) (repository (gs s'))
                  /\ failure (gs s') = failure (gs s) /\ LastID (mb s') = LastID (mb s)
  | (Err _, s') => refused s s' live
  end.
Proof.
  intros Hok HN Hin Huser. unfold deleteLocked.
  destruct (failure (gs s)) as [e|] eqn:Ef; [by apply refused_refl|].
  destruct (bool_decide _) eqn:Eb.
  { apply bool_decide_eq_true, fmap_nil_inv in Eb as ->. rewrite <- foldl_delete. split_and!; try done. by left. }
  destruct (deleted_state _ _) as [state|e] eqn:Ed; [|by apply refused_refl].
  rewrite length_fmap. pose proof (so_last _ _ Hok) as Hlast.
  assert (octets (delete_title (Z.of_nat (length l)) username) < 2 ^ 63) as Htitle.
  { apply delete_title_fits; [|done]. pose proof (live_ids_bound live _ (so_live _ _ Hok)) as Hb.
    pose proof (live_length (live_ids live) (LastID (mb s)) (NoDup_live_ids live) Hb) as Hlen.
    assert (l ⊆+ live_ids live) as Hs%submseteq_length.
    { apply NoDup_submseteq; [done|]. intros id Hid. apply elem_of_live_ids. by apply Hin. }
    unfold is_u64, MaxUint64 in *. lia. }
  destruct (remove_messages_ok live l live (TotalOctets (mb s)) (Directories (mb s)) (LastID (mb s)) HN)
    as (counts & Hrm & Hc); [by intros id Hid; split; [apply Hin|] | apply Hok | lia | apply Hok | apply Hok |].
  rewrite foldl_delete in Hrm, Hc.
  assert (deleted_state (message_of live <$> l) (mb s) = deleted_state (message_of live <$> l) (mb s)) as Ed' by done.
  unfold deleted_state in Ed. rewrite clone_id, Hrm in Ed. cbn [rbind] in Ed.
  pose proof (live_ok_without live l _ (so_live _ _ Hok)) as Hlw.
  destruct (build_ok counts (live_ids (without l live)) (LastID (mb s)) Hc (NoDup_live_ids _)
    (live_ids_bound _ _ Hlw) Hlast) as (index & Hb & Hm).
  rewrite Hb in Ed. cbn [rbind] in Ed. apply Ok_inj in Ed.
  pose proof (total_without live l) as Htw. pose proof (so_total_u64 _ _ Hok) as Htu.
  assert (octets (Marshal state ++ [LF]) < 2 ^ 63) as Hjson.
  { pose proof (total_octets_nonneg (without l live)).
    assert (Forall valid_id (live_ids (without l live))) as HV.
    { eapply Forall_impl; [apply (live_ids_bound _ _ Hlw)|]. unfold valid_id. simpl. lia. }
    rewrite <- Ed.
    apply (Marshal_fits _ _ Hc (NoDup_live_ids _) HV); [reflexivity | apply Hok | apply Hok | exact Hlast |].
    cbn [TotalOctets]. unfold is_u64. lia. }
  pose proof (commitChanges_cases (delete_title (Z.of_nat (length l)) username) state ∅
    (Path <$> (message_of live <$> l)) (gs s)) as Hcases.
  destruct (commitChanges _ _ _ _ (gs s)) as [[u|e] g].
  2: { destruct Hcases as (Hr & Hg & Hh & _). split_and!; cbn; [done | done | |].
    - intros E. by apply store_ok_refused.
    - intros Hf. apply store_ok_refused; try done. by destruct Hh. }
  destruct Hcases as [_ (tx & next & Hi)]. destruct (so_files _ _ Hok) as (files & Hf & Hrep).
  rewrite <- (fmap_empty Some) in Hi.
  pose proof (commit_files s live _ state ∅ _ g tx next files Hok Hf Hi Htitle Hjson) as Hfiles.
  assert (grown (repository (gs s)) (repository g)) as Hgrown by (right; left; exists tx; apply Hi).
  split_and!; [| done | cbn; rewrite (i_failure _ _ _ _ _ _ _ _ Hi); done | by rewrite <- Ed].
  split; cbn [mb gs rd]; rewrite <- ?Ed; cbn [LastID TotalOctets Directories ms_index Version DailyReceipt].
  - done.
  - done.
  - done.
  - lia.
  - done.
  - by exists index.
  - rewrite (i_headID _ _ _ _ _ _ _ _ Hi). apply Hi.
  - eexists. split.
    + apply Hfiles. intros p c Hp. by rewrite lookup_empty in Hp.
    + apply (represents_without _ live (LastID (mb s))); try done; [|apply Hok|lia].
      rewrite <- insert_union_l, (left_id_L ∅ (∪)). by apply represents_state.
  - rewrite (i_ref _ _ _ _ _ _ _ _ Hi). apply Hok.
  - eapply grown_reader; [done | apply Hok].
  - apply Hok.
  - apply Hok.
  - eexists. split; [apply Hfiles; intros p c Hp; by rewrite lookup_empty in Hp|]. rewrite lookup_deleted_paths.
    + rewrite <- insert_union_l. unfold state_blob. rewrite <- Ed. apply lookup_insert_eq.
    + intros p (m & -> & (id & -> & _)%list_elem_of_fmap)%list_elem_of_fmap E. eapply mail_path_not_root.
      change (Path (message_of live id)) with (mail_path id (octets (default [] (live !! id)))) in E. rewrite E. left.
Qed.

(** The retry loop *)

Lemma store_ok_set_rd s live r : store_ok s live -> reader_ok (objects_of (repository (gs s))) r ->
  store_ok (set_rd r s) live.
Proof. intros [] Hr. by split. Qed.

(** A commit shows one set of messages. *)
Lemma represents_unique files live live' lastID : represents files live -> represents files live' ->
  live_ok live lastID -> live_ok live' lastID -> lastID <= MaxUint64 -> live = live'.
Proof.
  assert (forall l l', represents files l -> represents files l' -> live_ok l lastID -> live_ok l' lastID ->
    lastID <= MaxUint64 -> forall id c, l !! id = Some c -> l' !! id = Some c) as Hsub.
  { intros l l' H H' Hl Hl' HM id c Hid. pose proof (rp_mail _ _ H _ _ Hid) as Hf.
    destruct (rp_only _ _ H' _ _ Hf) as [Hroot|(id' & Hid' & E)]; [by apply mail_path_not_root in Hroot|].
    destruct (Hl _ _ Hid), (Hl' _ _ Hid').
    apply mail_path_inj in E as [-> _]; try done; unfold valid_id; lia. }
  intros H H' Hl Hl' HM. apply map_eq. intros id. destruct (live !! id) as [c|] eqn:E.
  - symmetry. by eapply (Hsub live live').
  - destruct (live' !! id) as [c|] eqn:E'; [|done].
    apply (Hsub live' live) in E'; try done. congruence.
Qed.

Lemma distinct_from_spec (l : list Z) : StronglySorted Z.le l -> forall previous, Forall (fun x => previous <= x) l ->
  NoDup (distinct_from previous l) /\ (forall x, x ∈ distinct_from previous l <-> x ∈ l /\ x <> previous).
Proof.
  induction 1 as [|x l HS IH HF]; intros previous Hp; [split; [constructor | set_solver]|].
  cbn [distinct_from]. apply Forall_cons in Hp as [Hpx Hp].
  destruct (Z.eqb_spec x previous) as [->|Hne].
  - destruct (IH previous HF) as [H1 H2]. split; [done|]. intros y. rewrite H2. set_solver.
  - destruct (IH x HF) as [H1 H2]. split.
    + constructor; [|done]. rewrite H2. tauto.
    + intros y. rewrite elem_of_cons, H2, elem_of_cons. split; [|destruct (decide (y = x)); tauto].
      intros [->|[Hy Hyx]]; [tauto|]. split; [tauto|]. rewrite Forall_forall in HF. specialize (HF y Hy). lia.
Qed.

Lemma sort_ids_le ids : StronglySorted Z.le (sort_ids ids).
Proof.
  assert (StronglySorted (not_after Z.ltb) (sort_ids ids)) as HS
    by (apply sort_Slice_sorted; [apply ltb_asym | apply _]).
  induction HS as [|x l HS IH HF]; constructor; [done|]. eapply Forall_impl; [exact HF|].
  intros y. by rewrite ltb_not_after.
Qed.

(** Resolving removes exactly the requested messages that are still there. *)
Lemma without_targets live ids : Forall (fun id => 1 <= id) ids ->
  without (filter (fun id => id ∈ live_ids live) (distinct_from 0 (sort_ids ids))) live = without ids live.
Proof.
  intros Hpos. apply map_eq. intros i. unfold without. rewrite !map_lookup_filter.
  destruct (live !! i) as [c|] eqn:E; [|done]. cbn.
  destruct (distinct_from_spec _ (sort_ids_le ids) 0) as [_ Hel].
  { apply Forall_forall. intros x Hx. rewrite elem_of_sort_ids in Hx. rewrite Forall_forall in Hpos. specialize (Hpos x Hx). lia. }
  assert (i ∈ filter (fun id => id ∈ live_ids live) (distinct_from 0 (sort_ids ids)) <-> i ∈ ids) as Hiff.
  { rewrite list_elem_of_filter, Hel, elem_of_sort_ids, elem_of_live_ids, E.
    rewrite Forall_forall in Hpos. split; [tauto|]. intros Hi. specialize (Hpos i Hi).
    split; [eauto|]. split; [done | lia]. }
  repeat case_guard; cbn in *; done || (exfalso; tauto).
Qed.

Section Retry.
Context (Inv : Store -> mailbox -> Prop) (rival : nat -> Store -> Store) (username : str) (ids : list Z).
Context (username_fits : octets username < 2 ^ 59).
Context (Inv_ok : forall s live, Inv s live -> store_ok s live /\ Forall (fun id => 1 <= id <= LastID (mb s)) ids).
Context (Inv_read : forall s live r, Inv s live -> reader_ok (objects_of (repository (gs s))) r -> Inv (set_rd r s) live).

(** The other connections may also make the store fail for good. *)
Context (Lost : Store -> Prop) (Lost_failed : forall s, Lost s -> failure (gs s) <> None).
Context (Lost_read : forall s, Lost s ->
  Lost (set_rd (resolve_ids (H := cat (repository (gs s))) (snapshotLocked s) (sort_ids ids) 0 (rd s)).2 s)).
Context (Lost_rival : forall k s, Lost s -> Lost (rival k s)).
Context (Inv_rival : forall k s live, Inv s live -> (exists live', Inv (rival k s) live'
  /\ rtc grown (repository (gs s)) (repository (gs (rival k s)))
  /\ LastID (mb s) <= LastID (mb (rival k s))) \/ Lost (rival k s)).

Lemma deleteLocked_failed messages s : failure (gs s) <> None -> exists e, deleteLocked messages username s = (Err e, s).
Proof using. intros Hf. unfold deleteLocked. destruct (failure (gs s)) as [e|]; [by exists e | done]. Qed.

Lemma DeleteAs_loop_lost fuel : forall k s, Lost s ->
  exists e s', DeleteAs_loop fuel rival (sort_ids ids) username k s = (Err e, s') /\ Lost s'.
Proof using Lost_failed Lost_read Lost_rival.
  induction fuel as [|fuel IH]; intros k s Hs; cbn [DeleteAs_loop]; [by do 2 eexists|].
  pose proof (Lost_read s Hs) as Hr. destruct (resolve_ids _ _ _ _) as [[messages|e] r]; cbn [snd] in Hr; [|by do 2 eexists].
  pose proof (Lost_rival k _ Hr) as H1. destruct (negb _); [by apply IH|].
  destruct (deleteLocked_failed messages _ (Lost_failed _ H1)) as [e ->]. by do 2 eexists.
Qed.

Lemma DeleteAs_loop_ok fuel k s live : Inv s live ->
  (forall j s', (k + fuel <= S j)%nat -> headID (gs (rival j s')) = headID (gs s')) -> (0 < fuel)%nat ->
  (exists now s0 l, Inv s0 now /\ NoDup l /\ (forall id, id ∈ l -> is_Some (now !! id)) /\ without l now = without ids now /\
     DeleteAs_loop fuel rival (sort_ids ids) username k s = deleteLocked (message_of now <$> l) username s0) \/
  (exists e s', DeleteAs_loop fuel rival (sort_ids ids) username k s = (Err e, s') /\ Lost s').
Proof using username_fits Inv_ok Inv_read Inv_rival Lost_failed Lost_read Lost_rival GL.
  revert k s live. induction fuel as [|fuel IH]; intros k s live Hinv Hquiet Hf; [lia|]. cbn [DeleteAs_loop].
  destruct (Inv_ok s live Hinv) as (Hok & Hids). pose proof (snapshotLocked_shows s live Hok) as Hshow.
  destruct (@resolve_ids_spec (cat (repository (gs s))) (objects_of (repository (gs s))) _
    (snapshotLocked s) live Hshow (sort_ids ids)) with (previous := 0) (st := rd s)
    as (r & -> & Hr); [|apply Hok|].
  { intros id Hid. rewrite elem_of_sort_ids in Hid. rewrite Forall_forall in Hids. by apply Hids. }
  set (targets := filter (fun id => id ∈ live_ids live) (distinct_from 0 (sort_ids ids))).
  pose proof (Inv_read s live r Hinv Hr) as Hinv1.
  destruct (Inv_rival k _ live Hinv1) as [(now & Hinv2 & Hgrown & Hlast)|Hlost].
  2: { right. destruct (negb _); [by apply DeleteAs_loop_lost|].
    destruct (deleteLocked_failed (message_of live <$> targets) _ (Lost_failed _ Hlost)) as [e E]. do 2 eexists. split; [exact E | done]. }
  destruct (Inv_ok _ _ Hinv2) as (Hok2 & _).
  destruct (bool_decide _) eqn:Eh; cbn [negb].
  - apply bool_decide_eq_true in Eh. cbn [snapshotLocked sn_commit] in Eh.
    assert (now = live) as ->.
    { destruct (so_files _ _ Hok) as (files & Hfi & Hrep). destruct (so_files _ _ Hok2) as (files2 & Hfi2 & Hrep2).
      rewrite Eh in Hfi2. cbn [set_rd gs] in Hgrown. rewrite (rtc_grown_files _ _ _ _ Hgrown Hfi) in Hfi2.
      injection Hfi2 as <-. cbn [set_rd mb] in Hlast.
      apply (represents_unique files now live (LastID (mb (rival k (set_rd r s))))); try done; try apply Hok2.
      intros i c Hic. destruct (so_live _ _ Hok _ _ Hic). split; [lia | done]. }
    left. exists live, (rival k (set_rd r s)), targets. split; [done|]. split; [|split; [|split; [|done]]].
    + apply NoDup_filter. apply distinct_from_spec; [apply sort_ids_le|].
      apply Forall_forall. intros x Hx. rewrite elem_of_sort_ids in Hx. rewrite Forall_forall in Hids. specialize (Hids x Hx). simpl in Hids. lia.
    + intros id [Hid _]%list_elem_of_filter. by apply elem_of_live_ids.
    + apply without_targets. eapply Forall_impl; [exact Hids|]. simpl. lia.
  - destruct fuel as [|fuel].
    { exfalso. apply bool_decide_eq_false in Eh. apply Eh. apply (Hquiet k (set_rd r s)). lia. }
    apply (IH (S k) (rival k (set_rd r s)) now Hinv2); [|lia].
    intros j s' Hj. apply Hquiet. lia.
Qed.
End Retry.
End StoreOk.
