(* ===== verification/Reading.v ===== *)
(** * Reading from any snapshot of the archive (internal/archive/mailbox.go, read.go)

    A snapshot taken after a commit whose outcome the store could not confirm may
    pair the old index with the new commit.  Reading from it finds what it finds;
    the reading child and the cache stay in order. *)

From S2P Require Import Prelude GoStrings IdPath Directories Numbering Cache Tree CatFile Listing Contents Mailbox MailboxSpec.

(** What every snapshot of an opened archive has: a commit ID and an index of
    message directories. *)
Record plausible (snapshot : Snapshot) : Prop := {
  pl_commit : query_spec (sn_commit snapshot);
  pl_last : sn_LastID snapshot <= MaxUint64;
  pl_index : exists index ids, sn_index snapshot = Some index /\ index_match index ids /\ Forall valid_id ids;
}.

Section Reading.
Context `{GO : GitObjects objects} (snapshot : Snapshot) (Hsnap : plausible snapshot).

Lemma request_leaf id : valid_id id -> request (sn_commit snapshot) (leaf_dir id).
Proof using Hsnap.
  intros Hv. destruct (pl_commit _ Hsnap) as [H1 H2].
  split; rewrite !not_elem_of_app; split_and!; try done; try (by apply notin_leaf_dir);
    intros Hin; apply list_elem_of_In in Hin; by destruct Hin as [?|[]].
Qed.

Lemma request_mail id size : valid_id id -> request (sn_commit snapshot) (mail_path id size).
Proof using Hsnap.
  intros Hv. destruct (pl_commit _ Hsnap) as [H1 H2].
  split; rewrite !not_elem_of_app; split_and!; try done; try (by apply notin_mail_path);
    intros Hin; apply list_elem_of_In in Hin; by destruct Hin as [?|[]].
Qed.

Lemma directory_reads path st : reader_ok objects st -> request (sn_commit snapshot) path ->
  reader_ok objects (directory (sn_commit snapshot) path st).2.
Proof using GO. intros Hst Hq. destruct (directory_listing st (sn_commit snapshot) path Hst Hq) as (r & st' & -> & Hst' & _). done. Qed.

Lemma leaf_reads index ids leaf st : sn_index snapshot = Some index -> index_match index ids -> Forall valid_id ids ->
  leaf ∈ leaves index -> reader_ok objects st -> reader_ok objects (directory (sn_commit snapshot) (dc_path leaf) st).2.
Proof using GO Hsnap.
  intros Hi Hm HV Hleaf Hst. apply directory_reads; [done|].
  destruct (im_leaf _ _ Hm (dc_path leaf)) as (id & Hid & ->); [by apply list_elem_of_fmap_2|].
  apply request_leaf. rewrite Forall_forall in HV. by apply HV.
Qed.

Lemma Lookup_reads number st : reader_ok objects st -> reader_ok objects (Lookup snapshot number st).2.
Proof using GO Hsnap.
  intros Hst. destruct (pl_index _ Hsnap) as (index & ids & Hi & Hm & HV). unfold Lookup, mbind_, mlift. rewrite Hi.
  destruct (selectLeaf (Some index) number) as [[[leaf offset]|]|e] eqn:Es; [|done..].
  assert (leaf ∈ leaves index) as Hleaf.
  { unfold selectLeaf in Es. destruct (_ || _); [done|]. destruct (leaves index !! _) as [l|] eqn:El; [|done].
    injection Es as <- _. by eapply list_elem_of_lookup_2. }
  pose proof (leaf_reads index ids leaf st Hi Hm HV Hleaf Hst) as Hr.
  destruct (directory _ _ st) as [[messages|e] st']; cbn [snd] in Hr; [|done].
  destruct (negb _); [done|]. by destruct (messages !! _).
Qed.

Lemma messageByID_reads id st : reader_ok objects st -> reader_ok objects (messageByID snapshot id st).2.
Proof using GO Hsnap.
  intros Hst. destruct (pl_index _ Hsnap) as (index & ids & Hi & Hm & HV). unfold messageByID. rewrite Hi.
  destruct (_ || _); [done|].
  set (path := ToSlash _). destruct (leaves index !! find_leaf (leaves index) path) as [leaf|] eqn:El; [|done].
  case_bool_decide as Ep; cbn [negb]; [|done].
  pose proof (leaf_reads index ids leaf st Hi Hm HV ltac:(by eapply list_elem_of_lookup_2) Hst) as Hr. rewrite Ep in Hr.
  unfold mbind_. destruct (directory _ path st) as [[messages|e] st']; cbn [snd] in Hr; [|done].
  destruct (negb _); [done|]. destruct (messages !! _) as [message|]; [|done]. by destruct (negb _).
Qed.

Lemma resolve_ids_reads (l : list Z) : forall previous st, reader_ok objects st ->
  reader_ok objects (resolve_ids snapshot l previous st).2.
Proof using GO Hsnap.
  induction l as [|id l IH]; intros previous st Hst; [done|]. cbn [resolve_ids].
  destruct (_ || _); [done|]. destruct (id =? previous); [by apply IH|].
  pose proof (messageByID_reads id st Hst) as Hr.
  destruct (messageByID snapshot id st) as [[message|e] st']; cbn [snd] in Hr.
  - specialize (IH id st' Hr). by destruct (resolve_ids snapshot l id st') as [[messages|e] st''].
  - destruct (errors_Is e ErrNoSuchMessage); [by apply IH | done].
Qed.

Lemma ListAt_reads visit st : reader_ok objects st -> reader_ok objects (ListAt snapshot visit st).2.
Proof using GO Hsnap.
  intros Hst. destruct (pl_index _ Hsnap) as (index & ids & Hi & Hm & HV). unfold ListAt. rewrite Hi.
  assert (forall l number st, (forall leaf, leaf ∈ l -> leaf ∈ leaves index) -> reader_ok objects st ->
    reader_ok objects (list_leaves (sn_commit snapshot) (sn_LastID snapshot) visit l number st).2) as Hgen; [|by apply Hgen].
  clear st Hst. induction l as [|leaf l IH]; intros number st Hin Hst; cbn [list_leaves]; [done|].
  pose proof (leaf_reads index ids leaf st Hi Hm HV ltac:(apply Hin; by left) Hst) as Hr.
  destruct (directory _ _ st) as [[messages|e] st']; cbn [snd] in Hr; [|done].
  destruct (negb _); [done|]. destruct (visit_messages _ _ _ _) as [calls [number'|e]]; [|done].
  specialize (IH number' st' ltac:(intros leaf' Hl; apply Hin; by right) Hr).
  by destruct (list_leaves _ _ _ _ _ st') as [[more e] st''].
Qed.

Lemma OpenMessage_reads message st : reader_ok objects st ->
  match OpenMessage snapshot message st with
  | (Ok reader, st') => (exists content, reading content 0 reader (rs_read st')) /\ rs_cache st' = rs_cache st
  | (Err _, st') => reader_ok objects st'
  end.
Proof using GO Hsnap.
  intros Hst. pose proof Hst as [Hr Hc Hh]. unfold OpenMessage.
  destruct (messageFromPath (Path message)) as [parsed|e] eqn:Ep; [|done].
  destruct (bool_decide (parsed = message)) eqn:E; cbn [negb orb]; [|done]. apply bool_decide_eq_true in E as ->.
  destruct (sn_LastID snapshot <? ID message); [done|].
  apply messageFromPath_sound in Ep as (Hv & Hs & _ & Ep). rewrite messagePath_mail in Ep by done. apply Ok_inj in Ep.
  pose proof (request_mail (ID message) (Size message) Hv) as Hq. rewrite Ep in Hq. unfold with_read, readBlob.
  destruct (objects (sn_commit snapshot ++ ":" ++ Path message)) as [o|] eqn:Ho; [destruct (decide (o_kind o = "blob")) as [Hk|Hk]|].
  - destruct (readObject_ok (rs_read st) _ "blob" o Hr Hq Ho Hk) as (reader & st' & -> & Hrd & _). cbn [rs_read rs_cache].
    destruct (negb _); [|by split; [eexists|]].
    destruct (Close_ok _ _ _ _ Hrd) as (r2 & s2 & -> & Hr2 & _). by split.
  - destruct (readObject_fail (rs_read st) (sn_commit snapshot ++ ":" ++ Path message) "blob" Hr Hq) as (e & s' & -> & Hr' & _);
      [intros o' Ho'; by rewrite Ho in Ho'; injection Ho' as <- | by split].
  - destruct (readObject_fail (rs_read st) (sn_commit snapshot ++ ":" ++ Path message) "blob" Hr Hq) as (e & s' & -> & Hr' & _);
      [intros o' Ho'; by rewrite Ho in Ho' | by split].
Qed.
End Reading.

Lemma shows_plausible objects snapshot live : snapshot_shows objects snapshot live -> plausible snapshot.
Proof.
  intros [H1 H2 _ _ (index & Hi & Hm) H6 _]. split; [done | lia|]. exists index, (live_ids live). split_and!; [done..|].
  eapply live_ids_valid; [exact H1 | lia].
Qed.
