(* ===== verification/Startup.v ===== *)
(** * Opening the archive (internal/archive/store.go, git.go, quota.go, maintenance.go)

    [NewWithOptions] and everything it does before the archive serves anyone, the
    import of a file archive, [Store.Close] and [Store.Maintain]. *)

From S2P Require Import Prelude GoStrings IdPath Directories Cache Tree CatFile Listing State Quota StateCodec Import Mailbox.

(** ** The surroundings *)

(** One call of the function given to [filepath.WalkDir]. *)
Inductive walk_event :=
  | Visited (is_dir : bool)
  | WalkFailed (at_root : bool) (e : error).

(** What the machine answers while the store opens: [git version], the probes of
    the root, [git init --bare], the synced root, [git rev-parse
    --is-bare-repository], the directory for temporary files, the walks of
    [requireUninitializedArchive], the size of [packed-refs], the two calls of
    [git symbolic-ref HEAD], [git for-each-ref], and the state file. *)
Class Installation := {
  absolute_root : str -> result str;
  make_root : option error;
  git_version : result str;
  lstat_dotgit : result unit;
  lstat_HEAD : result unit;
  git_init : option error;
  sync_root : option error;
  is_bare : result str;
  make_tmp : option error;
  walk : str -> list walk_event;
  packed_refs : result Z;
  symbolic_ref : bool -> result str;
  for_each_ref : str -> result str;
  state_file : result str;
}.

Section Startup.
Context `{GitI : Git, MO : MapOrder, GR : !GitReader, IN : Installation, MF : MailFiles, SD : StateDirectory}.

Definition guard_error (e : option error) : result unit := match e with Some e => Err e | None => Ok tt end.

Definition require (b : bool) (message : string) : result unit := if b then Ok tt else Err (New message).

(** ** The installation *)

(** Git 2.36 or newer. *)
Definition check_version (version : str) : result unit :=
  let fields := Fields version in
  match fields !! 2%nat with
  | None => Err (New "cannot determine Git version")
  | Some field =>
      match Split field "."%char with
      | major :: minor :: _ =>
          match Atoi major, Atoi minor with
          | Ok major, Ok minor =>
              require (negb ((major <? 2) || ((major =? 2) && (minor <? 36)))) "Git 2.36 or newer is required"
          | _, _ => Err (New "Git 2.36 or newer is required")
          end
      | _ => Err (New "cannot determine Git version")
      end
  end.

Definition found_data : error :=
  New "archive has existing Git data; restore HEAD instead of importing legacy mail".

Fixpoint walk_result (events : list walk_event) : option error :=
  match events with
  | [] => None
  | Visited true :: rest => walk_result rest
  | Visited false :: _ => Some found_data
  | WalkFailed at_root e :: rest => if errors_Is e OsErrNotExist && at_root then walk_result rest else Some e
  end.

Definition requireUninitializedArchive : result unit :=
  let! _ := guard_error (walk_result (walk "objects")) in
  let! _ := guard_error (walk_result (walk "refs")) in
  let! _ := guard_error (walk_result (walk "logs")) in
  match packed_refs with
  | Ok size => if negb (size =? 0) then Err found_data else Ok tt
  | Err e => if errors_Is e OsErrNotExist then Ok tt else Err e
  end.

(** [initializeGit] up to the repository: it is there, it is bare. *)
Definition open_repository : result unit :=
  let! version := wrap "Git 2.36 or newer is required" git_version in
  let! _ := check_version version in
  let! _ := match lstat_dotgit with
            | Ok _ => Err (New "archive has a working tree")
            | Err e => if errors_Is e OsErrNotExist then Ok tt else Err e
            end in
  let! _ := match lstat_HEAD with
            | Ok _ => Ok tt
            | Err e =>
                if errors_Is e OsErrNotExist then
                  let! _ := requireUninitializedArchive in
                  let! _ := guard_error git_init in
                  guard_error sync_root
                else Err e
            end in
  let! bare := is_bare in
  let! _ := require (bool_decide (TrimSpace bare = "true")) "archive must be a bare Git repository" in
  guard_error make_tmp.

(** HEAD's commit; empty for a new branch. *)
Definition find_head (r : repo) : result str :=
  match head r with
  | (id, None) => Ok id
  | (_, Some err) =>
      let! _ := requireUninitializedArchive in
      match symbolic_ref false with
      | Err _ => Err err
      | Ok ref =>
          match for_each_ref (TrimSpace ref) with
          | Err _ => Err err
          | Ok refs => if bool_decide (refs = []) then Ok [] else Err err
          end
      end
  end.

Definition find_branch : result str :=
  match symbolic_ref true with
  | Err _ => Err (New "archive HEAD must point to a branch")
  | Ok ref =>
      let name := TrimSpace ref in
      if negb (HasPrefix name "refs/heads/") || ContainsAny name [CR; LF] then Err (New "invalid archive branch") else Ok name
  end.

(** ** A file archive *)

(** The loop over its messages: the octets, the directory counts and the paths. *)
Fixpoint legacy_messages (fuel : nat) (id last total : Z) (counts : directoryCounts) (changes : gmap str (option str))
    : result (Z * directoryCounts * gmap str (option str)) :=
  if (id =? 0) || (last <? id) then Ok (total, counts, changes)
  else match fuel with
  | O => Err (Panicked "out of fuel")
  | S fuel =>
      let! (regular, size) := statMessage id in
      if negb regular then Err (New "legacy message is not regular")
      else
        let size := u64 size in
        if u64 (MaxUint64 - total) <? size then Err (New "legacy archive octet overflow")
        else
          let path := match messagePath id size with Ok path => path | Err _ => [] end in
          legacy_messages fuel (u64 (id + 1)) last (u64 (total + size)) (counts_add counts (ToSlash (Dir path)))
            (<[path := None]> changes)
  end.

(** The state of a new archive, and the changes of its first commit. *)
Definition legacy_import : result (mailboxState * gmap str (option str)) :=
  let! old := readMailboxState state_file in
  let! old := (recoverMailboxTail old (match state_file with Ok source => Some source | Err _ => None end)).1 in
  let! (total, counts, changes) := legacy_messages (Z.to_nat (LastID old)) 1 (LastID old) 0 ∅ ∅ in
  if negb (total =? TotalOctets old) then Err (New "legacy archive octets do not match state")
  else
    let! index := buildDirectoryIndex counts (LastID old) in
    Ok ({| Version := Version old; LastID := LastID old; TotalOctets := TotalOctets old; Directories := counts;
           DailyReceipt := DailyReceipt old; ms_index := Some index |}, changes).

(** ** The committed state *)

Definition read_committed_state `{CatFile} (commit : str) : M readerStore mailboxState := fun st =>
  match with_read (readBlob commit mailboxStateName) st with
  | (Err e, st) => (Err (Wrap "read committed mailbox state" e), st)
  | (Ok reader, st) =>
      let '(data, reader, read) := ReadAll (S (S (Z.to_nat (br_remaining reader)))) [] reader (rs_read st) in
      let '(closeErr, _, read) := blobReader_Close reader read in
      (match data, closeErr with
       | Ok data, None => decodeMailboxState data
       | Err e, None | Ok _, Some e => Err e
       | Err a, Some b => Err (Joined a b)
       end, {| rs_read := read; rs_cache := rs_cache st |})
  end.

(** ** Opening the store *)

Definition set_mb (state : mailboxState) (s : Store) : Store := {| mb := state; gs := gs s; bud := bud s; rd := rd s |}.
Definition set_gs (g : gitState) (s : Store) : Store := {| mb := mb s; gs := g; bud := bud s; rd := rd s |}.

(** [s.refName] and [s.headID]. *)
Definition set_branch (name id : str) (g : gitState) : gitState :=
  {| headID := id; failure := failure g; refName := name; import := import g;
     commitsSinceMaintenance := commitsSinceMaintenance g; maintenanceRequests := maintenanceRequests g;
     lastMaintenanceHead := lastMaintenanceHead g; repository := repository g |}.

Definition initializeGit : M Store unit := fun s =>
  match open_repository with
  | Err e => (Err e, s)
  | Ok _ =>
      match find_head (repository (gs s)) with
      | Err e => (Err e, s)
      | Ok id =>
          match find_branch with
          | Err e => (Err e, s)
          | Ok name =>
              let s := set_gs (set_branch name id (gs s)) s in
              if bool_decide (id = []) then
                match legacy_import with
                | Err e => (Err e, s)
                | Ok (state, changes) =>
                    match commitChanges "mail: initialize archive" state changes [] (gs s) with
                    | (r, g) => (r, set_gs g (set_mb state s))
                    end
                end
              else
                match @read_committed_state (cat (repository (gs s))) id (rd s) with
                | (Err e, r) => (Err e, set_rd r s)
                | (Ok state, r) => (Ok tt, set_rd r (set_mb state s))
                end
          end
      end
  end.

(** [&Store{...}]. *)
Definition new_store (max : Z) (r : repo) : Store := {|
  mb := zero_state;
  gs := {| headID := []; failure := None; refName := [];
           import := {| importer := None; importError := None; closed := false; idleTimer := None; idleGeneration := 0 |};
           commitsSinceMaintenance := 0; maintenanceRequests := false; lastMaintenanceHead := []; repository := r |};
  bud := {| maxDailyBytes := max; receipt := None; reservedBytes := 0 |};
  rd := {| rs_read := {| process := None; readClosed := false; leased := false; readIdleGeneration := 0; readIdleTimer := None |};
           rs_cache := newDirectoryCache directoryCacheCapacity |};
|}.

Definition clear_receipt (state : mailboxState) : mailboxState :=
  {| Version := Version state; LastID := LastID state; TotalOctets := TotalOctets state; Directories := Directories state;
     DailyReceipt := None; ms_index := ms_index state |}.

(** [NewWithOptions]; [receipt_file] is the sibling receipt file, [write] its
    replacement.  A store that could not be opened is closed and not returned. *)
Definition NewWithOptions (root : str) (MaxDailyBytes : Z) (r : repo) (receipt_file : result str)
    (write : dailyReceipt -> option error) : result Store :=
  let max := if MaxDailyBytes =? 0 then DefaultMaxDailyBytes else MaxDailyBytes in
  if bool_decide (TrimSpace root = []) then Err (New "message archive root is required")
  else
    let! _ := absolute_root root in
    let! _ := guard_error make_root in
    match initializeGit (new_store max r) with
    | (Err e, _) => Err e
    | (Ok _, s) =>
        let! b := loadReceipt (readReceipt receipt_file) (DailyReceipt (mb s)) write (bud s) in
        Ok {| mb := clear_receipt (mb s); gs := gs s; bud := b; rd := rd s |}
    end.
End Startup.

(** ** Closing and maintenance *)

Section Maintenance.
Context `{GitI : Git, MO : MapOrder}.

(** Stopping the reader's idle timer. *)
Definition stop_read_idle (st : readState) : readState :=
  {| process := process st; readClosed := readClosed st; leased := leased st;
     readIdleGeneration := u64 (readIdleGeneration st + 1); readIdleTimer := None |}.

Definition set_read (f : readState -> readState) (s : Store) : Store :=
  set_rd {| rs_read := f (rs_read (rd s)); rs_cache := rs_cache (rd s) |} s.

(** [Store.Close]; [reader_close] is the error of ending the reading child. *)
Definition Close (reader_close : option error) (s : Store) : option error * Store :=
  let '(writeErr, i) := close_import (import (gs s)) in
  let s := {| mb := mb s; gs := set_import i (gs s); bud := bud s; rd := rd s |} in
  let closeErr := match process (rs_read (rd s)) with Some _ => reader_close | None => None end in
  (match writeErr, closeErr with
   | Some a, Some b => Some (Joined a b)
   | Some e, None | None, Some e => Some e
   | None, None => None
   end,
   set_read (fun st => closeReaderLocked
     {| process := process st; readClosed := true; leased := leased st;
        readIdleGeneration := u64 (readIdleGeneration st + 1); readIdleTimer := None |}) s).

(** How the child of [runGit] went: it could not be started, or it ran and was
    waited for, and perhaps failed or was killed at its deadline. *)
Inductive child :=
  | NotStarted (e : error)
  | Ran (e : option error).

(** What [Maintain] meets: whether the store's and Git's locks are free, whether
    the context was cancelled, the error of ending the reading child, and how
    [git gc] went. *)
Record surroundings_of_gc := {
  gc_mu : bool;
  gc_gitMu : bool;
  gc_ctx : option error;
  gc_reader : option error;
  gc_child : child;
}.

(** The arguments [Maintain] gives to [runGit]. *)
Definition gc_args : list str := ["-c" : str; "gc.autoDetach=false" : str; "gc" : str; "--prune=never" : str].

(** [runGit] with these arguments: a child that ran has maintained the repository,
    as far as it got. *)
Definition run_gc (c : child) (g : gitState) : option error * gitState :=
  match c with
  | NotStarted e => (Some e, g)
  | Ran e => (e, set_repository (maintained (repository g) gc_args) g)
  end.

Definition fail_import (e : error) (g : gitState) : gitState :=
  let i := import g in
  set_failure (Some e) (set_import {| importer := importer i; importError := Some e; closed := closed i;
                                      idleTimer := idleTimer i; idleGeneration := idleGeneration i |} g).

(** A leased reader holds [readMu]. *)
Definition Maintain (env : surroundings_of_gc) : M Store unit := fun s =>
  if leased (rs_read (rd s)) || negb (gc_mu env) || negb (gc_gitMu env) then (Err (Sentinel ErrMaintenanceBusy), s)
  else if closed (import (gs s)) || readClosed (rs_read (rd s)) then (Err (New "archive is closed"), s)
  else match failure (gs s) with
  | Some e => (Err e, s)
  | None =>
      if bool_decide (lastMaintenanceHead (gs s) = headID (gs s)) then (Ok tt, s)
      else match gc_ctx env with
      | Some e => (Err e, s)
      | None =>
          let g := gs s in
          let i := stop_idle (import g) in
          let s := set_read stop_read_idle {| mb := mb s; gs := set_import i g; bud := bud s; rd := rd s |} in
          match closeImporterLocked i with
          | (Some e, i) => (Err e, {| mb := mb s; gs := fail_import e (set_import i g); bud := bud s; rd := rd s |})
          | (None, i) =>
              let closeErr := match process (rs_read (rd s)) with Some _ => gc_reader env | None => None end in
              let s := set_read closeReaderLocked {| mb := mb s; gs := set_import i g; bud := bud s; rd := rd s |} in
              match closeErr with
              | Some e => (Err e, s)
              | None =>
                  match run_gc (gc_child env) (gs s) with
                  | (Some e, g) => (Err e, {| mb := mb s; gs := g; bud := bud s; rd := rd s |})
                  | (None, g) =>
                      (Ok tt, {| mb := mb s; gs := set_maintenance 0 (maintenanceRequests g) (headID g) g; bud := bud s; rd := rd s |})
                  end
              end
          end
      end
  end.

(** [RunMaintenance]: what wakes the loop up, by the timer or by a request it
    takes from the channel, and the timer it sets after each attempt, in
    nanoseconds. *)
Inductive wakeup :=
  | Cancelled
  | Woken (requested : bool) (env : surroundings_of_gc) (cancelled_meanwhile : bool).

Definition Second : Z := 1000000000.

Definition retry_after (interval : Z) (r : result unit) : Z :=
  match r with
  | Ok _ => interval
  | Err e => if errors_Is e ErrMaintenanceBusy then 60 * Second else 3600 * Second
  end.

Definition DefaultMaintenanceInterval : Z := 6 * 3600 * Second.

Definition take_request (s : Store) : Store :=
  let g := gs s in
  {| mb := mb s; gs := set_maintenance (commitsSinceMaintenance g) false (lastMaintenanceHead g) g; bud := bud s; rd := rd s |}.

Fixpoint maintenance_loop (interval : Z) (events : list wakeup) (s : Store) : list Z * Store :=
  match events with
  | [] | Cancelled :: _ => ([], s)
  | Woken requested env cancelled :: rest =>
      let '(r, s) := Maintain env (if (requested : bool) then take_request s else s) in
      if (cancelled : bool) then ([], s)
      else let '(timers, s) := maintenance_loop interval rest s in (retry_after interval r :: timers, s)
  end.

Definition RunMaintenance (interval : Z) (events : list wakeup) (s : Store) : list Z * Store :=
  maintenance_loop (if interval <=? 0 then DefaultMaintenanceInterval else interval) events s.
End Maintenance.
