(* ===== verification/Restart.v ===== *)
(** * Restarting on what an earlier store left

    What Git holds between two runs, that opening the archive restores exactly
    that, and that no interruption of a write leaves anything else. *)

From S2P Require Import Prelude GoStrings IdPath Directories Numbering Cache Tree CatFile Listing Contents State JsonLaws StateBound.
From S2P Require Import Quota StateCodec Import Mailbox MailboxSpec Startup.

(** ** States *)

(** A mailbox state in order, for these messages. *)
Record state_ok (state : mailboxState) (live : mailbox) : Prop := {
  st_live : live_ok live (LastID state);
  st_last : 0 <= LastID state <= MaxUint64;
  st_total : TotalOctets state = total_octets live;
  st_total_u64 : total_octets live <= MaxUint64;
  st_counts : counts_match (Directories state) (live_ids live);
  st_version : Version state = mailboxStateVersion;
  st_receipt : DailyReceipt state = None;
}.

Lemma state_valid state live : state_ok state live -> Forall valid_id (live_ids live).
Proof. intros []. eapply live_ids_valid; [done | lia]. Qed.

Lemma state_codable state live : state_ok state live -> codable state.
Proof.
  intros Hs. pose proof Hs as []. pose proof (total_octets_nonneg live). split; [done | done | | | by rewrite st_receipt0].
  - unfold is_u64. lia.
  - apply (recorded_plain _ (live_ids live)); [done | apply NoDup_live_ids | by eapply state_valid].
Qed.

(** What was committed is read back, with its index rebuilt. *)
Lemma decode_state_blob state live : state_ok state live -> exists index,
  decodeMailboxState (state_blob state) = Ok (with_index (Some index) state) /\ index_match index (live_ids live).
Proof.
  intros Hs. pose proof Hs as [].
  destruct (build_ok (Directories state) (live_ids live) (LastID state)) as (index & Hb & Hm);
    [done | apply NoDup_live_ids | by apply live_ids_bound | done |].
  exists index. split; [|exact Hm]. unfold state_blob. apply (decode_Marshal state index (state_codable state live Hs) Hb).
  - intros H0. rewrite (im_total _ _ Hm), size_live_ids in H0. rewrite st_total0.
    assert (size live = 0%nat) as ->%map_size_empty_inv by lia. done.
  - intros u. by rewrite st_receipt0.
Qed.

Lemma state_blob_fits state live : state_ok state live -> octets (state_blob state) < 2 ^ 63.
Proof.
  intros Hs. pose proof Hs as []. pose proof (total_octets_nonneg live).
  unfold state_blob. apply (Marshal_fits _ _ st_counts0 (NoDup_live_ids _) (state_valid _ _ Hs)); [reflexivity | assumption | assumption | assumption |].
  unfold is_u64. lia.
Qed.

(** ** Opening *)

Section Opening.
Context `{IN : Installation}.

(** A machine on which the archive can be opened. *)
Record healthy (root name : str) : Prop := {
  hl_root : TrimSpace root <> [] /\ is_ok (absolute_root root) = true /\ make_root = None;
  hl_git : exists version, git_version = Ok version /\ check_version version = Ok tt;
  hl_dotgit : exists e, lstat_dotgit = Err e /\ errors_Is e OsErrNotExist = true;
  hl_HEAD : lstat_HEAD = Ok tt;
  hl_bare : exists bare, is_bare = Ok bare /\ TrimSpace bare = "true";
  hl_tmp : make_tmp = None;
  hl_branch : exists ref, symbolic_ref true = Ok ref /\ TrimSpace ref = name /\ HasPrefix name "refs/heads/" = true /\
    ContainsAny name [CR; LF] = false;
}.

Lemma healthy_opens root name : healthy root name -> open_repository = Ok tt /\ find_branch = Ok name /\ LF ∉ name.
Proof.
  intros [_ (version & Hv & Hcv) (e & Hd & He) HH (bare & Hb & Hbt) Ht (ref & Hr & Hn & Hp & Hc)]. split_and!.
  - unfold open_repository. rewrite Hv. cbn [wrap rbind]. rewrite Hcv. cbn [rbind]. rewrite Hd, He. cbn [rbind].
    rewrite HH. cbn [rbind]. rewrite Hb. cbn [rbind]. rewrite bool_decide_eq_true_2 by done. cbn [require rbind]. by rewrite Ht.
  - unfold find_branch. by rewrite Hr, Hn, Hp, Hc.
  - intros Hin. unfold ContainsAny in Hc. assert (existsb (fun c => bool_decide (c ∈ [CR; LF])) name = true) as E; [|congruence].
    apply existsb_exists. exists LF. split; [by apply list_elem_of_In|]. apply bool_decide_eq_true. set_solver.
Qed.

End Opening.

(** ** At rest *)

Section Restart.
Context `{GitI : Git, MO : MapOrder, GR : !GitReader}.
Context {objects_of : repo -> str -> option gitObject} {files_of : repo -> str -> option (gmap str str)}.
Context `{GL : !GitLaws objects_of files_of}.

(** A repository whose HEAD has these messages and this state. *)
Record at_rest (r : repo) (live : mailbox) (state : mailboxState) : Prop := {
  rs_state : state_ok state live;
  rs_head : exists id files, head r = (id, None) /\ validObjectID id = true /\ files_of r id = Some files /\
    represents files live /\ files !! mailboxStateName = Some (state_blob state);
}.

(** HEAD is where the store thinks it is. *)
Definition synced (s : Store) : Prop := head (repository (gs s)) = (headID (gs s), None).

(** The committed state is read from Git. *)
Lemma read_committed_ok r live state id files st : state_ok state live -> validObjectID id = true ->
  files_of r id = Some files -> files !! mailboxStateName = Some (state_blob state) -> reader_ok (objects_of r) st ->
  exists index st', @read_committed_state (cat r) id st = (Ok (with_index (Some index) state), st') /\
    index_match index (live_ids live) /\ reader_ok (objects_of r) st'.
Proof using GL.
  intros Hs Hv Hf Hst [Hr Hc Hh]. pose proof (gl_reader r) as GO. pose proof (gl_holds r id files Hf) as Hholds.
  destruct (ch_blob _ _ _ Hholds _ _ Hst) as (o & Ho & Hk & Hco).
  assert (query_spec (id ++ ":" ++ mailboxStateName)) as Hq.
  { destruct (validObjectID_query id Hv) as [H1 H2]. split; rewrite !not_elem_of_app; split_and!; try done;
      apply (bool_decide_unpack _); vm_compute; exact I. }
  unfold read_committed_state, with_read, readBlob.
  destruct (readObject_ok (H0 := GO) (rs_read st) _ "blob" o Hr Hq Ho Hk) as (reader & s1 & -> & Hrd & Hhd). cbn [rs_read rs_cache].
  pose proof Hrd as (_ & _ & _ & Hrem & _).
  destruct (ReadAll_ok (H0 := GO) (o_content o) (S (S (Z.to_nat (br_remaining reader)))) 0 [] reader s1 Hrd) as (r2 & s2 & -> & Hrd2 & _); [lia|].
  destruct (Close_ok (H0 := GO) _ _ _ _ Hrd2) as (r3 & s3 & -> & Hr3 & _). rewrite Hco. cbn [app]. rewrite drop_0.
  destruct (decode_state_blob state live Hs) as (index & -> & Hm). do 2 eexists. split; [reflexivity|]. split; [done|]. by split.
Qed.

Lemma new_reader_ok (objects : str -> option gitObject) max r : reader_ok objects (rd (new_store max r)).
Proof using Type. split; [by split_and!; auto | apply cache_ok_new |]. by constructor. Qed.

Context `{IN : Installation, MF : MailFiles, SD : StateDirectory}.

Lemma store_of_state state live index g b r files : state_ok state live -> index_match index (live_ids live) ->
  validObjectID (headID g) = true -> files_of (repository g) (headID g) = Some files -> represents files live ->
  files !! mailboxStateName = Some (state_blob state) -> LF ∉ refName g -> reader_ok (objects_of (repository g)) r ->
  store_ok (objects_of := objects_of) (files_of := files_of) {| mb := with_index (Some index) state; gs := g; bud := b; rd := r |} live.
Proof using Type.
  intros [] Hm Hv Hf Hrep Hst Href Hr. split; cbn [mb gs rd LastID TotalOctets Directories Version DailyReceipt ms_index with_index];
    [assumption.. | by exists index | assumption | by exists files | assumption | assumption | assumption | assumption |].
  exists files. split; [exact Hf|]. exact Hst.
Qed.

Lemma initializeGit_ok root name max r live state : healthy root name -> at_rest r live state ->
  exists s, initializeGit (new_store max r) = (Ok tt, s) /\
    store_ok (objects_of := objects_of) (files_of := files_of) s live /\
    (exists index, mb s = with_index (Some index) state) /\
    failure (gs s) = None /\ repository (gs s) = r /\ bud s = bud (new_store max r) /\ synced s.
Proof using GL.
  intros Hh [Hs (id & files & Hhead & Hv & Hf & Hrep & Hst)]. destruct (healthy_opens root name Hh) as (Hopen & Hbranch & Hname).
  unfold initializeGit. rewrite Hopen, Hbranch. cbn [repository gs new_store]. unfold find_head. rewrite Hhead.
  rewrite bool_decide_eq_false_2 by (by intros ->). cbn [repository gs set_gs set_branch rd].
  destruct (read_committed_ok r live state id files (rd (new_store max r)) Hs Hv Hf Hst (new_reader_ok _ _ _))
    as (index & st' & E & Hm & Hst').
  rewrite E. eexists. split; [reflexivity|]. split_and!; [|by exists index | done | done | done | exact Hhead].
  by eapply store_of_state.
Qed.

(** What [loadReceipt] finds beside the repository. *)
Definition receipt_found (file : result str) (u : option dailyReceipt) : Prop :=
  readReceipt file = Ok u /\ match u with Some usage => validateReceipt usage = None | None => True end.

Lemma NewWithOptions_ok root name max r live state receipt_file u write : healthy root name -> at_rest r live state ->
  receipt_found receipt_file u ->
  exists s, NewWithOptions root max r receipt_file write = Ok s /\
    store_ok (objects_of := objects_of) (files_of := files_of) s live /\
    LastID (mb s) = LastID state /\ failure (gs s) = None /\
    bud s = {| maxDailyBytes := if max =? 0 then DefaultMaxDailyBytes else max; receipt := u; reservedBytes := 0 |} /\
    repository (gs s) = r /\ synced s.
Proof using GL.
  intros Hh Hr [Hread Hu]. pose proof (hl_root _ _ Hh) as (Hroot & Habs & Hmk). unfold NewWithOptions.
  rewrite bool_decide_eq_false_2 by done. destruct (absolute_root root) as [path|]; [|done]. cbn [rbind]. rewrite Hmk. cbn [guard_error rbind].
  set (limit := if max =? 0 then _ else _).
  destruct (initializeGit_ok root name limit r live state Hh Hr) as (s & -> & Hok & (index & Hmb) & Hfail & Hrepo & Hbud & Hsync).
  assert (DailyReceipt (mb s) = None) as Hnone by apply Hok. rewrite Hnone. unfold loadReceipt. rewrite Hread.
  assert (clear_receipt (mb s) = mb s) as Hclear by (unfold clear_receipt; rewrite <- Hnone; by destruct (mb s)).
  destruct u as [usage|].
  - rewrite Hu. cbn [rbind]. eexists. split; [reflexivity|]. cbn [mb gs bud]. rewrite Hclear, Hbud.
    split_and!; [destruct Hok; by split | by rewrite Hmb | done | done | done | done].
  - cbn [rbind]. eexists. split; [reflexivity|]. cbn [mb gs bud]. rewrite Hclear, Hbud.
    split_and!; [destruct Hok; by split | by rewrite Hmb | done | done | done | done].
Qed.

(** ** What a store leaves behind *)

Lemma store_state_ok s live : store_ok (objects_of := objects_of) (files_of := files_of) s live -> state_ok (mb s) live.
Proof using Type. intros []. by split. Qed.

Lemma store_at_rest s live : store_ok (objects_of := objects_of) (files_of := files_of) s live ->
  head (repository (gs s)) = (headID (gs s), None) -> at_rest (repository (gs s)) live (mb s).
Proof using Type.
  intros Hok Hh. split; [by apply store_state_ok|]. destruct (so_files _ _ Hok) as (files & Hf & Hrep).
  destruct (so_state _ _ Hok) as (files' & Hf' & Hst). rewrite Hf in Hf'. injection Hf' as <-.
  exists (headID (gs s)), files. split_and!; [done | apply Hok | done | done | done].
Qed.

(** ** Interrupted writes *)

(** Documented behaviour of Git: a transaction moves the branch to its commit or
    not at all, and the branch is what HEAD names. *)
Class AtomicRefs : Prop := {
  refs_move r tx : head (published r tx) = head r \/
    exists next, mark_line r tx = Ok next /\ validObjectID next = true /\ head (published r tx) = (next, None);
}.

Context `{AR : !AtomicRefs}.

Lemma attempted_at_rest (s : Store) (live : mailbox) (title : str) (state : mailboxState) (live' : mailbox) (m : gmap str str) (removals : list str) (r : repo) :
  store_ok (objects_of := objects_of) (files_of := files_of) s live -> head (repository (gs s)) = (headID (gs s), None) ->
  state_ok state live' -> octets title < 2 ^ 63 -> (forall p c, m !! p = Some c -> octets c < 2 ^ 63) ->
  (forall p, p ∈ removals -> p <> mailboxStateName) ->
  (forall files, represents files live ->
     represents (foldl (fun fs p => delete p fs) (<[mailboxStateName := state_blob state]> m ∪ files) removals) live') ->
  attempted title state (Some <$> m) removals (gs s) r -> at_rest r live (mb s) \/ at_rest r live' state.
Proof using GL AR.
  intros Hok Hhead Hst Ht Hm Hrem Hrep [->|(mark & tx & -> & Htx)]; [left; by apply store_at_rest|].
  pose proof (store_at_rest s live Hok Hhead) as [Hs _].
  destruct (so_files _ _ Hok) as (files & Hf & Hr). destruct (so_state _ _ Hok) as (files' & Hf' & Hb).
  rewrite Hf in Hf'. injection Hf' as <-.
  destruct (refs_move (repository (gs s)) tx) as [Hsame|(next & Hmark & Hv & Hnext)]; [left | right].
  - split; [done|]. rewrite Hsame, Hhead. exists (headID (gs s)), files. split_and!; [done | apply Hok | by apply gl_files | done | done].
  - split; [done|]. rewrite Hnext. do 2 eexists. split; [done|]. split; [exact Hv|]. split.
    + apply (published_files _ mark title (refName (gs s)) (headID (gs s)) state m removals tx next files);
        [apply Hok | apply Hok | exact Hf | exact Htx | exact Hmark | exact Hv | exact Hnext | exact Ht
        | by eapply state_blob_fits | exact Hm].
    + split; [by apply Hrep|]. rewrite lookup_deleted_paths by done. apply lookup_union_Some_l, lookup_insert_eq.
Qed.

(** A publication *)

Lemma next_state_at_rest (s : Store) (live : mailbox) (content : str) : store_ok (objects_of := objects_of) (files_of := files_of) s live ->
  is_u64 (octets content) -> forall path (state : mailboxState), next_state (octets content) (mb s) = Ok (path, state) ->
  path = mail_path (LastID (mb s) + 1) (octets content) /\ LastID state = LastID (mb s) + 1 /\
  state_ok state (<[LastID (mb s) + 1 := content]> live).
Proof using Type.
  intros Hok Hu path state En. destruct (next_state_bounds _ _ _ _ En) as [Hlast Htot]. rewrite (so_total _ _ Hok) in Htot.
  pose proof (so_last _ _ Hok). pose proof (total_octets_nonneg live).
  destruct (next_state_ok s live (octets content) Hok Hu) as (state' & En' & H1 & H2 & H3 & _ & H5 & H6 & _); [lia | lia|].
  rewrite En in En'. injection En' as -> <-. split; [done|]. split; [done|].
  pose proof (live_next_fresh s live Hok) as Hfresh. split; rewrite ?H1, ?H2; try done.
  - apply (live_ok_insert live (LastID (mb s))); [apply Hok | lia | lia | done].
  - lia.
  - rewrite total_octets_insert by done. lia.
  - rewrite total_octets_insert by done. lia.
  - by rewrite (live_ids_insert live _ content Hfresh).
Qed.

Lemma Publish_attempted `{SF : StoreFiles} now day m s : let r := repository (gs (Publish now day (Some m) s).2) in
  r = repository (gs s) \/ exists path state content, next_state (sm_size m) (mb s) = Ok (path, state) /\
    read_staged (sm_path m) = Ok content /\
    attempted ("mail: receive " ++ FormatUint (LastID state) 10) state {[path := Some content]} [] (gs s) r.
Proof using Type.
  unfold Publish. destruct (bool_decide _); [by left|]. destruct (failure (gs s)) as [e|] eqn:Ef; [by left|].
  destruct (sm_done m); [by left|]. destruct (negb _); [by left|].
  destruct (next_state (sm_size m) (mb s)) as [[path state]|e]; [|by left].
  destruct (read_staged (sm_path m)) as [content|e]; [|by left].
  destruct (publish_charge _ _ _ _) as [[[e|] m'] b]; [by left|]. right. exists path, state, content. split; [done|]. split; [done|].
  pose proof (commitChanges_attempted ("mail: receive " ++ FormatUint (LastID state) 10) state {[path := Some content]} [] (gs s)) as Ha.
  by destruct (commitChanges _ _ _ _ (gs s)) as [[u|e] g].
Qed.

(** Whatever became of a publication, Git holds the messages of before or those
    and the new one. *)
Lemma Publish_at_rest `{SF : StoreFiles} now day (m : StagedMessage) (s : Store) (live : mailbox) (content : str) :
  store_ok (objects_of := objects_of) (files_of := files_of) s live -> head (repository (gs s)) = (headID (gs s), None) ->
  read_staged (sm_path m) = Ok content -> octets content = sm_size m -> octets content < 2 ^ 63 ->
  let r := repository (gs (Publish now day (Some m) s).2) in
  exists state, at_rest r live (mb s) \/ (at_rest r (<[LastID (mb s) + 1 := content]> live) state /\ LastID state = LastID (mb s) + 1).
Proof using GL AR.
  intros Hok Hhead Hread Hsize Hlen. cbn zeta.
  destruct (Publish_attempted now day m s) as [-> |(path & state & content' & Hn & Hc & Ha)].
  { exists (mb s). left. by apply store_at_rest. }
  rewrite Hread in Hc. injection Hc as <-. rewrite <- Hsize in Hn.
  assert (is_u64 (octets content)) as Hu by (unfold is_u64, MaxUint64, octets in *; lia).
  destruct (next_state_at_rest s live content Hok Hu path state Hn) as (-> & Hlast & Hst). exists state.
  rewrite <- (map_fmap_singleton Some) in Ha. pose proof (so_last _ _ Hok) as Hl.
  destruct (next_state_bounds _ _ _ _ Hn) as [Hmax _].
  cut (at_rest (repository (gs (Publish now day (Some m) s).2)) live (mb s) \/
       at_rest (repository (gs (Publish now day (Some m) s).2)) (<[LastID (mb s) + 1 := content]> live) state); [tauto|].
  eapply attempted_at_rest; [exact Hok | exact Hhead | exact Hst | | | | | exact Ha].
  - unfold octets. rewrite length_app. pose proof (FormatUint_length10 (LastID state)) as Hfl.
    change (length (list_ascii_of_string "mail: receive ")) with 14%nat. unfold is_u64 in *. rewrite Hlast in *.
    specialize (Hfl ltac:(lia)). lia.
  - intros p c [<- <-]%lookup_singleton_Some. done.
  - intros p Hp. by apply elem_of_nil in Hp.
  - intros files Hrep. cbn [foldl]. rewrite <- insert_union_l, <- insert_union_singleton_l.
    apply (represents_insert files live (LastID (mb s))); try done; [apply Hok | lia | unfold valid_id; lia|].
    by apply (live_next_fresh (objects_of := objects_of) (files_of := files_of)).
Qed.

(** A deletion *)

Lemma deleted_state_at_rest (s : Store) (live : mailbox) (l : list Z) (state : mailboxState) :
  store_ok (objects_of := objects_of) (files_of := files_of) s live -> NoDup l -> (forall id, id ∈ l -> is_Some (live !! id)) ->
  deleted_state (message_of live <$> l) (mb s) = Ok state -> state_ok state (without l live) /\ LastID state = LastID (mb s).
Proof using GL.
  intros Hok HN Hin Ed. pose proof (so_last _ _ Hok) as Hlast.
  destruct (remove_messages_ok live l live (TotalOctets (mb s)) (Directories (mb s)) (LastID (mb s)) HN)
    as (counts & Hrm & Hc); [by intros id Hid; split; [apply Hin|] | apply Hok | lia | apply Hok | apply Hok |].
  rewrite foldl_delete in Hrm, Hc. unfold deleted_state in Ed. rewrite clone_id, Hrm in Ed. cbn [rbind] in Ed.
  destruct (buildDirectoryIndex _ _); [|done]. cbn [rbind] in Ed. apply Ok_inj in Ed as <-.
  split; [|done]. pose proof (total_without live l). pose proof (so_total_u64 _ _ Hok).
  split; cbn [LastID TotalOctets Directories Version DailyReceipt]; [|done | done | lia | done | apply Hok | apply Hok].
  apply live_ok_without, Hok.
Qed.

Lemma deleteLocked_attempted `{GT : GraphicTable} messages username s : let r := repository (gs (deleteLocked messages username s).2) in
  r = repository (gs s) \/ exists state, deleted_state messages (mb s) = Ok state /\
    attempted (delete_title (Z.of_nat (length messages)) username) state ∅ (Path <$> messages) (gs s) r.
Proof using Type.
  unfold deleteLocked. destruct (failure (gs s)); [by left|]. destruct (bool_decide _); [by left|].
  destruct (deleted_state _ _) as [state|e]; [|by left]. right. exists state. split; [done|].
  pose proof (commitChanges_attempted (delete_title (Z.of_nat (length messages)) username) state ∅ (Path <$> messages) (gs s)) as Ha.
  by destruct (commitChanges _ _ _ _ (gs s)) as [[u|e] g].
Qed.

Lemma deleteLocked_at_rest `{GT : GraphicTable} (l : list Z) username (s : Store) (live : mailbox) :
  store_ok (objects_of := objects_of) (files_of := files_of) s live -> head (repository (gs s)) = (headID (gs s), None) ->
  NoDup l -> (forall id, id ∈ l -> is_Some (live !! id)) -> octets username < 2 ^ 59 ->
  let r := repository (gs (deleteLocked (message_of live <$> l) username s).2) in
  exists state, at_rest r live (mb s) \/ (at_rest r (without l live) state /\ LastID state = LastID (mb s)).
Proof using GL AR.
  intros Hok Hhead HN Hin Huser. cbn zeta.
  destruct (deleteLocked_attempted (message_of live <$> l) username s) as [-> |(state & Hd & Ha)].
  { exists (mb s). left. by apply store_at_rest. }
  destruct (deleted_state_at_rest s live l state Hok HN Hin Hd) as [Hst Hlast]. exists state.
  rewrite <- (fmap_empty Some) in Ha. rewrite length_fmap in Ha. pose proof (so_last _ _ Hok).
  cut (at_rest (repository (gs (deleteLocked (message_of live <$> l) username s).2)) live (mb s) \/
       at_rest (repository (gs (deleteLocked (message_of live <$> l) username s).2)) (without l live) state); [tauto|].
  eapply attempted_at_rest; [exact Hok | exact Hhead | exact Hst | | | | | exact Ha].
  - apply delete_title_fits; [|done]. pose proof (live_ids_bound live _ (so_live _ _ Hok)) as Hb.
    pose proof (live_length (live_ids live) (LastID (mb s)) (NoDup_live_ids live) Hb) as Hlen.
    assert (l ⊆+ live_ids live) as Hs%submseteq_length.
    { apply NoDup_submseteq; [done|]. intros id Hid. apply elem_of_live_ids. by apply Hin. }
    unfold is_u64, MaxUint64 in *. lia.
  - intros p c Hp. by rewrite lookup_empty in Hp.
  - intros p (m & -> & (id & -> & _)%list_elem_of_fmap)%list_elem_of_fmap E. eapply mail_path_not_root.
    change (Path (message_of live id)) with (mail_path id (octets (default [] (live !! id)))) in E. rewrite E. left.
  - intros files Hrep. apply (represents_without _ live (LastID (mb s))); try done; [|apply Hok | lia].
    rewrite <- insert_union_l, (left_id_L ∅ (∪)). by apply represents_state.
Qed.
End Restart.
