(* ===== verification/Holding.v ===== *)
(** * What the archive holds, whatever happens (internal/archive/store.go, git.go, maintenance.go)

    Between two commits a store is either running (in order, not failed, with HEAD
    where it thinks it is) or stalled: it has failed for good and refuses every
    write, while Git holds a mailbox that the next start restores.  Publishing,
    deleting and maintenance lead from the one to the one or the other, also when
    Git does not answer in time; nothing leads out of a stalled store but a
    restart. *)

From S2P Require Import Prelude GoStrings IdPath Directories Numbering Cache Tree CatFile Listing Contents State.
From S2P Require Import Quota StateCodec Import Mailbox MailboxSpec Reading Startup Restart.

(** A day's budget in order. *)
Definition bud_ok (b : budget) : Prop :=
  0 <= maxDailyBytes b < 2 ^ 63 /\ 0 <= reservedBytes b /\
  match receipt b with Some u => 0 <= ChargedBytes u | None => True end.

Section Holding.
Context `{GitI : Git, MO : MapOrder, GR : !GitReader}.
Context {objects_of : repo -> str -> option gitObject} {files_of : repo -> str -> option (gmap str str)}.
Context `{GL : !GitLaws objects_of files_of}.

Abbreviation store_good := (store_ok (objects_of := objects_of) (files_of := files_of)).
Abbreviation rests := (at_rest (files_of := files_of)).

(** ** Running and stalled stores *)

(** A store in order that has not failed. *)
Record runs (s : Store) (live : mailbox) : Prop := {
  rn_store : store_good s live;
  rn_failure : failure (gs s) = None;
  rn_synced : synced s;
}.

(** A store that has failed for good: Git holds the mailbox [kept], whose last ID
    is [last], and whatever the store shows can be asked for. *)
Record stalled (s : Store) (kept : mailbox) (last : Z) : Prop := {
  sd_failure : failure (gs s) <> None;
  sd_rest : exists state, rests (repository (gs s)) kept state /\ LastID state = last;
  sd_last : LastID (mb s) <= last;
  sd_reader : reader_ok (objects_of (repository (gs s))) (rd s);
  sd_snapshot : plausible (snapshotLocked s);
}.

(** Either: the mailbox that a start of the archive would find. *)
Definition keeps (s : Store) (live : mailbox) (last : Z) : Prop :=
  (runs s live /\ LastID (mb s) = last) \/ stalled s live last.

Lemma synced_keeps s live : store_good s live -> synced s -> keeps s live (LastID (mb s)).
Proof using GL.
  intros Hok Hs. destruct (failure (gs s)) as [e|] eqn:Ef; [right|by left].
  split; [by rewrite Ef | | done | apply Hok | by eapply shows_plausible, snapshotLocked_shows].
  exists (mb s). split; [by apply (store_at_rest (objects_of := objects_of))|done].
Qed.

Lemma keeps_at_rest s live last : keeps s live last -> exists state, rests (repository (gs s)) live state /\ LastID state = last.
Proof using Type.
  intros [[[Hok _ Hs] <-]|Hs]; [|by apply Hs]. exists (mb s). split; [by apply (store_at_rest (objects_of := objects_of))|done].
Qed.

Lemma keeps_reader s live last : keeps s live last -> reader_ok (objects_of (repository (gs s))) (rd s).
Proof using Type. intros [[[Hok _ _] _]|Hs]; [apply Hok | apply Hs]. Qed.

Lemma keeps_last s live last : keeps s live last -> LastID (mb s) <= last.
Proof using Type. intros [[_ <-]|Hs]; [done | apply Hs]. Qed.

(** The messages that are kept have the IDs up to the last. *)
Lemma keeps_live s live last : keeps s live last -> live_ok live last.
Proof using Type. intros (state & [Hs _] & <-)%keeps_at_rest. apply Hs. Qed.

Lemma keeps_running s live last : keeps s live last -> failure (gs s) = None -> runs s live /\ LastID (mb s) = last.
Proof using Type. intros [H|[Hf _ _ _ _]] E; [done | congruence]. Qed.

(** Reading and the budget do not matter to either. *)
Lemma runs_same s s' live : mb s' = mb s -> gs s' = gs s -> reader_ok (objects_of (repository (gs s))) (rd s') -> runs s live -> runs s' live.
Proof using Type. intros Hm Hg Hr [[] Hf Hs]. split; [|by rewrite Hg | unfold synced; by rewrite Hg]. by split; rewrite ?Hm, ?Hg. Qed.

Lemma stalled_same s s' kept last : mb s' = mb s -> gs s' = gs s -> reader_ok (objects_of (repository (gs s))) (rd s') ->
  stalled s kept last -> stalled s' kept last.
Proof using Type. intros Hm Hg Hr []. split; unfold snapshotLocked; by rewrite ?Hm, ?Hg. Qed.

(** ** Writes *)

Section Unsure.
Context `{AR : !AtomicRefs}.

(** What a write that did not succeed leaves: the same mailbox in memory, and
    either the same repository or a failed store. *)
Record unsure (s s' : Store) : Prop := {
  un_mb : mb s' = mb s;
  un_rd : rd s' = rd s;
  un_grown : grown (repository (gs s)) (repository (gs s'));
  un_head : validObjectID (headID (gs s)) = true -> validObjectID (headID (gs s')) = true;
  un_same : failure (gs s') = None -> repository (gs s') = repository (gs s) /\ headID (gs s') = headID (gs s);
}.

Lemma unsure_refl s : unsure s s.
Proof using Type. split; try done. by left. Qed.

Lemma unsure_keeps s s' live live' last' : runs s live -> unsure s s' -> (failure (gs s') = None -> store_good s' live) ->
  LastID (mb s) <= last' ->
  (exists state, rests (repository (gs s')) live (mb s) \/ (rests (repository (gs s')) live' state /\ LastID state = last')) ->
  keeps s' live (LastID (mb s)) \/ stalled s' live' last'.
Proof using GL.
  intros [Hok Hf Hs] [Hm Hr Hg Hv Hsame] Hok' Hlast Hrest. destruct (failure (gs s')) as [e|] eqn:Ef.
  2: { left. left. destruct (Hsame eq_refl) as [Hrepo Hid]. split; [split; [auto | done|] | by rewrite Hm].
    unfold synced. by rewrite Hrepo, Hid. }
  assert (reader_ok (objects_of (repository (gs s'))) (rd s')) as Hrd by (rewrite Hr; eapply grown_reader; [done | apply Hok]).
  assert (plausible (snapshotLocked s')) as Hp.
  { pose proof (shows_plausible _ _ _ (snapshotLocked_shows s live Hok)) as [_ H2 H3]. split; cbn in *; rewrite ?Hm; try done.
    apply validObjectID_query, Hv, Hok. }
  assert (failure (gs s') <> None) as Hf' by (by rewrite Ef).
  destruct Hrest as (state & [H|[H Hl]]); [left; right | right]; split; rewrite ?Hm; try done; [by exists (mb s) | by exists state].
Qed.

Lemma commitChanges_synced title state changes removals g :
  match commitChanges title state changes removals g with
  | (Ok _, g') => head (repository g') = (headID g', None)
  | (Err _, _) => True
  end.
Proof.
  pose proof (commitChanges_cases title state changes removals g) as Hc.
  destruct (commitChanges _ _ _ _ g) as [[u|e] g']; [|done].
  destruct Hc as [_ (tx & next & Hi)]. by rewrite (i_head _ _ _ _ _ _ _ _ Hi), (i_headID _ _ _ _ _ _ _ _ Hi).
Qed.

Lemma commitChanges_fine title state changes removals g :
  match commitChanges title state changes removals g with (Ok _, g') => failure g' = failure g | (Err _, _) => True end.
Proof using Type.
  pose proof (commitChanges_cases title state changes removals g) as Hc.
  destruct (commitChanges _ _ _ _ g) as [[u|e] g']; [|done]. destruct Hc as [_ (tx & next & Hi)]. apply Hi.
Qed.

Lemma commitChanges_unsure title state changes removals s e g b : failure (gs s) = None ->
  commitChanges title state changes removals (gs s) = (Err e, g) -> unsure s {| mb := mb s; gs := g; bud := b; rd := rd s |}.
Proof using Type.
  intros Hf E. pose proof (commitChanges_cases title state changes removals (gs s)) as Hc. rewrite E in Hc.
  destruct Hc as (_ & Hg & Hh & _). destruct (commitChanges_failed _ _ _ _ _ _ _ E) as [Hv Hr].
  split; cbn; [done | done | done | | ].
  - intros H. destruct Hv as [-> |[_ ?]]; done.
  - intros H. split; [auto|]. by destruct Hh.
Qed.

Lemma Publish_unsure `{SF : StoreFiles} now day m s : failure (gs s) = None ->
  match Publish now day (Some m) s with (Ok _, _, s') => synced s' /\ failure (gs s') = None | (Err _, _, s') => unsure s s' end.
Proof using Type.
  intros Hf. unfold Publish. destruct (bool_decide _); [apply unsure_refl|]. rewrite Hf.
  destruct (sm_done m); [apply unsure_refl|]. destruct (negb _); [apply unsure_refl|].
  destruct (next_state _ _) as [[path state]|e]; [|apply unsure_refl]. destruct (read_staged _) as [content|e]; [|apply unsure_refl].
  destruct (publish_charge _ _ _ _) as [[[e|] m'] b]; [by split; cbn; auto; left|].
  pose proof (commitChanges_synced ("mail: receive " ++ FormatUint (LastID state) 10) state {[path := Some content]} [] (gs s)) as Hs.
  pose proof (commitChanges_fine ("mail: receive " ++ FormatUint (LastID state) 10) state {[path := Some content]} [] (gs s)) as Hn.
  pose proof (commitChanges_unsure ("mail: receive " ++ FormatUint (LastID state) 10) state {[path := Some content]} [] s) as Hu.
  destruct (commitChanges _ _ _ _ (gs s)) as [[u|e] g]; [split; [exact Hs | by rewrite <- Hf] | by eapply Hu].
Qed.

(** A publication adds one message, or leaves the mailbox, or stalls with Git
    holding the one or the other. *)
Lemma Publish_keeps `{SF : StoreFiles} now day (m : StagedMessage) (s : Store) (live : mailbox) (content : str) : runs s live ->
  read_staged (sm_path m) = Ok content -> octets content = sm_size m -> octets content < 2 ^ 63 ->
  match Publish now day (Some m) s with
  | (Ok (id, _), _, s') => id = LastID (mb s) + 1 /\ runs s' (<[id := content]> live) /\ LastID (mb s') = id
  | (Err _, _, s') => mb s' = mb s /\ (keeps s' live (LastID (mb s)) \/
      stalled s' (<[LastID (mb s) + 1 := content]> live) (LastID (mb s) + 1))
  end.
Proof using GL AR.
  intros Hrun Hread Hsize Hlen. pose proof Hrun as [Hok Hf Hs].
  pose proof (Publish_ok now day m s live content Hok Hread Hsize Hlen) as HP.
  pose proof (Publish_unsure now day m s Hf) as Hu.
  pose proof (Publish_at_rest now day m s live content Hok Hs Hread Hsize Hlen) as Hr. cbn zeta in Hr.
  destruct (Publish now day (Some m) s) as [[[[id path]|e] m'] s'] eqn:E; cbn [snd] in Hr.
  - destruct HP as (-> & _ & Hok' & _ & _ & Hlast). split_and!; [done | | done]. by split; [|apply Hu..].
  - split; [apply Hu|]. destruct HP as (_ & _ & _ & Hok').
    apply (unsure_keeps s); [done.. | lia | exact Hr].
Qed.

(** A deletion *)
Lemma deleteLocked_unsure `{GT : GraphicTable} messages username s : failure (gs s) = None -> synced s ->
  match deleteLocked messages username s with (Ok _, s') => synced s' | (Err _, s') => unsure s s' end.
Proof using Type.
  intros Hf Hs. unfold deleteLocked. rewrite Hf. destruct (bool_decide _); [done|].
  destruct (deleted_state _ _) as [state|e]; [|apply unsure_refl].
  pose proof (commitChanges_synced (delete_title (Z.of_nat (length messages)) username) state ∅ (Path <$> messages) (gs s)) as H1.
  pose proof (commitChanges_unsure (delete_title (Z.of_nat (length messages)) username) state ∅ (Path <$> messages) s) as H2.
  destruct (commitChanges _ _ _ _ (gs s)) as [[u|e] g]; [exact H1 | by eapply H2].
Qed.

(** It removes the messages, or leaves the mailbox, or stalls with Git holding
    the one or the other. *)
Lemma deleteLocked_keeps `{GT : GraphicTable} (l : list Z) username (s : Store) (live : mailbox) : runs s live ->
  NoDup l -> (forall id, id ∈ l -> is_Some (live !! id)) -> octets username < 2 ^ 59 ->
  match deleteLocked (message_of live <$> l) username s with
  | (Ok _, s') => runs s' (without l live) /\ LastID (mb s') = LastID (mb s)
  | (Err _, s') => keeps s' live (LastID (mb s)) \/ stalled s' (without l live) (LastID (mb s))
  end.
Proof using GL AR.
  intros Hrun HN Hin Huser. pose proof Hrun as [Hok Hf Hs].
  pose proof (deleteLocked_ok s live l username Hok HN Hin Huser) as HD.
  pose proof (deleteLocked_unsure (message_of live <$> l) username s Hf Hs) as Hu.
  pose proof (deleteLocked_at_rest l username s live Hok Hs HN Hin Huser) as Hr. cbn zeta in Hr.
  destruct (deleteLocked (message_of live <$> l) username s) as [[u|e] s'] eqn:E; cbn [snd] in Hr.
  - destruct HD as (Hok' & _ & Hf' & Hlast). split; [|done]. split; [done | by rewrite Hf' | done].
  - destruct HD as (_ & _ & _ & Hok'). by apply (unsure_keeps s).
Qed.
End Unsure.

(** A failed store refuses every write. *)
Lemma Publish_stalled `{SF : StoreFiles} now day m s : failure (gs s) <> None ->
  exists e, Publish now day (Some m) s = (Err e, Some m, s).
Proof using Type.
  intros Hf. unfold Publish. destruct (bool_decide _); [by eexists|]. destruct (failure (gs s)); [by eexists | done].
Qed.

(** ** Maintenance *)

Lemma gc_args_prune_nothing : gc_without_pruning gc_args.
Proof. by exists ["-c" : str; "gc.autoDetach=false" : str]. Qed.

(** Nothing of the archive changed but how Git stores it. *)
Record kept (s s' : Store) : Prop := {
  k_mb : mb s' = mb s;
  k_bud : bud s' = bud s;
  k_headID : headID (gs s') = headID (gs s);
  k_ref : refName (gs s') = refName (gs s);
  k_head : head (repository (gs s')) = head (repository (gs s));
  k_repo : rtc grown (repository (gs s)) (repository (gs s'));
  k_cache : rs_cache (rd s') = rs_cache (rd s);
  k_ready : ready (rs_read (rd s)) -> ready (rs_read (rd s'));
}.

Lemma kept_refl s : kept s s.
Proof. by split. Qed.

Lemma kept_trans s1 s2 s3 : kept s1 s2 -> kept s2 s3 -> kept s1 s3.
Proof. intros [] []. split; try congruence; [by etransitivity | auto]. Qed.

Lemma kept_store_ok s s' live : kept s s' -> store_good s live -> store_good s' live.
Proof using GL.
  intros [Hmb Hbud Hid Href Hhead Hrepo Hcache Hready] Hok. destruct (so_reader _ _ Hok) as [H1 H2 H3].
  destruct (so_files _ _ Hok) as (files & Hf & Hrep). destruct (so_state _ _ Hok) as (files' & Hf' & Hst).
  split; rewrite ?Hmb, ?Hid, ?Href; try apply Hok.
  - exists files. split; [by eapply rtc_grown_files | done].
  - eapply rtc_grown_reader; [exact Hrepo|]. split; rewrite ?Hcache; auto.
  - exists files'. split; [by eapply rtc_grown_files | done].
Qed.

Lemma run_gc_kept c g : let '(e, g') := run_gc c g in
  (repository g' = repository g \/ repository g' = maintained (repository g) gc_args) /\
  headID g' = headID g /\ refName g' = refName g /\ failure g' = failure g.
Proof. destruct c as [e|[e|]]; cbn; split_and!; auto. Qed.

Lemma maintained_kept (r r' : repo) : r' = r \/ r' = maintained r gc_args -> head r' = head r /\ rtc grown r r'.
Proof using GL.
  intros [-> | ->]; [done|]. pose proof gc_args_prune_nothing as Ha. split.
  - unfold head. by rewrite (gl_gc_head r gc_args Ha).
  - apply rtc_once. right. right. by exists gc_args.
Qed.

Lemma Maintain_kept env s : kept s (Maintain env s).2.
Proof using GL.
  unfold Maintain. destruct (leased _ || _ || _); [apply kept_refl|]. destruct (closed _ || _); [apply kept_refl|].
  destruct (failure (gs s)) as [e|]; [apply kept_refl|]. destruct (bool_decide _); [apply kept_refl|].
  destruct (gc_ctx env) as [e|]; [apply kept_refl|]. cbv zeta.
  destruct (closeImporterLocked _) as [[e|] i]; [by split|].
  destruct (match process _ with Some _ => gc_reader env | None => None end).
  { split; try done. intros (H1 & H2 & H3). by split_and!; auto. }
  match goal with |- context [run_gc ?c ?g] => pose proof (run_gc_kept c g) as Hg; destruct (run_gc c g) as [[e|] g'] end;
    destruct Hg as (Hr%maintained_kept & Hi & Hn & _); destruct Hr as [Hr1 Hr2];
    (split; cbn; try done; intros (H1 & H2 & H3); split_and!; auto).
Qed.

(** After a round that succeeded the head is the maintained one. *)
Lemma Maintain_again env env' s s' : Maintain env s = (Ok tt, s') -> gc_mu env' = true -> gc_gitMu env' = true ->
  Maintain env' s' = (Ok tt, s').
Proof using Type.
  intros E Hm Hg. assert (leased (rs_read (rd s')) = false /\ closed (import (gs s')) = false /\ readClosed (rs_read (rd s')) = false /\
    failure (gs s') = None /\ lastMaintenanceHead (gs s') = headID (gs s')) as (H1 & H2 & H3 & H4 & H5).
  { revert E. unfold Maintain. destruct (leased _) eqn:El; [done|]. cbn [orb]. destruct (negb _ || _); [done|].
    destruct (closed _) eqn:Ec; [done|]. cbn [orb]. destruct (readClosed _) eqn:Er; [done|].
    destruct (failure (gs s)) as [e|] eqn:Ef; [done|]. case_bool_decide as Eh; [by intros [= <-]|].
    destruct (gc_ctx env) as [e|]; [done|]. cbv zeta. unfold closeImporterLocked. cbn [importer stop_idle].
    destruct (importer (import (gs s))); [destruct import_close_error; [done|]|];
      (destruct (match process _ with Some _ => gc_reader env | None => None end); [done|]; destruct (gc_child env) as [e|[e|]]; [done..|];
       intros [= <-]; by split_and!). }
  unfold Maintain. rewrite H1, H2, H3, H4, Hm, Hg. cbn [orb negb]. by rewrite bool_decide_eq_true_2.
Qed.

(** What each attempt of [RunMaintenance] that it acts on answered. *)
Fixpoint attempt_results (events : list wakeup) (s : Store) : list (result unit) :=
  match events with
  | [] | Cancelled :: _ => []
  | Woken requested env cancelled :: rest =>
      let '(r, s) := Maintain env (if (requested : bool) then take_request s else s) in
      if (cancelled : bool) then [] else r :: attempt_results rest s
  end.

Lemma maintenance_loop_kept interval events s : kept s (maintenance_loop interval events s).2 /\
  (maintenance_loop interval events s).1 = retry_after interval <$> attempt_results events s.
Proof using GL.
  revert s. induction events as [|[|requested env cancelled] events IH]; intros s; cbn [maintenance_loop attempt_results];
    [split; [apply kept_refl | done]..|].
  set (s1 := if requested then take_request s else s).
  assert (kept s s1) as H1 by (unfold s1; destruct requested; by split).
  pose proof (Maintain_kept env s1) as H2. destruct (Maintain env s1) as [r s2]. cbn [snd] in H2.
  pose proof (kept_trans _ _ _ H1 H2) as H12. destruct cancelled; [by split|].
  destruct (IH s2) as [H3 HF]. destruct (maintenance_loop interval events s2) as [timers s3]. cbn [fst snd] in *.
  split; [by eapply kept_trans|]. by rewrite HF.
Qed.

Lemma Maintain_stalled env s : failure (gs s) <> None -> (Maintain env s).2 = s.
Proof using Type.
  intros Hf. unfold Maintain. destruct (leased _ || _ || _); [done|]. destruct (Import.closed _ || _); [done|].
  by destruct (failure (gs s)).
Qed.

(** The same mailbox in a store that may have failed. *)
Lemma Maintain_keeps env s live last : keeps s live last -> keeps (Maintain env s).2 live last.
Proof using GL.
  intros [[[Hok Hf Hs] <-]|Hst].
  - pose proof (Maintain_kept env s) as Hk. pose proof (kept_store_ok _ _ _ Hk Hok) as Hok'. destruct Hk as [Hmb _ Hid _ Hhead _ _ _].
    rewrite <- Hmb. apply synced_keeps; [exact Hok'|]. unfold synced. by rewrite Hhead, Hid.
  - right. by rewrite Maintain_stalled by apply Hst.
Qed.

Lemma Maintain_grown env s : rtc grown (repository (gs s)) (repository (gs (Maintain env s).2)).
Proof using GL. apply Maintain_kept. Qed.

(** ** Restarting *)

(** [s'] is what opening the archive on this repository gives, on a machine where
    that works, with the settings and the receipt it finds. *)
Definition opens_on (r : repo) (s' : Store) : Prop :=
  exists (IN : Installation) (MF : MailFiles) (SD : StateDirectory) root name max receipt_file u write,
    healthy root name /\ receipt_found receipt_file u /\ 0 <= max < 2 ^ 63 /\
    match u with Some usage => 0 <= ChargedBytes usage | None => True end /\
    NewWithOptions root max r receipt_file write = Ok s'.

(** It holds what Git held. *)
Lemma reopened_runs s live last s' : keeps s live last -> opens_on (repository (gs s)) s' ->
  runs s' live /\ LastID (mb s') = last /\ bud_ok (bud s') /\ repository (gs s') = repository (gs s).
Proof using GL.
  intros (state & Hr & <-)%keeps_at_rest (IN & MF & SD & root & name & max & file & u & write & Hh & Hu & Hmax & Hc & E).
  destruct (NewWithOptions_ok (objects_of := objects_of) root name max _ live state file u write Hh Hr Hu)
    as (s1 & E1 & Hok & Hl & Hf & Hb & Hrepo & Hs).
  rewrite E in E1. apply Ok_inj in E1 as ->. split; [done|]. split; [done|]. split; [|done].
  rewrite Hb. split_and!; cbn [maxDailyBytes reservedBytes receipt]; [| | done | done];
    destruct (Z.eqb_spec max 0); unfold DefaultMaxDailyBytes; lia.
Qed.
End Holding.
