(* ===== verification/ToyGit.v ===== *)
(** * A concrete Git: three commits

    A repository that starts empty, receives one message and deletes it, with
    every object, answer and transaction computed.  It keeps Git's promises, so
    the theorems about the mailbox apply to it. *)

From S2P Require Import Prelude GoStrings IdPath Directories Numbering Cache Tree CatFile Listing Contents State Quota Import Mailbox MailboxSpec.

(** ** The history *)

Definition id_of (c : ascii) : str := replicate 40 c.

Definition commit_id (k : nat) : str :=
  id_of (match k with O => "a"%char | S O => "b"%char | _ => "c"%char end).

Definition toy_ref : str := "refs/heads/main".

Definition toy_now : Z := 1704067200.

(** The message, as the SMTP server hands it over. *)
Definition mail : str := mjoin ((fun l => l ++ [CR; LF]) <$>
  ["Return-Path: <>" : str; "Delivered-To: a@example.net" : str;
   "Received: from client.example.org ([192.0.2.1]) by mx.example.net with SMTP; Mon, 01 Jan 2024 00:00:00 +0000" : str;
   ".hi" : str]).

Definition mail_size : Z := 161.

Definition toy_path : str := "1/001-s161.eml".

Definition state_file (state : mailboxState) : str := Marshal state ++ [LF].

Definition default_state (r : result mailboxState) : mailboxState :=
  match r with Ok state => state | Err _ => emptyMailboxState end.

(** The states the store commits. *)
Definition state0 : mailboxState := {|
  Version := 2; LastID := 0; TotalOctets := 0; Directories := ∅; DailyReceipt := None;
  ms_index := match buildDirectoryIndex ∅ 0 with Ok index => Some index | Err _ => None end |}.

Definition state1 : mailboxState :=
  match next_state mail_size state0 with Ok (_, state) => state | Err _ => state0 end.

Definition toy_message : Message := {| ID := 1; Size := mail_size; Path := toy_path |}.

Definition state2 : mailboxState :=
  match deleted_state [toy_message] state1 with Ok state => state | Err _ => state1 end.

Definition files0 : gmap str str := {[ mailboxStateName := state_file state0 ]}.
Definition files1 : gmap str str := {[ mailboxStateName := state_file state1; toy_path := mail ]}.
Definition files2 : gmap str str := {[ mailboxStateName := state_file state2 ]}.

Definition files_at (k : nat) : gmap str str :=
  match k with O => files0 | S O => files1 | _ => files2 end.

(** ** Objects *)

Definition blob (c : ascii) (content : str) : gitObject := {| o_oid := id_of c; o_kind := "blob"; o_content := content |}.

Definition mail_entry : rawEntry :=
  {| raw_mode := "100644"; raw_name := "001-s161.eml"; raw_oid := replicate 20 "3"%char |}.

Definition mail_tree : gitObject := {| o_oid := id_of "4"%char; o_kind := "tree"; o_content := encode_tree [mail_entry] |}.

Definition object_table : list (str * gitObject) :=
  [ (commit_id 0 ++ ":" ++ mailboxStateName, blob "0"%char (state_file state0));
    (id_of "0"%char, blob "0"%char (state_file state0));
    (commit_id 1 ++ ":" ++ mailboxStateName, blob "1"%char (state_file state1));
    (id_of "1"%char, blob "1"%char (state_file state1));
    (commit_id 1 ++ ":1", mail_tree);
    (id_of "4"%char, mail_tree);
    (commit_id 1 ++ ":" ++ toy_path, blob "3"%char mail);
    (id_of "3"%char, blob "3"%char mail);
    (commit_id 2 ++ ":" ++ mailboxStateName, blob "2"%char (state_file state2));
    (id_of "2"%char, blob "2"%char (state_file state2)) ].

Definition known (k : nat) : nat := match k with O => 2%nat | S O => 8%nat | _ => 10%nat end.

Definition toy_objects (k : nat) (spec : str) : option gitObject := assoc spec (take (known k) object_table).

Definition toy_files (k : nat) (commit : str) : option (gmap str str) :=
  assoc commit (take (S k) [(commit_id 0, files0); (commit_id 1, files1); (commit_id 2, files2)]).

(** ** The processes *)

(** What a [git cat-file] child that knows [objects] replies. *)
Definition reply_to (objects : str -> option gitObject) (request : str) : str :=
  match after "info " request, after "contents " request with
  | Some spec, _ => answer objects "info" (TrimSuffix spec [LF])
  | _, Some spec => answer objects "contents" (TrimSuffix spec [LF])
  | None, None => []
  end.

Definition toy_reply (k : nat) : str -> str := reply_to (toy_objects k).

Definition toy_cat (k : nat) : CatFile := {|
  start_error := None; write_error := None; interruption _ _ := None; reply := toy_reply k; chunk _ := 40%nat |}.

#[export] Instance toy_order : MapOrder.
Proof. refine {| map_order := map_to_list |}. done. Defined.

(** The transaction each commit comes from, at mark 1 of a fresh importer or 2. *)
Definition toy_tx (k : nat) (now : str -> result str) : result str := now (commit_id k).

#[export] Instance graphic_table : GraphicTable := {| is_graphic _ := true |}.

Definition delete_title1 : str := delete_title 1 "alice".

Section Transactions.
(** The class without the answers, to write transactions with. *)
Let writer : Git := {|
  repo := nat; rev_parse _ := ([], None); import_start_error := None; mark_line _ _ := Err (New "");
  checkpoint_line _ _ _ := Err (New ""); published k _ := k; maintained k _ := k; import_interruption _ := None;
  import_close_error := None; legacy_file _ := Err (Sentinel OsErrNotExist); Unix_now := toy_now |}.

Definition transaction_at (k : nat) : result str :=
  match k with
  | O => @import_transaction writer 1 "mail: receive 1" toy_ref (commit_id 0)
           (map_order (<[mailboxStateName := Some (state_file state1)]> {[ toy_path := Some mail ]})) []
  | S O => @import_transaction writer 2 delete_title1 toy_ref (commit_id 1)
           (map_order (<[mailboxStateName := Some (state_file state2)]> ∅)) [toy_path]
  | _ => Err (New "no more")
  end.
End Transactions.

Definition expected (k : nat) (tx : str) : bool := bool_decide (transaction_at k = Ok tx).

#[export] Instance toy_git : Git := {|
  repo := nat;
  rev_parse k := (commit_id k ++ [LF], None);
  import_start_error := None;
  mark_line k tx := if expected k tx then Ok (commit_id (S k)) else Err (New "unexpected transaction");
  checkpoint_line k tx checkpoint := Ok ("progress " ++ commit_id (S k));
  published k tx := if expected k tx then S k else k;
  maintained k _ := k;
  import_interruption _ := None;
  import_close_error := None;
  legacy_file _ := Err (Sentinel OsErrNotExist);
  Unix_now := toy_now;
|}.

#[export] Instance toy_reader : GitReader := {| cat := toy_cat |}.

#[export] Instance toy_store_files : StoreFiles := {|
  read_staged path := if decide (path = "staged") then Ok mail else Err (Sentinel OsErrNotExist);
  write_receipt _ := None |}.

(** ** The promises hold *)

Lemma toy_objects_elem k spec o : toy_objects k spec = Some o -> (spec, o) ∈ object_table.
Proof.
  unfold toy_objects. intros Ho%assoc_elem. rewrite <- (take_drop (known k) object_table). apply elem_of_app. by left.
Qed.

Definition object_ok (e : str * gitObject) : bool :=
  validObjectID (o_oid e.2) && bool_decide (word (o_oid e.2)) && bool_decide (word (o_kind e.2))
  && bool_decide (CR ∉ o_oid e.2) && bool_decide (LF ∉ o_oid e.2) && bool_decide (LF ∉ o_kind e.2)
  && (Z.of_nat (length (o_content e.2)) <? 2 ^ 63).

Lemma objects_all_ok : forallb object_ok object_table = true.
Proof. by vm_compute. Qed.

(** Equal object IDs in the table are equal objects, and each object is found
    under its ID as soon as it is known. *)
#[export] Instance gitObject_eq_dec : EqDecision gitObject.
Proof. solve_decision. Defined.

Lemma content_addressed :
  forallb (fun e => forallb (fun e' => implb (bool_decide (o_oid e.2 = o_oid e'.2)) (bool_decide (e.2 = e'.2))) object_table)
    object_table = true.
Proof. by vm_compute. Qed.

Lemma found_by_id :
  forallb (fun k => forallb (fun e => bool_decide (toy_objects k (o_oid e.2) = Some e.2)) (take (known k) object_table))
    [0%nat; 1%nat; 2%nat] = true.
Proof. by vm_compute. Qed.

Lemma toy_objects_large k spec : toy_objects (S (S k)) spec = toy_objects 2 spec.
Proof. done. Qed.

Lemma toy_by_id k spec o : toy_objects k spec = Some o -> toy_objects k (o_oid o) = Some o.
Proof.
  assert (forall j, (j < 3)%nat -> toy_objects j spec = Some o -> toy_objects j (o_oid o) = Some o) as Hj.
  { intros j Hj Ho%assoc_elem. pose proof found_by_id as HF. rewrite forallb_Forall, Forall_forall in HF.
    assert (j ∈ [0%nat; 1%nat; 2%nat]) as Hin by (apply list_elem_of_In; cbn; lia).
    specialize (HF j Hin). rewrite forallb_Forall, Forall_forall in HF. specialize (HF _ Ho).
    by apply bool_decide_eq_true in HF. }
  destruct k as [|[|[|k]]]; try (apply Hj; lia). rewrite !(toy_objects_large (S k)). apply Hj. lia.
Qed.

Lemma reply_to_answers objects (command spec : str) : command = "info" \/ command = "contents" ->
  reply_to objects (command ++ " " ++ spec ++ [LF]) = answer objects command spec.
Proof.
  unfold reply_to. intros [->| ->].
  - replace ("info" ++ " " ++ spec ++ [LF]) with ("info " ++ spec ++ [LF]) by done. by rewrite after_app, TrimSuffix_app.
  - replace ("contents" ++ " " ++ spec ++ [LF]) with ("contents " ++ spec ++ [LF]) by done.
    rewrite after_app, TrimSuffix_app. by rewrite (after_other "info ").
Qed.

#[export] Instance toy_git_objects k : @GitObjects (toy_cat k) (toy_objects k).
Proof.
  split; try done.
  - intros command spec Hcmd _. by apply reply_to_answers.
  - intros spec o Ho%toy_objects_elem. pose proof objects_all_ok as HF. rewrite forallb_Forall, Forall_forall in HF.
    specialize (HF _ Ho). unfold object_ok in HF. rewrite !andb_true_iff, !bool_decide_eq_true, Z.ltb_lt in HF.
    unfold query_spec. tauto.
  - intros s s' o o' H1%toy_objects_elem H2%toy_objects_elem E. pose proof content_addressed as HF.
    rewrite forallb_Forall, Forall_forall in HF. specialize (HF _ H1). rewrite forallb_Forall, Forall_forall in HF.
    specialize (HF _ H2). rewrite implb_true_iff, !bool_decide_eq_true in HF. by apply HF.
  - intros spec o. apply toy_by_id.
Qed.

Lemma assoc_take {K V} `{EqDecision K} (key : K) (v : V) (l : list (K * V)) n m :
  (n <= m)%nat -> assoc key (take n l) = Some v -> assoc key (take m l) = Some v.
Proof.
  revert n m. induction l as [|[k' v'] l IH]; intros [|n] [|m] Hnm; try done; [lia|].
  cbn. case_decide; [done|]. apply IH. lia.
Qed.

Lemma known_mono k : (known k <= known (S k))%nat.
Proof. destruct k as [|[|k]]; cbn; lia. Qed.

Lemma toy_files_elem k commit files : toy_files k commit = Some files ->
  exists j, (j <= k)%nat /\ (j < 3)%nat /\ commit = commit_id j /\ files = files_at j.
Proof.
  unfold toy_files. intros [i [Hi Hlt]%lookup_take_Some]%assoc_elem%list_elem_of_lookup. exists i.
  destruct i as [|[|[|i]]]; [| | |done]; cbn [lookup list_lookup] in Hi; injection Hi as <- <-; split_and!; try done; lia.
Qed.

Lemma commit_id_inj j k : (j < 3)%nat -> (k < 3)%nat -> commit_id j = commit_id k -> j = k.
Proof.
  intros Hj Hk E. apply (f_equal (fun s => code (List.hd NUL s))) in E. revert E.
  destruct j as [|[|[|j]]], k as [|[|[|k]]]; try lia; intros E; done || (vm_compute in E; discriminate E).
Qed.

(** The blobs of every known commit are its files, and the other way round. *)
Definition blob_found (k j : nat) (e : str * str) : bool :=
  match toy_objects k (commit_id j ++ ":" ++ e.1) with
  | Some o => bool_decide (o_kind o = "blob") && bool_decide (o_content o = e.2)
  | None => false
  end.

Lemma blobs_found :
  forallb (fun k => forallb (fun j => implb (j <=? k)%nat (forallb (blob_found k j) (map_to_list (files_at j))))
    [0%nat; 1%nat; 2%nat]) [0%nat; 1%nat; 2%nat] = true.
Proof. by vm_compute. Qed.

Definition blob_known (j : nat) (e : str * gitObject) : bool :=
  match after (commit_id j ++ ":") e.1 with
  | Some path => implb (bool_decide (o_kind e.2 = "blob")) (bool_decide (files_at j !! path = Some (o_content e.2)))
  | None => true
  end.

Lemma blobs_known : forallb (fun j => forallb (blob_known j) object_table) [0%nat; 1%nat; 2%nat] = true.
Proof. by vm_compute. Qed.

(** The only tree is the directory of the message. *)
Definition tree_known (j : nat) (e : str * gitObject) : bool :=
  match after (commit_id j ++ ":") e.1 with
  | Some path => implb (bool_decide (o_kind e.2 = "tree")) (bool_decide (path = "1") && bool_decide (j = 1%nat))
  | None => true
  end.

Lemma trees_known : forallb (fun j => forallb (tree_known j) object_table) [0%nat; 1%nat; 2%nat] = true.
Proof. by vm_compute. Qed.

Lemma below3 j : (j < 3)%nat -> j ∈ [0%nat; 1%nat; 2%nat].
Proof. intros Hj. apply list_elem_of_In. cbn. lia. Qed.

Lemma forallb_elem {A} (f : A -> bool) l x : forallb f l = true -> x ∈ l -> f x = true.
Proof. rewrite forallb_Forall, Forall_forall. auto. Qed.

Lemma one_slash (dir name a b : str) : "/"%char ∉ a -> "/"%char ∉ b ->
  dir ++ "/" ++ name = a ++ "/" ++ b -> dir = a /\ name = b.
Proof.
  intros Ha Hb E. apply (f_equal (fun s => Split s "/"%char)) in E.
  change (dir ++ "/" ++ name) with (dir ++ "/"%char :: name) in E.
  change (a ++ "/" ++ b) with (a ++ "/"%char :: b) in E.
  rewrite Split_app, Split_cons, (Split_notin b) in E by done.
  pose proof (Join_Split dir "/"%char) as H1. pose proof (Join_Split name "/"%char) as H2.
  pose proof (Split_nonempty dir "/"%char). pose proof (Split_nonempty name "/"%char).
  destruct (Split dir "/"%char) as [|x [|y l]], (Split name "/"%char) as [|z [|u l']]; try done; cbn in E.
  - injection E as -> ->. cbn in H1, H2. done.
  - destruct l; discriminate E.
  - destruct l; discriminate E.
Qed.

Lemma no_slash (dir name a : str) : "/"%char ∉ a -> dir ++ "/" ++ name <> a.
Proof. intros Ha <-. apply Ha. rewrite !elem_of_app. right. left. by left. Qed.

Lemma toy_tree k dir name : (1 <= k)%nat -> files1 !! (dir ++ "/" ++ name) <> None ->
  dir = "1" /\ name = "001-s161.eml" /\ toy_objects k (commit_id 1 ++ ":" ++ dir) = Some mail_tree.
Proof.
  intros Hk Hf. assert (dir ++ "/" ++ name = toy_path) as E.
  { unfold files1 in Hf. destruct (decide (mailboxStateName = dir ++ "/" ++ name)) as [E|E].
    - exfalso. symmetry in E. revert E. apply no_slash. apply (bool_decide_unpack _). by vm_compute.
    - rewrite lookup_insert_ne in Hf by done. symmetry. apply (lookup_singleton_is_Some (M := gmap str) toy_path _ mail).
      destruct ({[toy_path := mail]} !! _); [by eexists | done]. }
  change toy_path with (("1" : str) ++ "/" ++ "001-s161.eml") in E.
  apply one_slash in E as [-> ->]; [|by apply (bool_decide_unpack _); vm_compute..].
  split_and!; [done | done|]. destruct k as [|[|k]]; [lia | by vm_compute | by vm_compute].
Qed.

Lemma toy_holds k commit files : toy_files k commit = Some files -> commit_holds (toy_objects k) commit files.
Proof.
  intros (j & Hjk & Hj & -> & ->)%toy_files_elem. split.
  - intros path content Hp%elem_of_map_to_list.
    assert (exists k', (j <= k')%nat /\ (k' < 3)%nat /\ toy_objects k = toy_objects k') as (k' & H1 & H2 & ->).
    { destruct k as [|[|k]]; [exists 0%nat | exists 1%nat | exists 2%nat]; (split; [lia|]; split; [lia | reflexivity]). }
    pose proof (forallb_elem _ _ k' blobs_found (below3 k' H2)) as HF.
    apply (forallb_elem _ _ j) in HF; [|by apply below3]. cbv beta in HF. rewrite (proj2 (Nat.leb_le j k') H1) in HF. cbn [implb] in HF.
    apply (forallb_elem _ _ _) with (2 := Hp) in HF. unfold blob_found in HF. cbn [fst snd] in HF.
    destruct (toy_objects k' _) as [o|]; [|done]. apply andb_true_iff in HF as [Hk Hc].
    apply bool_decide_eq_true in Hk, Hc. by exists o.
  - intros dir name Hf. destruct j as [|[|j]]; cbn [files_at] in Hf.
    + exfalso. unfold files0 in Hf. rewrite lookup_singleton_ne in Hf; [done|]. apply not_eq_sym, no_slash.
      apply (bool_decide_unpack _). by vm_compute.
    + destruct (toy_tree k dir name Hjk Hf) as (-> & -> & Ho). exists mail_tree, [mail_entry].
      split; [exact Ho|]. split; [done|]. split; [done|]. split.
      { constructor; [|constructor]. split; [by vm_compute|]. apply (bool_decide_unpack _). by vm_compute. }
      split; [apply NoDup_singleton|]. split.
      * intros e ->%list_elem_of_singleton. left. split; [done | exact Hf].
      * intros name Hn Hf'. destruct (toy_tree k _ _ Hjk Hf') as (_ & -> & _). by apply list_elem_of_singleton.
    + exfalso. unfold files2 in Hf. rewrite lookup_singleton_ne in Hf; [done|]. apply not_eq_sym, no_slash.
      apply (bool_decide_unpack _). by vm_compute.
  - intros path o Ho%toy_objects_elem Hkind.
    pose proof (forallb_elem _ _ j blobs_known (below3 j Hj)) as HF. cbv beta in HF.
    apply (forallb_elem _ _ _) with (2 := Ho) in HF. unfold blob_known in HF. cbn [fst snd] in HF.
    rewrite app_assoc, after_app in HF. rewrite implb_true_iff, !bool_decide_eq_true in HF. by apply HF.
  - intros id o _ Ho%toy_objects_elem Hkind.
    pose proof (forallb_elem _ _ j trees_known (below3 j Hj)) as HF. cbv beta in HF.
    apply (forallb_elem _ _ _) with (2 := Ho) in HF. unfold tree_known in HF. cbn [fst snd] in HF.
    rewrite app_assoc, after_app in HF. rewrite implb_true_iff, andb_true_iff, !bool_decide_eq_true in HF.
    destruct (HF Hkind) as [-> ->]. exists "001-s161.eml". by vm_compute.
Qed.

(** Each transaction, parsed by Git's grammar, gives the next commit's files. *)
Definition parses_to (k : nat) : bool :=
  match transaction_at k with
  | Ok tx =>
      match fi_parse tx with
      | Some c => bool_decide (fc_from c = Some (commit_id k))
                  && bool_decide (apply_changes (files_at k) (fc_changes c) = files_at (S k))
      | None => false
      end
  | Err _ => true
  end.

Lemma transactions_parse : forallb parses_to [0%nat; 1%nat] = true.
Proof. by vm_compute. Qed.

#[export] Instance toy_laws : GitLaws toy_objects toy_files.
Proof.
  split.
  - apply toy_git_objects.
  - apply toy_holds.
  - intros k tx spec o. cbn [published toy_git]. destruct (expected k tx); [|done]. apply assoc_take, known_mono.
  - intros k tx commit files. cbn [published toy_git]. destruct (expected k tx); [|done]. apply assoc_take. lia.
  - intros k tx c next parent files Hparse Hmark _ _ Hfrom Hfiles. cbn [published mark_line toy_git] in *.
    unfold expected in *. case_bool_decide as Htx; [|done]. apply Ok_inj in Hmark as <-.
    assert (k < 2)%nat as Hk by (destruct k as [|[|k]]; [lia | lia | done]).
    assert (parses_to k = true) as Hp.
    { apply (forallb_elem _ _ k transactions_parse). apply list_elem_of_In. cbn. lia. }
    unfold parses_to in Hp. rewrite Htx, Hparse, Hfrom in Hp.
    apply andb_true_iff in Hp as [[= ->]%bool_decide_eq_true Hp%bool_decide_eq_true].
    assert (files = files_at k) as ->.
    { apply toy_files_elem in Hfiles as (j & _ & Hj & E & ->). rewrite (commit_id_inj k j); [reflexivity | clear -Hk; lia | clear -Hj; lia | exact E]. }
    rewrite Hp. destruct k as [|[|k]]; [reflexivity | reflexivity | clear -Hk; lia].
  - by intros k args spec o _.
  - by intros k args commit files _.
  - done.
Qed.
