(* ===== verification/MailboxTheorems.v ===== *)
(** * What the mailbox guarantees

    The theorems of the archive's readers and writers, against the abstract map
    of live messages, each applied to the concrete repository of [ToyGit]. *)

From S2P Require Import Prelude GoStrings IdPath Directories Numbering Cache Tree CatFile Listing Contents State Quota Import Mailbox MailboxSpec ToyGit.

(** ** Histories of a store *)

Section Histories.
Context `{GitI : Git, MO : MapOrder, GR : !GitReader, SF : StoreFiles, GT : GraphicTable}.

(** What connections do to a store, whatever comes of it: a publication, the
    deletion of resolved messages, reading. *)
Inductive store_step (s : Store) : Store -> Prop :=
  | step_publish now day staged : store_step s (Publish now day staged s).2
  | step_delete messages username : store_step s (deleteLocked messages username s).2
  | step_read r : store_step s (set_rd r s).

Lemma commitChanges_grown title state changes removals g :
  grown (repository g) (repository (commitChanges title state changes removals g).2).
Proof.
  pose proof (commitChanges_cases title state changes removals g) as Hc.
  destruct (commitChanges _ _ _ _ g) as [[u|e] g']; [|by apply Hc].
  destruct Hc as [_ (tx & next & Hi)]. right. left. exists tx. apply Hi.
Qed.

Lemma Publish_grown now day staged s : grown (repository (gs s)) (repository (gs (Publish now day staged s).2)).
Proof.
  unfold Publish. destruct staged as [m|]; [|by left]. destruct (bool_decide _); [by left|].
  destruct (failure (gs s)); [by left|]. destruct (sm_done m); [by left|].
  destruct (negb _); [by left|]. destruct (next_state _ _) as [[path state]|e]; [|by left].
  destruct (read_staged _) as [content|e]; [|by left].
  destruct (publish_charge _ _ _ _) as [[[e|] m'] b]; [by left|].
  pose proof (commitChanges_grown ("mail: receive " ++ FormatUint (LastID state) 10) state {[path := Some content]} [] (gs s)) as Hg.
  by destruct (commitChanges _ _ _ _ (gs s)) as [[u|e] g].
Qed.

Lemma deleteLocked_grown messages username s : grown (repository (gs s)) (repository (gs (deleteLocked messages username s).2)).
Proof.
  unfold deleteLocked. destruct (failure (gs s)); [by left|]. destruct (bool_decide _); [by left|].
  destruct (deleted_state _ _) as [state|e]; [|by left].
  pose proof (commitChanges_grown (delete_title (Z.of_nat (length messages)) username) state ∅ (Path <$> messages) (gs s)) as Hg.
  by destruct (commitChanges _ _ _ _ (gs s)) as [[u|e] g].
Qed.

Lemma store_step_grown s s' : store_step s s' -> grown (repository (gs s)) (repository (gs s')).
Proof. intros [day staged|messages username|r]; [apply Publish_grown | apply deleteLocked_grown | by left]. Qed.
End Histories.

(** ** The concrete stores *)

Definition idle_reader : readerStore := {|
  rs_read := {| process := None; readClosed := false; leased := false; readIdleGeneration := 0; readIdleTimer := None |};
  rs_cache := newDirectoryCache directoryCacheCapacity |}.

Definition toy_store : Store := {|
  mb := state0;
  gs := {| headID := commit_id 0; failure := None; refName := toy_ref;
           import := {| importer := None; importError := None; closed := false; idleTimer := None; idleGeneration := 0 |};
           commitsSinceMaintenance := 0; maintenanceRequests := false; lastMaintenanceHead := [];
           repository := 0%nat : repo |};
  bud := {| maxDailyBytes := DefaultMaxDailyBytes; receipt := None; reservedBytes := 4096 |};
  rd := idle_reader |}.

Definition toy_staged : StagedMessage := {| sm_path := "staged"; sm_size := mail_size; sm_reserved := 4096; sm_done := false |}.

Definition toy_store1 : Store := (Publish "2024-01-01" "2024-01-01" (Some toy_staged) toy_store).2.

Definition toy_live : mailbox := {[ 1 := mail ]}.

Lemma idle_reader_ok (objects : str -> option gitObject) : reader_ok objects idle_reader.
Proof.
  split; [by split_and!; auto | apply cache_ok_new |]. by constructor.
Qed.

Abbreviation toy_ok := (store_ok (objects_of := toy_objects) (files_of := toy_files)).

Lemma toy_store_ok : toy_ok toy_store ∅.
Proof.
  destruct (build_ok ∅ [] 0 counts_match_empty) as (index & Hb & Hm); [constructor | constructor | unfold MaxUint64; lia |].
  split.
  - intros id content Hl. by rewrite lookup_empty in Hl.
  - cbn. unfold MaxUint64. lia.
  - by vm_compute.
  - by vm_compute.
  - apply counts_match_empty.
  - exists index. split; [|exact Hm]. cbn [ms_index mb toy_store state0]. by rewrite Hb.
  - by vm_compute.
  - exists files0. split; [reflexivity|]. split; [intros id content Hl; by rewrite lookup_empty in Hl|].
    intros path content Hp. unfold files0 in Hp. apply lookup_singleton_Some in Hp as [<- _]. left. apply list_elem_of_In. by left.
  - apply (bool_decide_unpack _). by vm_compute.
  - apply idle_reader_ok.
  - reflexivity.
  - reflexivity.
  - exists files0. split; [reflexivity|]. apply lookup_singleton_eq.
Qed.

Lemma toy_published : (Publish "2024-01-01" "2024-01-01" (Some toy_staged) toy_store).1.1 = Ok (1, toy_path).
Proof. by vm_compute. Qed.

Lemma toy_store1_ok : toy_ok toy_store1 toy_live.
Proof.
  pose proof (Publish_ok "2024-01-01" "2024-01-01" toy_staged toy_store ∅ mail toy_store_ok eq_refl eq_refl) as H.
  assert (toy_ok toy_store1 (<[1 := mail]> ∅)) as H1.
  { unfold toy_store1. pose proof toy_published as Hp.
    destruct (Publish _ _ _) as [[[[id path]|e] m] s]; [|discriminate Hp]. cbn [fst] in Hp. injection Hp as -> ->.
    apply H. by vm_compute. }
  by rewrite insert_empty in H1.
Qed.

(** ** Properties: reading *)

Section Reading.
Context `{GO : GitObjects objects}.

(** C20: POP3 numbers are positions in ID order.  [Lookup] of a number from 1 to
    the number of messages returns the message at that place in the order of
    archive IDs, with its true size and path; any other number is
    [ErrNoSuchMessage]; the pipe to Git is left at a request boundary. *)
Theorem lookup_finds_position (snapshot : Snapshot) (live : mailbox) (number : Z) (st : readerStore) :
  snapshot_shows objects snapshot live -> reader_ok objects st -> 0 <= number ->
  exists st', reader_ok objects st' /\
    Lookup snapshot number st =
      (if 1 <=? number then match numbered live !! Z.to_nat (number - 1) with
         | Some message => Ok message
         | None => Err (Sentinel ErrNoSuchMessage) end
       else Err (Sentinel ErrNoSuchMessage), st').
Proof.
  intros Hshow Hst Hn. destruct (decide (1 <= number <= Z.of_nat (size live))) as [Hr|Hr].
  - destruct (Lookup_in_range snapshot live Hshow number st Hst Hr) as (m & st' & -> & Hst' & ->).
    exists st'. split; [done|]. by rewrite (proj2 (Z.leb_le 1 number)) by lia.
  - exists st. split; [done|]. rewrite (Lookup_out_of_range snapshot live Hshow number st Hn Hr).
    destruct (Z.leb_spec 1 number); [|done]. rewrite lookup_ge_None_2; [done|].
    unfold numbered. rewrite length_fmap, (Permutation_length (sort_ids_perm _)), size_live_ids. lia.
Qed.

(** C21: [ListAt] shows every message once, in order.  The visitor is called
    with the numbers 1, 2, ... and each live message's ID and size in ID
    order, until it returns an error, which [ListAt] returns. *)
Theorem listing_enumerates (snapshot : Snapshot) (live : mailbox) visit (st : readerStore) :
  snapshot_shows objects snapshot live -> reader_ok objects st ->
  exists st', reader_ok objects st' /\
    ListAt snapshot visit st = (visit_spec visit (enumerate 0 (numbered live)), st').
Proof.
  intros Hshow Hst. destruct (ListAt_spec snapshot live Hshow visit st Hst) as (st' & H1 & H2). by exists st'.
Qed.

(** C22: Opening a message yields its stored bytes.  [OpenMessage] of a live
    message, read to the end (in whatever pieces the pipe returns), gives
    exactly the archived content, and closing leaves the pipe to Git at the
    next request; a message that is not in the snapshot is refused. *)
Theorem opening_yields_content (snapshot : Snapshot) (live : mailbox) (message : Message) (st : readerStore) (fuel : nat) :
  snapshot_shows objects snapshot live -> reader_ok objects st ->
  (forall content, live !! ID message = Some content -> (length content + 2 <= fuel)%nat) ->
  match OpenMessage snapshot message st with
  | (Ok reader, st') =>
      exists content, live !! ID message = Some content /\ message = message_of live (ID message) /\
        exists reader' read', ReadAll fuel [] reader (rs_read st') = (Ok content, reader', read') /\
        exists reader'' read'', blobReader_Close reader' read' = (None, reader'', read'') /\
          reader_ok objects {| rs_read := read''; rs_cache := rs_cache st' |}
  | (Err _, st') => reader_ok objects st' /\ (live !! ID message = None \/ message <> message_of live (ID message))
  end.
Proof.
  intros Hshow Hst Hf. destruct (decide (message = message_of live (ID message))) as [Hm|Hm].
  2: { destruct (OpenMessage_other snapshot live Hshow message st Hst) as (e & st' & -> & Hst').
    - intros id Hid ->. apply Hm. by rewrite message_of_ID.
    - split; [done | by right]. }
  destruct (live !! ID message) as [content|] eqn:El.
  - destruct (OpenMessage_live snapshot live Hshow (ID message) content st Hst El) as (reader & st' & Ho & Hrd & Hca).
    rewrite <- Hm in Ho. rewrite Ho. exists content. split; [done|]. split; [done|].
    destruct (ReadAll_ok content fuel 0 [] reader _ Hrd) as (r1 & s1 & -> & Hr1 & _).
    { specialize (Hf content eq_refl). lia. }
    exists r1, s1. split; [done|]. destruct (Close_ok _ _ _ _ Hr1) as (r2 & s2 & -> & Hr2 & _).
    exists r2, s2. split; [done|]. destruct Hst as [_ H2 H3]. split; cbn [rs_read rs_cache]; rewrite ?Hca; done.
  - destruct (OpenMessage_other snapshot live Hshow message st Hst) as (e & st' & -> & Hst').
    + intros id [c Hid]%elem_of_live_ids E. rewrite E, message_of_ID in El. congruence.
    + split; [done | by left].
Qed.

(** A read of a Git object is framed exactly.  Asking for an object of the
    right kind and reading it to the end returns its whole content, whatever
    pieces the pipe hands out, and after [Close] the next answer starts where
    it should, even if nothing or only a part was read; an object that is
    missing or of another kind is an error that leaves no unread bytes. *)
Theorem object_reads_are_framed (st : readState) (spec kind : str) (fuel : nat) :
  ready st -> query_spec spec ->
  (forall o, objects spec = Some o -> (length (o_content o) + 2 <= fuel)%nat) ->
  match readObject spec kind st with
  | (Ok reader, st') => exists o, objects spec = Some o /\ o_kind o = kind /\
      br_header reader = {| h_oid := o_oid o; h_kind := kind; h_size := Z.of_nat (length (o_content o)) |} /\
      (exists r1 s1, ReadAll fuel [] reader st' = (Ok (o_content o), r1, s1) /\
         exists r2 s2, blobReader_Close r1 s1 = (None, r2, s2) /\ ready s2) /\
      (forall len avail, exists got e r1 s1, blobReader_Read len (S avail) reader st' = (got, e, r1, s1) /\
         got `prefix_of` o_content o /\ exists r2 s2, blobReader_Close r1 s1 = (None, r2, s2) /\ ready s2)
  | (Err e, st') => ready st' /\
      match objects spec with None => e = Sentinel ErrNoSuchMessage | Some o => o_kind o <> kind end
  end.
Proof.
  intros Hr Hs Hf.
  assert ((exists o, objects spec = Some o /\ o_kind o = kind) \/ (forall o, objects spec = Some o -> o_kind o <> kind))
    as [(o & Ho & Hk)|Hk].
  { destruct (objects spec) as [o|]; [|by right]. destruct (decide (o_kind o = kind)); [left; by exists o|].
    right. by intros o' [= <-]. }
  - destruct (readObject_ok st spec kind o Hr Hs Ho Hk) as (reader & st' & -> & Hrd & Hh).
    exists o. rewrite Hh, Hk. split_and!; [done | done | done | |].
    + destruct (ReadAll_ok (o_content o) fuel 0 [] reader st' Hrd) as (r1 & s1 & -> & Hr1 & _).
      { specialize (Hf o Ho). lia. }
      destruct (Close_ok _ _ _ _ Hr1) as (r2 & s2 & Hc & Hr2 & _). exists r1, s1. split; [done|]. by exists r2, s2.
    + intros len avail. destruct (Read_ok (o_content o) 0 reader st' len avail Hrd) as (n & r1 & s1 & -> & Hr1 & _).
      destruct (Close_ok _ _ _ _ Hr1) as (r2 & s2 & Hc & Hr2 & _). do 4 eexists. split; [done|].
      split; [|by exists r2, s2]. rewrite drop_0. apply prefix_take.
  - destruct (readObject_fail st spec kind Hr Hs Hk) as (e & st' & -> & Hr' & He).
    split; [done|]. destruct (objects spec) as [o|]; [by apply Hk | by apply He].
Qed.
End Reading.

(** ** Properties: writing *)

Section Writing.
Context `{GitI : Git, MO : MapOrder, GR : !GitReader, SF : StoreFiles, GT : GraphicTable}.
Context {objects_of : repo -> str -> option gitObject} {files_of : repo -> str -> option (gmap str str)}.
Context `{GL : !GitLaws objects_of files_of}.

(** C1: Publishing adds exactly one message.  On success the message has the
    next archive ID and the path that encodes its ID and size, and the store
    shows the old messages and this one, committed in Git; on failure the
    state is unchanged, and the store still shows the old messages unless
    Git's answer was lost after HEAD moved, in which case the store has failed
    and refuses every later write. *)
Theorem publish_adds_one_message now day m s live content :
  store_ok (objects_of := objects_of) (files_of := files_of) s live ->
  read_staged (sm_path m) = Ok content -> octets content = sm_size m -> octets content < 2 ^ 63 ->
  match Publish now day (Some m) s with
  | (Ok (id, path), _, s') =>
      failure (gs s) = None /\ id = LastID (mb s) + 1 /\ live !! id = None /\
      messageFromPath path = Ok {| ID := id; Size := octets content; Path := path |} /\
      store_ok (objects_of := objects_of) (files_of := files_of) s' (<[id := content]> live)
  | (Err _, _, s') =>
      mb s' = mb s /\
      (headID (gs s') = headID (gs s) \/ failure (gs s') = None ->
       store_ok (objects_of := objects_of) (files_of := files_of) s' live)
  end.
Proof.
  intros Hok Hr Hs Hlen. pose proof (Publish_ok now day m s live content Hok Hr Hs Hlen) as H.
  destruct (Publish now day (Some m) s) as [[[[id path]|e] m'] s'].
  - destruct H as (-> & -> & Hok' & _ & Hfail & _). pose proof (so_last _ _ Hok').
    split_and!; [done | done | by apply (live_next_fresh (objects_of := objects_of) (files_of := files_of)) | | done].
    destruct (so_live _ _ Hok' (LastID (mb s) + 1) content) as [Hid Hu]; [by rewrite lookup_insert_eq|].
    apply messageFromPath_mail; [unfold valid_id; lia | done].
  - destruct H as (H1 & _ & H2 & H3). split; [done|]. intros [?|?]; auto.
Qed.

(** C2: Deleting removes exactly the requested messages.  With other
    connections publishing and deleting at every attempt (up to the last),
    [DeleteAs] ends with the messages of the moment it commits, less those
    requested: IDs already deleted or named twice make no difference.  If it
    fails, nothing is removed (or the store has failed). *)
Theorem delete_removes_requested (Inv : Store -> mailbox -> Prop) (rival : nat -> Store -> Store) username ids fuel s live :
  (forall s live, Inv s live -> store_ok (objects_of := objects_of) (files_of := files_of) s live
     /\ Forall (fun id => 1 <= id <= LastID (mb s)) ids) ->
  octets username < 2 ^ 59 ->
  (forall s live r, Inv s live -> reader_ok (objects_of (repository (gs s))) r -> Inv (set_rd r s) live) ->
  (forall k s live, Inv s live -> exists live', Inv (rival k s) live' /\
     grown (repository (gs s)) (repository (gs (rival k s))) /\ LastID (mb s) <= LastID (mb (rival k s))) ->
  (forall k s, (fuel <= S k)%nat -> headID (gs (rival k s)) = headID (gs s)) -> (0 < fuel)%nat ->
  Inv s live ->
  exists s0 now, Inv s0 now /\
  match DeleteAs fuel rival ids username s with
  | (Ok _, s') => store_ok (objects_of := objects_of) (files_of := files_of) s' (without ids now)
                  /\ failure (gs s') = failure (gs s0)
  | (Err _, s') => mb s' = mb s0 /\ (headID (gs s') = headID (gs s0) \/ failure (gs s') = None ->
                   store_ok (objects_of := objects_of) (files_of := files_of) s' now)
  end.
Proof.
  intros H1 Hu H2 H3 Hq Hf Hinv. unfold DeleteAs.
  destruct (DeleteAs_loop_ok Inv rival username ids Hu H1 H2 (fun _ => False)) with (fuel := fuel) (k := 0%nat) (s := s) (live := live)
    as [(now & s0 & l & Hs0 & HN & Hin & Hw & ->)|(e & s' & _ & [])]; [done..| | done | | done |].
  - intros k s1 l1 Hs1. left. destruct (H3 k s1 l1 Hs1) as (l' & ? & Hg & ?). exists l'. split_and!; [done | by apply rtc_once | done].
  - intros j s' Hj. apply Hq. lia.
  - exists s0, now. split; [done|]. destruct (H1 s0 now Hs0) as [Hok _].
    pose proof (deleteLocked_ok s0 now l username Hok HN Hin Hu) as Hd.
    destruct (deleteLocked _ _ _) as [[u|e] s']; [rewrite Hw in Hd; by destruct Hd as (? & _ & ? & _)|].
    destruct Hd as (E & _ & Ha & Hb). split; [done|]. intros [?|?]; auto.
Qed.

(** A deletion that names an unallocated ID only reads. *)
Lemma DeleteAs_unknown fuel (rival : nat -> Store -> Store) ids id username s live :
  store_ok (objects_of := objects_of) (files_of := files_of) s live ->
  Forall (fun id => 0 <= id) ids -> id ∈ ids -> ~ (1 <= id <= LastID (mb s)) -> (0 < fuel)%nat ->
  exists r, DeleteAs fuel rival ids username s = (Err (Sentinel ErrNoSuchMessage), set_rd r s) /\
    reader_ok (objects_of (repository (gs s))) r.
Proof.
  intros Hok Hpos Hin Hbad Hf. destruct fuel as [|fuel]; [lia|]. unfold DeleteAs. cbn [DeleteAs_loop].
  pose proof (snapshotLocked_shows s live Hok) as Hshow.
  destruct (@resolve_ids_unknown (cat (repository (gs s))) (objects_of (repository (gs s))) _
    (snapshotLocked s) live Hshow (sort_ids ids) id) with (previous := 0) (st := rd s) as (r & -> & Hr).
  - by rewrite elem_of_sort_ids.
  - done.
  - apply Forall_forall. intros x Hx. rewrite elem_of_sort_ids in Hx. rewrite Forall_forall in Hpos. by apply Hpos.
  - apply Hok.
  - by exists r.
Qed.

(** An unallocated ID deletes nothing.  If any of the requested IDs is zero
    or was never allocated, [DeleteAs] is refused with [ErrNoSuchMessage] as a
    whole: no other requested message is removed, nothing is committed. *)
Theorem unallocated_id_deletes_nothing fuel (rival : nat -> Store -> Store) ids id username s live :
  store_ok (objects_of := objects_of) (files_of := files_of) s live ->
  Forall (fun id => 0 <= id) ids -> id ∈ ids -> ~ (1 <= id <= LastID (mb s)) -> (0 < fuel)%nat ->
  exists r, DeleteAs fuel rival ids username s = (Err (Sentinel ErrNoSuchMessage), set_rd r s) /\
    store_ok (objects_of := objects_of) (files_of := files_of) (set_rd r s) live.
Proof.
  intros Hok Hpos Hin Hbad Hf.
  destruct (DeleteAs_unknown fuel rival ids id username s live Hok Hpos Hin Hbad Hf) as (r & E & Hr).
  exists r. split; [done|]. by apply store_ok_set_rd.
Qed.

(** Later steps keep what a snapshot shows. *)
Lemma later_shows s s' live : store_ok (objects_of := objects_of) (files_of := files_of) s live -> rtc store_step s s' ->
  snapshot_shows (objects_of (repository (gs s'))) (snapshotLocked s) live.
Proof.
  intros Hok Hrun. destruct (so_files _ _ Hok) as (files & Hfi & Hrep).
  assert (snapshot_shows (objects_of (repository (gs s'))) (snapshotLocked s) live
    /\ files_of (repository (gs s')) (headID (gs s)) = Some files) as [? _]; [|done].
  revert s' Hrun. apply (rtc_ind_r (fun s' => snapshot_shows (objects_of (repository (gs s'))) (snapshotLocked s) live
    /\ files_of (repository (gs s')) (headID (gs s)) = Some files)).
  - split; [by apply (snapshotLocked_shows (files_of := files_of)) | done].
  - intros s1 s2 _ Hstep%store_step_grown [Hs1 Hf1]. split; [|by eapply grown_files].
    eapply grown_shows; [exact Hstep | by exists files | done].
Qed.

(** C19: A snapshot never changes.  Whatever is published, deleted or read
    afterwards, and whether it succeeds, the snapshot taken before still lists
    the same messages under the same numbers, and opens them with the same
    contents, from the repository as it is then. *)
Theorem snapshots_are_isolated s s' live st visit id content fuel :
  store_ok (objects_of := objects_of) (files_of := files_of) s live -> rtc store_step s s' ->
  reader_ok (objects_of (repository (gs s'))) st ->
  live !! id = Some content -> (length content + 2 <= fuel)%nat ->
  (ListAt (H := cat (repository (gs s'))) (snapshotLocked s) visit st).1 = visit_spec visit (enumerate 0 (numbered live)) /\
  exists reader st', OpenMessage (H := cat (repository (gs s'))) (snapshotLocked s) (message_of live id) st = (Ok reader, st') /\
    exists reader' read', ReadAll (H := cat (repository (gs s'))) fuel [] reader (rs_read st') = (Ok content, reader', read').
Proof.
  intros Hok Hrun Hst Hid Hf.
  pose proof (later_shows s s' live Hok Hrun) as Hshow. split.
  - destruct (ListAt_spec (GO := gl_reader _) (snapshotLocked s) live Hshow visit st Hst) as (st' & -> & _). done.
  - destruct (OpenMessage_live (GO := gl_reader _) (snapshotLocked s) live Hshow id content st Hst Hid)
      as (reader & st' & -> & Hrd & _). exists reader, st'. split; [done|].
    destruct (@ReadAll_ok (cat (repository (gs s'))) (objects_of (repository (gs s'))) (gl_reader _) content fuel 0 [] reader _ Hrd) as (r1 & s1 & Hall & _);
      [lia|]. by exists r1, s1.
Qed.
End Writing.

(** C26: What fast-import is sent means what the store intends.  The bytes of a
    transaction, whatever the message, the title and the state hold (line feeds
    and grammar keywords included), parse under Git's documented grammar back to
    that title, that parent, and exactly these file changes and deletions. *)
Theorem transactions_are_framed `{GitI : Git} (mark : Z) (title ref parent : str) (changes : list (str * option str))
    (removals : list str) (bytes : str) :
  import_transaction mark title ref parent changes removals = Ok bytes ->
  LF ∉ ref -> LF ∉ parent -> octets title < 2 ^ 63 ->
  (forall cs, contents_of changes = Ok cs -> small_contents cs) ->
  exists cs, contents_of changes = Ok cs /\
    (exists c, fi_parse bytes = Some c /\ fc_title c = title /\ fc_ref c = ref /\
      fc_from c = (if bool_decide (parent = []) then None else Some parent) /\
      fc_changes c = cs ++ (FileDelete <$> removals)).
Proof.
  intros Hb Hr Hp Ht Hs. destruct (transaction_parse _ _ _ _ _ _ _ Hb Hr Hp Ht Hs) as (cs & Hcs & Hparse).
  exists cs. split; [done|]. eexists. split; [exact Hparse|]. done.
Qed.

(** ** Witnesses *)

Definition toy_snapshot : Snapshot := snapshotLocked toy_store1.
Definition repo1 : repo := repository (gs toy_store1).

Lemma toy_shows : snapshot_shows (toy_objects repo1) toy_snapshot toy_live.
Proof. exact (snapshotLocked_shows _ _ toy_store1_ok). Qed.

Lemma toy_numbered : numbered toy_live = [toy_message].
Proof. vm_compute. reflexivity. Qed.

Lemma lookup_finds_position_witness :
  exists st', Lookup (H := toy_cat repo1) toy_snapshot 1 idle_reader = (Ok toy_message, st').
Proof.
  destruct (lookup_finds_position (GO := toy_git_objects repo1) toy_snapshot toy_live 1 idle_reader
    toy_shows (idle_reader_ok _) ltac:(lia)) as (st' & _ & E).
  exists st'. rewrite E, toy_numbered. reflexivity.
Defined.

Lemma listing_enumerates_witness :
  (ListAt (H := toy_cat repo1) toy_snapshot (fun _ _ _ => None) idle_reader).1 = ([(1, 1, mail_size)], None).
Proof.
  destruct (listing_enumerates (GO := toy_git_objects repo1) toy_snapshot toy_live (fun _ _ _ => None) idle_reader
    toy_shows (idle_reader_ok _)) as (st' & _ & E).
  rewrite E, toy_numbered. reflexivity.
Defined.

Lemma opening_yields_content_witness :
  match OpenMessage (H := toy_cat repo1) toy_snapshot toy_message idle_reader with
  | (Ok _, _) => toy_live !! 1 = Some mail
  | (Err _, _) => False
  end.
Proof.
  pose proof (opening_yields_content (GO := toy_git_objects repo1) toy_snapshot toy_live toy_message idle_reader 200
    toy_shows (idle_reader_ok _)) as H.
  destruct (OpenMessage toy_snapshot toy_message idle_reader) as [[reader|e] st'].
  - reflexivity.
  - destruct H as [_ [H|H]].
    + intros content Hc. unfold toy_live in Hc. apply lookup_singleton_Some in Hc as [_ <-]. cbn. lia.
    + discriminate H.
    + apply H. reflexivity.
Defined.

Lemma object_reads_are_framed_witness :
  match readObject (H := toy_cat 1) (commit_id 1 ++ ":" ++ toy_path) "blob" (rs_read idle_reader) with
  | (Ok reader, _) => h_size (br_header reader) = mail_size
  | (Err _, _) => False
  end.
Proof.
  pose proof (object_reads_are_framed (GO := toy_git_objects 1) (rs_read idle_reader) (commit_id 1 ++ ":" ++ toy_path) "blob" 200) as H.
  assert (toy_objects 1 (commit_id 1 ++ ":" ++ toy_path) = Some (blob "3"%char mail)) as E by (vm_compute; reflexivity).
  rewrite E in H. specialize (H ltac:(split_and!; auto) ltac:(split; apply (bool_decide_unpack _); vm_compute; exact I)
    ltac:(intros o Ho; injection Ho as <-; cbn; lia)).
  destruct (readObject _ _ _) as [[reader|e] st'].
  - destruct H as (o & Ho & _ & -> & _). injection Ho as <-. reflexivity.
  - destruct H as [_ H]. apply H. reflexivity.
Defined.

Lemma publish_adds_one_message_witness :
  match Publish "2024-01-01" "2024-01-01" (Some toy_staged) toy_store with
  | (Ok (id, path), _, s') => id = 1 /\ toy_ok s' (<[id := mail]> ∅)
  | (Err _, _, _) => False
  end.
Proof.
  pose proof (publish_adds_one_message "2024-01-01" "2024-01-01" toy_staged toy_store ∅ mail toy_store_ok eq_refl eq_refl eq_refl) as H.
  pose proof toy_published as Hp.
  destruct (Publish _ _ _) as [[[[id path]|e] m] s']; [|discriminate Hp].
  destruct H as (_ & Hid & _ & _ & Hok). split; [exact Hid | exact Hok].
Defined.

(** The store as a rival leaves it: only its reader differs. *)
Definition toy_inv (s : Store) (live : mailbox) : Prop :=
  live = toy_live /\ exists r, s = set_rd r toy_store1 /\ reader_ok (toy_objects repo1) r.

Lemma toy_inv_ok s live : toy_inv s live -> toy_ok s live /\ Forall (fun id => 1 <= id <= LastID (mb s)) [1; 1].
Proof.
  intros [-> (r & -> & Hr)]. split; [apply store_ok_set_rd; [apply toy_store1_ok | exact Hr]|].
  assert (LastID (mb (set_rd r toy_store1)) = 1) as -> by (vm_compute; reflexivity).
  repeat constructor; lia.
Qed.

Lemma delete_removes_requested_witness :
  match DeleteAs 1 (fun _ s => s) [1; 1] "alice" toy_store1 with
  | (Ok _, s') => toy_ok s' ∅
  | (Err _, _) => False
  end.
Proof.
  destruct (delete_removes_requested toy_inv (fun _ s => s) "alice" [1; 1] 1 toy_store1 toy_live toy_inv_ok) as (s0 & now & Hinv & H).
  - vm_compute. reflexivity.
  - intros s live r [-> (r0 & -> & _)] Hr. split; [reflexivity|]. exists r. split; [reflexivity | exact Hr].
  - intros k s live Hs. exists live. split; [exact Hs|]. split; [left; reflexivity | lia].
  - intros k s _. reflexivity.
  - lia.
  - split; [reflexivity|]. exists (rd toy_store1). split; [reflexivity | exact (so_reader _ _ toy_store1_ok)].
  - assert (is_ok (DeleteAs 1 (fun _ s => s) [1; 1] "alice" toy_store1).1 = true) as Hd by (vm_compute; reflexivity).
    destruct (DeleteAs _ _ _ _ _) as [[u|e] s']; [|discriminate Hd].
    destruct H as [H _]. destruct Hinv as [-> _].
    assert (without [1; 1] toy_live = ∅) as <- by (vm_compute; reflexivity). exact H.
Defined.

Lemma unallocated_id_deletes_nothing_witness :
  exists r, DeleteAs 1 (fun _ s => s) [1; 7] "alice" toy_store1 = (Err (Sentinel ErrNoSuchMessage), set_rd r toy_store1)
    /\ toy_ok (set_rd r toy_store1) toy_live.
Proof.
  apply (unallocated_id_deletes_nothing 1 (fun _ s => s) [1; 7] 7 "alice" toy_store1 toy_live toy_store1_ok).
  - repeat constructor; lia.
  - apply list_elem_of_In. right. left. reflexivity.
  - assert (LastID (mb toy_store1) = 1) as -> by (vm_compute; reflexivity). lia.
  - lia.
Defined.

Lemma snapshots_are_isolated_witness :
  let s' := (deleteLocked [toy_message] "alice" toy_store1).2 in
  (ListAt (H := cat (repository (gs s'))) toy_snapshot (fun _ _ _ => None) idle_reader).1 = ([(1, 1, mail_size)], None).
Proof.
  intros s'.
  destruct (snapshots_are_isolated toy_store1 s' toy_live idle_reader (fun _ _ _ => None) 1 mail 200 toy_store1_ok
    (rtc_once _ _ (step_delete toy_store1 [toy_message] "alice"))) as [E _].
  - apply idle_reader_ok.
  - reflexivity.
  - cbn. lia.
  - unfold toy_snapshot. rewrite E, toy_numbered. reflexivity.
Defined.

Definition toy_changes : list (str * option str) := [(toy_path, Some mail); (mailboxStateName, Some ("{}" : str))].

Lemma transactions_are_framed_witness :
  match import_transaction 1 "mail: receive 1" toy_ref (commit_id 0) toy_changes [toy_path] with
  | Ok bytes => exists c, fi_parse bytes = Some c /\ fc_title c = "mail: receive 1"
  | Err _ => False
  end.
Proof.
  assert (is_ok (import_transaction 1 "mail: receive 1" toy_ref (commit_id 0) toy_changes [toy_path]) = true) as Hok
    by (vm_compute; reflexivity).
  destruct (import_transaction _ _ _ _ _ _) as [bytes|e] eqn:E; [|discriminate Hok].
  destruct (transactions_are_framed 1 "mail: receive 1" toy_ref (commit_id 0) toy_changes [toy_path] bytes E)
    as (cs & _ & c & Hc & Ht & _).
  - apply (bool_decide_unpack _). vm_compute. exact I.
  - apply (bool_decide_unpack _). vm_compute. exact I.
  - reflexivity.
  - intros cs Hcs. vm_compute in Hcs. injection Hcs as <-. repeat constructor.
  - exists c. split; [exact Hc | exact Ht].
Defined.
