(* ===== verification/Legacy.v ===== *)
(** * Importing a file archive

    The first start over the message files of an earlier version: every message
    is counted and imported, and a state file that missed the last message is
    repaired first. *)

From S2P Require Import Prelude GoStrings IdPath Directories Numbering Tree Contents State StateCodec Import Mailbox Startup.

Section Legacy.
Context `{GitI : Git, MO : MapOrder, IN : Installation, MF : MailFiles, SD : StateDirectory}.
Context (sizes : Z -> Z) (n : Z) (files : file_archive sizes n).

(** The octets and the paths of some messages. *)
Definition octets_of (ids : list Z) : Z := foldr Z.add 0 (sizes <$> ids).

Definition paths_of (ids : list Z) (m : gmap str (option str)) : gmap str (option str) :=
  foldl (fun m id => <[mail_path id (sizes id) := None]> m) m ids.

Lemma octets_of_cons id ids : octets_of (id :: ids) = sizes id + octets_of ids.
Proof using Type. done. Qed.

Lemma octets_of_nonneg ids : Forall (fun id => 1 <= id <= n) ids -> 0 <= octets_of ids.
Proof using files.
  induction 1 as [|id ids Hid HF IH]; cbn; [lia|]. destruct (fa_file _ _ files id Hid) as [_ Hs]. unfold octets_of in IH. lia.
Qed.

Lemma seqZ_range from count : Forall (fun id => from <= id < from + count) (seqZ from count).
Proof using Type. apply Forall_forall. intros id Hid. by apply elem_of_seqZ in Hid. Qed.

Lemma past_end : (u64 (n + 1) =? 0) || (n <? u64 (n + 1)) = true.
Proof using files.
  pose proof (fa_count _ _ files) as Hn. destruct (decide (n = MaxUint64)) as [->|]; [done|].
  rewrite u64_small by (unfold is_u64; lia). destruct (Z.ltb_spec n (n + 1)); [by rewrite orb_true_r | lia].
Qed.

Lemma legacy_messages_ok : forall fuel id total counts changes past,
  1 <= id <= n + 1 -> n + 1 - id <= Z.of_nat fuel -> 0 <= total -> total + octets_of (seqZ id (n + 1 - id)) <= MaxUint64 ->
  counts_match counts past -> Z.of_nat (length past) + (n + 1 - id) <= MaxUint64 ->
  exists counts', legacy_messages fuel (u64 id) n total counts changes =
      Ok (total + octets_of (seqZ id (n + 1 - id)), counts', paths_of (seqZ id (n + 1 - id)) changes) /\
    counts_match counts' (seqZ id (n + 1 - id) ++ past).
Proof using files.
  pose proof (fa_count _ _ files) as Hn.
  induction fuel as [|fuel IH]; intros id total counts changes past Hid Hf Ht Hsum Hc Hlen;
    (destruct (decide (id = n + 1)) as [->|Hne];
      [rewrite Z.sub_diag; exists counts; cbn [legacy_messages]; rewrite past_end; split; [cbn; by rewrite Z.add_0_r | done]|]).
  - lia.
  - cbn [legacy_messages]. rewrite (u64_small id) by (unfold is_u64; lia).
    destruct (Z.eqb_spec id 0); [lia|]. destruct (Z.ltb_spec n id); [lia|]. cbn [orb].
    destruct (fa_file _ _ files id ltac:(lia)) as [-> Hs]. cbn [rbind negb].
    rewrite (seqZ_cons id) in Hsum |- * by lia. rewrite octets_of_cons in Hsum.
    assert (0 <= octets_of (seqZ (Z.succ id) (Z.pred (n + 1 - id)))).
    { apply octets_of_nonneg. eapply Forall_impl; [apply seqZ_range|]. simpl. lia. }
    rewrite !(u64_small (sizes id)), (u64_small (MaxUint64 - total)) by (unfold is_u64; lia).
    destruct (Z.ltb_spec (MaxUint64 - total) (sizes id)); [lia|]. assert (valid_id id) as Hv by (unfold valid_id; lia).
    rewrite messagePath_mail by done. unfold ToSlash. rewrite (Dir_messagePath id (sizes id)) by (done || by apply messagePath_mail).
    rewrite (u64_small (total + sizes id)) by (unfold is_u64; lia).
    replace (Z.succ id) with (id + 1) in * by lia. replace (Z.pred (n + 1 - id)) with (n + 1 - (id + 1)) in * by lia.
    destruct (IH (id + 1) (total + sizes id) (counts_add counts (leaf_dir id)) (<[mail_path id (sizes id) := None]> changes) (id :: past))
      as (counts' & -> & Hc'); [lia | lia | lia | lia | apply counts_match_add; [done | lia | done] | cbn [length]; lia|].
    exists counts'. split; [by rewrite octets_of_cons, Z.add_assoc|]. cbn [app]. rewrite Permutation_middle. exact Hc'.
Qed.

(** The state file says what the files are, or missed the last of them. *)
Definition recorded (last : Z) : Prop :=
  readMailboxState state_file = Ok (legacy_state last (octets_of (seqZ 1 last))).

Lemma octets_of_snoc last : 0 <= last -> octets_of (seqZ 1 (last + 1)) = octets_of (seqZ 1 last) + sizes (last + 1).
Proof using Type.
  intros Hl. rewrite seqZ_app by lia. replace (seqZ (1 + last) 1) with [last + 1].
  - unfold octets_of. rewrite fmap_app, foldr_app, list_fmap_singleton. cbn [foldr].
    generalize (sizes (last + 1)) as x. intros x. induction (sizes <$> seqZ 1 last) as [|y l IH]; cbn [foldr]; lia.
  - rewrite seqZ_cons by lia. replace (1 + last) with (last + 1) by lia. done.
Qed.

Lemma recovered : octets_of (seqZ 1 n) <= MaxUint64 -> recorded n \/ (1 <= n /\ recorded (n - 1) /\ writable) ->
  forall file, exists old, readMailboxState state_file = Ok old /\
    (recoverMailboxTail old file).1 = Ok (legacy_state n (octets_of (seqZ 1 n))).
Proof using files.
  intros Hsum [Hr|(H1 & Hr & Hw)] file; eexists; (split; [exact Hr|]).
  - by rewrite (recover_current sizes n).
  - assert (octets_of (seqZ 1 n) = octets_of (seqZ 1 (n - 1)) + sizes n) as E.
    { replace n with (n - 1 + 1) at 1 by lia. rewrite octets_of_snoc by lia. by replace (n - 1 + 1) with n by lia. }
    rewrite (recover_one sizes n); [by rewrite E | done | done | | lia | done].
    apply octets_of_nonneg. eapply Forall_impl; [apply seqZ_range|]. simpl. lia.
Qed.

Lemma legacy_import_ok : octets_of (seqZ 1 n) <= MaxUint64 -> recorded n \/ (1 <= n /\ recorded (n - 1) /\ writable) ->
  exists state, legacy_import = Ok (state, paths_of (seqZ 1 n) ∅) /\
    LastID state = n /\ TotalOctets state = octets_of (seqZ 1 n) /\ counts_match (Directories state) (seqZ 1 n) /\
    (exists index, ms_index state = Some index /\ index_match index (seqZ 1 n)) /\
    Version state = mailboxStateVersion /\ DailyReceipt state = None.
Proof using files.
  intros Hsum Hrec. pose proof (fa_count _ _ files) as Hn. unfold legacy_import.
  destruct (recovered Hsum Hrec (match state_file with Ok source => Some source | Err _ => None end)) as (old & -> & Hold).
  cbn [rbind]. rewrite Hold. cbn [rbind LastID legacy_state].
  destruct (legacy_messages_ok (Z.to_nat n) 1 0 ∅ ∅ []) as (counts & E & Hc);
    [lia | lia | lia | replace (n + 1 - 1) with n by lia; lia | apply counts_match_empty | cbn; lia|].
  replace (n + 1 - 1) with n in * by lia. change (u64 1) with 1 in E. rewrite E. cbn [rbind]. rewrite app_nil_r in Hc.
  cbn [TotalOctets legacy_state]. rewrite Z.eqb_refl. cbn [negb].
  destruct (build_ok counts (seqZ 1 n) n Hc (NoDup_seqZ _ _)) as (index & -> & Hm);
    [eapply Forall_impl; [apply seqZ_range|]; simpl; lia | lia|].
  cbn [rbind]. eexists. split; [reflexivity|]. split_and!; try done. by exists index.
Qed.
End Legacy.
