(* ===== verification/FirstStart.v ===== *)
(** * The first start

    Opening an archive without commits: the message files of an earlier version,
    if there are any, become the first commit and the mailbox. *)

From S2P Require Import Prelude GoStrings IdPath Directories Numbering Cache Tree CatFile Listing Contents State StateBound.
From S2P Require Import Quota StateCodec Import Mailbox MailboxSpec Startup Restart Legacy.

(** Documented behaviour of Git: a commit without a parent holds what its
    transaction writes. *)
Class RootCommits `{Git, !GitReader} (files_of : repo -> str -> option (gmap str str)) : Prop := {
  rc_import r tx c next : fi_parse tx = Some c -> mark_line r tx = Ok next -> validObjectID next = true ->
    head (published r tx) = (next, None) -> fc_from c = None ->
    files_of (published r tx) next = Some (apply_changes ∅ (fc_changes c));
}.

(** The mailbox of a file archive. *)
Definition mail_of (contents : Z -> str) (n : Z) : mailbox := list_to_map ((fun id => (id, contents id)) <$> seqZ 1 n).

Section Resolving.
Context `{GitI : Git, MO : MapOrder}.

(** Changes and the contents they stand for. *)
Definition resolves (changes : gmap str (option str)) (m : gmap str str) : Prop :=
  map_Forall2 (fun path content text => change_content (path, content) = Ok text) changes m.

Lemma contents_of_resolved (l : list (str * option str)) (f : str -> str) :
  Forall (fun e => change_content e = Ok (f e.1)) l ->
  contents_of l = Ok ((fun e => FileModify e.1 e.2) <$> ((fun e => (e.1, f e.1)) <$> l)).
Proof. induction 1 as [|[path content] l He HF IH]; [done|]. cbn [contents_of fmap list_fmap]. by rewrite He, IH. Qed.

Lemma resolved_entries changes m : resolves changes m ->
  Forall (fun e => change_content e = Ok (default [] (m !! e.1))) (map_order changes) /\
  ((fun e => (e.1, default [] (m !! e.1))) <$> map_order changes) ≡ₚ map_to_list m.
Proof.
  intros Hr. split.
  - apply Forall_forall. intros [path content]. rewrite map_order_perm. intros Hp%elem_of_map_to_list. cbn [fst].
    specialize (Hr path). rewrite Hp in Hr. destruct (m !! path) as [text|]; inversion Hr; by subst.
  - rewrite map_order_perm. apply NoDup_Permutation; [|apply NoDup_map_to_list|].
    + apply (NoDup_fmap_1 fst). rewrite <- list_fmap_compose. apply NoDup_fst_map_to_list.
    + intros [path text]. rewrite elem_of_map_to_list, list_elem_of_fmap. specialize (Hr path). split.
      * intros ([path' content] & [= -> ->] & Hp%elem_of_map_to_list). cbn [fst] in *. rewrite Hp in Hr.
        inversion Hr as [? text H1 H2 H3|]. done.
      * intros Hp. rewrite Hp in Hr. inversion Hr as [content ? H1 H2 H3|]. exists (path, content). cbn [fst].
        rewrite Hp. split; [done|]. by apply elem_of_map_to_list.
Qed.

(** The first commit's files. *)
Lemma root_files_of changes m cs : resolves changes m -> contents_of (map_order changes) = Ok cs ->
  apply_changes ∅ (cs ++ (FileDelete <$> [])) = m.
Proof.
  intros [HF HP]%resolved_entries. rewrite (contents_of_resolved _ (fun p => default [] (m !! p))) by exact HF.
  intros <-%Ok_inj. cbn [fmap list_fmap]. rewrite app_nil_r.
  assert (NoDup ((fun e => (e.1, default [] (m !! e.1))) <$> map_order changes).*1) as HN
    by (rewrite HP; apply NoDup_fst_map_to_list).
  rewrite apply_modifies by exact HN. rewrite map_union_empty. by rewrite (list_to_map_proper _ _ HN HP), list_to_map_to_list.
Qed.

Lemma root_contents_small changes m cs : resolves changes m -> (forall p c, m !! p = Some c -> octets c < 2 ^ 63) ->
  contents_of (map_order changes) = Ok cs -> small_contents cs.
Proof.
  intros [HF HP]%resolved_entries Hm. rewrite (contents_of_resolved _ (fun p => default [] (m !! p))) by exact HF.
  intros <-%Ok_inj. apply Forall_forall. intros c ([p x] & -> & Hin)%list_elem_of_fmap. rewrite HP in Hin.
  apply elem_of_map_to_list in Hin. by apply (Hm p).
Qed.
End Resolving.

Section FirstStart.
Context `{GitI : Git, MO : MapOrder, GR : !GitReader, IN : Installation, MF : MailFiles, SD : StateDirectory}.
Context {objects_of : repo -> str -> option gitObject} {files_of : repo -> str -> option (gmap str str)}.
Context `{GL : !GitLaws objects_of files_of, RC : !RootCommits files_of}.
Context (contents : Z -> str) (n : Z) (files : file_archive (fun id => octets (contents id)) n).
Context (texts : forall id, 1 <= id <= n -> octets (contents id) < 2 ^ 63 /\
  exists path, messageRelativePath id = Ok path /\ legacy_file path = Ok (contents id)).

Let sizes (id : Z) : Z := octets (contents id).

(** The mail of the first commit. *)
Definition mail_files (count : Z) : gmap str str :=
  foldl (fun m id => <[mail_path id (sizes id) := contents id]> m) ∅ (seqZ 1 count).

Lemma seqZ_snoc k : 0 <= k -> seqZ 1 (k + 1) = seqZ 1 k ++ [k + 1].
Proof using Type. intros Hk. rewrite seqZ_app by lia. f_equal. rewrite seqZ_cons by lia. rewrite (Z.add_comm 1 k). done. Qed.

Lemma mail_of_snoc k : 0 <= k -> mail_of contents (k + 1) = <[k + 1 := contents (k + 1)]> (mail_of contents k).
Proof using Type.
  intros Hk. unfold mail_of. rewrite seqZ_snoc by done. rewrite fmap_app. apply list_to_map_snoc.
  rewrite <- list_fmap_compose. intros (id & E & Hid%elem_of_seqZ)%list_elem_of_fmap. cbn in E. lia.
Qed.

Lemma mail_of_fresh k id : k < id -> mail_of contents k !! id = None.
Proof using Type.
  intros Hk. apply not_elem_of_list_to_map_1. rewrite <- list_fmap_compose.
  intros (id' & E & Hid%elem_of_seqZ)%list_elem_of_fmap. cbn in E. lia.
Qed.

Lemma mail_of_zero : mail_of contents 0 = ∅.
Proof using Type. done. Qed.

Lemma mail_files_zero : mail_files 0 = ∅.
Proof using Type. done. Qed.

(** One message after the other. *)
Lemma mail_step (P : Z -> Prop) : P 0 -> (forall k, 0 <= k < n -> P k -> P (k + 1)) -> P n.
Proof using files.
  intros H0' Hs. pose proof (fa_count _ _ files) as Hn. cut (forall k, 0 <= k -> k <= n -> P k); [intros H; apply H; lia|].
  apply (natlike_ind (fun k => k <= n -> P k)); [done|]. intros k Hk IH Hle. rewrite <- Z.add_1_r in *. apply Hs; [lia|]. apply IH. lia.
Qed.

Lemma text_size id : 1 <= id <= n -> is_u64 (octets (contents id)).
Proof using texts. intros Hid. destruct (texts id Hid) as [Hs _]. unfold is_u64, MaxUint64, octets in *. lia. Qed.

Lemma mail_of_live : live_ok (mail_of contents n) n /\ live_ids (mail_of contents n) ≡ₚ seqZ 1 n /\
  total_octets (mail_of contents n) = octets_of sizes (seqZ 1 n).
Proof using files texts.
  apply (mail_step (fun k => live_ok (mail_of contents k) k /\ live_ids (mail_of contents k) ≡ₚ seqZ 1 k /\
    total_octets (mail_of contents k) = octets_of sizes (seqZ 1 k))).
  - split_and!; [|done | done]. rewrite mail_of_zero. intros id c Hl. by rewrite lookup_empty in Hl.
  - intros k Hk (Hl & Hi & Ht). rewrite mail_of_snoc by lia. split_and!.
    + apply (live_ok_insert _ k); [done | lia | lia | apply text_size; lia].
    + rewrite live_ids_insert by (apply mail_of_fresh; lia). rewrite Hi, seqZ_snoc by lia. by rewrite Permutation_cons_append.
    + rewrite total_octets_insert by (apply mail_of_fresh; lia). rewrite Ht, octets_of_snoc by lia. unfold sizes. lia.
Qed.

Lemma mail_files_represent state : represents (<[mailboxStateName := state]> (mail_files n)) (mail_of contents n).
Proof using files texts.
  pose proof (fa_count _ _ files) as Hn.
  cut (live_ok (mail_of contents n) n /\ represents (<[mailboxStateName := state]> (mail_files n)) (mail_of contents n)); [tauto|].
  apply (mail_step (fun k => live_ok (mail_of contents k) k /\ represents (<[mailboxStateName := state]> (mail_files k)) (mail_of contents k))).
  - rewrite mail_of_zero. split; [intros id c Hl; by rewrite lookup_empty in Hl|]. split.
    + intros id c Hl. by rewrite lookup_empty in Hl.
    + intros p c [[<- _]|[_ Hp]]%lookup_insert_Some; [left; apply list_elem_of_In; by left | by rewrite mail_files_zero, lookup_empty in Hp].
  - intros k Hk [Hl Hr]. rewrite mail_of_snoc by lia. split; [apply (live_ok_insert _ k); [done | lia | lia | apply text_size; lia]|].
    unfold mail_files. rewrite seqZ_snoc, foldl_app by lia. cbn [foldl]. fold (mail_files k). unfold sizes.
    assert (mailboxStateName <> mail_path (k + 1) (octets (contents (k + 1)))) as Hne.
    { intros E. apply (mail_path_not_root (k + 1) (octets (contents (k + 1)))). rewrite <- E. apply list_elem_of_In. by left. }
    pose proof (represents_insert _ _ k (k + 1) (contents (k + 1)) state Hr Hl ltac:(lia) ltac:(unfold valid_id; lia)
      ltac:(apply text_size; lia) (mail_of_fresh k (k + 1) ltac:(lia))) as H.
    rewrite (insert_insert_ne (mail_files k)) in H by done. by rewrite insert_insert_eq in H.
Qed.

Lemma paths_resolve state : resolves (<[mailboxStateName := Some state]> (paths_of sizes (seqZ 1 n) ∅)) (<[mailboxStateName := state]> (mail_files n)).
Proof using files texts.
  pose proof (fa_count _ _ files) as Hn. apply map_Forall2_insert_2; [done|].
  apply (mail_step (fun k => map_Forall2 (fun path content text => change_content (path, content) = Ok text)
    (paths_of sizes (seqZ 1 k) ∅) (mail_files k))); [apply map_Forall2_empty|].
  intros k Hk IH. unfold paths_of, mail_files. rewrite seqZ_snoc, !foldl_app by lia. cbn [foldl].
  apply map_Forall2_insert_2; [|exact IH]. destruct (texts (k + 1) ltac:(lia)) as (_ & path & Hp & Hf).
  unfold change_content. cbn [fst snd].
  rewrite (messageFromPath_mail (k + 1) (sizes (k + 1))) by (unfold valid_id; lia || (apply text_size; lia)).
  cbn [rbind ID]. by rewrite Hp.
Qed.

Lemma mail_files_small p c : mail_files n !! p = Some c -> octets c < 2 ^ 63.
Proof using files texts.
  revert p c. apply (mail_step (fun k => forall p c, mail_files k !! p = Some c -> octets c < 2 ^ 63)).
  - intros p c Hp. by rewrite mail_files_zero, lookup_empty in Hp.
  - intros k Hk IH p c. unfold mail_files. rewrite seqZ_snoc, foldl_app by lia. cbn [foldl].
    intros [[_ <-]|[_ Hp]]%lookup_insert_Some; [apply texts; lia | by eapply IH].
Qed.
(** A bare repository whose branch has no commit yet. *)
Record unborn (root name : str) (r : repo) : Prop := {
  ub_root : TrimSpace root <> [] /\ is_ok (absolute_root root) = true /\ make_root = None;
  ub_open : open_repository = Ok tt;
  ub_branch : find_branch = Ok name;
  ub_head : exists e, head r = ([], Some e);
  ub_new : requireUninitializedArchive = Ok tt;
  ub_ref : exists ref, symbolic_ref false = Ok ref /\ for_each_ref (TrimSpace ref) = Ok [];
}.

Lemma find_branch_LF name : find_branch = Ok name -> LF ∉ name.
Proof using Type.
  unfold find_branch. destruct (symbolic_ref true) as [ref|]; [|done]. destruct (_ || _) eqn:E; [done|].
  intros <-%Ok_inj Hin. apply orb_false_iff in E as [_ Hc]. unfold ContainsAny in Hc.
  assert (existsb (fun c => bool_decide (c ∈ [CR; LF])) (TrimSpace ref) = true) as Ht; [|congruence].
  apply existsb_exists. exists LF. split; [by apply list_elem_of_In|]. reflexivity.
Qed.

(** The state of the first commit. *)
Lemma imported_state state index : LastID state = n -> TotalOctets state = octets_of sizes (seqZ 1 n) ->
  octets_of sizes (seqZ 1 n) <= MaxUint64 -> counts_match (Directories state) (seqZ 1 n) ->
  index_match index (seqZ 1 n) -> Version state = mailboxStateVersion -> DailyReceipt state = None ->
  state_ok state (mail_of contents n) /\ index_match index (live_ids (mail_of contents n)).
Proof using files texts.
  intros Hl Ht Hmax Hc Hm Hv Hr. destruct mail_of_live as (Hlive & Hi & Htot). rewrite Hi. split; [|exact Hm].
  pose proof (fa_count _ _ files). split; rewrite ?Hl, ?Hi, ?Htot; done.
Qed.

(** The first commit, once Git has taken it. *)
Lemma first_commit_ok name max r state index g b : state_ok state (mail_of contents n) ->
  index_match index (live_ids (mail_of contents n)) -> LF ∉ name ->
  commitChanges "mail: initialize archive" state (paths_of sizes (seqZ 1 n) ∅) [] (set_branch name [] (gs (new_store max r))) = (Ok tt, g) ->
  store_ok (objects_of := objects_of) (files_of := files_of)
    {| mb := with_index (Some index) state; gs := g; bud := b; rd := rd (new_store max r) |} (mail_of contents n) /\
  failure g = None /\ head (repository g) = (headID g, None).
Proof using GL RC files texts.
  intros Hst Hm Hname Hc.
  pose proof (commitChanges_cases "mail: initialize archive" state (paths_of sizes (seqZ 1 n) ∅) []
    (set_branch name [] (gs (new_store max r)))) as Hcases. rewrite Hc in Hcases.
  destruct Hcases as [_ (tx & next & [(mark & Htx) Hmark Hvalid Hrepo Hhead HheadID Hfail Href])].
  cbn [refName headID repository failure set_branch new_store gs] in *.
  pose proof (paths_resolve (state_blob state)) as Hres.
  destruct (transaction_parse _ _ _ _ _ _ _ Htx) as (cs & Hcs & Hparse); [done | apply not_elem_of_nil | reflexivity | |].
  { intros cs Hcs. eapply root_contents_small; [exact Hres | | exact Hcs].
    intros p c [[<- <-]|[_ Hp]]%lookup_insert_Some; [by eapply state_blob_fits | by eapply mail_files_small]. }
  assert (files_of (repository g) next = Some (<[mailboxStateName := state_blob state]> (mail_files n))) as Hf.
  { rewrite Hrepo in *. rewrite (rc_import _ _ _ _ Hparse Hmark Hvalid Hhead) by reflexivity. cbn [fc_changes].
    f_equal. by apply (root_files_of (<[mailboxStateName := Some (state_blob state)]> (paths_of sizes (seqZ 1 n) ∅))). }
  split; [|by rewrite HheadID].
  apply (store_of_state (files_of := files_of) state (mail_of contents n) index g b (rd (new_store max r))
    (<[mailboxStateName := state_blob state]> (mail_files n))); rewrite ?HheadID, ?Href; try assumption.
  - apply mail_files_represent.
  - apply lookup_insert_eq.
  - apply new_reader_ok.
Qed.

Lemma NewWithOptions_unborn root name max r receipt_file u write :
  octets_of sizes (seqZ 1 n) <= MaxUint64 -> recorded sizes n \/ (1 <= n /\ recorded sizes (n - 1) /\ writable) ->
  unborn root name r -> receipt_found receipt_file u ->
  let limit := if max =? 0 then DefaultMaxDailyBytes else max in
  exists state, legacy_import = Ok (state, paths_of sizes (seqZ 1 n) ∅) /\
    match commitChanges "mail: initialize archive" state (paths_of sizes (seqZ 1 n) ∅) [] (set_branch name [] (gs (new_store limit r))) with
    | (Ok _, g) => exists s, NewWithOptions root max r receipt_file write = Ok s /\
        store_ok (objects_of := objects_of) (files_of := files_of) s (mail_of contents n) /\
        LastID (mb s) = n /\ failure (gs s) = None /\ head (repository (gs s)) = (headID (gs s), None) /\
        bud s = {| maxDailyBytes := limit; receipt := u; reservedBytes := 0 |}
    | (Err e, _) => NewWithOptions root max r receipt_file write = Err e
    end.
Proof using GL RC files texts.
  intros Hmax Hrec [(Hroot & Habs & Hmk) Hopen Hbranch (e & Hhead) Hnew (ref & Href & Hrefs)] [Hread Hu] limit.
  destruct (legacy_import_ok sizes n files Hmax Hrec) as (state & Himp & Hl & Ht & Hc & (index & Hidx & Hm) & Hv & Hr).
  destruct (imported_state state index Hl Ht Hmax Hc Hm Hv Hr) as [Hst Hm'].
  exists state. split; [exact Himp|]. pose proof (first_commit_ok name limit r state index) as Hcommit.
  unfold NewWithOptions. rewrite bool_decide_eq_false_2 by done. destruct (absolute_root root) as [path|]; [|done]. cbn [rbind].
  rewrite Hmk. cbn [guard_error rbind]. unfold initializeGit. rewrite Hopen. cbn [repository gs new_store]. unfold find_head.
  rewrite Hhead, Hnew. cbn [rbind]. rewrite Href, Hrefs. rewrite bool_decide_eq_true_2 by done. rewrite Hbranch.
  rewrite bool_decide_eq_true_2 by done. rewrite Himp. fold limit.
  change (gs (set_gs ?g ?s)) with g. change (gs (new_store limit r)) with (gs (new_store limit r)) in Hcommit.
  destruct (commitChanges _ _ _ _ _) as [[[]|err] g] eqn:Ecommit; [|reflexivity].
  destruct (Hcommit g (bud (new_store limit r)) Hst Hm' (find_branch_LF name Hbranch) eq_refl) as (Hok & Hfail & Hsync).
  assert (with_index (Some index) state = state) as Ewith by (rewrite <- Hidx; by destruct state).
  rewrite Ewith in Hok. cbn [mb gs set_gs set_mb]. rewrite Hr. unfold loadReceipt. rewrite Hread.
  assert (clear_receipt state = state) as Hclear by (unfold clear_receipt; rewrite <- Hr; by destruct state).
  destruct u as [usage|]; [rewrite Hu|]; cbn [rbind]; (eexists; split; [reflexivity|]); cbn [mb gs bud rd set_gs set_mb]; rewrite Hclear;
    split_and!; try done; destruct Hok; by split.
Qed.
End FirstStart.
