(* ===== verification/ToyStart.v ===== *)
(** * A concrete machine to start on

    The answers of a machine on which the archive of [ToyGit] is opened again,
    and a repository whose first commit imports one message file. *)

From S2P Require Import Prelude GoStrings IdPath Directories Numbering Cache Tree CatFile Listing Contents State.
From S2P Require Import Quota StateCodec Import Mailbox MailboxSpec ToyGit Startup Restart Legacy FirstStart.

(** ** Starting again *)

Definition not_there : error := Sentinel OsErrNotExist.

Definition git_answers (state : result str) (refs : result str) : Installation := {|
  absolute_root root := Ok ("/" ++ root);
  make_root := None;
  git_version := Ok ("git version 2.43.0" ++ [LF]);
  lstat_dotgit := Err not_there;
  lstat_HEAD := Ok tt;
  git_init := None;
  sync_root := None;
  is_bare := Ok ("true" ++ [LF]);
  make_tmp := None;
  walk _ := [Visited true; WalkFailed true not_there];
  packed_refs := Err not_there;
  symbolic_ref _ := Ok (toy_ref ++ [LF]);
  for_each_ref _ := refs;
  state_file := state;
|}.

Definition toy_machine : Installation := git_answers (Err not_there) (Ok (toy_ref ++ [LF])).

Lemma toy_healthy : healthy (IN := toy_machine) "archive" toy_ref.
Proof.
  split; cbn.
  - split; [|done]. apply (bool_decide_unpack _). by vm_compute.
  - eexists. split; [reflexivity|]. by vm_compute.
  - by eexists.
  - done.
  - eexists. split; [reflexivity|]. by vm_compute.
  - done.
  - eexists. split; [reflexivity|]. by vm_compute.
Qed.

Lemma toy_head k : @head toy_git k = (commit_id k, None).
Proof. destruct k as [|[|k]]; by vm_compute. Qed.

#[export] Instance toy_refs : AtomicRefs (GitI := toy_git).
Proof.
  split. intros k tx. cbn [published mark_line toy_git]. destruct (expected k tx); [right | by left].
  exists (commit_id (S k)). rewrite toy_head. split_and!; [done | | done]. destruct k as [|[|k]]; by vm_compute.
Qed.

Definition toy_files_on_disk : MailFiles := {|
  lstat path := match messageIDFromPath path with
                | Ok id => if id =? 1 then Ok (true, mail_size) else Err not_there
                | Err _ => Err not_there
                end |}.

Definition no_files : MailFiles := {| lstat _ := Err not_there |}.

Definition toy_directory : StateDirectory := {|
  state_mkdir := None; state_create := None; state_write := None; state_sync := None; state_close := None;
  state_rename := None; state_open_root := None; state_sync_root := None |}.

(** ** The first start *)

(** A missing HEAD until the transaction below. *)
Definition import_transaction1 : result str :=
  @import_transaction {|
    repo := bool; rev_parse _ := ([], None); import_start_error := None; mark_line _ _ := Err (New "");
    checkpoint_line _ _ _ := Err (New ""); published k _ := k; maintained k _ := k; import_interruption _ := None;
    import_close_error := None; legacy_file _ := Ok mail; Unix_now := toy_now |}
  1 "mail: initialize archive" toy_ref []
  (map_order (<[mailboxStateName := Some (ToyGit.state_file state1)]> {[ toy_path := None ]})) [].

Definition imports (tx : str) : bool := bool_decide (import_transaction1 = Ok tx).

Definition import_git : Git := {|
  repo := bool;
  rev_parse (r : bool) := if r then (commit_id 1 ++ [LF], None) else ([], Some (New "fatal: Needed a single revision"));
  import_start_error := None;
  mark_line (r : bool) tx := if imports tx then Ok (commit_id 1) else Err (New "unexpected transaction");
  checkpoint_line (r : bool) tx checkpoint := Ok ("progress " ++ commit_id 1);
  published (r : bool) tx := r || imports tx;
  maintained r _ := r;
  import_interruption _ := None;
  import_close_error := None;
  legacy_file _ := Ok mail;
  Unix_now := toy_now;
|}.

Definition import_reader : @GitReader import_git := {| cat := fun r : @repo import_git => toy_cat (Nat.b2n r) |}.

Definition import_objects (r : bool) : str -> option gitObject := toy_objects (Nat.b2n r).

Definition import_files (r : bool) (commit : str) : option (gmap str str) :=
  if r then if decide (commit = commit_id 1) then Some files1 else None else None.

(** The transaction as Git reads it. *)
Lemma import_parses tx : imports tx = true -> exists c, fi_parse tx = Some c /\ fc_from c = None /\
  apply_changes ∅ (fc_changes c) = files1.
Proof.
  unfold imports. intros Htx%bool_decide_eq_true.
  assert (match import_transaction1 with
          | Ok tx => match fi_parse tx with
                     | Some c => bool_decide (fc_from c = None) && bool_decide (apply_changes ∅ (fc_changes c) = files1)
                     | None => false
                     end
          | Err _ => false
          end = true) as Hp by (by vm_compute).
  rewrite Htx in Hp. destruct (fi_parse tx) as [c|]; [|done]. apply andb_true_iff in Hp as [H1 H2].
  exists c. split; [done|]. split; [by apply bool_decide_eq_true in H1 | by apply bool_decide_eq_true in H2].
Qed.

Lemma import_laws : @GitLaws import_git import_reader import_objects import_files.
Proof.
  split.
  - intros r. apply (toy_git_objects (Nat.b2n r)).
  - intros r commit files. unfold import_files. destruct r; [|done]. case_decide as E; [|done]. intros [= <-].
    apply toy_holds. rewrite E. reflexivity.
  - intros r tx spec o. cbn [published import_git]. unfold import_objects. destruct r; [done|]. cbn [orb].
    destruct (imports tx); [|done]. apply assoc_take, known_mono.
  - intros r tx commit files. cbn [published import_git]. unfold import_files. by destruct r.
  - intros r tx c next parent files Hparse Hmark _ _ Hfrom _. cbn [mark_line import_git] in Hmark.
    destruct (imports tx) eqn:E; [|done]. destruct (import_parses tx E) as (c' & Hp & Hn & _). congruence.
  - by intros r args spec o _.
  - by intros r args commit files _.
  - done.
Qed.

Lemma import_root : @RootCommits import_git import_reader import_files.
Proof.
  split. intros r tx c next Hparse Hmark _ _ _. cbn [mark_line published import_git] in *.
  destruct (imports tx) eqn:E; [|done]. apply Ok_inj in Hmark as <-. rewrite orb_true_r. unfold import_files.
  destruct (import_parses tx E) as (c' & Hp & _ & Hc). rewrite decide_True by done. congruence.
Qed.

Lemma toy_file_archive : file_archive (MF := toy_files_on_disk) (fun _ => octets mail) 1.
Proof.
  assert (forall id, valid_id id -> @statMessage toy_files_on_disk id = if id =? 1 then Ok (true, mail_size) else Err not_there) as Hs.
  { intros id Hv. unfold statMessage. rewrite messageRelativePath_stem by done. cbn [rbind lstat toy_files_on_disk].
    by rewrite messageIDFromPath_form. }
  split.
  - unfold MaxUint64. lia.
  - intros id Hid. assert (id = 1) as -> by lia. rewrite Hs by (unfold valid_id, MaxUint64; lia). split; [by vm_compute|].
    unfold MaxUint64. vm_compute. split; discriminate.
  - intros id Hid. exists not_there. rewrite Hs by (unfold valid_id; lia). destruct (Z.eqb_spec id 1); [lia|]. by split.
Qed.

(** The state file is missing: the only message is the one it does not know. *)
Definition first_machine : Installation := git_answers (Err not_there) (Ok []).

Lemma toy_unborn : unborn (GitI := import_git) (IN := first_machine) "archive" toy_ref false.
Proof.
  split.
  - cbn. split; [|done]. apply (bool_decide_unpack _). by vm_compute.
  - by vm_compute.
  - by vm_compute.
  - eexists. reflexivity.
  - by vm_compute.
  - eexists. split; reflexivity.
Qed.
