(* ===== verification/RestartTheorems.v ===== *)
(** * What survives a restart

    Opening the archive again restores the mailbox that was committed, also when
    a write was cut off; the encoded state is read back; a file archive of an
    earlier version is imported whole; maintenance and closing lose nothing. *)

From S2P Require Import Prelude GoStrings IdPath Directories Numbering Cache Tree CatFile Listing Contents State JsonLaws StateBound.
From S2P Require Import Quota StateCodec Import Mailbox MailboxSpec ToyGit MailboxTheorems Startup Restart Holding Legacy FirstStart ToyStart.

(** ** Writes *)

Section Writes.
Context `{GitI : Git, MO : MapOrder, GR : !GitReader, SF : StoreFiles, GT : GraphicTable}.

(** A publication of a staged message with these bytes, or the deletion of
    resolved messages. *)
Inductive write :=
  | Publishing (now day : str) (m : StagedMessage) (content : str)
  | Deleting (ids : list Z) (username : str).

(** The write as the archive's own callers make it. *)
Definition admissible (w : write) (live : mailbox) : Prop :=
  match w with
  | Publishing _ _ m content => read_staged (sm_path m) = Ok content /\ octets content = sm_size m /\ octets content < 2 ^ 63
  | Deleting ids username => NoDup ids /\ (forall id, id ∈ ids -> is_Some (live !! id)) /\ octets username < 2 ^ 59
  end.

(** Whether it reports success, and the store afterwards. *)
Definition perform (w : write) (live : mailbox) (s : Store) : bool * Store :=
  match w with
  | Publishing now day m _ => let '(r, _, s) := Publish now day (Some m) s in (is_ok r, s)
  | Deleting ids username => let '(r, s) := deleteLocked (message_of live <$> ids) username s in (is_ok r, s)
  end.

Definition written (w : write) (live : mailbox) (s : Store) : mailbox :=
  match w with
  | Publishing _ _ _ content => <[LastID (mb s) + 1 := content]> live
  | Deleting ids _ => without ids live
  end.

(** The last ID after the write. *)
Definition last_after (w : write) (s : Store) : Z :=
  match w with Publishing _ _ _ _ => LastID (mb s) + 1 | Deleting _ _ => LastID (mb s) end.

Lemma perform_synced w live s : synced s -> (perform w live s).1 = true -> synced (perform w live s).2.
Proof.
  intros Hs. destruct w as [now day m content|ids username]; cbn [perform].
  - unfold Publish. destruct (bool_decide _); [done|]. destruct (failure (gs s)); [done|]. destruct (sm_done m); [done|].
    destruct (negb _); [done|]. destruct (next_state _ _) as [[path state]|e]; [|done]. destruct (read_staged _) as [c|e]; [|done].
    destruct (publish_charge _ _ _ _) as [[[e|] m'] b]; [done|].
    pose proof (commitChanges_synced ("mail: receive " ++ FormatUint (LastID state) 10) state {[path := Some c]} [] (gs s)) as Hc.
    by destruct (commitChanges _ _ _ _ (gs s)) as [[u|e] g].
  - unfold deleteLocked. destruct (failure (gs s)); [done|]. destruct (bool_decide _); [done|].
    destruct (deleted_state _ _) as [state|e]; [|done].
    pose proof (commitChanges_synced (delete_title (Z.of_nat (length (message_of live <$> ids))) username) state ∅
      (Path <$> (message_of live <$> ids)) (gs s)) as Hc.
    by destruct (commitChanges _ _ _ _ (gs s)) as [[u|e] g].
Qed.

Context {objects_of : repo -> str -> option gitObject} {files_of : repo -> str -> option (gmap str str)}.
Context `{GL : !GitLaws objects_of files_of, AR : !AtomicRefs}.

Abbreviation ok := (store_ok (objects_of := objects_of) (files_of := files_of)).

Lemma perform_ok (w : write) (s : Store) (live : mailbox) : ok s live -> admissible w live -> (perform w live s).1 = true ->
  ok (perform w live s).2 (written w live s) /\ LastID (mb (perform w live s).2) = last_after w s.
Proof using GL.
  intros Hok Hw. destruct w as [now day m content|ids username]; cbn [perform written last_after].
  - destruct Hw as (Hread & Hsize & Hlen). pose proof (Publish_ok now day m s live content Hok Hread Hsize Hlen) as Hp.
    destruct (Publish now day (Some m) s) as [[[[id path]|e] m'] s']; [|done]. intros _. cbn [snd].
    destruct Hp as (-> & _ & Hok' & _ & _ & Hlast). by split.
  - destruct Hw as (HN & Hin & Huser). pose proof (deleteLocked_ok s live ids username Hok HN Hin Huser) as Hd.
    destruct (deleteLocked _ username s) as [[u|e] s']; [|done]. intros _. cbn [snd]. by destruct Hd as (Hok' & _ & _ & Hlast).
Qed.

(** What Git holds once the write is over, or was cut off. *)
Lemma perform_at_rest (w : write) (s : Store) (live : mailbox) : ok s live -> synced s -> admissible w live ->
  let r := repository (gs (perform w live s).2) in exists (live' : mailbox) (state : mailboxState), at_rest (files_of := files_of) r live' state /\
    ((live' = live /\ LastID state = LastID (mb s) /\ (perform w live s).1 = false) \/
     (live' = written w live s /\ LastID state = last_after w s)).
Proof using GL AR.
  intros Hok Hs Hw. cbn zeta. destruct (perform w live s).1 eqn:E.
  - destruct (perform_ok w s live Hok Hw E) as [Hok' Hlast].
    exists (written w live s), (mb (perform w live s).2). split; [|by right].
    apply (store_at_rest (objects_of := objects_of)); [exact Hok' | by apply perform_synced].
  - assert (exists state, at_rest (files_of := files_of) (repository (gs (perform w live s).2)) live (mb s) \/
      (at_rest (files_of := files_of) (repository (gs (perform w live s).2)) (written w live s) state /\ LastID state = last_after w s)) as (state & [H|[H Hl]]).
    { destruct w as [now day m content|ids username]; cbn [perform written last_after].
      - destruct Hw as (Hread & Hsize & Hlen).
        pose proof (Publish_at_rest now day m s live content Hok Hs Hread Hsize Hlen) as Hp. cbn zeta in Hp.
        destruct (Publish now day (Some m) s) as [[r m'] s']. exact Hp.
      - destruct Hw as (HN & Hin & Huser).
        pose proof (deleteLocked_at_rest ids username s live Hok Hs HN Hin Huser) as Hd. cbn zeta in Hd.
        destruct (deleteLocked _ username s) as [r s']. exact Hd. }
    + exists live, (mb s). split; [exact H|]. by left.
    + exists (written w live s), state. split; [exact H|]. by right.
Qed.
End Writes.

(** ** Properties *)

Section Properties.
Context `{GitI : Git, MO : MapOrder, GR : !GitReader, SF : StoreFiles, GT : GraphicTable}.
Context `{IN : Installation, MF : MailFiles, SD : StateDirectory}.
Context {objects_of : repo -> str -> option gitObject} {files_of : repo -> str -> option (gmap str str)}.
Context `{GL : !GitLaws objects_of files_of}.

Abbreviation ok := (store_ok (objects_of := objects_of) (files_of := files_of)).

(** C4: Restarting restores the mailbox.  On a machine where the archive can be
    opened, [NewWithOptions] over the repository of a store in order succeeds, and
    the new store has exactly the same live messages, the same last ID, no failure
    and the receipt it found. *)
Theorem restart_restores_mailbox (root name : str) (max : Z) (s : Store) (live : mailbox) (receipt_file : result str)
    (u : option dailyReceipt) (write_receipt_file : dailyReceipt -> option error) :
  ok s live -> synced s -> healthy root name -> receipt_found receipt_file u ->
  exists s', NewWithOptions root max (repository (gs s)) receipt_file write_receipt_file = Ok s' /\ ok s' live /\
    LastID (mb s') = LastID (mb s) /\ failure (gs s') = None /\
    bud s' = {| maxDailyBytes := if max =? 0 then DefaultMaxDailyBytes else max; receipt := u; reservedBytes := 0 |}.
Proof.
  intros Hok Hs Hh Hu. destruct (NewWithOptions_ok root name max (repository (gs s)) live (mb s) receipt_file u write_receipt_file Hh)
    as (s' & E & H1 & H2 & H3 & H4 & _); [by apply (store_at_rest s live Hok) | exact Hu | by exists s'].
Qed.

(** C3: Writes are atomic and durable.  Whatever becomes of a publication or a
    deletion (it succeeds, is refused, times out, or its answer is lost on the
    way), the store that opens the archive next has either the messages of before
    or exactly the messages after the write; and the latter if the write reported
    success. *)
Theorem writes_survive_restart `{AR : !AtomicRefs} (w : write) (root name : str) (max : Z) (s : Store) (live : mailbox) (receipt_file : result str)
    (u : option dailyReceipt) (write_receipt_file : dailyReceipt -> option error) :
  ok s live -> synced s -> admissible w live -> healthy root name -> receipt_found receipt_file u ->
  let '(success, s1) := perform w live s in
  exists s' live', NewWithOptions root max (repository (gs s1)) receipt_file write_receipt_file = Ok s' /\ ok s' live' /\
    ((live' = live /\ LastID (mb s') = LastID (mb s) /\ success = false) \/
     (live' = written w live s /\ LastID (mb s') = last_after w s)).
Proof.
  intros Hok Hs Hw Hh Hu. pose proof (perform_at_rest w s live Hok Hs Hw) as (live' & state & Hr & Hcase).
  destruct (perform w live s) as [success s1]. cbn [fst snd] in *.
  destruct (NewWithOptions_ok root name max _ live' state receipt_file u write_receipt_file Hh Hr Hu) as (s' & E & Hok' & Hl & _).
  exists s', live'. split; [exact E|]. split; [exact Hok'|]. rewrite Hl. exact Hcase.
Qed.

(** C9: The first start over the message files of an earlier version imports
    every one of them: if the state file says how many octets the files have, or
    trails by the last message, then [NewWithOptions] returns a store whose
    mailbox is exactly those files, under their IDs, as soon as Git takes the
    first commit, and otherwise the error of that commit. *)
Theorem first_start_imports_files `{RC : !RootCommits files_of} (contents : Z -> str) (n : Z) (root name : str) (max : Z) (r : repo)
    (receipt_file : result str) (u : option dailyReceipt) (write_receipt_file : dailyReceipt -> option error) :
  file_archive (fun id => octets (contents id)) n ->
  (forall id, 1 <= id <= n -> octets (contents id) < 2 ^ 63 /\
     exists path, messageRelativePath id = Ok path /\ legacy_file path = Ok (contents id)) ->
  octets_of (fun id => octets (contents id)) (seqZ 1 n) <= MaxUint64 ->
  recorded (fun id => octets (contents id)) n \/
    (1 <= n /\ recorded (fun id => octets (contents id)) (n - 1) /\ writable) ->
  unborn root name r -> receipt_found receipt_file u ->
  exists state changes, legacy_import = Ok (state, changes) /\
    match commitChanges "mail: initialize archive" state changes []
        (set_branch name [] (gs (new_store (if max =? 0 then DefaultMaxDailyBytes else max) r))) with
    | (Ok _, _) => exists s, NewWithOptions root max r receipt_file write_receipt_file = Ok s /\
        ok s (mail_of contents n) /\ LastID (mb s) = n /\ failure (gs s) = None /\ synced s
    | (Err e, _) => NewWithOptions root max r receipt_file write_receipt_file = Err e
    end.
Proof.
  intros Hfiles Htexts Hsum Hrec Hun Hu.
  destruct (NewWithOptions_unborn contents n Hfiles Htexts root name max r receipt_file u write_receipt_file Hsum Hrec Hun Hu)
    as (state & Himp & Hcase).
  exists state, (paths_of (fun id => octets (contents id)) (seqZ 1 n) ∅). split; [exact Himp|].
  destruct (commitChanges _ _ _ _ _) as [[x|e] g]; [|exact Hcase].
  destruct Hcase as (s & E & Hok & Hl & Hf & Hs & _). by exists s.
Qed.

(** C35: Maintenance never touches the mail.  [git gc] is run without pruning, so
    whatever the rounds of [RunMaintenance] meet, the store keeps its messages,
    its budget and its HEAD, the repository's HEAD stays, every known commit keeps
    its files, and every snapshot taken before still shows what it showed.  After
    each attempt the timer is the interval if the attempt succeeded, a minute if
    the archive was busy, and an hour if it failed otherwise.  A leased reader
    makes [Maintain] answer that the archive is busy and change nothing; and after
    a round that succeeded the next one is a no-op until a commit is added. *)
Theorem maintenance_keeps_mailbox (interval : Z) (events : list wakeup) (env env' : surroundings_of_gc) (s : Store) (live : mailbox) :
  ok s live ->
  (let '(timers, s') := RunMaintenance interval events s in
   ok s' live /\ mb s' = mb s /\ bud s' = bud s /\ headID (gs s') = headID (gs s) /\
   head (repository (gs s')) = head (repository (gs s)) /\
   (forall commit files, files_of (repository (gs s)) commit = Some files -> files_of (repository (gs s')) commit = Some files) /\
   (forall snapshot shown files, files_of (repository (gs s)) (sn_commit snapshot) = Some files -> represents files shown ->
      snapshot_shows (objects_of (repository (gs s))) snapshot shown -> snapshot_shows (objects_of (repository (gs s'))) snapshot shown) /\
   timers = (fun r => match r with
                      | Ok _ => if interval <=? 0 then DefaultMaintenanceInterval else interval
                      | Err e => if errors_Is e ErrMaintenanceBusy then 60 * Second else 60 * (60 * Second)
                      end) <$> attempt_results events s) /\
  (leased (rs_read (rd s)) = true -> Maintain env s = (Err (Sentinel ErrMaintenanceBusy), s)) /\
  (let '(r, s') := Maintain env s in
   r = Ok tt -> gc_mu env' = true -> gc_gitMu env' = true -> Maintain env' s' = (Ok tt, s')).
Proof.
  intros Hok. split; [|split].
  - unfold RunMaintenance. destruct (maintenance_loop_kept (if interval <=? 0 then DefaultMaintenanceInterval else interval) events s) as [Hk HF].
    destruct (maintenance_loop _ _ _) as [timers s']. cbn [fst snd] in *. split; [by eapply kept_store_ok|].
    destruct Hk as [Hmb Hbud Hid _ Hhead Hrepo _ _]. split_and!; try done.
    + intros commit files. by apply rtc_grown_files.
    + intros snapshot shown files Hf Hrep Hs. eapply rtc_grown_shows; [exact Hrepo | by exists files | exact Hs].
  - intros Hl. unfold Maintain. by rewrite Hl.
  - destruct (Maintain env s) as [r s'] eqn:E. intros -> Hm Hg. apply (Maintain_again env env' s s' E Hm Hg).
Qed.
End Properties.

(** C36: State documents are read back.  What [Marshal] and the encoder write of a
    state, with any counts and any receipt, [decodeMailboxState] reads back
    unchanged, with the index rebuilt; the receipt file is read back too. *)
Theorem state_documents_roundtrip (s : mailboxState) (index : directoryIndex) :
  codable s -> buildDirectoryIndex (Directories s) (LastID s) = Ok index -> (total index = 0 -> TotalOctets s = 0) ->
  (forall u, DailyReceipt s = Some u -> validateReceipt u = None) ->
  decodeMailboxState (Marshal s ++ [LF]) = Ok (with_index (Some index) s) /\
  (forall u, DailyReceipt s = Some u -> readReceipt (Ok (Encode_receipt u)) = Ok (Some u)).
Proof.
  intros Hs Hi Ht Hu. split; [by apply decode_Marshal|]. intros u Hd. pose proof (cd_receipt _ Hs) as Hr. rewrite Hd in Hr.
  apply decode_Encode_receipt; apply Hr.
Qed.

(** ** Witnesses *)

Definition some_receipt : dailyReceipt := {| Day := "2024-01-01"; ChargedBytes := mail_size |}.

Lemma toy_receipt_found : receipt_found (Ok (Encode_receipt some_receipt)) (Some some_receipt).
Proof. split; by vm_compute. Qed.

Lemma store_plain (s : Store) (live : mailbox) : toy_ok s live -> plain_counts (Directories (mb s)).
Proof. intros Hok. apply (state_codable (mb s) live), (store_state_ok s live Hok). Qed.

Lemma toy_synced : synced toy_store1.
Proof. by vm_compute. Qed.

Lemma restart_restores_mailbox_witness :
  exists s', NewWithOptions (IN := toy_machine) (MF := no_files) (SD := toy_directory) "archive" 0 (repository (gs toy_store1))
      (Ok (Encode_receipt some_receipt)) (fun _ => None) = Ok s' /\ toy_ok s' toy_live /\ LastID (mb s') = 1.
Proof.
  destruct (restart_restores_mailbox (IN := toy_machine) (MF := no_files) (SD := toy_directory) "archive" toy_ref 0 toy_store1 toy_live
    (Ok (Encode_receipt some_receipt)) (Some some_receipt) (fun _ => None) toy_store1_ok toy_synced toy_healthy toy_receipt_found)
    as (s' & E & Hok & Hl & _).
  exists s'. split; [exact E|]. split; [exact Hok|]. rewrite Hl. by vm_compute.
Defined.

(** The publication is on its way when the machine stops. *)
Lemma writes_survive_restart_witness :
  let s1 := (perform (Publishing "2024-01-01" "2024-01-01" toy_staged mail) ∅ toy_store).2 in
  exists s' live', NewWithOptions (IN := toy_machine) (MF := no_files) (SD := toy_directory) "archive" 0 (repository (gs s1))
      (Err not_there) (fun _ => None) = Ok s' /\ toy_ok s' live' /\ live' = toy_live.
Proof.
  pose proof (writes_survive_restart (IN := toy_machine) (MF := no_files) (SD := toy_directory)
    (Publishing "2024-01-01" "2024-01-01" toy_staged mail) "archive" toy_ref 0 toy_store ∅ (Err not_there) None (fun _ => None)
    toy_store_ok) as H. cbn zeta.
  destruct (perform _ ∅ toy_store) as [success s1] eqn:E.
  destruct H as (s' & live' & Hnew & Hok & Hcase).
  - by vm_compute.
  - split_and!; [by vm_compute | by vm_compute | unfold octets; by vm_compute].
  - exact toy_healthy.
  - split; [reflexivity | exact I].
  - exists s', live'. split; [exact Hnew|]. split; [exact Hok|]. destruct Hcase as [(_ & _ & ->)|[-> _]].
    + apply (f_equal fst) in E. revert E. vm_compute. discriminate.
    + cbn [written]. change (LastID (mb toy_store) + 1) with 1. apply insert_empty.
Defined.

Lemma first_commit_taken :
  match @legacy_import first_machine toy_files_on_disk toy_directory with
  | Ok (state, changes) => is_ok (@commitChanges import_git toy_order "mail: initialize archive" state changes []
      (set_branch toy_ref [] (gs (@new_store import_git DefaultMaxDailyBytes false)))).1
  | Err _ => false
  end = true.
Proof. by vm_compute. Qed.

Lemma first_start_imports_files_witness : exists s,
  NewWithOptions (GitI := import_git) (GR := import_reader) (IN := first_machine) (MF := toy_files_on_disk) (SD := toy_directory)
    "archive" 0 false (Err not_there) (fun _ => None) = Ok s /\
  LastID (mb s) = 1 /\
  store_ok (GitI := import_git) (objects_of := import_objects) (files_of := import_files) s (mail_of (fun _ => mail) 1).
Proof.
  destruct (first_start_imports_files (GitI := import_git) (GR := import_reader) (IN := first_machine) (MF := toy_files_on_disk)
    (SD := toy_directory) (GL := import_laws) (RC := import_root) (fun _ => mail) 1 "archive" toy_ref 0 false (Err not_there) None
    (fun _ => None) toy_file_archive) as (state & changes & Himp & Hcase).
  - intros id Hid. split; [by vm_compute|]. assert (id = 1) as -> by lia. eexists. split; [reflexivity | reflexivity].
  - by vm_compute.
  - right. split; [lia|]. split; [by vm_compute | by split_and!].
  - exact toy_unborn.
  - split; [reflexivity | exact I].
  - pose proof first_commit_taken as Ht. rewrite Himp in Ht. change (0 =? 0) with true in Hcase. cbv iota in Hcase.
    destruct (commitChanges _ _ _ _ _) as [[x|e] g]; [|discriminate Ht].
    destruct Hcase as (s & E & Hok & Hl & _). exists s. split; [exact E|]. split; [exact Hl | exact Hok].
Defined.

Definition gc_works : surroundings_of_gc :=
  {| gc_mu := true; gc_gitMu := true; gc_ctx := None; gc_reader := None; gc_child := Ran None |}.

Definition gc_busy : surroundings_of_gc :=
  {| gc_mu := false; gc_gitMu := true; gc_ctx := None; gc_reader := None; gc_child := Ran None |}.

(** A busy round, one that runs and one with nothing to do. *)
Lemma maintenance_keeps_mailbox_witness :
  let events := [Woken false gc_busy false; Woken false gc_works false; Woken false gc_works false; Cancelled] in
  let '(timers, s') := RunMaintenance 0 events toy_store1 in
  timers = [60 * Second; DefaultMaintenanceInterval; DefaultMaintenanceInterval] /\ toy_ok s' toy_live.
Proof.
  cbn zeta. destruct (maintenance_keeps_mailbox 0 [Woken false gc_busy false; Woken false gc_works false; Woken false gc_works false; Cancelled]
    gc_works gc_works toy_store1 toy_live toy_store1_ok) as (H & _).
  destruct (RunMaintenance 0 _ toy_store1) as [timers s'] eqn:E. split; [|apply H].
  apply (f_equal fst) in E. cbn [fst] in E. rewrite <- E. by vm_compute.
Defined.

Definition receipt_state : mailboxState := {|
  Version := 2; LastID := 1; TotalOctets := mail_size; Directories := Directories state1; DailyReceipt := Some some_receipt;
  ms_index := None |}.

Lemma state_documents_roundtrip_witness :
  match buildDirectoryIndex (Directories receipt_state) (LastID receipt_state) with
  | Ok index => decodeMailboxState (Marshal receipt_state ++ [LF]) = Ok (with_index (Some index) receipt_state)
  | Err _ => False
  end.
Proof.
  destruct (buildDirectoryIndex _ _) as [index|e] eqn:E; [|apply (f_equal is_ok) in E; vm_compute in E; discriminate E].
  apply (state_documents_roundtrip receipt_state index).
  - split; [reflexivity | split; discriminate | split; discriminate | | split; [apply (bool_decide_unpack _); by vm_compute | split; discriminate]].
    apply (store_plain toy_store1 toy_live toy_store1_ok).
  - exact E.
  - intros H. apply (f_equal (fun r => match r with Ok i => total i | Err _ => 0 end)) in E. rewrite H in E. vm_compute in E. discriminate E.
  - intros u [= <-]. by vm_compute.
Defined.
