(* ===== verification/Config.v ===== *)
(** * SMTP policy hooks (internal/config/policy.go) *)

From S2P Require Import Prelude GoStrings.

(** ** Data *)

Record Address := { Local : str; Domain : str }.

#[export] Instance Address_eq_dec : EqDecision Address.
Proof. solve_decision. Defined.

(** [RemoteIP] is kept as the text it was parsed from. *)
Record ConnectionInfo := { ci_RemoteIP : str; ci_HELO : str; ci_TLS : bool }.

Record RecipientRequest := { rq_Connection : ConnectionInfo; rq_EnvelopeFrom : Address; rq_Recipient : Address }.

(** [iota] starts with the rejecting action: the zero decision rejects. *)
Inductive RecipientAction :=
  | RecipientRejectPolicy | RecipientRejectUnknown | RecipientTempFail | RecipientAccept
  | RecipientOther (code : Z).

Record RecipientDecision := { rd_Action : RecipientAction; rd_Reason : str }.

Record MessageMetadata := {
  md_Connection : ConnectionInfo;
  md_EnvelopeFrom : Address;
  md_Recipients : list Address;
  md_ReceivedAt : str;
  md_Octets : Z;
}.

Inductive MessageAction :=
  | MessageTempFail | MessageRejectPolicy | MessageAccept
  | MessageOther (code : Z).

Record MessageDecision := { mdec_Action : MessageAction; mdec_Reason : str }.

#[export] Instance RecipientAction_eq_dec : EqDecision RecipientAction.
Proof. solve_decision. Defined.
#[export] Instance MessageAction_eq_dec : EqDecision MessageAction.
Proof. solve_decision. Defined.

(** [SMTPPolicy]: the local policy's code; [None] is a panic.  A message is
    judged by its metadata and the staged content. *)
Class SMTPPolicy := {
  EvaluateRecipient : RecipientRequest -> option RecipientDecision;
  EvaluateMessage : MessageMetadata -> str -> option MessageDecision;
}.

(** ** Operations *)

Definition Address_String (a : Address) : str :=
  if bool_decide (Local a = []) && bool_decide (Domain a = []) then [] else Local a ++ "@" ++ Domain a.

Definition defaultSMTPPolicy : SMTPPolicy := {|
  EvaluateRecipient _ := Some {| rd_Action := RecipientAccept; rd_Reason := "configured_domain" |};
  EvaluateMessage _ _ := Some {| mdec_Action := MessageAccept; mdec_Reason := "default_accept" |};
|}.

(** [NewSMTPPolicy]: the installed factory's policy, or the default. *)
Definition NewSMTPPolicy (factory : option SMTPPolicy) : SMTPPolicy :=
  match factory with Some policy => policy | None => defaultSMTPPolicy end.
