(* ===== verification/Wire.v ===== *)
(** * Line input shared by the protocol servers (bufio, as SMTP and POP3 use it)

    The client's bytes are the rest of a stream that ends in an error (end of
    file, a closed connection, a passed deadline). *)

From S2P Require Import Prelude GoStrings Tree.

(** The end of the connection's input, and which writes succeed. *)
Class Conn := {
  end_error : error;
  write_ok : nat -> bool;
}.

Section Lines.
Context `{Conn}.

(** [bufio.Reader.ReadSlice('\n')] with a buffer of [size] bytes: the bytes
    returned, the error, the rest of the stream. *)
Definition ReadSlice (size : nat) (input : str) : str * option error * str :=
  match IndexByte (take size input) LF with
  | Some i => (take (S i) input, None, drop (S i) input)
  | None =>
      if (size <=? length input)%nat
      then (take size input, Some (Sentinel BufioErrBufferFull), drop size input)
      else (input, Some end_error, [])
  end.

(** [readLimitedLineRaw] and the reading half of [readCommand]. *)
Definition read_limited (size limit : nat) (too_long : error) (input : str) : result str * str :=
  let '(line, err, rest) := ReadSlice size input in
  let full := match err with Some e => errors_Is e BufioErrBufferFull | None => false end in
  if full || (limit <? length line)%nat then (Err too_long, rest)
  else match err with Some e => (Err e, rest) | None => (Ok line, rest) end.
End Lines.

(** The line without its terminator. *)
Definition trim_eol (line : str) : str := TrimSuffix (TrimSuffix line [LF]) [CR].

(** ** Lemmas *)

Section LineLemmas.
Context `{Conn}.

(** A line that fits is returned whole, and the rest is left. *)
Lemma read_limited_line size limit too_long line rest :
  LF ∉ line -> (S (length line) <= limit)%nat -> (limit <= size)%nat ->
  read_limited size limit too_long (line ++ LF :: rest) = (Ok (line ++ [LF]), rest).
Proof.
  intros Hl Hlim Hsize. unfold read_limited, ReadSlice.
  assert (take size (line ++ LF :: rest) = line ++ LF :: take (size - S (length line)) rest) as ->.
  { rewrite take_app, (take_ge line) by lia. f_equal.
    destruct (size - length line)%nat as [|k] eqn:E; [lia|]. cbn [take]. do 2 f_equal. lia. }
  rewrite IndexByte_app by done. cbn [orb].
  replace (line ++ LF :: rest) with ((line ++ [LF]) ++ rest) by (by rewrite <- app_assoc).
  replace (S (length line)) with (length (line ++ [LF])) by (rewrite length_app; simpl; lia).
  rewrite take_app_length, drop_app_length.
  rewrite (proj2 (Nat.ltb_ge _ _)); [done|]. rewrite length_app. simpl. lia.
Qed.

(** What is returned is a prefix ending in its only line feed, within the limit. *)
Lemma read_limited_sound size limit too_long input line rest :
  read_limited size limit too_long input = (Ok line, rest) ->
  input = line ++ rest /\ exists body, line = body ++ [LF] /\ LF ∉ body /\ (length line <= limit)%nat.
Proof.
  unfold read_limited, ReadSlice. destruct (IndexByte (take size input) LF) as [i|] eqn:Ei.
  - apply IndexByte_Some in Ei as [Ei Hn].
    assert (i < length (take size input))%nat as Hi.
    { apply (f_equal length) in Ei. rewrite length_app, !length_take in Ei. cbn [length] in Ei. rewrite length_take. lia. }
    rewrite length_take in Hi. cbn [orb]. destruct (Nat.ltb_spec limit (length (take (S i) input))) as [|Hlen]; [done|].
    intros [= <- <-]. split; [by rewrite take_drop|].
    assert (take i (take size input) = take i input) as E1 by (rewrite take_take; f_equal; lia).
    rewrite E1 in *. exists (take i input). split; [|done].
    destruct (input !! i) as [c|] eqn:Ec; [|apply lookup_ge_None in Ec; lia].
    rewrite (take_S_r input i c Ec). f_equal. f_equal.
    assert (take size input !! i = Some c) as Hc by (rewrite lookup_take_lt by lia; done).
    rewrite Ei in Hc. rewrite lookup_app_r in Hc by (rewrite length_take; lia).
    rewrite length_take in Hc. replace (i - i `min` length input)%nat with 0%nat in Hc by lia. by injection Hc.
  - destruct (Nat.leb_spec size (length input)); [done|].
    destruct (errors_Is end_error BufioErrBufferFull || _); done.
Qed.

Lemma trim_eol_crlf line : LF ∉ line -> trim_eol (line ++ [CR; LF]) = line.
Proof.
  intros Hl. unfold trim_eol. change (line ++ [CR; LF]) with (line ++ [CR] ++ [LF]).
  by rewrite app_assoc, TrimSuffix_app, TrimSuffix_app.
Qed.
End LineLemmas.
