(* ===== verification/SmtpSyntax.v ===== *)
(** * SMTP syntax (internal/smtp/server.go: the pure functions)

    Commands, paths, addresses, domains, parameters, replies and the trace
    headers prepended to every accepted message. *)

From S2P Require Import Prelude GoStrings Tree Config.

(** ** Constants *)

Definition defaultMaxMessageBytes : Z := 26214400.
Definition defaultMaxRecipients : Z := 20.
Definition defaultMaxConnections : Z := 64.
Definition defaultIdleTimeout : Z := 300000000000.
Definition maxCommandLineBytes : nat := 512.
Definition maxDataLineBytes : nat := 1000.

(** ** net.ParseIP (does the text name an address?) *)

Definition ip4_field (s : str) : bool :=
  negb (bool_decide (s = [])) && forallb is_digit s
  && (bool_decide (s = ("0" : str)) || negb (HasPrefix s "0"))
  && match ParseUint s 10 64 with Ok v => v <=? 255 | Err _ => false end.

Definition ParseIPv4 (s : str) : bool :=
  let fields := Split s "."%char in (length fields =? 4)%nat && forallb ip4_field fields.

Definition is_hex (c : ascii) : bool :=
  match digit_value c with Some d => d <? 16 | None => false end.

(** The leading hexadecimal digits of a group. *)
Fixpoint hex_run (s : str) : nat :=
  match s with c :: t => if is_hex c then S (hex_run t) else O | [] => O end.

(** The group loop: [i] bytes are filled, [ellipsis] says a [::] was seen. *)
Fixpoint ip6_groups (fuel : nat) (i : nat) (ellipsis : bool) (s : str) : bool :=
  match fuel with
  | O => false
  | S fuel =>
      if (16 <=? i)%nat then bool_decide (s = []) && negb ellipsis
      else
        let off := hex_run s in
        if (off =? 0)%nat || (4 <? off)%nat then false
        else match drop off s with
        | [] => if (i + 2 <? 16)%nat then ellipsis else negb ellipsis
        | c :: rest =>
            if decide (c = "."%char) then
              if (negb ellipsis && negb (i =? 12)%nat) || (16 <? i + 4)%nat || negb (ParseIPv4 s) then false
              else if (i + 4 <? 16)%nat then ellipsis else negb ellipsis
            else if negb (bool_decide (c = ":"%char)) then false
            else match rest with
            | [] => false
            | c' :: rest' =>
                if decide (c' = ":"%char) then
                  if ellipsis then false
                  else match rest' with
                  | [] => (i + 2 <? 16)%nat
                  | _ => ip6_groups fuel (i + 2) true rest'
                  end
                else ip6_groups fuel (i + 2) ellipsis rest
            end
        end
  end.

Definition ParseIPv6 (s : str) : bool :=
  if HasPrefix s "::" then
    match drop 2 s with [] => true | rest => ip6_groups 9 0 true rest end
  else ip6_groups 9 0 false s.

(** [net.ParseIP(s) != nil]; a zone is refused. *)
Definition ParseIP (s : str) : bool :=
  match find (fun c => bool_decide (c = "."%char) || bool_decide (c = ":"%char) || bool_decide (c = "%"%char)) s with
  | Some c => if decide (c = "."%char) then ParseIPv4 s
              else if decide (c = ":"%char) then negb (bool_decide ("%"%char ∈ s)) && ParseIPv6 s
              else false
  | None => false
  end.

(** ** Domains and addresses *)

Definition domain_rune (r : Z) : bool :=
  ((97 <=? r) && (r <=? 122)) || ((48 <=? r) && (r <=? 57)) || (r =? 45).

Definition valid_label (label : str) : bool :=
  negb (bool_decide (label = []) || (63 <? length label)%nat
        || bool_decide (head label = Some "-"%char) || bool_decide (last label = Some "-"%char))
  && forallb domain_rune (runes label).*1.

Definition validDomain (domain : str) : bool :=
  negb (bool_decide (domain = []) || (253 <? length domain)%nat)
  && forallb valid_label (Split domain "."%char).

Definition local_rune (r : Z) : bool :=
  ((97 <=? r) && (r <=? 122)) || ((65 <=? r) && (r <=? 90)) || ((48 <=? r) && (r <=? 57))
  || existsb (fun c => code c =? r) (list_ascii_of_string "!#$%&'*+-/=?^_`{|}~.").

Section Syntax.
Context `{UnicodeTables}.

Definition normalizeDomain (domain : str) : str := TrimSuffix (ToLower (TrimSpace domain)) ".".

Definition validAddress (address : str) : bool :=
  if (254 <? length address)%nat || negb (Count address "@"%char =? 1)%nat then false
  else
    let '(local, domain, _) := Cut address "@"%char in
    if bool_decide (local = []) || (64 <? length local)%nat || negb (validDomain (normalizeDomain domain)) then false
    else if HasPrefix local "." || HasSuffix local "." || Contains local ".." then false
    else forallb local_rune (runes local).*1.

Definition validHelo (value : str) : bool :=
  if validDomain (normalizeDomain value) then true
  else if HasPrefix value "[" && HasSuffix value "]"
  then ParseIP (take (length value - 2) (drop 1 value))
  else false.

(** ** Commands *)

Definition splitCommand (line : str) : str * str :=
  match Cut line " "%char with
  | (command, _, false) => (ToUpper command, [])
  | (command, argument, true) => (ToUpper command, TrimSpace argument)
  end.

Definition parsePath (argument prefix : str) (allowEmpty : bool) : result (str * str) :=
  if (length argument <? length prefix)%nat || negb (EqualFold (take (length prefix) argument) prefix)
  then Err (New "missing path prefix")
  else
    let rest := TrimSpace (drop (length prefix) argument) in
    if negb (HasPrefix rest "<") then Err (New "missing opening angle bracket")
    else match IndexByte rest ">"%char with
    | None => Err (New "missing closing angle bracket")
    | Some fin =>
        let address := take (fin - 1) (drop 1 rest) in
        let parameters := TrimSpace (drop (fin + 1) rest) in
        if bool_decide (address = []) && allowEmpty then Ok (address, parameters)
        else if negb (validAddress address) then Err (New "invalid address")
        else Ok (address, parameters)
    end.

Definition mail_parameter (maxSize : Z) (parameter : str) : option error :=
  let '(name, value, found) := Cut parameter "="%char in
  if negb found || negb (EqualFold name "SIZE") then Some (New "unsupported MAIL parameter")
  else match ParseInt value with
  | Err _ => Some (New "invalid SIZE value")
  | Ok size =>
      if size <? 0 then Some (New "invalid SIZE value")
      else if maxSize <? size then Some (Sentinel ErrMessageTooLarge)
      else None
  end.

Fixpoint mail_parameters (maxSize : Z) (parameters : list str) : option error :=
  match parameters with
  | [] => None
  | parameter :: rest =>
      match mail_parameter maxSize parameter with Some e => Some e | None => mail_parameters maxSize rest end
  end.

Definition validateMailParameters (parameters : str) (maxSize : Z) : option error :=
  if bool_decide (parameters = []) then None else mail_parameters maxSize (Fields parameters).

Definition envelopeAddress (address : str) : Address :=
  if bool_decide (address = []) then {| Local := []; Domain := [] |}
  else let '(local, domain, _) := Cut address "@"%char in {| Local := local; Domain := normalizeDomain domain |}.

Definition envelopeAddresses (addresses : list str) : list Address := envelopeAddress <$> addresses.
End Syntax.

(** The policy's reason, as it is logged. *)
Definition reason_limit : nat := 128.
Definition truncateReason (reason : str) : str :=
  if (length reason <=? reason_limit)%nat then reason else take reason_limit reason.

(** ** What the server writes *)

Definition CRLF : str := [CR; LF].

Record transaction := { tx_started : bool; tx_from : str; tx_recipients : list str }.

Definition no_transaction : transaction := {| tx_started := false; tx_from := []; tx_recipients := [] |}.

Definition deliveryHeaders (hostname remote helo : str) (encrypted : bool) (tx : transaction) (receivedAt : str) : str :=
  (if bool_decide (tx_from tx = []) then "Return-Path: <>" ++ CRLF
   else "Return-Path: <" ++ tx_from tx ++ ">" ++ CRLF)
  ++ mjoin ((fun recipient => "Delivered-To: " ++ recipient ++ CRLF) <$> tx_recipients tx)
  ++ "Received: from " ++ helo ++ " ([" ++ remote ++ "]) by " ++ hostname ++ " with "
  ++ (if encrypted then "E" else "") ++ "SMTP; " ++ receivedAt ++ CRLF.

Definition reply_bytes (code : Z) (message : str) : str := Itoa code ++ " " ++ message ++ CRLF.

Fixpoint reply_multi_bytes (code : Z) (lines : list str) : str :=
  match lines with
  | [] => []
  | [line] => Itoa code ++ " " ++ line ++ CRLF
  | line :: rest => Itoa code ++ "-" ++ line ++ CRLF ++ reply_multi_bytes code rest
  end.
