(* ===== verification/Peer.v ===== *)
(** * The peer's address (internal/smtp/server.go: remoteIP; internal/pop3/server.go: clientIP)

    The text of the peer's IP address as it is logged, handed to the policy and
    written into the trace headers. *)

From S2P Require Import Prelude GoStrings Tree Config SmtpSyntax.

(** ** net.SplitHostPort *)

Definition LastIndexByte (s : str) (c : ascii) : option nat := LastIndex s [c].

Definition missing_port : error := New "missing port in address".
Definition too_many_colons : error := New "too many colons in address".

(** The host, the port, and where a ['['] and a [']'] may no longer stand. *)
Definition split_at (hostport host : str) (i j k : nat) : result (str * str) :=
  if bool_decide ("["%char ∈ drop j hostport) then Err (New "unexpected '[' in address")
  else if bool_decide ("]"%char ∈ drop k hostport) then Err (New "unexpected ']' in address")
  else Ok (host, drop (S i) hostport).

Definition SplitHostPort (hostport : str) : result (str * str) :=
  match LastIndexByte hostport ":"%char with
  | None => Err missing_port
  | Some i =>
      if HasPrefix hostport "[" then
        match IndexByte hostport "]"%char with
        | None => Err (New "missing ']' in address")
        | Some fin =>
            if (S fin =? length hostport)%nat then Err missing_port
            else if (S fin =? i)%nat then split_at hostport (drop 1 (take fin hostport)) i 1 (S fin)
            else if bool_decide (hostport !! S fin = Some ":"%char) then Err too_many_colons
            else Err missing_port
        end
      else
        let host := take i hostport in
        if bool_decide (":"%char ∈ host) then Err too_many_colons else split_at hostport host i 0 0
  end.

(** ** net.ParseIP's value *)

Definition ip4_value (s : str) : list Z :=
  (fun f => match ParseUint f 10 64 with Ok v => v | Err _ => 0 end) <$> Split s "."%char.

(** The value of a group of hexadecimal digits. *)
Definition hex_value (s : str) : Z := foldl (fun acc c => acc * 16 + default 0 (digit_value c)) 0 s.

(** The zeros an ellipsis stands for. *)
Definition expand (ip : list Z) (ellipsis : option nat) : list Z :=
  match ellipsis with
  | Some at_ => take at_ ip ++ replicate (16 - length ip) 0 ++ drop at_ ip
  | None => ip
  end.

(** The bytes of the groups of an address [ip6_groups] accepts. *)
Fixpoint ip6_value (fuel : nat) (ip : list Z) (ellipsis : option nat) (s : str) : list Z :=
  match fuel with
  | O => ip
  | S fuel =>
      if (16 <=? length ip)%nat then expand ip ellipsis
      else
        let off := hex_run s in
        let v := hex_value (take off s) in
        match drop off s with
        | [] => expand (ip ++ [v / 256; v mod 256]) ellipsis
        | c :: rest =>
            if decide (c = "."%char) then expand (ip ++ ip4_value s) ellipsis
            else
              let ip := ip ++ [v / 256; v mod 256] in
              match rest with
              | c' :: rest' =>
                  if decide (c' = ":"%char) then
                    match rest' with
                    | [] => expand ip (Some (length ip))
                    | _ => ip6_value fuel ip (Some (length ip)) rest'
                    end
                  else ip6_value fuel ip ellipsis rest
              | [] => expand ip ellipsis
              end
        end
  end.

(** [net.ParseIP]: 16 bytes, an IPv4 address in its mapped form. *)
Definition mapped (v4 : list Z) : list Z := replicate 10 0 ++ [255; 255] ++ v4.

Definition ip_value (s : str) : option (list Z) :=
  if ParseIP s then
    match find (fun c => bool_decide (c = "."%char) || bool_decide (c = ":"%char)) s with
    | Some c =>
        if decide (c = "."%char) then Some (mapped (ip4_value s))
        else if HasPrefix s "::" then
          match drop 2 s with [] => Some (replicate 16 0) | rest => Some (ip6_value 9 [] (Some 0%nat) rest) end
        else Some (ip6_value 9 [] None s)
    | None => None
    end
  else None.

(** ** net.IP.String *)

Definition dotted (v4 : list Z) : str := Join ((fun v => FormatUint v 10) <$> v4) ".".

(** The 16-bit groups. *)
Fixpoint groups (ip : list Z) : list Z :=
  match ip with a :: b :: rest => (a * 256 + b) :: groups rest | _ => [] end.

Fixpoint zero_run (l : list Z) : nat :=
  match l with v :: l => if v =? 0 then S (zero_run l) else O | [] => O end.

(** The first of the longest runs of two or more zero groups: its start and end. *)
Fixpoint longest_run (i : nat) (l : list Z) (best : nat * nat) : nat * nat :=
  match l with
  | [] => best
  | _ :: rest =>
      let n := zero_run l in
      longest_run (S i) rest (if (2 <=? n)%nat && (best.2 - best.1 <? n)%nat then (i, (i + n)%nat) else best)
  end.

Fixpoint format6 (fuel i : nat) (run : nat * nat) (l : list Z) : str :=
  match fuel with
  | O => []
  | S fuel =>
      if (8 <=? i)%nat then []
      else if (i =? run.1)%nat then
        "::" ++ (if (8 <=? run.2)%nat then []
                 else FormatUint (nth run.2 l 0) 16 ++ format6 fuel (S run.2) run l)
      else (if (i =? 0)%nat then [] else ":" : str) ++ FormatUint (nth i l 0) 16 ++ format6 fuel (S i) run l
  end.

Definition IP_String (ip : list Z) : str :=
  if bool_decide (take 12 ip = replicate 10 0 ++ [255; 255]) then dotted (drop 12 ip)
  else format6 9 0 (longest_run 0 (groups ip) (255%nat, 255%nat)) (groups ip).

(** ** Operations *)

(** [remoteIP] and [clientIP], on [address.String()]. *)
Definition remoteIP (address : str) : str :=
  let by_ip := match ip_value address with Some ip => IP_String ip | None => "unknown" end in
  match SplitHostPort address with
  | Ok (host, _) => if ParseIP host then host else by_ip
  | Err _ => by_ip
  end.

Definition clientIP : str -> str := remoteIP.

(** ** What a peer's address consists of *)

Definition address_byte (c : ascii) : bool :=
  lower_alnum c || is_hex c || bool_decide (c = "."%char) || bool_decide (c = ":"%char).

Lemma address_byte_hex c : is_hex c = true -> address_byte c = true.
Proof. intros Hc. unfold address_byte. by rewrite Hc, orb_true_r. Qed.

Lemma address_byte_digit c : is_digit c = true -> address_byte c = true.
Proof. destruct c as [[] [] [] [] [] [] [] []]; by vm_compute. Qed.

Lemma address_byte_alnum c : lower_alnum c = true -> address_byte c = true.
Proof. intros Hc. unfold address_byte. by rewrite Hc. Qed.

Abbreviation address_text := (Forall (fun c => address_byte c = true)).

Lemma address_number v base : 2 <= base <= 36 -> address_text (FormatUint v base).
Proof. intros Hb. eapply Forall_impl; [by apply FormatUint_alnum|]. apply address_byte_alnum. Qed.

Lemma address_Join (l : list str) : Forall (fun s : str => address_text s) l -> address_text (Join l ".").
Proof.
  induction 1 as [|x l Hx Hl IH]; [constructor|]. destruct l as [|y l]; [done|].
  change (address_text (x ++ "." ++ Join (y :: l) ".")). apply Forall_app. split; [done|]. by constructor.
Qed.

Lemma ParseIPv4_text s : ParseIPv4 s = true -> address_text s.
Proof.
  unfold ParseIPv4. intros [_ Hf]%andb_true_iff. rewrite <- (Join_Split s "."%char). apply address_Join.
  apply forallb_Forall in Hf. eapply Forall_impl; [exact Hf|]. intros f. unfold ip4_field.
  intros [[[_ Hd]%andb_true_iff _]%andb_true_iff _]%andb_true_iff. apply forallb_Forall in Hd.
  eapply Forall_impl; [exact Hd|]. apply address_byte_digit.
Qed.

Lemma hex_run_text s : address_text (take (hex_run s) s).
Proof.
  induction s as [|c s IH]; [constructor|]. cbn [hex_run]. destruct (is_hex c) eqn:E; [|constructor].
  constructor; [by apply address_byte_hex | done].
Qed.

Lemma ip6_groups_text fuel i ellipsis s : ip6_groups fuel i ellipsis s = true -> address_text s.
Proof.
  revert i ellipsis s. induction fuel as [|fuel IH]; intros i ellipsis s; cbn [ip6_groups]; [done|].
  destruct (16 <=? i)%nat; [intros [->%bool_decide_eq_true _]%andb_true_iff; constructor|].
  destruct (_ || _); [done|].
  assert (address_text (drop (hex_run s) s) -> address_text s) as Hs.
  { intros Hd. rewrite <- (take_drop (hex_run s) s). apply Forall_app. split; [apply hex_run_text | done]. }
  destruct (drop (hex_run s) s) as [|c rest]; [intros _; by apply Hs|]. case_decide as Hc.
  - destruct (_ || negb (ParseIPv4 s)) eqn:E; [done|]. intros _. apply orb_false_iff in E as [_ E].
    by apply ParseIPv4_text, negb_false_iff.
  - destruct (negb (bool_decide (c = ":"%char))) eqn:E; [done|].
    apply negb_false_iff, bool_decide_eq_true in E as ->. destruct rest as [|c' rest]; [done|].
    case_decide as Hc'; [subst c'|].
    + destruct ellipsis; [done|]. intros Hg. apply Hs. constructor; [done|]. constructor; [done|].
      destruct rest; [constructor | by eapply IH].
    + intros Hg. apply Hs. constructor; [done|]. by eapply IH.
Qed.

Lemma ParseIP_text s : ParseIP s = true -> address_text s.
Proof.
  unfold ParseIP. destruct (find _ s) as [c|]; [|done]. case_decide; [apply ParseIPv4_text|]. case_decide; [|done].
  intros [_ Hv]%andb_true_iff. unfold ParseIPv6 in Hv. destruct (HasPrefix s "::") eqn:Ep; [|by eapply ip6_groups_text].
  apply HasPrefix_spec in Ep as [t ->]. constructor; [done|]. constructor; [done|].
  cbn [app drop list_ascii_of_string] in Hv |- *. rewrite drop_0 in Hv. destruct t; [by apply Forall_nil | by eapply ip6_groups_text].
Qed.

Lemma format6_text fuel i run l : address_text (format6 fuel i run l).
Proof.
  revert i. induction fuel as [|fuel IH]; intros i; cbn [format6]; [constructor|]. destruct (8 <=? i)%nat; [constructor|].
  destruct (i =? run.1)%nat.
  - constructor; [done|]. constructor; [done|]. destruct (8 <=? run.2)%nat; [constructor|].
    apply Forall_app. split; [by apply address_number | apply IH].
  - apply Forall_app. split; [destruct (i =? 0)%nat; by repeat constructor|].
    apply Forall_app. split; [by apply address_number | apply IH].
Qed.

Lemma IP_String_text ip : address_text (IP_String ip).
Proof.
  unfold IP_String. case_bool_decide; [|apply format6_text]. unfold dotted. apply address_Join.
  apply Forall_fmap, Forall_true. intros v. by apply address_number.
Qed.

(** A logged address is an address' text or the word "unknown": it has no white
    space, bracket or line break. *)
Lemma remoteIP_text address : address_text (remoteIP address).
Proof.
  unfold remoteIP. assert (address_text (match ip_value address with Some ip => IP_String ip | None => "unknown" end)).
  { destruct (ip_value address); [apply IP_String_text | by repeat constructor]. }
  destruct (SplitHostPort address) as [[host port]|]; [|done]. destruct (ParseIP host) eqn:E; [by apply ParseIP_text | done].
Qed.

Lemma remoteIP_LF address : LF ∉ remoteIP address.
Proof. intros Hin. pose proof (remoteIP_text address) as Hf. rewrite Forall_forall in Hf. by apply Hf in Hin. Qed.

(** ** Examples *)

Module Demo.
Lemma tcp4 : remoteIP "192.0.2.1:2525" = "192.0.2.1".
Proof. by vm_compute. Qed.
Lemma tcp6 : remoteIP "[2001:db8::1]:25" = "2001:db8::1".
Proof. by vm_compute. Qed.
Lemma zoned : remoteIP "[fe80::1%eth0]:25" = "unknown".
Proof. by vm_compute. Qed.
Lemma bare6 : remoteIP "2001:0DB8:0:0:1:0:0:0" = "2001:db8:0:0:1::".
Proof. by vm_compute. Qed.
Lemma mapped4 : remoteIP "::ffff:1.2.3.4" = "1.2.3.4".
Proof. by vm_compute. Qed.
Lemma loopback : remoteIP "::1" = "::1".
Proof. by vm_compute. Qed.
Lemma pipe : remoteIP "pipe" = "unknown".
Proof. by vm_compute. Qed.
End Demo.
