(* ===== verification/SmtpData.v ===== *)
(** * The DATA stream (internal/smtp/server.go: dataReader)

    Lines are read with a length limit, the final [.] line ends the message,
    dot-stuffing is removed, line ends are made CRLF and the total size is
    limited.  The reader is related to a function from the client's bytes to
    the message, whatever buffer sizes it is read with. *)

From S2P Require Import Prelude GoStrings Tree Wire SmtpSyntax.

(** ** Data *)

Record dataReader := {
  dr_input : str;
  dr_pending : str;
  dr_done : bool;
  dr_maxBytes : Z;
  dr_bytesRead : Z;
}.

(** The reader's buffer: [bufio.NewReaderSize(conn, maxDataLineBytes+2)]. *)
Definition smtp_buffer : nat := maxDataLineBytes + 2.

(** ** Operations *)

Definition canonicalDataLine (line : str) : str := TrimSuffix (TrimSuffix line [LF]) [CR] ++ CRLF.

Section Reader.
Context `{Conn}.

(** [readLimitedLineRaw] and [readLimitedLine]. *)
Definition readLimitedLineRaw (limit : nat) (input : str) : result str * str :=
  read_limited smtp_buffer limit (Sentinel ErrDataLineTooLong) input.

Definition readLimitedLine (limit : nat) (input : str) : result str * str :=
  match readLimitedLineRaw limit input with
  | (Ok line, rest) => (Ok (trim_eol line), rest)
  | (Err e, rest) => (Err e, rest)
  end.

Definition set_pending (pending : str) (r : dataReader) : dataReader :=
  {| dr_input := dr_input r; dr_pending := pending; dr_done := dr_done r; dr_maxBytes := dr_maxBytes r;
     dr_bytesRead := dr_bytesRead r |}.

Definition set_input (input : str) (done : bool) (r : dataReader) : dataReader :=
  {| dr_input := input; dr_pending := dr_pending r; dr_done := done; dr_maxBytes := dr_maxBytes r;
     dr_bytesRead := dr_bytesRead r |}.

(** The copy at the start of [Read]. *)
Definition take_pending (size : nat) (r : dataReader) : str * option error * dataReader :=
  (take size (dr_pending r), None, set_pending (drop size (dr_pending r)) r).

Definition is_final_dot (line : str) : bool :=
  bool_decide (line = "." ++ CRLF) || bool_decide (line = "." ++ [LF]).

Definition unstuff (line : str) : str :=
  match line with
  | a :: b :: _ => if bool_decide (a = "."%char) && bool_decide (b = "."%char) then drop 1 line else line
  | _ => line
  end.

(** [dataReader.Read] into a buffer of [size] bytes. *)
Definition dataReader_Read (size : nat) (r : dataReader) : str * option error * dataReader :=
  if (0 <? length (dr_pending r))%nat then take_pending size r
  else if dr_done r then ([], Some (Sentinel IoEOF), r)
  else match readLimitedLineRaw maxDataLineBytes (dr_input r) with
  | (Err e, rest) =>
      ([], Some (if errors_Is e IoEOF then Sentinel IoErrUnexpectedEOF else e), set_input rest false r)
  | (Ok line, rest) =>
      let r := set_input rest false r in
      if is_final_dot line then ([], Some (Sentinel IoEOF), set_input rest true r)
      else
        let line := canonicalDataLine (unstuff line) in
        if (maxDataLineBytes <? length line)%nat then ([], Some (Sentinel ErrDataLineTooLong), r)
        else if dr_maxBytes r <? dr_bytesRead r + Z.of_nat (length line)
        then ([], Some (Sentinel ErrMessageTooLarge), r)
        else take_pending size
          {| dr_input := rest; dr_pending := line; dr_done := false; dr_maxBytes := dr_maxBytes r;
             dr_bytesRead := dr_bytesRead r + Z.of_nat (length line) |}
  end.

(** Reading to the end with buffers of the given sizes: the bytes and how it
    ended ([None]: the reader was abandoned with more to come). *)
Fixpoint read_sizes (sizes : list nat) (r : dataReader) : str * option error * dataReader :=
  match sizes with
  | [] => ([], None, r)
  | size :: sizes =>
      match dataReader_Read size r with
      | (bytes, Some e, r) => (bytes, Some e, r)
      | (bytes, None, r) => let '(more, e, r) := read_sizes sizes r in (bytes ++ more, e, r)
      end
  end.

(** ** Specification: the message in the client's bytes *)

(** The content up to the final dot and the bytes after it; [used] octets of
    the limit are spent. *)
Fixpoint data_spec (fuel : nat) (maxBytes used : Z) (input : str) : str * error * str :=
  match fuel with
  | O => ([], Panicked "out of fuel", input)
  | S fuel =>
      match readLimitedLineRaw maxDataLineBytes input with
      | (Err e, rest) => ([], if errors_Is e IoEOF then Sentinel IoErrUnexpectedEOF else e, rest)
      | (Ok line, rest) =>
          if is_final_dot line then ([], Sentinel IoEOF, rest)
          else
            let line := canonicalDataLine (unstuff line) in
            if (maxDataLineBytes <? length line)%nat then ([], Sentinel ErrDataLineTooLong, rest)
            else if maxBytes <? used + Z.of_nat (length line) then ([], Sentinel ErrMessageTooLarge, rest)
            else
              let '(more, e, rest) := data_spec fuel maxBytes (used + Z.of_nat (length line)) rest in
              (line ++ more, e, rest)
      end
  end.
End Reader.

(** ** What a client sends *)

(** RFC 5321 dot-stuffing: a dot is added in front of a line that starts with one. *)
Definition stuff_line (line : str) : str :=
  match line with c :: _ => if decide (c = "."%char) then "."%char :: line else line | [] => line end.

(** A line whose octets on the wire, its CRLF included, are within the limit. *)
Definition text_line (line : str) : Prop := LF ∉ line /\ (length (stuff_line line) + 2 <= maxDataLineBytes)%nat.

Definition wire_lines (lines : list str) : str := mjoin ((fun l => stuff_line l ++ CRLF) <$> lines).
Definition message_text (lines : list str) : str := mjoin ((fun l => l ++ CRLF) <$> lines).

(** What is left to be read: the bytes, the final error and the input after it. *)
Definition remaining `{Conn} (r : dataReader) : str * error * str :=
  let '(more, e, rest) :=
    if dr_done r then ([], Sentinel IoEOF, dr_input r)
    else data_spec (S (length (dr_input r))) (dr_maxBytes r) (dr_bytesRead r) (dr_input r) in
  (dr_pending r ++ more, e, rest).

(** ** Lemmas *)

Section DataLemmas.
Context `{Conn}.

Lemma canonical_crlf line : canonicalDataLine (line ++ CRLF) = line ++ CRLF.
Proof.
  unfold canonicalDataLine. change (line ++ CRLF) with (line ++ [CR] ++ [LF]) at 1.
  by rewrite (app_assoc line), TrimSuffix_app, TrimSuffix_app.
Qed.

Lemma canonical_nonempty line : (2 <= length (canonicalDataLine line))%nat.
Proof. unfold canonicalDataLine, CRLF. rewrite length_app. simpl. lia. Qed.

Lemma LF_notin_stuff line : LF ∉ line -> LF ∉ stuff_line line.
Proof.
  intros Hl. unfold stuff_line. destruct line as [|c line]; [done|]. case_decide as E; [|done].
  intros [?|?]%elem_of_cons; [done | auto].
Qed.

Lemma stuff_line_length line : (length line <= length (stuff_line line))%nat.
Proof. unfold stuff_line. destruct line; [done|]. case_decide; simpl; lia. Qed.

Lemma unstuff_stuff line : unstuff (stuff_line line ++ CRLF) = line ++ CRLF.
Proof.
  unfold stuff_line. destruct line as [|c line]; [done|].
  destruct (decide (c = "."%char)) as [->|Hc]; [done|]. cbn [app unstuff].
  destruct (line ++ CRLF) eqn:E; [by destruct line|]. by rewrite (bool_decide_eq_false_2 (c = _)).
Qed.

Lemma stuffed_not_final line : is_final_dot (stuff_line line ++ CRLF) = false.
Proof.
  unfold is_final_dot. apply orb_false_iff. split; apply bool_decide_eq_false; intros E.
  - apply app_inv_tail in E. unfold stuff_line in E. destruct line as [|c line]; [done|].
    case_decide as D; [by injection E|]. by injection E as -> _.
  - destruct (stuff_line line) as [|c s]; [done|]. apply (f_equal length) in E.
    rewrite length_app in E. change (S (length s) + 2 = 2)%nat in E. lia.
Qed.

(** One stuffed line at the head of the input is read whole. *)
Lemma read_stuffed line rest :
  text_line line ->
  readLimitedLineRaw maxDataLineBytes ((stuff_line line ++ CRLF) ++ rest) = (Ok (stuff_line line ++ CRLF), rest).
Proof.
  intros [Hl Hlen]. unfold readLimitedLineRaw.
  replace ((stuff_line line ++ CRLF) ++ rest) with ((stuff_line line ++ [CR]) ++ LF :: rest)
    by (rewrite <- !app_assoc; done).
  rewrite read_limited_line.
  - by rewrite <- app_assoc.
  - intros [Hin|Hin]%elem_of_app; [by apply LF_notin_stuff in Hin | by apply list_elem_of_singleton in Hin].
  - rewrite length_app. simpl. lia.
  - unfold smtp_buffer. lia.
Qed.

Lemma read_final rest : readLimitedLineRaw maxDataLineBytes (("." ++ CRLF) ++ rest) = (Ok ("." ++ CRLF), rest).
Proof.
  unfold readLimitedLineRaw. change (("." ++ CRLF) ++ rest) with (("." ++ [CR]) ++ LF :: rest).
  rewrite read_limited_line; [done | | by unfold maxDataLineBytes; simpl; lia | unfold smtp_buffer; lia].
  apply (bool_decide_unpack (LF ∉ "." ++ [CR])). by vm_compute.
Qed.

Lemma message_text_cons line lines : message_text (line :: lines) = (line ++ CRLF) ++ message_text lines.
Proof. done. Qed.

Lemma data_spec_lines fuel maxBytes used lines rest :
  Forall text_line lines -> (length lines < fuel)%nat -> used + Z.of_nat (length (message_text lines)) <= maxBytes ->
  data_spec fuel maxBytes used (wire_lines lines ++ ("." ++ CRLF) ++ rest) = (message_text lines, Sentinel IoEOF, rest).
Proof.
  revert fuel used. induction lines as [|line lines IH]; intros [|fuel] used Hall Hf Hs; try (cbn in Hf; lia);
    cbn [data_spec].
  - cbn [wire_lines fmap list_fmap mjoin list_join]. rewrite app_nil_l, read_final. done.
  - apply Forall_cons in Hall as [Hline Hall]. cbn [wire_lines fmap list_fmap mjoin list_join].
    rewrite <- app_assoc, read_stuffed by done. rewrite stuffed_not_final, unstuff_stuff, canonical_crlf.
    rewrite message_text_cons, length_app in Hs. destruct Hline as [_ Hlen].
    pose proof (stuff_line_length line).
    rewrite (proj2 (Nat.ltb_ge _ _)) by (rewrite length_app; simpl; lia).
    rewrite (proj2 (Z.ltb_ge _ _)) by lia.
    fold (wire_lines lines). rewrite IH; [done | done | cbn in Hf; lia | lia].
Qed.

Lemma data_spec_too_large fuel maxBytes used lines tail :
  Forall text_line lines -> (length lines < fuel)%nat ->
  used <= maxBytes < used + Z.of_nat (length (message_text lines)) ->
  exists m rest, data_spec fuel maxBytes used (wire_lines lines ++ tail) = (m, Sentinel ErrMessageTooLarge, rest) /\
    m `prefix_of` message_text lines /\ used + Z.of_nat (length m) <= maxBytes.
Proof.
  revert fuel used. induction lines as [|line lines IH]; intros [|fuel] used Hall Hf Hs; try (cbn in Hf, Hs; lia);
    cbn [data_spec].
  apply Forall_cons in Hall as [Hline Hall]. cbn [wire_lines fmap list_fmap mjoin list_join].
  rewrite <- app_assoc, read_stuffed by done. rewrite stuffed_not_final, unstuff_stuff, canonical_crlf.
  rewrite message_text_cons, length_app in Hs. destruct Hline as [_ Hlen]. pose proof (stuff_line_length line).
  rewrite (proj2 (Nat.ltb_ge _ _)) by (rewrite length_app; simpl; lia).
  destruct (Z.ltb_spec maxBytes (used + Z.of_nat (length (line ++ CRLF)))) as [Hbig|Hfit].
  - eexists [], _. split; [done|]. split; [apply prefix_nil | simpl; lia].
  - change (mjoin (_ <$> lines)) with (wire_lines lines). destruct (IH fuel (used + Z.of_nat (length (line ++ CRLF)))) as (m & rest & -> & Hm & Hb);
      [done | cbn in Hf; lia | lia |].
    eexists _, _. split; [done|]. rewrite message_text_cons. split; [by apply prefix_app|].
    rewrite length_app. lia.
Qed.

(** Enough fuel: one unit per line, and a line has at least its line feed. *)
Lemma data_spec_fuel fuel fuel' maxBytes used input :
  (length input < fuel)%nat -> (length input < fuel')%nat ->
  data_spec fuel maxBytes used input = data_spec fuel' maxBytes used input.
Proof.
  revert fuel' used input. induction fuel as [|fuel IH]; intros [|fuel'] used input H1 H2; try lia.
  cbn [data_spec]. destruct (readLimitedLineRaw maxDataLineBytes input) as [[line|e] rest] eqn:E; [|done].
  destruct (is_final_dot line); [done|]. destruct (_ <? _)%nat; [done|]. destruct (_ <? _); [done|].
  apply read_limited_sound in E as (-> & body & -> & _). rewrite !length_app in H1, H2. cbn in H1, H2.
  by rewrite (IH fuel') by lia.
Qed.

Lemma data_spec_size fuel maxBytes used input m e rest :
  data_spec fuel maxBytes used input = (m, e, rest) -> used <= maxBytes ->
  used + Z.of_nat (length m) <= maxBytes.
Proof.
  revert used input m e rest. induction fuel as [|fuel IH]; intros used input m e rest; cbn [data_spec].
  { intros [= <- _ _]. simpl. lia. }
  destruct (readLimitedLineRaw maxDataLineBytes input) as [[line|err] rest']; [|intros [= <- _ _]; simpl; lia].
  destruct (is_final_dot line); [intros [= <- _ _]; simpl; lia|].
  destruct (_ <? _)%nat; [intros [= <- _ _]; simpl; lia|].
  destruct (Z.ltb_spec maxBytes (used + Z.of_nat (length (canonicalDataLine (unstuff line))))); [intros [= <- _ _]; simpl; lia|].
  destruct (data_spec _ _ _ rest') as [[more e'] rest''] eqn:E. intros [= <- _ _] _.
  apply IH in E; [|done]. rewrite length_app. lia.
Qed.

(** One [Read]: bytes off the front of what remains, or its end. *)
Lemma dataReader_Read_step size r m e rest :
  remaining r = (m, e, rest) ->
  match dataReader_Read size r with
  | (bytes, None, r') =>
      exists m', m = bytes ++ m' /\ remaining r' = (m', e, rest) /\ ((1 <= size)%nat -> (1 <= length bytes)%nat)
  | (bytes, Some e', r') => bytes = [] /\ m = [] /\ e' = e /\ dr_input r' = rest
  end.
Proof.
  unfold dataReader_Read. destruct (Nat.ltb_spec 0 (length (dr_pending r))) as [Hp|Hp].
  { unfold remaining at 1, take_pending. cbn [dr_done set_pending dr_input dr_maxBytes dr_bytesRead].
    destruct (if dr_done r then _ else _) as [[more e'] rest'] eqn:E. intros [= <- <- <-].
    exists (drop size (dr_pending r) ++ more). rewrite app_assoc, take_drop. split; [done|]. split.
    - unfold remaining. cbn [dr_done set_pending dr_input dr_maxBytes dr_bytesRead dr_pending]. by rewrite E.
    - intros. rewrite length_take. lia. }
  unfold remaining at 1. destruct (dr_pending r) as [|c p] eqn:Ep; [|cbn in Hp; lia]. cbn [app].
  destruct (dr_done r) eqn:Ed; [by intros [= <- <- <-]|].
  cbn [data_spec].
  destruct (readLimitedLineRaw maxDataLineBytes (dr_input r)) as [[line|err] rest'] eqn:El; [|by intros [= <- <- <-]].
  destruct (is_final_dot line); [by intros [= <- <- <-]|].
  cbn [dr_maxBytes dr_bytesRead set_input].
  destruct (_ <? _)%nat; [by intros [= <- <- <-]|]. destruct (_ <? _); [by intros [= <- <- <-]|].
  set (canonical := canonicalDataLine (unstuff line)).
  destruct (data_spec _ _ _ rest') as [[more e'] rest''] eqn:E. intros [= <- <- <-].
  unfold take_pending. cbn [dr_pending].
  exists (drop size canonical ++ more). rewrite app_assoc, take_drop. split; [done|]. split.
  - unfold remaining. cbn [dr_done set_pending dr_input dr_maxBytes dr_bytesRead dr_pending].
    apply read_limited_sound in El as (Hi & body & -> & _). rewrite (data_spec_fuel _ (length (dr_input r))); [by rewrite E| lia |].
    rewrite Hi, !length_app. simpl. lia.
  - intros. pose proof (canonical_nonempty (unstuff line)). rewrite length_take. unfold canonical. lia.
Qed.

Lemma read_sizes_spec sizes r m e rest :
  remaining r = (m, e, rest) ->
  match read_sizes sizes r with
  | (bytes, None, r') => exists m', m = bytes ++ m' /\ remaining r' = (m', e, rest) /\
      (Forall (fun n => 1 <= n)%nat sizes -> (length sizes <= length bytes)%nat)
  | (bytes, Some e', r') => bytes = m /\ e' = e /\ dr_input r' = rest
  end.
Proof.
  revert r m. induction sizes as [|size sizes IH]; intros r m Hr; cbn [read_sizes].
  { exists m. split; [done|]. split; [done|]. intros _. simpl. lia. }
  pose proof (dataReader_Read_step size r m e rest Hr) as Hs.
  destruct (dataReader_Read size r) as [[bytes [e'|]] r'].
  - destruct Hs as (-> & -> & -> & ->). done.
  - destruct Hs as (m' & -> & Hr' & Hlen). specialize (IH r' m' Hr').
    destruct (read_sizes sizes r') as [[more [e'|]] r''].
    + destruct IH as (-> & -> & ->). done.
    + destruct IH as (m'' & -> & Hr'' & Hl). exists m''. rewrite <- app_assoc. split; [done|]. split; [done|].
      intros [H1 H2]%Forall_cons. rewrite length_app. specialize (Hlen H1). specialize (Hl H2). cbn [length]. lia.
Qed.
End DataLemmas.

(** ** Properties *)

Section Properties.
Context `{Conn}.

(** A reader at the start of a message. *)
Definition newDataReader (maxBytes : Z) (input : str) : dataReader :=
  {| dr_input := input; dr_pending := []; dr_done := false; dr_maxBytes := maxBytes; dr_bytesRead := 0 |}.

(** C27: What a client sends is what is stored.  However the message is read
    (any sequence of buffer sizes, the reads going on to the end), a message
    of lines without line feeds that fit the line limit and the size limit,
    dot-stuffed and ended by the final dot, is read back exactly, and the
    bytes after the final dot are left for the next command. *)
Theorem data_roundtrip (lines : list str) (maxBytes : Z) (rest : str) (sizes : list nat) :
  Forall text_line lines -> Z.of_nat (length (message_text lines)) <= maxBytes ->
  Forall (fun n => 1 <= n)%nat sizes -> (length (message_text lines) < length sizes)%nat ->
  exists r, read_sizes sizes (newDataReader maxBytes (wire_lines lines ++ ("." ++ CRLF) ++ rest))
            = (message_text lines, Some (Sentinel IoEOF), r) /\ dr_input r = rest.
Proof.
  intros Hl Hs Hsz Hn. set (input := wire_lines lines ++ _).
  assert (remaining (newDataReader maxBytes input) = (message_text lines, Sentinel IoEOF, rest)) as Hr.
  { unfold remaining, newDataReader. cbn [dr_done dr_input dr_maxBytes dr_bytesRead dr_pending].
    rewrite (data_spec_fuel _ (S (length lines + length input))) by lia.
    unfold input at 2. rewrite data_spec_lines; [done | done | lia | lia]. }
  pose proof (read_sizes_spec sizes _ _ _ _ Hr) as H1.
  destruct (read_sizes sizes _) as [[bytes [e'|]] r'].
  - destruct H1 as (-> & -> & <-). by eexists.
  - destruct H1 as (m' & E & _ & Hlen). specialize (Hlen Hsz). rewrite E, length_app in Hn. lia.
Qed.

(** The DATA limits hold for any input.  Whatever bytes the client
    sends and however they are read, no more than the maximum message size is
    returned, and the result does not depend on the buffer sizes: it is
    always a prefix of the same message, and all of it with the same final
    error once the end is reached. *)
Theorem data_limits (maxBytes : Z) (input : str) (sizes : list nat) :
  0 <= maxBytes ->
  exists message final rest,
    remaining (newDataReader maxBytes input) = (message, final, rest) /\
    Z.of_nat (length message) <= maxBytes /\
    match read_sizes sizes (newDataReader maxBytes input) with
    | (bytes, None, _) => bytes `prefix_of` message
    | (bytes, Some e, r) => bytes = message /\ e = final /\ dr_input r = rest
    end.
Proof.
  intros Hmax. destruct (remaining (newDataReader maxBytes input)) as [[m e] rest] eqn:Hr. exists m, e, rest.
  split; [done|]. split.
  - unfold remaining, newDataReader in Hr. cbn [dr_done dr_input dr_maxBytes dr_bytesRead dr_pending] in Hr.
    destruct (data_spec _ _ _ _) as [[m' e'] rest'] eqn:E. injection Hr as <- <- <-.
    apply data_spec_size in E; [cbn; lia | done].
  - pose proof (read_sizes_spec sizes _ _ _ _ Hr) as H1.
    destruct (read_sizes sizes _) as [[bytes [e'|]] r']; [done|].
    destruct H1 as (m' & -> & _). by eexists.
Qed.

(** The longest line the protocol allows is refused when it starts with
    a dot: a text line of 998 octets before its CRLF, within the limit of
    1000 octets, is answered with the line-length error, since the limit is
    applied before the stuffed dot is taken away. *)
Theorem longest_dot_line_refused (body : str) (tail : str) (maxBytes : Z) (size : nat) :
  length body = 997%nat -> LF ∉ body ->
  let line := "."%char :: body in
  (length (line ++ CRLF) = maxDataLineBytes)%nat /\
  exists r, dataReader_Read size (newDataReader maxBytes ((stuff_line line ++ CRLF) ++ tail))
            = ([], Some (Sentinel ErrDataLineTooLong), r).
Proof.
  intros Hb Hl line. split; [unfold line, CRLF; rewrite length_app; simpl; rewrite Hb; done|].
  unfold dataReader_Read, newDataReader. cbn [dr_pending length Nat.ltb Nat.leb dr_done dr_input].
  unfold readLimitedLineRaw, read_limited, ReadSlice.
  assert (take smtp_buffer ((stuff_line line ++ CRLF) ++ tail) = (("..": str) ++ body ++ [CR]) ++ LF :: take 1 tail) as Ht.
  { replace ((stuff_line line ++ CRLF) ++ tail) with (((("..": str) ++ body ++ [CR]) ++ [LF]) ++ tail)
      by (unfold line; cbn; rewrite <- !app_assoc; done).
    rewrite take_app_ge by (rewrite !length_app, Hb; unfold smtp_buffer, maxDataLineBytes; simpl; lia).
    rewrite <- app_assoc. do 2 f_equal. rewrite !length_app, Hb. done. }
  rewrite Ht, IndexByte_app; cycle 1.
  { rewrite !not_elem_of_app. repeat split; [apply (bool_decide_unpack (LF ∉ _)); by vm_compute | done |].
    apply (bool_decide_unpack (LF ∉ _)). by vm_compute. }
  cbn [orb]. rewrite (proj2 (Nat.ltb_lt _ _)); [by eexists|].
  rewrite length_take, !length_app. rewrite Hb. unfold maxDataLineBytes, line, stuff_line. case_decide; [|done].
  cbn [length String.list_ascii_of_string]. rewrite Hb. simpl. lia.
Qed.
End Properties.

(** ** Witnesses *)

#[local] Instance open_conn : Conn := {| end_error := Sentinel IoEOF; write_ok _ := true |}.

Lemma data_roundtrip_witness :
  exists r, read_sizes (replicate 9 3%nat) (newDataReader 100 (wire_lines [(".a" : str); ("b" : str)] ++ ("." ++ CRLF) ++ "QUIT"))
    = (".a" ++ CRLF ++ "b" ++ CRLF, Some (Sentinel IoEOF), r) /\ dr_input r = "QUIT".
Proof.
  apply (data_roundtrip [(".a" : str); ("b" : str)] 100 "QUIT" (replicate 9 3%nat)).
  - repeat constructor; try (apply (bool_decide_unpack (LF ∉ _)); vm_compute; exact I); unfold maxDataLineBytes; simpl; lia.
  - simpl. lia.
  - repeat constructor; lia.
  - simpl. lia.
Defined.

Lemma data_limits_witness :
  exists message final rest, remaining (newDataReader 3 ("abcdef" ++ CRLF)) = (message, final, rest) /\
    Z.of_nat (length message) <= 3.
Proof.
  destruct (data_limits 3 ("abcdef" ++ CRLF) [5%nat]) as (m & e & r & Hr & Hl & _); [lia|].
  exists m, e, r. split; [exact Hr | exact Hl].
Defined.

Lemma longest_dot_line_refused_witness :
  exists r, dataReader_Read 512 (newDataReader 2000 ((stuff_line ("."%char :: replicate 997 "x"%char) ++ CRLF) ++ []))
    = ([], Some (Sentinel ErrDataLineTooLong), r).
Proof.
  destruct (longest_dot_line_refused (replicate 997 "x"%char) [] 2000 512) as [_ H].
  - reflexivity.
  - apply (bool_decide_unpack (LF ∉ _)). vm_compute. exact I.
  - exact H.
Defined.
