(* ===== verification/SmtpSession.v ===== *)
(** * The SMTP server (internal/smtp/server.go: Server)

    One connection is a session record that every command handler transforms,
    with the trace of what was replied and delivered.  The mail store is an
    interface ([Delivery]), the policy is local code that may panic, TLS and the
    network are parameters. *)

From S2P Require Import Prelude GoStrings Tree Config Wire SmtpSyntax Peer SmtpData.

(** ** Data *)

Record Options := {
  op_Hostname : str;
  op_Domains : list str;
  op_Delivery : bool;
  op_TLSConfig : bool;
  op_MaxMessageSize : Z;
  op_MaxRecipients : Z;
  op_MaxConnections : Z;
  op_IdleTimeout : Z;
  op_Policy : option SMTPPolicy;
}.

(** [smtp.Server]; [tlsConfig] is only whether TLS is configured. *)
Record Server := {
  hostname : str;
  domains : gset str;
  tlsConfig : bool;
  maxMessageSize : Z;
  maxRecipients : Z;
  idleTimeout : Z;
  policy : SMTPPolicy;
  connections : Z;
}.

(** [smtp.Delivery] and [archive.Staged] over the store's state [W].  [Stage]
    is given the reads of its source, the last one with the error. *)
Class Delivery (W Staged : Type) := {
  CheckReceive : W -> option error;
  Stage : list (str * option error) -> M W Staged;
  Publish : Staged -> M W (Z * str);
  Discard : Staged -> W -> W;
  Size : Staged -> Z;
  Open : Staged -> W -> str;
}.

(** The connection's surroundings: the peer, the clock, the deadline calls, the
    buffer sizes of [Stage]'s copy, and TLS: how many of the bytes after the
    STARTTLS line are already buffered, and the handshake's plaintext stream. *)
Class SmtpEnv := {
  peer : str;
  received_at : nat -> str;
  deadline_ok : nat -> bool;
  copy_sizes : list nat;
  plaintext_buffered : str -> nat;
  handshake : str -> result str;
}.

(** [remote], the peer's address as text. *)
Definition remote `{SmtpEnv} : str := remoteIP peer.

Inductive event :=
  | Reply (code : Z) (lines : list str)
  | TLSStarted
  | Delivered (info : ConnectionInfo) (tx : transaction) (content : str) (id : Z) (path : str).

(** What the server logs about a session, and the peer's address with each. *)
Inductive log_entry :=
  | HandshakeFailed (e : error)
  | AdmissionFailed (e : error)
  | DeliveryFailed (e : error)
  | PublicationFailed (e : error)
  | RecipientPolicy (recipient : str) (action : RecipientAction) (reason : str)
  | MessagePolicy (action : MessageAction) (reason : str)
  | MessageDelivered (from : str) (recipients : list str) (bytes : Z) (id : Z) (path : str) (tls : bool).

Record session := {
  greeted : bool;
  helo : str;
  encrypted : bool;
  tx : transaction;
  input : str;
  rounds : nat;
  writes : nat;
  trace : list event;
  logged : list (str * log_entry);
  closed : bool;
}.

(** ** Construction *)

Section NewServer.
Context `{UnicodeTables}.

Fixpoint add_domains (raws : list str) (acc : gset str) : result (gset str) :=
  match raws with
  | [] => Ok acc
  | raw :: rest =>
      let domain := normalizeDomain raw in
      if negb (validDomain domain) then Err (New "invalid recipient domain")
      else add_domains rest ({[ domain ]} ∪ acc)
  end.

Definition or_default (value fallback : Z) : Z := if value <=? 0 then fallback else value.

Definition NewServer (factory : option SMTPPolicy) (options : Options) : result Server :=
  let hostname := normalizeDomain (op_Hostname options) in
  if negb (validDomain hostname) then Err (New "valid SMTP hostname is required")
  else if negb (op_Delivery options) then Err (New "delivery store is required")
  else
    let! domains := add_domains (op_Domains options) ∅ in
    if bool_decide (domains = ∅) then Err (New "at least one recipient domain is required")
    else Ok {| hostname := hostname; domains := domains; tlsConfig := op_TLSConfig options;
               maxMessageSize := or_default (op_MaxMessageSize options) defaultMaxMessageBytes;
               maxRecipients := or_default (op_MaxRecipients options) defaultMaxRecipients;
               idleTimeout := or_default (op_IdleTimeout options) defaultIdleTimeout;
               policy := match op_Policy options with Some p => p | None => NewSMTPPolicy factory end;
               connections := or_default (op_MaxConnections options) defaultMaxConnections |}.
End NewServer.

(** ** The connection limit of [Serve] *)

(** The connections being served; [Serve] takes a slot or refuses with 421. *)
Inductive serve_event := Accepted (conn : nat) | Finished (conn : nat).

Definition serve_event_step (limit : Z) (e : serve_event) (active : list nat) : list nat * option str :=
  match e with
  | Accepted conn =>
      if Z.of_nat (length active) <? limit then (conn :: active, None)
      else (active, Some ("421 4.3.2 too many connections" ++ CRLF))
  | Finished conn => (filter (fun c => c <> conn) active, None)
  end.

Definition Serve (limit : Z) (events : list serve_event) : list nat :=
  foldl (fun active e => (serve_event_step limit e active).1) [] events.

(** ** Session updates *)

Definition set_greeting (name : str) (s : session) : session :=
  {| greeted := true; helo := name; encrypted := encrypted s; tx := no_transaction; input := input s;
     rounds := rounds s; writes := writes s; trace := trace s; logged := logged s; closed := closed s |}.

Definition set_encrypted (plaintext : str) (s : session) : session :=
  {| greeted := false; helo := []; encrypted := true; tx := no_transaction; input := plaintext;
     rounds := rounds s; writes := writes s; trace := trace s ++ [TLSStarted]; logged := logged s; closed := closed s |}.

Definition set_tx (t : transaction) (s : session) : session :=
  {| greeted := greeted s; helo := helo s; encrypted := encrypted s; tx := t; input := input s;
     rounds := rounds s; writes := writes s; trace := trace s; logged := logged s; closed := closed s |}.

Definition set_input (rest : str) (s : session) : session :=
  {| greeted := greeted s; helo := helo s; encrypted := encrypted s; tx := tx s; input := rest;
     rounds := rounds s; writes := writes s; trace := trace s; logged := logged s; closed := closed s |}.

Definition next_round (s : session) : session :=
  {| greeted := greeted s; helo := helo s; encrypted := encrypted s; tx := tx s; input := input s;
     rounds := S (rounds s); writes := writes s; trace := trace s; logged := logged s; closed := closed s |}.

Definition close (s : session) : session :=
  {| greeted := greeted s; helo := helo s; encrypted := encrypted s; tx := tx s; input := input s;
     rounds := rounds s; writes := writes s; trace := trace s; logged := logged s; closed := true |}.

Definition emit (e : event) (s : session) : session :=
  {| greeted := greeted s; helo := helo s; encrypted := encrypted s; tx := tx s; input := input s;
     rounds := rounds s; writes := writes s; trace := trace s ++ [e]; logged := logged s; closed := closed s |}.

Definition count_write (s : session) : session :=
  {| greeted := greeted s; helo := helo s; encrypted := encrypted s; tx := tx s; input := input s;
     rounds := rounds s; writes := S (writes s); trace := trace s; logged := logged s; closed := closed s |}.

(** A line of the log. *)
Definition note `{SmtpEnv} (entry : log_entry) (s : session) : session :=
  {| greeted := greeted s; helo := helo s; encrypted := encrypted s; tx := tx s; input := input s;
     rounds := rounds s; writes := writes s; trace := trace s; logged := logged s ++ [(remote, entry)]; closed := closed s |}.

(** [connectionInfo]. *)
Definition connectionInfo `{SmtpEnv} (s : session) : ConnectionInfo :=
  {| ci_RemoteIP := remote; ci_HELO := helo s; ci_TLS := encrypted s |}.

(** ** The reads of [io.MultiReader(headers, data)] *)

Section Reads.
Context `{Conn}.

Definition multiReader_Read (size : nat) (headers : str) (r : dataReader) : str * option error * str * dataReader :=
  match headers with
  | [] => let '(bytes, e, r) := dataReader_Read size r in (bytes, e, [], r)
  | _ => (take size headers, None, drop size headers, r)
  end.

(** The reads of a copy with buffers of [sizes] bytes, up to the first error. *)
Fixpoint copy_reads (sizes : list nat) (headers : str) (r : dataReader) : list (str * option error) * dataReader :=
  match sizes with
  | [] => ([], r)
  | size :: sizes =>
      match multiReader_Read size headers r with
      | (bytes, Some e, _, r) => ([(bytes, Some e)], r)
      | (bytes, None, headers, r) =>
          let '(reads, r) := copy_reads sizes headers r in ((bytes, None) :: reads, r)
      end
  end.
End Reads.

(** ** Command handlers *)

Section Handlers.
Context {W Staged : Type}.
Context `{Conn, UnicodeTables, !Delivery W Staged, SmtpEnv}.
Context (server : Server).

(** [reply] and [replyMulti]: what was written, and whether it arrived. *)
Definition reply_lines (code : Z) (lines : list str) (s : session) : bool * session :=
  (write_ok (writes s), count_write (emit (Reply code lines) s)).

Definition reply (code : Z) (message : str) (s : session) : bool * session := reply_lines code [message] s.

(** A reply whose success the code does not look at. *)
Definition say (code : Z) (message : str) (s : session) : session := (reply code message s).2.

(** [evaluateRecipient] and [evaluateMessage]: a panic is a temporary failure. *)
Definition evaluateRecipient (request : RecipientRequest) : RecipientDecision :=
  match EvaluateRecipient (SMTPPolicy := policy server) request with
  | Some decision => decision
  | None => {| rd_Action := RecipientTempFail; rd_Reason := "policy_panic" |}
  end.

Definition evaluateMessage (metadata : MessageMetadata) (content : str) : MessageDecision :=
  match EvaluateMessage (SMTPPolicy := policy server) metadata content with
  | Some decision => decision
  | None => {| mdec_Action := MessageTempFail; mdec_Reason := "policy_panic" |}
  end.

Definition capabilities (s : session) : list str :=
  [hostname server; "SIZE " ++ Itoa (maxMessageSize server); "8BITMIME" : str]
  ++ (if tlsConfig server && negb (encrypted s) then ["STARTTLS" : str] else []).

Definition handle_helo (extended : bool) (argument : str) (s : session) : session :=
  if negb (validHelo argument) then say 501 "5.5.2 invalid hostname" s
  else
    let s := set_greeting argument s in
    if extended then (reply_lines 250 (capabilities s) s).2 else say 250 (hostname server) s.

Definition handle_starttls (argument : str) (s : session) : session :=
  if negb (bool_decide (argument = [])) || negb (tlsConfig server) || encrypted s
  then say 502 "5.5.1 STARTTLS unavailable" s
  else
    let '(ok, s) := reply 220 "2.0.0 ready to start TLS" s in
    if negb ok then close s
    else match handshake (drop (plaintext_buffered (input s)) (input s)) with
    | Err e => close (note (HandshakeFailed e) s)
    | Ok plaintext => set_encrypted plaintext s
    end.

Definition handle_mail (argument : str) (s : session) : session :=
  if negb (greeted s) then say 503 "5.5.1 send HELO/EHLO first" s
  else match parsePath argument "FROM:" true with
  | Err _ => say 501 "5.5.2 invalid reverse-path" s
  | Ok (address, params) =>
      match validateMailParameters params (maxMessageSize server) with
      | Some e =>
          if errors_Is e ErrMessageTooLarge then say 552 "5.3.4 message exceeds fixed maximum size" s
          else say 501 "5.5.4 invalid MAIL parameters" s
      | None =>
          say 250 "2.1.0 sender accepted"
            (set_tx {| tx_started := true; tx_from := address; tx_recipients := [] |} s)
      end
  end.

Definition served (address : str) : bool :=
  let '(_, domain, _) := Cut address "@"%char in bool_decide (normalizeDomain domain ∈ domains server).

Definition add_recipient (address : str) (t : transaction) : transaction :=
  {| tx_started := tx_started t; tx_from := tx_from t; tx_recipients := tx_recipients t ++ [address] |}.

Definition recipient_request (address : str) (s : session) : RecipientRequest :=
  {| rq_Connection := connectionInfo s; rq_EnvelopeFrom := envelopeAddress (tx_from (tx s));
     rq_Recipient := envelopeAddress address |}.

(** [logRecipientDecision]. *)
Definition logRecipientDecision (recipient : str) (decision : RecipientDecision) (s : session) : session :=
  note (RecipientPolicy recipient (rd_Action decision) (truncateReason (rd_Reason decision))) s.

Definition handle_rcpt (argument : str) (s : session) : session :=
  if negb (tx_started (tx s)) then say 503 "5.5.1 send MAIL first" s
  else match parsePath argument "TO:" false with
  | Err _ => say 501 "5.5.2 invalid forward-path" s
  | Ok (address, params) =>
      if negb (bool_decide (TrimSpace params = [])) then say 501 "5.5.2 invalid forward-path" s
      else if negb (served address) then say 550 "5.1.1 recipient domain not served" s
      else if maxRecipients server <=? Z.of_nat (length (tx_recipients (tx s)))
      then say 452 "4.5.3 too many recipients" s
      else
        let decision := evaluateRecipient (recipient_request address s) in
        let refused := logRecipientDecision address decision s in
        match rd_Action decision with
        | RecipientAccept => say 250 "2.1.5 recipient accepted" (set_tx (add_recipient address (tx s)) s)
        | RecipientRejectUnknown => say 550 "5.1.1 recipient unknown" refused
        | RecipientTempFail => say 451 "4.7.1 recipient temporarily rejected" refused
        | _ => say 550 "5.7.1 recipient rejected by policy" refused
        end
  end.

(** The reply to a failed [Stage]; the later conditions win. *)
Definition stage_failure (e : error) : Z * str :=
  if errors_Is e ErrDataLineTooLong then (550, "5.6.0 DATA line exceeds limit" : str)
  else if errors_Is e ErrMessageTooLarge then (552, "5.3.4 message exceeds size limit" : str)
  else if errors_Is e ErrDailyLimit then (452, "4.3.1 daily receiving budget exceeded" : str)
  else (451, "4.3.0 temporary local failure" : str).

Definition metadata (s : session) (receivedAt : str) (staged : Staged) : MessageMetadata :=
  {| md_Connection := connectionInfo s; md_EnvelopeFrom := envelopeAddress (tx_from (tx s));
     md_Recipients := envelopeAddresses (tx_recipients (tx s)); md_ReceivedAt := receivedAt;
     md_Octets := Size staged |}.

(** The message is staged, [bytesRead] octets of it: the policy decides, and it is
    published. *)
Definition finish_data (receivedAt : str) (bytesRead : Z) (staged : Staged) (s : session) (w : W) : session * W :=
  let content := Open staged w in
  let decision := evaluateMessage (metadata s receivedAt staged) content in
  match mdec_Action decision with
  | MessageAccept =>
      match Publish staged w with
      | (Err e, w) =>
          let s := note (PublicationFailed e) s in
          let s := if errors_Is e ErrDailyLimit then say 452 "4.3.1 daily receiving budget exceeded" s
                   else say 451 "4.3.0 temporary local failure" s in
          (close s, Discard staged w)
      | (Ok (id, path), w) =>
          let s := emit (Delivered (connectionInfo s) (tx s) content id path) s in
          let s := note (MessageDelivered (tx_from (tx s)) (tx_recipients (tx s)) bytesRead id path (encrypted s)) s in
          (say 250 "2.0.0 message accepted" (set_tx no_transaction s), w)
      end
  | action =>
      let s := set_tx no_transaction (note (MessagePolicy action (truncateReason (mdec_Reason decision))) s) in
      (if decide (action = MessageRejectPolicy) then say 550 "5.7.1 message rejected by policy" s
       else say 451 "4.7.1 message temporarily rejected" s, Discard staged w)
  end.

Definition handle_data (argument : str) (s : session) (w : W) : session * W :=
  if negb (bool_decide (argument = [])) || bool_decide (tx_recipients (tx s) = [])
  then (say 503 "5.5.1 valid MAIL and RCPT required" s, w)
  else match CheckReceive w with
  | Some e => (say 452 "4.3.1 receiving budget or storage temporarily unavailable" (note (AdmissionFailed e) s), w)
  | None =>
      let '(ok, s) := reply 354 "end with <CRLF>.<CRLF>" s in
      if negb ok then (close s, w)
      else
        let receivedAt := received_at (rounds s) in
        let headers := deliveryHeaders (hostname server) remote (helo s) (encrypted s) (tx s) receivedAt in
        let data := newDataReader (maxMessageSize server) (input s) in
        let '(reads, data) := copy_reads copy_sizes headers data in
        match Stage reads w with
        | (Err e, w) =>
            let '(code, message) := stage_failure e in (close (say code message (note (DeliveryFailed e) s)), w)
        | (Ok staged, w) => finish_data receivedAt (dr_bytesRead data) staged (set_input (dr_input data) s) w
        end
  end.

Definition handle_rset (s : session) : session := say 250 "2.0.0 reset" (set_tx no_transaction s).

Definition handle_noop (s : session) : session := say 250 "2.0.0 ok" s.

Definition handle_quit (s : session) : session := close (say 221 "2.0.0 bye" s).

(** A command the server does not know. *)
Definition handle_unknown (s : session) : session := say 502 "5.5.1 command not implemented" s.

(** ** The command loop *)

Definition dispatch (command argument : str) (s : session) (w : W) : session * W :=
  if decide (command = "EHLO") then (handle_helo true argument s, w)
  else if decide (command = "HELO") then (handle_helo false argument s, w)
  else if decide (command = "STARTTLS") then (handle_starttls argument s, w)
  else if decide (command = "MAIL") then (handle_mail argument s, w)
  else if decide (command = "RCPT") then (handle_rcpt argument s, w)
  else if decide (command = "DATA") then handle_data argument s w
  else if decide (command = "RSET") then (handle_rset s, w)
  else if decide (command = "NOOP") then (handle_noop s, w)
  else if decide (command = "QUIT") then (handle_quit s, w)
  else (handle_unknown s, w).

(** One turn of the loop. *)
Definition serve_command (s : session) (w : W) : session * W :=
  let s := next_round s in
  if negb (deadline_ok (rounds s)) then (close s, w)
  else match readLimitedLine maxCommandLineBytes (input s) with
  | (Err e, rest) =>
      let s := set_input rest s in
      (close (if errors_Is e ErrDataLineTooLong then say 500 "5.5.2 command line too long" s else s), w)
  | (Ok line, rest) =>
      let '(command, argument) := splitCommand line in
      dispatch command argument (set_input rest s) w
  end.

Fixpoint serve_loop (fuel : nat) (s : session) (w : W) : session * W :=
  match fuel with
  | O => (s, w)
  | S fuel =>
      if closed s then (s, w)
      else let '(s, w) := serve_command s w in serve_loop fuel s w
  end.

Definition new_session (stream : str) : session :=
  {| greeted := false; helo := []; encrypted := false; tx := no_transaction; input := stream;
     rounds := 0; writes := 0; trace := []; logged := []; closed := false |}.

(** [serveConn] on the bytes the client sends. *)
Definition serveConn (fuel : nat) (stream : str) (w : W) : session * W :=
  let '(ok, s) := reply 220 (hostname server ++ " ESMTP picomx") (new_session stream) in
  if ok then serve_loop fuel s w else (close s, w).
End Handlers.
