(* ===== verification/SmtpRequest.v ===== *)
(** * The message a policy judges (internal/smtp/server.go: messageRequest)

    A policy is local code that calls the three methods of [MessageRequest] as often
    and in whatever order it likes.  Its header is parsed from the staged file once
    and remembered; opening the file can fail.  Parsing a header is
    [mail.ReadMessage], a parameter. *)

From S2P Require Import Prelude GoStrings Config SmtpSyntax SmtpSession.

(** ** Data *)

(** [mail.Header]; the nil map is empty. *)
Definition mail_Header : Type := list (str * list str).

Class MailReader := { ReadMessage : str -> result mail_Header }.

(** A policy's code after it has read the metadata: its calls and its decision, or
    a panic. *)
Inductive strategy :=
  | Decide (decision : MessageDecision)
  | Panic
  | AskHeader (k : mail_Header -> strategy)
  | AskOpen (k : result str -> strategy).

(** [messageRequest]; [headerOnce] is whether it has run, [opens] counts the calls
    of [staged.Open]. *)
Record messageRequest := {
  request_metadata : MessageMetadata;
  headerOnce : bool;
  header : mail_Header;
  opens : nat;
}.

Definition new_request (metadata : MessageMetadata) : messageRequest :=
  {| request_metadata := metadata; headerOnce := false; header := []; opens := 0 |}.

(** ** Operations *)

(** The first [limit] bytes, as [io.LimitReader] yields them. *)
Definition LimitReader (limit : Z) (s : str) : str :=
  if Z.of_nat (length s) <=? limit then s else take (Z.to_nat limit) s.

Definition header_limit : Z := Z.shiftl 1 20.

Section Request.
Context `{MailReader}.
(** The staged message, and whether each [staged.Open] fails. *)
Context (content : str) (open_error : nat -> option error).

Definition request_Metadata (r : messageRequest) : MessageMetadata := request_metadata r.

Definition request_Open (r : messageRequest) : result str * messageRequest :=
  (match open_error (opens r) with Some e => Err e | None => Ok content end,
   {| request_metadata := request_metadata r; headerOnce := headerOnce r; header := header r; opens := S (opens r) |}).

Definition remember (h : mail_Header) (r : messageRequest) : messageRequest :=
  {| request_metadata := request_metadata r; headerOnce := true; header := h; opens := opens r |}.

Definition request_Header (r : messageRequest) : mail_Header * messageRequest :=
  if headerOnce r then (header r, r)
  else
    let '(file, r) := request_Open r in
    let r := match file with
             | Err _ => remember (header r) r
             | Ok file => match ReadMessage (LimitReader header_limit file) with
                          | Ok h => remember h r
                          | Err _ => remember (header r) r
                          end
             end in
    (header r, r).

(** A policy at work on a request. *)
Fixpoint judge (p : strategy) (r : messageRequest) : option MessageDecision * messageRequest :=
  match p with
  | Decide decision => (Some decision, r)
  | Panic => (None, r)
  | AskHeader k => let '(h, r) := request_Header r in judge (k h) r
  | AskOpen k => let '(file, r) := request_Open r in judge (k file) r
  end.

(** ** What a policy sees *)

(** The header of a message, as a policy is to see it. *)
Definition header_of (message : str) : mail_Header :=
  match ReadMessage (LimitReader header_limit message) with Ok h => h | Err _ => [] end.

(** The decision as a function of the message. *)
Fixpoint consult (p : strategy) (message : str) : option MessageDecision :=
  match p with
  | Decide decision => Some decision
  | Panic => None
  | AskHeader k => consult (k (header_of message)) message
  | AskOpen k => consult (k (Ok message)) message
  end.

Definition request_ok (r : messageRequest) : Prop := header r = if headerOnce r then header_of content else [].

Lemma request_Header_once r : headerOnce (request_Header r).2 = true /\ header (request_Header r).2 = (request_Header r).1.
Proof.
  unfold request_Header. destruct (headerOnce r) eqn:E; [done|]. unfold request_Open.
  destruct (open_error _); [done|]. by destruct (ReadMessage _).
Qed.

(** Whatever became of the first call, the next one opens nothing and gives the
    same header. *)
Lemma request_Header_again r : request_Header (request_Header r).2 = request_Header r.
Proof.
  destruct (request_Header_once r) as [H1 H2]. destruct (request_Header r) as [h r'] eqn:E. cbn [fst snd] in *.
  unfold request_Header. by rewrite H1, H2.
Qed.

Lemma request_Header_ok r : (forall n, open_error n = None) -> request_ok r ->
  (request_Header r).1 = header_of content /\ request_ok (request_Header r).2.
Proof.
  unfold request_ok, request_Header. intros Ho Hr. destruct (headerOnce r) eqn:E; cbn [fst snd].
  - by rewrite E.
  - unfold request_Open. rewrite Ho. unfold header_of. by destruct (ReadMessage _).
Qed.

Lemma judge_ok p r : (forall n, open_error n = None) -> request_ok r -> (judge p r).1 = consult p content.
Proof.
  intros Ho. revert r. induction p as [d| |k IH|k IH]; intros r Hr; cbn [judge consult]; [done..| |].
  - destruct (request_Header_ok r Ho Hr) as [Hh Hr']. destruct (request_Header r) as [h r']. cbn [fst snd] in *.
    subst h. by apply IH.
  - unfold request_Open. rewrite Ho. by apply IH.
Qed.

(** A policy judges the message itself.  However a policy calls the methods of the
    request it is given, while the staged file can be opened its decision is a
    function of the envelope's metadata and the staged content alone, as the model
    of [evaluateMessage] has it, and a panic is a temporary failure. *)
Theorem policies_judge_content server (p : MessageMetadata -> strategy) metadata :
  (forall n, open_error n = None) ->
  (forall md message, EvaluateMessage (SMTPPolicy := policy server) md message = consult (p md) message) ->
  evaluateMessage server metadata content =
  match (judge (p metadata) (new_request metadata)).1 with
  | Some decision => decision
  | None => {| mdec_Action := MessageTempFail; mdec_Reason := "policy_panic" |}
  end.
Proof. intros Ho Hp. unfold evaluateMessage. rewrite Hp. by rewrite judge_ok by done. Qed.
End Request.

(** ** A witness *)

Module Demo.
(** A header reader that finds one field, and a policy that reads it twice and
    opens the message in between. *)
#[local] Instance reader : MailReader :=
  {| ReadMessage s := match IndexByte s ":"%char with
                      | Some i => Ok [(take i s, [drop (S i) s])]
                      | None => Err (Sentinel IoEOF)
                      end |}.

Definition accept : MessageDecision := {| mdec_Action := MessageAccept; mdec_Reason := "read" |}.

Definition careful (md : MessageMetadata) : strategy :=
  AskHeader (fun h => AskOpen (fun file => AskHeader (fun h' =>
    if bool_decide (h = h') && is_ok file && (0 <? md_Octets md) then Decide accept else Panic))).

Definition server : Server := {|
  hostname := "mx.example.net"; domains := {["example.net" : str]}; tlsConfig := false;
  maxMessageSize := defaultMaxMessageBytes; maxRecipients := defaultMaxRecipients; idleTimeout := defaultIdleTimeout;
  policy := {| EvaluateRecipient _ := None; EvaluateMessage md message := consult (careful md) message |};
  connections := defaultMaxConnections |}.

Definition sample : MessageMetadata := {|
  md_Connection := {| ci_RemoteIP := "192.0.2.1"; ci_HELO := "client"; ci_TLS := false |};
  md_EnvelopeFrom := {| Local := []; Domain := [] |}; md_Recipients := []; md_ReceivedAt := []; md_Octets := 9 |}.

Lemma policies_judge_content_witness :
  evaluateMessage server sample "Subject:x" = accept /\
  (judge "Subject:x" (fun _ => None) (careful sample) (new_request sample)).1 = Some accept.
Proof.
  split; [|by vm_compute].
  rewrite (policies_judge_content "Subject:x" (fun _ => None) server careful sample (fun _ => eq_refl)
    (fun _ _ => eq_refl)).
  by vm_compute.
Defined.

(** Over a file that cannot be opened the header stays empty and the policy panics. *)
Lemma unreadable_message : (judge "Subject:x" (fun _ => Some (New "gone")) (careful sample) (new_request sample)).1 = None.
Proof. by vm_compute. Qed.
End Demo.
