(* ===== verification/SmtpSpec.v ===== *)
(** * Properties of the SMTP server

    The invariant of a session, for every client, policy, network and mail
    store: what may be in a transaction, what is delivered, and what the client
    is told about it. *)

From S2P Require Import Prelude GoStrings Tree Config Wire SmtpSyntax SmtpData SmtpSession.

(** ** What [Stage] promises *)

(** The source was read to its end. *)
Definition complete (reads : list (str * option error)) : Prop :=
  exists before bytes e, reads = before ++ [(bytes, Some e)] /\ errors_Is e IoEOF = true.

(** A source yields nothing after an error. *)
Definition ends_once (reads : list (str * option error)) : Prop :=
  forall i bytes e, reads !! i = Some (bytes, Some e) -> S i = length reads.

Class DeliveryLaws (W Staged : Type) `{Delivery W Staged} := {
  Stage_content reads w staged w' : ends_once reads -> Stage reads w = (Ok staged, w') ->
    complete reads /\ Open staged w' = mjoin reads.*1;
}.

(** ** Substrings: no byte appears that the line did not have *)

Section Substrings.
Context `{UnicodeTables}.

Lemma TrimSuffix_subseteq s p c : c ∈ TrimSuffix s p -> c ∈ s.
Proof. unfold TrimSuffix. case_match; [|done]. intros Hc. rewrite <- (take_drop (length s - length p) s). set_solver. Qed.

Lemma Cut_subseteq s sep b a f : Cut s sep = (b, a, f) -> forall c, c ∈ b \/ c ∈ a -> c ∈ s.
Proof.
  destruct f; intros E c Hc.
  - apply Cut_found in E as [-> _]. set_solver.
  - apply Cut_missing in E as (-> & -> & _). set_solver.
Qed.

Lemma elem_of_take_drop (n m : nat) (s : str) c : c ∈ take n (drop m s) -> c ∈ s.
Proof. intros Hc. rewrite <- (take_drop m s). apply elem_of_app. right. rewrite <- (take_drop n (drop m s)). set_solver. Qed.

Lemma splitCommand_subseteq line command argument :
  splitCommand line = (command, argument) -> forall c, c ∈ argument -> c ∈ line.
Proof.
  unfold splitCommand. destruct (Cut line " "%char) as [[b a] f] eqn:E. destruct f; intros [= <- <-] c Hc.
  - apply TrimSpace_subseteq in Hc. eapply Cut_subseteq; eauto.
  - by apply elem_of_nil in Hc.
Qed.

Lemma parsePath_ok argument prefix allowEmpty address params :
  parsePath argument prefix allowEmpty = Ok (address, params) ->
  (forall c, c ∈ address -> c ∈ argument) /\
  (validAddress address = true \/ (address = [] /\ allowEmpty = true)).
Proof.
  unfold parsePath. destruct (_ || _); [done|]. destruct (negb _); [done|].
  destruct (IndexByte _ _) as [fin|]; [|done].
  set (addr := take (fin - 1) (drop 1 (TrimSpace (drop (length prefix) argument)))).
  assert (forall c, c ∈ addr -> c ∈ argument) as Hsub.
  { intros c Hc. apply elem_of_take_drop, TrimSpace_subseteq in Hc.
    rewrite <- (take_drop (length prefix) argument). set_solver. }
  destruct (bool_decide (addr = []) && allowEmpty) eqn:E.
  - apply andb_true_iff in E as [E%bool_decide_eq_true ->]. intros [= <- <-]. auto.
  - destruct (validAddress addr) eqn:Ev; cbn [negb]; [|done]. intros [= <- <-]. auto.
Qed.
End Substrings.

(** ** The copy of a message *)

Section Copy.
Context `{Conn}.

Lemma copy_reads_spec sizes headers r m e rest :
  remaining r = (m, e, rest) ->
  let '(reads, r') := copy_reads sizes headers r in
  (exists before bytes, reads = before ++ [(bytes, Some e)] /\ Forall (fun x => x.2 = None) before /\
     mjoin reads.*1 = headers ++ m /\ dr_input r' = rest) \/
  (Forall (fun x => x.2 = None) reads /\ mjoin reads.*1 `prefix_of` headers ++ m /\
   (Forall (fun n => 1 <= n)%nat sizes -> (length sizes <= length (headers ++ m))%nat)).
Proof.
  revert headers r m. induction sizes as [|size sizes IH]; intros headers r m Hr; cbn [copy_reads].
  { right. split; [done|]. split; [apply prefix_nil | simpl; lia]. }
  unfold multiReader_Read. destruct headers as [|c headers].
  - pose proof (dataReader_Read_step size r m e rest Hr) as Hs.
    destruct (dataReader_Read size r) as [[bytes [e'|]] r'].
    + destruct Hs as (-> & -> & -> & <-). left. by exists [], [].
    + destruct Hs as (m' & -> & Hr' & Hlen). specialize (IH [] r' m' Hr').
      destruct (copy_reads sizes [] r') as [reads r''].
      destruct IH as [(before & b & -> & Hb & Hm & Hd)|(Hn & Hp & Hl)]; [left|right].
      * exists ((bytes, None) :: before), b. split; [done|]. split; [by constructor|]. split; [|done].
        change (bytes ++ mjoin (before ++ [(b, Some e)]).*1 = [] ++ bytes ++ m').
        by rewrite Hm.
      * split; [by constructor|]. split; [cbn in Hp |- *; by apply prefix_app|].
        intros [H1 H2]%Forall_cons. specialize (Hl H2). specialize (Hlen H1). cbn in *. rewrite length_app. lia.
  - set (h := c :: headers) in *. specialize (IH (drop size h) r m Hr).
    destruct (copy_reads sizes (drop size h) r) as [reads r''].
    destruct IH as [(before & b & -> & Hb & Hm & Hd)|(Hn & Hp & Hl)]; [left|right].
    + exists ((take size h, None) :: before), b. split; [done|]. split; [by constructor|]. split; [|done].
      change (take size h ++ mjoin (before ++ [(b, Some e)]).*1 = h ++ m).
      rewrite Hm, app_assoc. by rewrite take_drop.
    + split; [by constructor|]. split.
      * rewrite fmap_cons. change (take size h ++ mjoin reads.*1 `prefix_of` h ++ m).
        rewrite <- (take_drop size h) at 2. rewrite <- app_assoc. by apply prefix_app.
      * intros [H1 H2]%Forall_cons. specialize (Hl H2). rewrite !length_app, length_drop in *. cbn [length] in *.
        unfold h in *. cbn [length] in *. lia.
Qed.

(** A message ends in end of file exactly when the final dot was read. *)
Lemma data_spec_eof fuel maxBytes used input m e rest :
  data_spec fuel maxBytes used input = (m, e, rest) -> errors_Is e IoEOF = true -> e = Sentinel IoEOF.
Proof.
  revert used input m e rest. induction fuel as [|fuel IH]; intros used input m e rest; cbn [data_spec];
    [by intros [= <- <- <-]|].
  destruct (readLimitedLineRaw maxDataLineBytes input) as [[line|err] rest'].
  - destruct (is_final_dot line); [by intros [= <- <- <-]|].
    destruct (_ <? _)%nat; [by intros [= <- <- <-]|]. destruct (_ <? _); [by intros [= <- <- <-]|].
    destruct (data_spec _ _ _ rest') as [[more e'] rest''] eqn:E. intros [= <- <- <-]. by eapply IH.
  - destruct (errors_Is err IoEOF) eqn:Ee; intros [= <- <- <-]; [done | by rewrite Ee].
Qed.

Lemma copy_reads_end sizes headers r reads r' : copy_reads sizes headers r = (reads, r') -> ends_once reads.
Proof.
  revert headers r reads. induction sizes as [|size sizes IH]; intros headers r reads; cbn [copy_reads];
    [by intros [= <- <-] i bytes e|].
  destruct (multiReader_Read size headers r) as [[[bytes [e|]] headers'] r1].
  - intros [= <- <-] [|i] bytes' e'; cbn; [done | by destruct i].
  - destruct (copy_reads sizes headers' r1) as [more r2] eqn:E. intros [= <- ->]. specialize (IH _ _ _ E).
    intros [|i] bytes' e' Hi; [done|]. cbn in *. f_equal. by eapply IH.
Qed.

(** The staged content of a complete copy: the headers, then the message. *)
Lemma copy_reads_complete sizes headers maxBytes stream reads r :
  copy_reads sizes headers (newDataReader maxBytes stream) = (reads, r) -> complete reads ->
  exists m, remaining (newDataReader maxBytes stream) = (m, Sentinel IoEOF, dr_input r) /\ mjoin reads.*1 = headers ++ m.
Proof.
  intros Hc (before & bytes & e & -> & He).
  destruct (remaining (newDataReader maxBytes stream)) as [[m e'] rest] eqn:Hr.
  pose proof (copy_reads_spec sizes headers _ _ _ _ Hr) as Hs. rewrite Hc in Hs.
  destruct Hs as [(before' & bytes' & E & _ & Hm & Hd)|(Hn & _)].
  - apply app_inj_tail in E as [_ [= -> ->]].
    rewrite Hd. assert (e' = Sentinel IoEOF) as ->; [|by exists m].
    unfold remaining, newDataReader in Hr. cbn [dr_done dr_input dr_maxBytes dr_bytesRead dr_pending] in Hr.
    destruct (data_spec _ _ _ _) as [[m' e''] rest'] eqn:E. injection Hr as <- <- <-.
    eapply data_spec_eof; eauto.
  - apply Forall_app in Hn as [_ [Hn _]%Forall_cons]. discriminate Hn.
Qed.
End Copy.

(** ** Reads of bounded size *)

Lemma dataReader_Read_size `{Conn} size r : (length (dataReader_Read size r).1.1 <= size)%nat.
Proof.
  unfold dataReader_Read, take_pending. repeat case_match; cbn [fst]; rewrite ?length_take; cbn [length]; lia.
Qed.

Lemma copy_reads_size `{Conn} sizes headers r n : Forall (fun k => Z.of_nat k <= n) sizes ->
  Forall (fun x => Z.of_nat (length x.1) <= n) (copy_reads sizes headers r).1.
Proof.
  intros HF. revert headers r. induction HF as [|size sizes Hs HF IH]; intros headers r; [constructor|]. cbn [copy_reads].
  assert (length (multiReader_Read size headers r).1.1.1 <= size)%nat as Hl.
  { unfold multiReader_Read. destruct headers as [|c headers].
    - pose proof (dataReader_Read_size size r). by destruct (dataReader_Read size r) as [[bytes e] r'].
    - cbn [fst]. rewrite length_take. lia. }
  destruct (multiReader_Read size headers r) as [[[bytes [e|]] headers'] r']; cbn [fst] in *.
  - constructor; [cbn; lia | constructor].
  - specialize (IH headers' r'). destruct (copy_reads sizes headers' r') as [reads r2]. constructor; [cbn; lia | done].
Qed.

(** ** The invariant *)

Definition accepted_reply : event := Reply 250 ["2.0.0 message accepted" : str].

Definition is_delivered (e : event) : Prop := match e with Delivered _ _ _ _ _ => True | _ => False end.

(** An acceptance follows each delivery at once, and there is no other. *)
Inductive paired : list event -> Prop :=
  | paired_nil : paired []
  | paired_other t e : paired t -> e <> accepted_reply -> ~ is_delivered e -> paired (t ++ [e])
  | paired_delivery t e : paired t -> is_delivered e -> paired ((t ++ [e]) ++ [accepted_reply]).

Record server_ok `{UnicodeTables} (server : Server) : Prop := {
  sv_hostname : validDomain (hostname server) = true;
  sv_recipients : 1 <= maxRecipients server;
  sv_size : 1 <= maxMessageSize server;
  sv_domains : forall d, d ∈ domains server -> validDomain d = true;
}.

Section Invariant.
Context {W Staged : Type}.
Context `{Conn, UnicodeTables, !Delivery W Staged, !DeliveryLaws W Staged, SmtpEnv}.
Context (server : Server) (Hserver : server_ok server).

(** The policy accepted the recipient, asked with the transaction's data. *)
Definition policy_accepts (info : ConnectionInfo) (from address : str) : Prop :=
  rd_Action (evaluateRecipient server
    {| rq_Connection := info; rq_EnvelopeFrom := envelopeAddress from; rq_Recipient := envelopeAddress address |})
  = RecipientAccept.

Definition recipient_ok (info : ConnectionInfo) (from address : str) : Prop :=
  validAddress address = true /\ served server address = true /\ LF ∉ address /\ policy_accepts info from address.

Record transaction_ok (info : ConnectionInfo) (t : transaction) : Prop := {
  to_started : tx_recipients t <> [] -> tx_started t = true;
  to_from : (tx_from t = [] \/ validAddress (tx_from t) = true) /\ LF ∉ tx_from t;
  to_recipients : Forall (recipient_ok info (tx_from t)) (tx_recipients t);
  to_bound : Z.of_nat (length (tx_recipients t)) <= maxRecipients server;
}.

(** What was delivered: a checked transaction with a recipient, and a content that
    the policy accepted with its envelope. *)
Definition event_ok (e : event) : Prop :=
  match e with
  | Delivered info t content _ _ =>
      transaction_ok info t /\ tx_recipients t <> [] /\ validHelo (ci_HELO info) = true /\ LF ∉ ci_HELO info /\
      (exists md, md_Connection md = info /\ md_EnvelopeFrom md = envelopeAddress (tx_from t) /\
         md_Recipients md = envelopeAddresses (tx_recipients t) /\
         mdec_Action (evaluateMessage server md content) = MessageAccept)
  | _ => True
  end.

Record session_ok (s : session) : Prop := {
  so_helo : LF ∉ helo s;
  so_greeted : greeted s = true -> validHelo (helo s) = true;
  so_started : tx_started (tx s) = true -> greeted s = true;
  so_tx : transaction_ok (connectionInfo s) (tx s);
  so_tls : encrypted s = true -> tlsConfig server = true;
  so_paired : paired (trace s);
  so_events : Forall event_ok (trace s);
}.

Lemma no_transaction_ok info : transaction_ok info no_transaction.
Proof.
  pose proof (sv_recipients _ Hserver). split; cbn.
  - done.
  - split; [by left | apply not_elem_of_nil].
  - constructor.
  - lia.
Qed.

Lemma new_session_ok stream : session_ok (new_session stream).
Proof. split; cbn; try done; [apply not_elem_of_nil | apply no_transaction_ok | constructor]. Qed.

(** Replying other than the acceptance keeps everything. *)
Lemma reply_lines_ok code lines s : session_ok s -> Reply code lines <> accepted_reply ->
  session_ok (reply_lines code lines s).2.
Proof.
  intros [] Hne. split; cbn; try done.
  - apply paired_other; [done | done | by intros []].
  - apply Forall_app. split; [done|]. by repeat constructor.
Qed.

Lemma say_ok code message s : session_ok s -> Reply code [message] <> accepted_reply -> session_ok (say code message s).
Proof. apply reply_lines_ok. Qed.

(** Steps that leave the conversation alone. *)
Lemma close_ok s : session_ok s -> session_ok (close s).
Proof. by intros []. Qed.

Lemma set_input_ok rest s : session_ok s -> session_ok (set_input rest s).
Proof. by intros []. Qed.

Lemma next_round_ok s : session_ok s -> session_ok (next_round s).
Proof. by intros []. Qed.

Lemma set_tx_ok t s : session_ok s -> transaction_ok (connectionInfo s) t -> (tx_started t = true -> greeted s = true) ->
  session_ok (set_tx t s).
Proof. by intros [] Ht Hs. Qed.

Lemma reset_ok s : session_ok s -> session_ok (set_tx no_transaction s).
Proof. intros Hs. apply set_tx_ok; [done | apply no_transaction_ok | done]. Qed.

Lemma note_ok entry s : session_ok s -> session_ok (note entry s).
Proof. by intros []. Qed.

Lemma log_recipient_ok recipient decision s : session_ok s -> session_ok (logRecipientDecision recipient decision s).
Proof. apply note_ok. Qed.

Hint Resolve say_ok close_ok note_ok log_recipient_ok set_input_ok next_round_ok reset_ok no_transaction_ok : picomx.

(** A reply with a literal code other than 250, or with another text. *)
Ltac other := first [by intros [=] | discriminate | by vm_compute].
Ltac replied := apply say_ok; [solve [auto with picomx] | other].

Lemma hostname_not_accepted : Reply 250 [hostname server] <> accepted_reply.
Proof. pose proof (sv_hostname _ Hserver) as Hh. intros [= E]. rewrite E in Hh. by vm_compute in Hh. Qed.

Lemma handle_helo_ok extended argument s : session_ok s -> LF ∉ argument ->
  session_ok (handle_helo server extended argument s).
Proof.
  intros Hs Harg. unfold handle_helo. destruct (validHelo argument) eqn:Ev; cbn [negb]; [|replied].
  assert (session_ok (set_greeting argument s)) as Hg.
  { destruct Hs. split; cbn; try done. apply no_transaction_ok. }
  destruct extended.
  - by apply reply_lines_ok.
  - apply say_ok; [done | apply hostname_not_accepted].
Qed.

Lemma handle_starttls_ok argument s : session_ok s -> session_ok (handle_starttls server argument s).
Proof.
  intros Hs. unfold handle_starttls. destruct (_ || encrypted s) eqn:E; [replied|].
  apply orb_false_iff in E as [[_ Ht%negb_false_iff]%orb_false_iff _].
  unfold reply. destruct (reply_lines 220 _ s) as [ok s'] eqn:Er.
  assert (session_ok s') as Hs' by (replace s' with (reply_lines 220 ["2.0.0 ready to start TLS" : str] s).2
    by (by rewrite Er); by apply reply_lines_ok).
  destruct ok; cbn [negb]; [|auto with picomx]. destruct (handshake _) as [plaintext|e]; [|auto with picomx].
  destruct Hs'. split; cbn; try done.
  - apply not_elem_of_nil.
  - apply no_transaction_ok.
  - apply paired_other; [done | done | by intros []].
  - apply Forall_app. by repeat constructor.
Qed.

Lemma handle_mail_ok argument s : session_ok s -> LF ∉ argument -> session_ok (handle_mail server argument s).
Proof.
  intros Hs Harg. unfold handle_mail. destruct (greeted s) eqn:Eg; cbn [negb]; [|replied].
  destruct (parsePath argument "FROM:" true) as [[address params]|e] eqn:Ep; [|replied].
  apply parsePath_ok in Ep as [Hsub Hv].
  destruct (validateMailParameters _ _) as [e|]; [destruct (errors_Is e _); replied|].
  apply say_ok; [|other]. apply set_tx_ok; [done | | done].
  pose proof (sv_recipients _ Hserver). split; cbn; [done | | by constructor | lia].
  split; [|auto]. destruct Hv as [?|[-> _]]; auto.
Qed.

Lemma handle_rcpt_ok argument s : session_ok s -> LF ∉ argument -> session_ok (handle_rcpt server argument s).
Proof.
  intros Hs Harg. unfold handle_rcpt. destruct (tx_started (tx s)) eqn:Es; cbn [negb]; [|replied].
  destruct (parsePath argument "TO:" false) as [[address params]|e] eqn:Ep; [|replied].
  apply parsePath_ok in Ep as [Hsub [Hv|[_ ?]]]; [|done].
  destruct (negb (bool_decide _)); [replied|].
  destruct (served server address) eqn:Ed; cbn [negb]; [|replied].
  destruct (Z.leb_spec (maxRecipients server) (Z.of_nat (length (tx_recipients (tx s))))); [replied|].
  destruct (rd_Action _) eqn:Ea; try replied.
  apply say_ok; [|other]. pose proof (so_tx _ Hs) as []. apply set_tx_ok; [done | | by intros; apply (so_started _ Hs)].
  split; cbn; [done | done | | rewrite length_app; simpl; lia].
  apply Forall_app. split; [done|]. constructor; [|constructor]. unfold recipient_ok.
  split; [done|]. split; [done|]. split; [by intros ?%Hsub | exact Ea].
Qed.

Lemma deliver_ok s s' content id path entry :
  session_ok s -> event_ok (Delivered (connectionInfo s) (tx s) content id path) ->
  s' = say 250 "2.0.0 message accepted"
    (set_tx no_transaction (note entry (emit (Delivered (connectionInfo s) (tx s) content id path) s))) ->
  session_ok s'.
Proof.
  intros [] He ->. split; cbn; try done.
  - apply no_transaction_ok.
  - by apply paired_delivery.
  - rewrite !Forall_app. split; [split; [done | by constructor]|]. by repeat constructor.
Qed.

Lemma handle_data_ok argument s w : session_ok s -> session_ok (handle_data server argument s w).1.
Proof.
  intros Hs. unfold handle_data. destruct (_ || bool_decide (tx_recipients (tx s) = [])) eqn:E; [cbn [fst]; replied|].
  apply orb_false_iff in E as [_ Hne%bool_decide_eq_false].
  destruct (CheckReceive w); [cbn [fst]; replied|].
  unfold reply. destruct (reply_lines 354 _ s) as [ok s'] eqn:Er.
  assert (session_ok s') as Hs' by (replace s' with (reply_lines 354 ["end with <CRLF>.<CRLF>" : str] s).2
    by (by rewrite Er); by apply reply_lines_ok).
  assert (tx s' = tx s) as Etx by (unfold reply_lines in Er; by injection Er as <- <-).
  destruct ok; cbn [negb]; [|cbn [fst]; auto with picomx].
  destruct (copy_reads _ _ _) as [reads data] eqn:Ec.
  destruct (Stage reads w) as [[staged|e] w'] eqn:Est.
  - unfold finish_data. set (s'' := set_input (dr_input data) s').
    assert (session_ok s'') as Hs'' by (by apply set_input_ok).
    destruct (mdec_Action _) as [| | |] eqn:Ed; try (cbn [fst]; case_decide; replied).
    destruct (Publish staged w') as [[[id path]|e] w''].
    + cbn [fst]. eapply deliver_ok; [exact Hs'' | | reflexivity]. cbn [event_ok].
      split; [apply (so_tx _ Hs'')|]. split; [change (tx s'') with (tx s'); by rewrite Etx|].
      split; [apply (so_greeted _ Hs''), (so_started _ Hs''), (to_started _ _ (so_tx _ Hs''));
              change (tx s'') with (tx s'); by rewrite Etx|].
      split; [exact (so_helo _ Hs'')|]. by eexists (metadata _ _ _).
    + cbn [fst]. apply close_ok. destruct (errors_Is e _); replied.
  - destruct (stage_failure e) as [code message] eqn:Ef. cbn [fst]. apply close_ok, say_ok; [by apply note_ok|].
    unfold stage_failure in Ef. repeat case_match; by simplify_eq.
Qed.

Lemma dispatch_ok command argument s w : session_ok s -> LF ∉ argument ->
  session_ok (dispatch server command argument s w).1.
Proof.
  intros Hs Harg. unfold dispatch. repeat case_decide; cbn [fst];
    auto using handle_helo_ok, handle_starttls_ok, handle_mail_ok, handle_rcpt_ok, handle_data_ok; try replied.
  apply close_ok. replied.
Qed.

(** A command line holds no line feed. *)
Lemma readLimitedLine_sound limit stream line rest :
  readLimitedLine limit stream = (Ok line, rest) -> LF ∉ line /\ (length rest < length stream)%nat.
Proof.
  unfold readLimitedLine, readLimitedLineRaw. destruct (read_limited _ _ _ _) as [[raw|e] rest'] eqn:E; [|done].
  intros [= <- <-]. apply read_limited_sound in E as (-> & body & -> & Hb & _). unfold trim_eol.
  rewrite TrimSuffix_app. split; [by intros Hc%TrimSuffix_subseteq|]. rewrite !length_app. simpl. lia.
Qed.

Lemma serve_command_ok s w : session_ok s -> session_ok (serve_command server s w).1.
Proof.
  intros Hs. unfold serve_command. destruct (negb (deadline_ok _)); [cbn [fst]; auto with picomx|].
  destruct (readLimitedLine _ _) as [[line|e] rest] eqn:E.
  - apply readLimitedLine_sound in E as [Hl _]. destruct (splitCommand line) as [command argument] eqn:Es.
    apply dispatch_ok; [auto with picomx|]. intros Hc. by apply Hl, (splitCommand_subseteq _ _ _ Es).
  - cbn [fst]. apply close_ok. destruct (errors_Is e _); [replied | auto with picomx].
Qed.

Lemma serve_loop_ok fuel s w : session_ok s -> session_ok (serve_loop server fuel s w).1.
Proof.
  revert s w. induction fuel as [|fuel IH]; intros s w Hs; cbn [serve_loop]; [done|].
  destruct (closed s); [done|]. pose proof (serve_command_ok s w Hs) as H'.
  destruct (serve_command server s w) as [s' w']. by apply IH.
Qed.

Lemma serveConn_ok fuel stream w : session_ok (serveConn server fuel stream w).1.
Proof.
  unfold serveConn, reply. pose proof (reply_lines_ok 220 [hostname server ++ " ESMTP picomx"] _ (new_session_ok stream)) as Hr.
  destruct (reply_lines 220 _ _) as [ok s]. destruct ok; cbn [fst]; [apply serve_loop_ok | apply close_ok]; by apply Hr.
Qed.
End Invariant.

(** ** Construction *)

Section Construction.
Context `{UnicodeTables}.

Lemma add_domains_ok raws acc ds : add_domains raws acc = Ok ds -> (forall d, d ∈ acc -> validDomain d = true) ->
  forall d, d ∈ ds -> validDomain d = true.
Proof.
  revert acc. induction raws as [|raw raws IH]; intros acc; cbn [add_domains]; [by intros [= ->]|].
  destruct (validDomain (normalizeDomain raw)) eqn:E; cbn [negb]; [|done]. intros Hd Hacc.
  apply (IH _ Hd). intros d [->%elem_of_singleton|]%elem_of_union; auto.
Qed.

Lemma or_default_pos value fallback : 1 <= fallback -> 1 <= or_default value fallback.
Proof. unfold or_default. destruct (Z.leb_spec value 0); lia. Qed.

Lemma NewServer_ok factory options server : NewServer factory options = Ok server -> server_ok server.
Proof.
  unfold NewServer. destruct (validDomain (normalizeDomain (op_Hostname options))) eqn:Eh; cbn [negb]; [|done].
  destruct (op_Delivery options); cbn [negb]; [|done]. intros (ds & Hd & H')%rbind_Ok.
  case_bool_decide; [done|]. apply Ok_inj in H' as <-. split; cbn.
  - done.
  - by apply or_default_pos.
  - by apply or_default_pos.
  - eapply add_domains_ok; [exact Hd | by intros d ?%elem_of_empty].
Qed.
End Construction.

(** ** Characters of a valid domain *)

Definition domain_char (c : ascii) : bool :=
  lower_alnum c || bool_decide (c = "-"%char) || bool_decide (c = "."%char).

Lemma domain_rune_char c : domain_rune (code c) = true -> domain_char c = true.
Proof.
  intros Hr. destruct (domain_char c) eqn:E; [done|]. exfalso.
  assert (code c <> 45) as Hn.
  { intros E'. replace c with "-"%char in E by (by apply code_inj). by vm_compute in E. }
  unfold domain_char, lower_alnum, is_digit in E. apply orb_false_iff in E as [[E _]%orb_false_iff _].
  unfold domain_rune in Hr. rewrite (proj2 (Z.eqb_neq _ _) Hn) in Hr. rewrite orb_false_r, orb_comm in Hr. congruence.
Qed.

Lemma valid_label_chars label : valid_label label = true -> Forall (fun c => domain_char c = true) label.
Proof.
  unfold valid_label. intros [_ Hr]%andb_true_iff.
  assert (Forall (fun rb => domain_rune rb.1 = true) (runes label)) as HF by (by apply (Forall_fmap fst (fun r => domain_rune r = true)), forallb_Forall).
  rewrite runes_ascii in HF.
  - apply (Forall_fmap (fun c => (code c, [c])) (fun rb : Z * str => domain_rune rb.1 = true)) in HF.
    eapply Forall_impl; [exact HF|]. intros c Hc. by apply domain_rune_char.
  - apply runes_all_ascii. eapply Forall_impl; [exact HF|]. intros rb Hrb. unfold domain_rune in Hrb. lia.
Qed.

Lemma Join_chars (P : ascii -> Prop) c (l : list str) : P c -> Forall (Forall P) l -> Forall P (Join l [c]).
Proof.
  intros Hc HF. induction HF as [|x l Hx HF IH]; [constructor|]. destruct l as [|y l]; [done|].
  change (Join (x :: y :: l) [c]) with (x ++ [c] ++ Join (y :: l) [c]). rewrite !Forall_app. by repeat constructor.
Qed.

Lemma validDomain_chars d : validDomain d = true -> Forall (fun c => domain_char c = true) d.
Proof.
  unfold validDomain. intros [_ Hl]%andb_true_iff. rewrite <- (Join_Split d "."%char).
  apply Join_chars; [done|]. apply forallb_Forall in Hl. eapply Forall_impl; [exact Hl|]. exact valid_label_chars.
Qed.

Lemma validDomain_LF d : validDomain d = true -> LF ∉ d.
Proof. intros Hd Hin. apply validDomain_chars in Hd. rewrite Forall_forall in Hd. by specialize (Hd _ Hin). Qed.

(** ** Line feeds in the trace headers *)

Lemma Count_app s t c : Count (s ++ t) c = (Count s c + Count t c)%nat.
Proof. unfold Count. by rewrite filter_app, length_app. Qed.

Lemma Count_notin s c : c ∉ s -> Count s c = 0%nat.
Proof.
  intros Hc. unfold Count. induction s as [|x s IH]; [done|].
  rewrite filter_cons_False by (intros ->; set_solver). apply IH. set_solver.
Qed.

Lemma Count_recipients (l : list str) : Forall (fun a => LF ∉ a) l ->
  Count (mjoin ((fun recipient => "Delivered-To: " ++ recipient ++ CRLF) <$> l)) LF = length l.
Proof.
  induction 1 as [|a l Ha HF IH]; [done|].
  change (mjoin ((fun recipient : str => "Delivered-To: " ++ recipient ++ CRLF) <$> a :: l))
    with (("Delivered-To: " ++ a ++ CRLF) ++ mjoin ((fun recipient : str => "Delivered-To: " ++ recipient ++ CRLF) <$> l)).
  rewrite !Count_app, (Count_notin a) by done. rewrite IH. done.
Qed.

Lemma deliveryHeaders_lines hostname remote helo encrypted t receivedAt :
  LF ∉ hostname -> LF ∉ remote -> LF ∉ helo -> LF ∉ receivedAt -> LF ∉ tx_from t -> Forall (fun a => LF ∉ a) (tx_recipients t) ->
  Count (deliveryHeaders hostname remote helo encrypted t receivedAt) LF = (2 + length (tx_recipients t))%nat.
Proof.
  intros Hh Hr He Hd Hf Hrec. unfold deliveryHeaders. rewrite !Count_app, Count_recipients by done.
  rewrite (Count_notin hostname), (Count_notin remote), (Count_notin helo), (Count_notin receivedAt) by done.
  assert (Count (if bool_decide (tx_from t = []) then "Return-Path: <>" ++ CRLF
    else "Return-Path: <" ++ tx_from t ++ ">" ++ CRLF) LF = 1%nat) as ->.
  { case_bool_decide; [done|]. rewrite !Count_app, (Count_notin (tx_from t)) by done. done. }
  destruct encrypted; change (Count CRLF LF) with 1%nat;
    repeat match goal with |- context [Count (list_ascii_of_string ?s) LF] =>
      change (Count (list_ascii_of_string s) LF) with 0%nat end; lia.
Qed.

(** ** A delivery's place in the trace *)

Lemma paired_spec t : paired t ->
  (forall i, t !! S i = Some accepted_reply <-> exists e, t !! i = Some e /\ is_delivered e) /\
  t !! 0%nat <> Some accepted_reply.
Proof.
  induction 1 as [|t e Hp [IH1 IH2] Hna Hnd|t e Hp [IH1 IH2] Hd].
  - split; [|done]. intros i. split; [done|]. by intros (e & ? & _).
  - split; [|destruct t; cbn in *; congruence]. intros i. split.
    + intros [Hi|[_ Hi]]%lookup_app_Some.
      * apply IH1 in Hi as (e' & He' & Hd'). exists e'. split; [by apply lookup_app_l_Some | done].
      * apply list_lookup_singleton_Some in Hi as [_ ->]. done.
    + intros (e' & Hi & Hd'). apply lookup_app_Some in Hi as [Hi|[_ Hi]].
      * apply lookup_app_l_Some, IH1. eauto.
      * apply list_lookup_singleton_Some in Hi as [_ ->]. done.
  - split; [|destruct t as [|x t]; cbn in *; [by intros [= ->] | congruence]]. intros i. split.
    + intros [Hi|[Hlen Hi]]%lookup_app_Some.
      * apply lookup_app_Some in Hi as [Hi|[_ Hi]].
        -- apply IH1 in Hi as (e' & He' & Hd'). exists e'. split; [|done]. by do 2 apply lookup_app_l_Some.
        -- apply list_lookup_singleton_Some in Hi as [_ ->]. done.
      * apply list_lookup_singleton_Some in Hi as [Hi _]. rewrite length_app in Hi, Hlen. cbn in Hi, Hlen.
        exists e. split; [|done]. apply lookup_app_l_Some. rewrite lookup_app_r by lia.
        by replace (i - length t)%nat with 0%nat by lia.
    + intros (e' & Hi & Hd'). apply lookup_app_Some in Hi as [Hi|[_ Hi]].
      * apply lookup_app_Some in Hi as [Hi|[Hlen Hi]].
        -- do 2 apply lookup_app_l_Some. apply IH1. eauto.
        -- apply list_lookup_singleton_Some in Hi as [Hi ->]. rewrite lookup_app_r by (rewrite length_app; simpl; lia).
           rewrite length_app. cbn [length].
           by replace (S i - (length t + 1))%nat with 0%nat by lia.
      * apply list_lookup_singleton_Some in Hi as [_ <-]. done.
Qed.
