(* ===== verification/SmtpTurns.v ===== *)
(** * One turn of the SMTP command loop

    What a command takes from the connection and adds to the conversation: the
    bases of termination, and of where a delivered message was read. *)

From S2P Require Import Prelude GoStrings Tree Config Wire SmtpSyntax SmtpData SmtpSession SmtpSpec.

(** Nothing was delivered. *)
Definition undelivered (events : list event) : Prop := Forall (fun e => ~ is_delivered e) events.

Section Turns.
Context {W Staged : Type}.
Context `{Conn, UnicodeTables, !Delivery W Staged, !DeliveryLaws W Staged, SmtpEnv}.
Context (server : Server).

(** What is left of the connection's octets: a rest of what the client sent in the
    clear or, once TLS was started, of the handshake's plaintext. *)
Definition received (stream : str) (s : session) : Prop :=
  if encrypted s
  then exists k plaintext j, handshake (drop k stream) = Ok plaintext /\ input s = drop j plaintext
  else exists k, input s = drop k stream.

(** How the input changed: by some octets read from it, or by starting TLS. *)
Definition starts_tls (s s' : session) : Prop :=
  encrypted s = false /\ encrypted s' = true /\ exists k, handshake (drop k (input s)) = Ok (input s').

(** ** Commands other than DATA *)

Ltac silent := eexists; split; [cbn; rewrite <- ?app_assoc; cbn [app]; reflexivity | repeat (apply Forall_cons; split; [by intros []|]); constructor].

Record conversed (s s' : session) : Prop := {
  cv_input : closed s' = true \/ (encrypted s' = encrypted s /\ input s' = input s) \/ starts_tls s s';
  cv_trace : exists events, trace s' = trace s ++ events /\ undelivered events;
}.

Lemma conversed_reply code lines s0 s : encrypted s = encrypted s0 -> input s = input s0 -> trace s = trace s0 ->
  conversed s0 (reply_lines code lines s).2.
Proof using Type.
  intros He Hi Ht. split; [right; by left|]. rewrite <- Ht. silent.
Qed.

Lemma conversed_say code message s0 s : encrypted s = encrypted s0 -> input s = input s0 -> trace s = trace s0 ->
  conversed s0 (say code message s).
Proof using Type. apply conversed_reply. Qed.

Lemma handle_helo_conversed extended argument s : conversed s (handle_helo server extended argument s).
Proof using Type.
  unfold handle_helo. destruct (negb _); [|destruct extended]; [by apply conversed_say | by apply conversed_reply | by apply conversed_say].
Qed.

Lemma handle_starttls_conversed argument s : conversed s (handle_starttls server argument s).
Proof using Type.
  unfold handle_starttls. destruct (_ || encrypted s) eqn:E; [by apply conversed_say|].
  apply orb_false_iff in E as [_ E]. unfold reply, reply_lines.
  destruct (write_ok (writes s)); cbn [negb].
  2: { split; [by left | silent]. }
  change (input (count_write _)) with (input s).
  destruct (handshake _) as [plaintext|e] eqn:Eh.
  - split.
    + right. right. split; [done|]. split; [done|]. by exists (plaintext_buffered (input s)).
    + silent.
  - split; [by left | silent].
Qed.

Lemma handle_mail_conversed argument s : conversed s (handle_mail server argument s).
Proof using Type.
  unfold handle_mail. destruct (negb _); [by apply conversed_say|].
  destruct (parsePath _ _ _) as [[address params]|]; [|by apply conversed_say].
  destruct (validateMailParameters _ _) as [e|]; [destruct (errors_Is e _)|]; by apply conversed_say.
Qed.

Lemma handle_rcpt_conversed argument s : conversed s (handle_rcpt server argument s).
Proof using Type.
  unfold handle_rcpt. destruct (negb _); [by apply conversed_say|].
  destruct (parsePath _ _ _) as [[address params]|]; [|by apply conversed_say].
  repeat (destruct (if _ then _ else _) eqn:?; [by apply conversed_say|] || case_match); by apply conversed_say.
Qed.

Lemma dispatch_conversed (command argument : str) s w : command <> ("DATA" : str) -> conversed s (dispatch server command argument s w).1.
Proof using Type.
  intros Hd. unfold dispatch. repeat case_decide; try done; cbn [fst];
    auto using handle_helo_conversed, handle_starttls_conversed, handle_mail_conversed, handle_rcpt_conversed;
    try by apply conversed_say.
  destruct (conversed_say 221 "2.0.0 bye" s s) as [_ Ht]; [done..|]. split; [by left | exact Ht].
Qed.

(** ** DATA *)

Lemma data_spec_suffix fuel maxBytes used stream m rest :
  data_spec fuel maxBytes used stream = (m, Sentinel IoEOF, rest) -> rest `suffix_of` stream.
Proof using Type.
  revert used stream m rest. induction fuel as [|fuel IH]; intros used stream m rest; cbn [data_spec]; [by intros [= <- <-]|].
  destruct (readLimitedLineRaw maxDataLineBytes stream) as [[line|err] rest'] eqn:El.
  - apply read_limited_sound in El as [-> _].
    destruct (is_final_dot line); [intros [= <- <-]; by exists line|].
    destruct (_ <? _)%nat; [by intros [=]|]. destruct (_ <? _); [by intros [=]|].
    destruct (data_spec _ _ _ rest') as [[more e'] rest''] eqn:E. intros [= <- -> ->].
    apply IH in E. by apply suffix_app_r.
  - destruct (errors_Is err IoEOF) eqn:Ee; [by intros [=]|]. intros [= <- -> <-]. by cbn in Ee.
Qed.

(** The message that DATA reads and publishes, and what is said about it. *)
Definition delivered_events (s : session) (message : str) (id : Z) (path : str) : list event :=
  [Reply 354 ["end with <CRLF>.<CRLF>" : str];
   Delivered (connectionInfo s) (tx s)
     (deliveryHeaders (hostname server) remote (helo s) (encrypted s) (tx s) (received_at (rounds s)) ++ message) id path;
   accepted_reply].

Record data_delivered (s s' : session) (message : str) (id : Z) (path : str) : Prop := {
  dd_text : data_spec (S (length (input s))) (maxMessageSize server) 0 (input s) = (message, Sentinel IoEOF, input s');
  dd_trace : trace s' = trace s ++ delivered_events s message id path;
  dd_encrypted : encrypted s' = encrypted s;
}.

Record data_refused (s s' : session) : Prop := {
  rf_input : closed s' = true \/ (encrypted s' = encrypted s /\ input s' `suffix_of` input s);
  rf_trace : exists events, trace s' = trace s ++ events /\ undelivered events;
}.

Lemma handle_data_cases argument s w : let s' := (handle_data server argument s w).1 in
  data_refused s s' \/ (argument = [] /\ exists message id path, data_delivered s s' message id path).
Proof.
  cbv zeta. unfold handle_data. destruct (bool_decide_reflect (argument = [])) as [->|]; cbn [negb orb].
  2: { left. split; [by right | silent]. }
  destruct (bool_decide _); [left; split; [by right | silent]|].
  destruct (CheckReceive w); [left; split; [by right | silent]|]. unfold reply, reply_lines.
  destruct (write_ok (writes s)); cbn [negb]; [|left; split; [by left | silent]].
  destruct (copy_reads _ _ _) as [reads data] eqn:Ec. destruct (Stage reads w) as [[staged|e] w'] eqn:Est.
  2: { destruct (stage_failure e). left. split; [by left | silent]. }
  apply Stage_content in Est as [Hcomplete Hopen]; [|by eapply copy_reads_end].
  destruct (copy_reads_complete _ _ _ _ _ _ Ec Hcomplete) as (m & Hr & Hm). cbn [input count_write emit] in Hr.
  assert (data_spec (S (length (input s))) (maxMessageSize server) 0 (input s) = (m, Sentinel IoEOF, dr_input data)) as Hspec.
  { unfold remaining, newDataReader in Hr. cbn [dr_done dr_input dr_maxBytes dr_bytesRead dr_pending] in Hr.
    destruct (data_spec _ _ _ _) as [[m' e''] rest'] eqn:E. by injection Hr as <- -> ->. }
  pose proof (data_spec_suffix _ _ _ _ _ _ Hspec) as Hsuf.
  unfold finish_data. destruct (mdec_Action _);
    try (left; split; [right; by case_decide | case_decide; silent]).
  destruct (Publish staged w') as [[[id path]|e] w''].
  - right. split; [done|]. exists m, id, path. split; [exact Hspec | | done]. cbn. rewrite <- !app_assoc. cbn.
    rewrite Hopen, Hm. reflexivity.
  - left. split; [by left|]. destruct (errors_Is e _); silent.
Qed.

(** ** A whole turn *)

(** The turn was a DATA command that delivered a message. *)
Record turn_delivers (s s' : session) (line from message : str) (id : Z) (path : str) : Prop := {
  td_line : readLimitedLine maxCommandLineBytes (input s) = (Ok line, from);
  td_command : splitCommand line = ("DATA" : str, []);
  td_text : data_spec (S (length from)) (maxMessageSize server) 0 from = (message, Sentinel IoEOF, input s');
  td_trace : trace s' = trace s ++ delivered_events (next_round s) message id path;
}.

Definition turn_takes (s s' : session) : Prop :=
  closed s' = true \/ (encrypted s' = encrypted s /\ exists taken, taken <> [] /\ input s = taken ++ input s') \/ starts_tls s s'.

Definition turn_says (s s' : session) : Prop :=
  (exists events, trace s' = trace s ++ events /\ undelivered events) \/
  exists line from message id path, turn_delivers s s' line from message id path.

Lemma readLimitedLine_takes limit stream line rest :
  readLimitedLine limit stream = (Ok line, rest) -> exists taken, taken <> [] /\ stream = taken ++ rest.
Proof using Type.
  unfold readLimitedLine, readLimitedLineRaw. destruct (read_limited _ _ _ _) as [[raw|e] rest'] eqn:E; [|done].
  intros [= <- <-]. apply read_limited_sound in E as (-> & body & -> & Hb & _). exists (body ++ [LF]). split; [|done].
  by destruct body.
Qed.

(** Octets taken one after the other. *)
Lemma takes_more (s s1 s2 : session) taken : taken <> [] -> input s = taken ++ input s1 -> encrypted s1 = encrypted s ->
  closed s2 = true \/ (encrypted s2 = encrypted s1 /\ input s2 `suffix_of` input s1) \/ starts_tls s1 s2 -> turn_takes s s2.
Proof using Type.
  intros Hne Hi He [Hc|[[He2 [k Hk]]|(Ho & Hn & k & Hk)]]; [by left | right; left | right; right].
  - split; [congruence|]. exists (taken ++ k). split; [by destruct taken|]. by rewrite Hi, Hk, app_assoc.
  - split_and!; [congruence | done|]. exists (length taken + k)%nat. rewrite Hi, <- drop_drop, drop_app_length. exact Hk.
Qed.

Lemma serve_command_turn s w : let s' := (serve_command server s w).1 in turn_takes s s' /\ turn_says s s'.
Proof.
  cbv zeta. unfold serve_command. destruct (negb (deadline_ok _)).
  { split; [by left|]. left. exists []. split; [by rewrite app_nil_r | constructor]. }
  destruct (readLimitedLine _ _) as [[line|e] rest] eqn:E.
  2: { split; [by left|]. left. destruct (errors_Is e _); [silent|]. exists []. split; [by rewrite app_nil_r | constructor]. }
  destruct (readLimitedLine_takes _ _ _ _ E) as (taken & Hne & Hi). cbn [input next_round] in Hi, E.
  destruct (splitCommand line) as [command argument] eqn:Es. set (s1 := set_input rest (next_round s)).
  assert (forall s2, closed s2 = true \/ (encrypted s2 = encrypted s1 /\ input s2 `suffix_of` input s1) \/ starts_tls s1 s2 ->
    turn_takes s s2) as Htakes by (intros s2; by apply (takes_more s s1 s2 taken)).
  destruct (decide (command = ("DATA" : str))) as [->|Hd].
  - change (dispatch server "DATA" argument s1 w) with (handle_data server argument s1 w).
    destruct (handle_data_cases argument s1 w) as [[Hin Ht]|(-> & message & id & path & [Htext Htrace Hen])].
    + split; [apply Htakes; tauto | left; exact Ht].
    + split; [apply Htakes; right; left; split; [done | by eapply data_spec_suffix]|].
      right. exists line, rest, message, id, path. by split.
  - destruct (dispatch_conversed command argument s1 w Hd) as [Hin Ht].
    split; [|left; exact Ht]. apply Htakes. destruct Hin as [?|[[He Hi']|?]]; [auto | | auto].
    right. left. by rewrite Hi'.
Qed.

Lemma turn_received stream s s' : received stream s -> turn_takes s s' -> closed s' = true \/ received stream s'.
Proof using Type.
  unfold received. intros Hr [Hc|[[He (taken & _ & Hi)]|(Ho & Hen & j & Hj)]]; [by left | right | right].
  - rewrite He. destruct (encrypted s).
    + destruct Hr as (k & plaintext & j & Hk & Hj). exists k, plaintext, (j + length taken)%nat. split; [done|].
      by rewrite <- drop_drop, <- Hj, Hi, drop_app_length.
    + destruct Hr as (k & Hk). exists (k + length taken)%nat. by rewrite <- drop_drop, <- Hk, Hi, drop_app_length.
  - rewrite Hen. rewrite Ho in Hr. destruct Hr as (k & Hk). exists (k + j)%nat, (input s'), 0%nat.
    by rewrite <- drop_drop, <- Hk.
Qed.

Lemma turn_trace s s' : turn_says s s' -> trace s `prefix_of` trace s'.
Proof using Type. intros [(events & -> & _)|(line & from & message & id & path & [])]; [by eexists|]. rewrite td_trace0. by eexists. Qed.

(** ** The loop *)

Lemma serve_loop_trace fuel s w : trace s `prefix_of` trace (serve_loop server fuel s w).1.
Proof.
  revert s w. induction fuel as [|fuel IH]; intros s w; cbn [serve_loop]; [done|].
  destruct (closed s); [done|]. destruct (serve_command_turn s w) as [_ Ht%turn_trace].
  destruct (serve_command server s w) as [s1 w1]. etransitivity; [exact Ht | apply IH].
Qed.

Lemma serve_loop_received stream fuel s w : received stream s ->
  closed (serve_loop server fuel s w).1 = true \/ received stream (serve_loop server fuel s w).1.
Proof.
  revert s w. induction fuel as [|fuel IH]; intros s w Hr; cbn [serve_loop]; [by right|].
  destruct (closed s) eqn:Ec; [by left|]. destruct (serve_command_turn s w) as [Ht _].
  destruct (serve_command server s w) as [s1 w1]. cbn [fst] in Ht.
  destruct (turn_received stream s s1 Hr Ht) as [Hc|Hr1]; [|by apply IH].
  left. destruct fuel; cbn [serve_loop]; [done|]. by rewrite Hc.
Qed.

(** Every event was added in one turn. *)
Lemma serve_loop_turn fuel i e : forall s w, trace s !! i = None -> trace (serve_loop server fuel s w).1 !! i = Some e ->
  exists k s1 w1 s2 w2, serve_loop server k s w = (s1, w1) /\ closed s1 = false /\ serve_command server s1 w1 = (s2, w2) /\
    serve_loop server (S k) s w = (s2, w2) /\ trace s1 !! i = None /\ trace s2 !! i = Some e.
Proof.
  induction fuel as [|fuel IH]; intros s w Hn Hi; cbn [serve_loop] in Hi; [cbn in Hi; congruence|].
  destruct (closed s) eqn:Ec; [cbn in Hi; congruence|].
  destruct (serve_command server s w) as [s1 w1] eqn:E. destruct (trace s1 !! i) as [e'|] eqn:Ei.
  - destruct (serve_loop_trace fuel s1 w1) as [more Hm]. rewrite Hm, (lookup_app_l_Some _ _ _ _ Ei) in Hi. injection Hi as ->.
    exists 0%nat, s, w, s1, w1. split; [done|]. split; [done|]. split; [done|]. split; [|done].
    cbn [serve_loop]. by rewrite Ec, E.
  - destruct (IH s1 w1 Ei Hi) as (k & s2 & w2 & s3 & w3 & Hk).
    exists (S k), s2, w2, s3, w3. cbn [serve_loop] in *. rewrite Ec, E. exact Hk.
Qed.

(** ** Progress *)

Lemma serve_loop_more fuel more s w : closed (serve_loop server fuel s w).1 = true ->
  serve_loop server (fuel + more) s w = serve_loop server fuel s w.
Proof using Type.
  revert s w. induction fuel as [|fuel IH]; intros s w; cbn [serve_loop Nat.add].
  - intros Hc. cbn [fst] in Hc. destruct more; cbn [serve_loop]; [done|]. by rewrite Hc.
  - destruct (closed s); [done|]. destruct (serve_command server s w). apply IH.
Qed.

(** The turns a session can take at most, if a handshake yields at most [n] octets. *)
Definition turns (n : nat) (s : session) : nat := length (input s) + (if encrypted s then 0 else S n).

Definition handshakes_within (n : nat) (stream : str) : Prop :=
  forall k plaintext, handshake (drop k stream) = Ok plaintext -> (length plaintext <= n)%nat.

Lemma smtp_loop_closes n fuel s w : (encrypted s = false -> handshakes_within n (input s)) -> (turns n s < fuel)%nat ->
  closed (serve_loop server fuel s w).1 = true.
Proof.
  revert s w. induction fuel as [|fuel IH]; intros s w Hn Hf; [lia|]. cbn [serve_loop].
  destruct (closed s) eqn:Ec; [done|]. destruct (serve_command_turn s w) as [Ht _].
  destruct (serve_command server s w) as [s' w']. cbn [fst] in Ht. unfold turns in *.
  destruct Ht as [Hc|[[He (taken & Hne & Hi)]|(Ho & Hen & j & Hj)]].
  - destruct fuel; cbn [serve_loop]; [done|]. by rewrite Hc.
  - apply IH.
    + rewrite He. intros Hen k plaintext Hk. apply (Hn Hen (length taken + k)%nat). by rewrite Hi, <- drop_drop, drop_app_length.
    + rewrite He. rewrite Hi, length_app in Hf. destruct taken; [done|]. cbn in Hf. lia.
  - apply IH; [congruence|]. rewrite Hen. rewrite Ho in Hf. pose proof (Hn Ho _ _ Hj). lia.
Qed.

(** There are only finitely many handshakes a stream can end in. *)
Lemma handshakes_bounded stream : exists n, handshakes_within n stream.
Proof using Type.
  set (octets_of := fun k => match handshake (drop k stream) with Ok plaintext => length plaintext | Err _ => 0%nat end).
  exists (max_list (octets_of <$> seq 0 (S (length stream)))). intros k plaintext Hk.
  assert (handshake (drop (Nat.min k (length stream)) stream) = Ok plaintext) as Hk'.
  { destruct (Nat.min_spec k (length stream)) as [[_ ->]|[Hl ->]]; [done|]. by rewrite drop_ge by done; rewrite drop_ge in Hk by lia. }
  assert (octets_of (Nat.min k (length stream)) = length plaintext) as <- by (unfold octets_of; by rewrite Hk').
  apply max_list_elem_of_le, list_elem_of_fmap_2, elem_of_seq. lia.
Qed.
End Turns.
