(* ===== verification/SmtpTheorems.v ===== *)
(** * What the SMTP server guarantees

    The theorems over whole sessions, for every client, policy, network and mail
    store that keeps [Stage]'s promise, and a small concrete environment. *)

From S2P Require Import Prelude GoStrings Tree Config Wire SmtpSyntax Peer SmtpData SmtpSession SmtpSpec SmtpTurns.

(** ** A concrete environment *)

Module Demo.
(** ASCII case mapping, a client that stays connected, a policy that accepts. *)
#[local] Instance tables : UnicodeTables := {| table_upper r := r; table_lower r := r; table_fold _ _ := false |}.
#[local] Instance conn : Conn := {| end_error := Sentinel IoEOF; write_ok _ := true |}.
#[local] Instance env : SmtpEnv := {|
  peer := "192.0.2.1:49152"; received_at _ := "Mon, 01 Jan 2024 00:00:00 +0000"; deadline_ok _ := true;
  copy_sizes := replicate 40 7%nat; plaintext_buffered s := length s; handshake _ := Ok ("QUIT" ++ CRLF) |}.

(** A store that keeps what it is given in memory. *)
Definition stage (reads : list (str * option error)) (w : list str) : result str * list str :=
  match last reads with
  | Some (_, Some e) => if errors_Is e IoEOF then (Ok (mjoin reads.*1), w) else (Err e, w)
  | _ => (Err (New "unfinished"), w)
  end.

#[local] Instance store : Delivery (list str) str := {|
  CheckReceive _ := None;
  Stage := stage;
  Publish staged w := (Ok (Z.of_nat (S (length w)), "1/001" : str), w ++ [staged]);
  Discard _ w := w;
  Size staged := Z.of_nat (length staged);
  Open staged _ := staged;
|}.

#[local] Instance laws : DeliveryLaws (list str) str.
Proof.
  split. intros reads w staged w' _. unfold Stage, store, stage. destruct (last reads) as [[b [e|]]|] eqn:E; [|done..].
  destruct (errors_Is e IoEOF) eqn:Ee; [|done]. intros [= <- <-]. split; [|done].
  apply last_Some in E as [before ->]. by exists before, b, e.
Defined.

Definition options : Options := {|
  op_Hostname := "mx.example.net"; op_Domains := ["Example.NET." : str]; op_Delivery := true; op_TLSConfig := true;
  op_MaxMessageSize := 0; op_MaxRecipients := 0; op_MaxConnections := 0; op_IdleTimeout := 0; op_Policy := None |}.

Definition server : Server := {|
  hostname := "mx.example.net"; domains := {["example.net" : str]}; tlsConfig := true;
  maxMessageSize := defaultMaxMessageBytes; maxRecipients := defaultMaxRecipients; idleTimeout := defaultIdleTimeout;
  policy := defaultSMTPPolicy; connections := defaultMaxConnections |}.

Lemma server_made : NewServer None options = Ok server.
Proof. by vm_compute. Qed.

Definition line (s : string) : str := (s : str) ++ CRLF.

Definition client : str :=
  line "EHLO client.example.org" ++ line "MAIL FROM:<>" ++ line "RCPT TO:<a@example.net>" ++ line "DATA"
  ++ line "..hi" ++ line "." ++ line "QUIT".

(** A carriage return before the domain is trimmed for the check only: the
    recipient is accepted and stands in the header as it was sent. *)
Lemma padded_recipient_accepted :
  let address : str := "a@" ++ CR :: "example.net" in
  validAddress address = true /\ served server address = true /\ CR ∈ address.
Proof. split_and!; [by vm_compute | by vm_compute | by apply (bool_decide_unpack _); vm_compute]. Qed.

(** A dot on a line that ends in a bare line feed ends the message. *)
Lemma bare_line_feed_ends_data :
  (dataReader_Read 10 (newDataReader 100 ("." ++ LF :: "MAIL FROM:<>"))).1 = ([], Some (Sentinel IoEOF)).
Proof. by vm_compute. Qed.
End Demo.

(** ** Properties *)

Section Properties.
Context {W Staged : Type}.
Context `{Conn, UnicodeTables, !Delivery W Staged, !DeliveryLaws W Staged, SmtpEnv}.
Implicit Types (options : Options) (server : Server) (stream : str) (w : W).

(** C12: Nothing is delivered that was not checked.  Whatever a client sends,
    a message the server delivers had a valid greeting, at least one and at
    most [maxRecipients] recipients, each a valid address of a served domain
    that the policy accepted for this connection and sender, and the policy
    accepted the message with its envelope. *)
Theorem deliveries_are_checked factory options server fuel stream w i info t content id path :
  NewServer factory options = Ok server ->
  trace (serveConn server fuel stream w).1 !! i = Some (Delivered info t content id path) ->
  validHelo (ci_HELO info) = true /\
  (1 <= length (tx_recipients t))%nat /\ Z.of_nat (length (tx_recipients t)) <= maxRecipients server /\
  (forall a, a ∈ tx_recipients t -> validAddress a = true /\ served server a = true /\
     policy_accepts server info (tx_from t) a) /\
  (tx_from t = [] \/ validAddress (tx_from t) = true) /\
  exists md, md_Connection md = info /\ md_EnvelopeFrom md = envelopeAddress (tx_from t) /\
    md_Recipients md = envelopeAddresses (tx_recipients t) /\
    mdec_Action (evaluateMessage server md content) = MessageAccept.
Proof.
  intros Hs%NewServer_ok Hi. pose proof (so_events _ _ (serveConn_ok server Hs fuel stream w)) as Hev.
  rewrite Forall_lookup in Hev. apply Hev in Hi as ([Hst [Hfrom _] Hrec Hb] & Hne & Hh & _ & Hmd).
  split; [done|]. split; [destruct (tx_recipients t); [done | simpl; lia]|]. split; [done|].
  split; [|by split]. intros a Ha. rewrite Forall_forall in Hrec. apply Hrec in Ha as (? & ? & _ & ?). done.
Qed.

(** Where a delivery was read: one turn of the session. *)
Lemma delivering_turn server fuel stream w i info t content id path :
  trace (serveConn server fuel stream w).1 !! i = Some (Delivered info t content id path) ->
  exists k s wk s' wk' line from message,
    serveConn server k stream w = (s, wk) /\ serveConn server (S k) stream w = (s', wk') /\ received stream s /\
    turn_delivers server s s' line from message id path /\ i = S (length (trace s)) /\
    Delivered info t content id path = Delivered (connectionInfo s) (tx s)
      (deliveryHeaders (hostname server) remote (helo s) (encrypted s) (tx s) (received_at (S (rounds s))) ++ message) id path.
Proof.
  unfold serveConn, reply, reply_lines. destruct (write_ok _); [|by destruct i as [|[|i]]].
  set (s0 := count_write _). intros Hi.
  assert (received stream s0) as Hr0 by (by exists 0%nat).
  assert (trace s0 !! i = None) as Hn by (destruct i as [|i]; [|by destruct i]; exfalso;
    destruct (serve_loop_trace server fuel s0 w) as [more Hm]; by rewrite Hm in Hi).
  destruct (serve_loop_turn server fuel i _ s0 w Hn Hi) as (k & s & wk & s' & wk' & Hk & Hc & Hturn & HSk & Hnone & Hsome).
  destruct (serve_command_turn server s wk) as [_ Hsays]. rewrite Hturn in Hsays. cbn [fst] in Hsays.
  pose proof (serve_loop_received server stream k s0 w Hr0) as Hrk. rewrite Hk in Hrk. cbn [fst] in Hrk.
  destruct Hrk as [?|Hrk]; [congruence|].
  apply lookup_ge_None in Hnone. destruct Hsays as [(events & Ht & Hun)|(line & from & message & id' & path' & Hd)].
  - exfalso. rewrite Ht, lookup_app_r in Hsome by done. apply list_elem_of_lookup_2 in Hsome.
    unfold undelivered in Hun. rewrite Forall_forall in Hun. by apply (Hun _ Hsome).
  - rewrite (td_trace _ _ _ _ _ _ _ _ Hd), lookup_app_r in Hsome by done. unfold delivered_events in Hsome.
    assert (i - length (trace s) = 1)%nat as E by (destruct (i - length (trace s))%nat as [|[|[|n]]]; done).
    rewrite E in Hsome. injection Hsome as <- <- <- <- <-. exists k, s, wk, s', wk', line, from, message.
    split_and!; [done.. | lia | done].
Qed.

(** C13: What is delivered is the server's trace headers and the message the client
    sent.  A message is delivered in the turn that reads the line of its DATA
    command: its text is what the connection's next octets spell as a dot-stuffed
    message, complete up to its final dot and within the size limit, and the
    session goes on with the octets behind that dot.  These octets are what is
    left of what the client sent in the clear or, under TLS, of the handshake's
    plaintext.  In front of the text stands a block of exactly two lines and one
    per recipient, for this session's greeting, sender and recipients: nothing a
    client writes in a command adds a line to it. *)
Theorem deliveries_are_whole factory options server fuel stream w i info t content id path :
  (forall turn, LF ∉ received_at turn) ->
  NewServer factory options = Ok server ->
  trace (serveConn server fuel stream w).1 !! i = Some (Delivered info t content id path) ->
  exists k s wk s' wk' line from message,
    serveConn server k stream w = (s, wk) /\ serveConn server (S k) stream w = (s', wk') /\ received stream s /\
    readLimitedLine maxCommandLineBytes (input s) = (Ok line, from) /\ splitCommand line = ("DATA" : str, []) /\
    data_spec (S (length from)) (maxMessageSize server) 0 from = (message, Sentinel IoEOF, input s') /\
    i = S (length (trace s)) /\ info = connectionInfo s /\ t = tx s /\
    let headers := deliveryHeaders (hostname server) remote (ci_HELO info) (ci_TLS info) t (received_at (S (rounds s))) in
    content = headers ++ message /\
    Count headers LF = (2 + length (tx_recipients t))%nat /\
    Z.of_nat (length message) <= maxMessageSize server.
Proof.
  intros Hd Hs%NewServer_ok Hi. pose proof (so_events _ _ (serveConn_ok server Hs fuel stream w)) as Hev.
  rewrite Forall_lookup in Hev. pose proof (Hev _ _ Hi) as ([_ [_ Hfrom] Hrec _] & _ & _ & Hh & _).
  destruct (delivering_turn server fuel stream w i info t content id path Hi)
    as (k & s & wk & s' & wk' & line & from & message & Ek & ESk & Er & [Hl Hcmd Htext _] & Hix & [= -> -> ->]).
  exists k, s, wk, s', wk', line, from, message. split_and!; try done. split; [done|]. split.
  - apply deliveryHeaders_lines; auto; [apply validDomain_LF, Hs | apply remoteIP_LF |].
    eapply Forall_impl; [exact Hrec|]. by intros a (_ & _ & ? & _).
  - apply data_spec_size in Htext; [simpl in Htext; lia | pose proof (sv_size _ Hs); lia].
Qed.

(** C32: STARTTLS forgets the plaintext conversation.  When the command starts
    TLS the greeting, the sender and the recipients are gone, the bytes the
    client had sent ahead in the clear are never read as commands (the input
    is the handshake's plaintext stream), and until a new greeting MAIL is
    refused; a second STARTTLS is refused too. *)
Theorem starttls_forgets (server : Server) argument (s : session) :
  encrypted s = false -> encrypted (handle_starttls server argument s) = true ->
  let s' := handle_starttls server argument s in
  tlsConfig server = true /\ argument = [] /\
  greeted s' = false /\ helo s' = [] /\ tx s' = no_transaction /\
  handshake (drop (plaintext_buffered (input s)) (input s)) = Ok (input s') /\
  (forall a, handle_mail server a s' = say 503 "5.5.1 send HELO/EHLO first" s') /\
  (forall a, handle_starttls server a s' = say 502 "5.5.1 STARTTLS unavailable" s').
Proof.
  intros He. unfold handle_starttls at 1 2. destruct (_ || encrypted s) eqn:E; [intros E'; change (encrypted s = true) in E'; congruence|].
  apply orb_false_iff in E as [[Ha%negb_false_iff%bool_decide_eq_true Ht%negb_false_iff]%orb_false_iff _].
  unfold reply, reply_lines. destruct (write_ok (writes s)); cbn [negb]; [|intros E'; change (encrypted s = true) in E'; congruence].
  change (input (count_write _)) with (input s).
  destruct (handshake _) as [plaintext|e] eqn:Eh; [|intros E'; change (encrypted s = true) in E'; congruence].
  intros _. repeat split; try done. intros a. unfold handle_starttls. cbn [encrypted set_encrypted].
  by rewrite orb_true_r.
Qed.

(** C37: A connection ends when its input does.  On any finite input the command
    loop closes the session after finitely many commands, and more fuel changes
    nothing: every turn takes an octet of the input, starts TLS, which happens
    once, or closes the session, so that two turns more than the octets of the
    input and of the handshake's plaintext are enough.  (A client that never stops
    sending is served on: the server bounds the time it waits for a command, not
    the number of commands.) *)
Theorem session_ends (server : Server) stream w :
  (exists fuel, forall more, serveConn server (fuel + more) stream w = serveConn server fuel stream w /\
     closed (serveConn server fuel stream w).1 = true) /\
  (forall n, handshakes_within n stream -> closed (serveConn server (S (S (length stream + n))) stream w).1 = true).
Proof.
  assert (forall n, handshakes_within n stream -> closed (serveConn server (S (S (length stream + n))) stream w).1 = true) as Hn.
  { intros n Hn. unfold serveConn, reply, reply_lines. destruct (write_ok _); [|done].
    apply (smtp_loop_closes server n); [done | unfold turns; cbn; lia]. }
  split; [|done]. destruct (handshakes_bounded stream) as [n Hw]. exists (S (S (length stream + n))). intros more.
  specialize (Hn n Hw). split; [|done]. unfold serveConn in *. destruct (reply 220 _ _) as [[] s]; [|done].
  by apply serve_loop_more.
Qed.
End Properties.

(** ** Witnesses *)

Section Witnesses.
Import Demo.
Existing Instances tables conn env store laws.

(** The demonstration session delivers the message [.hi]. *)
Lemma demo_delivers :
  exists content, trace (serveConn server 20 client []).1 !! 5%nat =
    Some (Delivered {| ci_RemoteIP := "192.0.2.1"; ci_HELO := "client.example.org"; ci_TLS := false |}
            {| tx_started := true; tx_from := []; tx_recipients := ["a@example.net" : str] |}
            content 1 "1/001").
Proof. eexists. vm_compute. reflexivity. Qed.

Lemma deliveries_are_checked_witness :
  exists info t content id path,
    trace (serveConn server 20 client []).1 !! 5%nat = Some (Delivered info t content id path) /\
    (1 <= length (tx_recipients t))%nat.
Proof.
  destruct demo_delivers as [content Hc]. do 5 eexists. split; [exact Hc|].
  apply (deliveries_are_checked None options server 20 client [] 5 _ _ _ _ _ server_made Hc).
Defined.

(** The text is what the client sent between DATA and the dot. *)
Lemma deliveries_are_whole_witness :
  exists info t content id path,
    trace (serveConn server 20 client []).1 !! 5%nat = Some (Delivered info t content id path) /\
    exists headers message k s wk line from, content = headers ++ message /\ Count headers LF = 3%nat /\
      serveConn server k client [] = (s, wk) /\ readLimitedLine maxCommandLineBytes (input s) = (Ok line, from).
Proof.
  destruct demo_delivers as [content Hc]. do 5 eexists. split; [exact Hc|].
  assert (forall turn, LF ∉ (received_at turn : str)) as Hd by (intros turn; apply (bool_decide_unpack _); by vm_compute).
  destruct (deliveries_are_whole None options server 20 client [] 5 _ _ _ _ _ Hd server_made Hc)
    as (k & s & wk & s' & wk' & line & from & m & H1 & _ & _ & H4 & _ & _ & _ & _ & _ & Hm & Hl & _).
  eexists _, m, k, s, wk, line, from. split; [exact Hm|]. split; [exact Hl|]. split; [exact H1 | exact H4].
Defined.

Lemma starttls_forgets_witness :
  let s := set_input "MAIL FROM:<evil@example.org>" (new_session []) in
  greeted (handle_starttls server [] s) = false /\
  input (handle_starttls server [] s) = "QUIT" ++ CRLF.
Proof.
  intros s. destruct (starttls_forgets server [] s) as (_ & _ & Hg & _ & _ & Hh & _); [reflexivity | reflexivity |].
  split; [exact Hg|]. symmetry. exact (Ok_inj _ _ Hh).
Defined.

Lemma session_ends_witness : exists fuel, closed (serveConn server fuel client []).1 = true.
Proof.
  destruct (session_ends server client []) as [[fuel H] _]. exists fuel. exact (proj2 (H 0%nat)).
Defined.
End Witnesses.
