(* ===== verification/SmtpPublish.v ===== *)
(** * What an acceptance means (internal/smtp/server.go: handleData)

    The session is run on a store that records every call of [Publish] with what
    it answered: the messages the client was told were accepted are exactly those
    it answered with an ID. *)

From S2P Require Import Prelude GoStrings Tree Config Wire SmtpSyntax SmtpData SmtpSession SmtpSpec SmtpTurns SmtpTheorems.

(** ** A store that records its publications *)

(** A call of [Publish]: the staged content, and the answer. *)
Record publication := { pb_content : str; pb_answer : result (Z * str) }.

Section Recording.
Context {W Staged : Type}.
Context `{CN : Conn, UT : UnicodeTables, DL : !Delivery W Staged, SE : SmtpEnv}.

(** The same store, with the calls so far. *)
Definition recording : Delivery (W * list publication) Staged := {|
  CheckReceive w := CheckReceive w.1;
  Stage reads w := let '(r, w1) := Stage reads w.1 in (r, (w1, w.2));
  Publish staged w := let '(r, w1) := Publish staged w.1 in
    (r, (w1, w.2 ++ [{| pb_content := Open staged w.1; pb_answer := r |}]));
  Discard staged w := (Discard staged w.1, w.2);
  Size := Size;
  Open staged w := Open staged w.1;
|}.

(** The contents, IDs and paths of the publications that succeeded. *)
Definition published_messages (calls : list publication) : list (str * Z * str) :=
  omap (fun p => match pb_answer p with Ok (id, path) => Some (pb_content p, id, path) | Err _ => None end) calls.

(** Those of the deliveries in a trace. *)
Definition delivered_messages (t : list event) : list (str * Z * str) :=
  omap (fun e => match e with Delivered _ _ content id path => Some (content, id, path) | _ => None end) t.

(** What the client is told when [Publish] fails. *)
Definition failure_reply (e : error) : event :=
  if errors_Is e ErrDailyLimit then Reply 452 ["4.3.1 daily receiving budget exceeded" : str]
  else Reply 451 ["4.3.0 temporary local failure" : str].

Lemma published_app calls more : published_messages (calls ++ more) = published_messages calls ++ published_messages more.
Proof. apply omap_app. Qed.

Lemma delivered_app t more : delivered_messages (t ++ more) = delivered_messages t ++ delivered_messages more.
Proof. apply omap_app. Qed.

Lemma undelivered_messages t : undelivered t -> delivered_messages t = [].
Proof.
  induction 1 as [|e t He HF IH]; [done|]. unfold delivered_messages in *. cbn. destruct e; [exact IH..|]. by destruct He.
Qed.

(** What a turn adds to the trace and to the calls. *)
Inductive recorded (t : list event) (s' : session) (calls : list publication) : list publication -> Prop :=
  | recorded_nothing events : trace s' = t ++ events -> undelivered events -> recorded t s' calls calls
  | recorded_success info envelope content id path :
      trace s' = t ++ [Reply 354 ["end with <CRLF>.<CRLF>" : str]; Delivered info envelope content id path; accepted_reply] ->
      recorded t s' calls (calls ++ [{| pb_content := content; pb_answer := Ok (id, path) |}])
  | recorded_failure content e :
      trace s' = t ++ [Reply 354 ["end with <CRLF>.<CRLF>" : str]; failure_reply e] -> closed s' = true ->
      recorded t s' calls (calls ++ [{| pb_content := content; pb_answer := Err e |}]).

Context (server : Server).

Ltac nothing := eapply recorded_nothing; [cbn; rewrite <- ?app_assoc; cbn [app]; reflexivity |
  repeat (apply Forall_cons; split; [by intros []|]); constructor].

(** Nothing was said. *)
Ltac nothing_said := eapply (recorded_nothing _ _ _ []); [by rewrite app_nil_r | constructor].

Lemma handle_data_recorded argument s w calls :
  let '(s', (w', calls')) := @handle_data _ _ CN UT recording SE server argument s (w, calls) in
  handle_data server argument s w = (s', w') /\ recorded (trace s) s' calls calls'.
Proof using Type.
  unfold handle_data. cbn [CheckReceive Stage recording fst snd].
  destruct (_ || _); [split; [done | nothing]|]. destruct (CheckReceive w); [split; [done | nothing]|].
  unfold reply, reply_lines. destruct (write_ok (writes s)); cbn [negb]; [|split; [done | nothing]].
  destruct (copy_reads _ _ _) as [reads data]. destruct (Stage reads w) as [[staged|e] w1].
  2: { destruct (stage_failure e). split; [done | nothing]. }
  unfold finish_data. cbn [Open Publish Discard recording fst snd].
  change (@metadata _ Staged _ recording SE) with (@metadata _ Staged _ DL SE).
  destruct (mdec_Action _); try (split; [done | case_decide; nothing]).
  destruct (Publish staged w1) as [[[id path]|e] w2]; split; try done.
  - eapply recorded_success. cbn. rewrite <- !app_assoc. reflexivity.
  - eapply recorded_failure; [|done]. unfold failure_reply. destruct (errors_Is e _); cbn; by rewrite <- !app_assoc.
Qed.

Lemma dispatch_recorded (command argument : str) s w calls :
  let '(s', (w', calls')) := @dispatch _ _ CN UT recording SE server command argument s (w, calls) in
  dispatch server command argument s w = (s', w') /\ recorded (trace s) s' calls calls'.
Proof using Type.
  destruct (decide (command = ("DATA" : str))) as [->|Hd]; [apply handle_data_recorded|].
  assert (exists s', forall A (x : A) (D : Delivery A Staged), @dispatch _ _ CN UT D SE server command argument s x = (s', x)) as [s' E].
  { unfold dispatch. repeat case_decide; try done; by eexists. }
  rewrite !E. split; [done|]. destruct (dispatch_conversed server command argument s w Hd) as [_ (events & Ht & Hu)].
  rewrite E in Ht. cbn [fst] in Ht. by eapply recorded_nothing.
Qed.

Lemma serve_command_recorded s w calls :
  let '(s', (w', calls')) := @serve_command _ _ CN UT recording SE server s (w, calls) in
  serve_command server s w = (s', w') /\ recorded (trace s) s' calls calls'.
Proof using Type.
  unfold serve_command. destruct (negb (deadline_ok _)); [split; [done | nothing_said]|].
  destruct (readLimitedLine _ _) as [[line|e] rest].
  - destruct (splitCommand line) as [command argument]. apply (dispatch_recorded command argument (set_input rest (next_round s))).
  - split; [done|]. destruct (errors_Is e _); [nothing | nothing_said].
Qed.

(** ** The whole session *)

(** The calls account for the deliveries, and a call that failed was the last. *)
Record accounted (s : session) (calls : list publication) : Prop := {
  ac_published : published_messages calls = delivered_messages (trace s);
  ac_failed : forall k p e, calls !! k = Some p -> pb_answer p = Err e ->
    S k = length calls /\ closed s = true /\ last (trace s) = Some (failure_reply e);
}.

Lemma accounted_turn s s' calls calls' : accounted s calls -> closed s = false -> recorded (trace s) s' calls calls' -> accounted s' calls'.
Proof using Type.
  intros [Hp Hf] Hc Hr.
  assert (forall k p e, calls !! k = Some p -> pb_answer p = Err e -> False) as Hnone
    by (intros k p e Hk He; destruct (Hf k p e Hk He) as (_ & ? & _); congruence).
  destruct Hr as [events Ht Hu|info t content id path Ht|content e Ht Hc'].
  - split; [by rewrite Ht, delivered_app, Hp, (undelivered_messages events Hu), app_nil_r|].
    intros k p e Hk He. destruct (Hnone k p e Hk He).
  - split; [by rewrite Ht, delivered_app, published_app, Hp|]. intros k p e [Hk|[_ Hk]]%lookup_app_Some He; [destruct (Hnone k p e Hk He)|].
    apply list_lookup_singleton_Some in Hk as [_ <-]. discriminate He.
  - split.
    + rewrite Ht, delivered_app, published_app, Hp. unfold failure_reply. by destruct (errors_Is e _).
    + intros k p e' [Hk|[Hl Hk]]%lookup_app_Some He; [destruct (Hnone k p e' Hk He)|].
      apply list_lookup_singleton_Some in Hk as [Hk <-]. injection He as <-. split; [rewrite length_app; cbn; lia|].
      split; [done|]. rewrite Ht. by rewrite last_app_cons.
Qed.

Lemma serve_loop_accounted fuel s w calls : accounted s calls ->
  let '(s', (w', calls')) := @serve_loop _ _ CN UT recording SE server fuel s (w, calls) in
  serve_loop server fuel s w = (s', w') /\ accounted s' calls'.
Proof using Type.
  revert s w calls. induction fuel as [|fuel IH]; intros s w calls Ha; cbn [serve_loop]; [done|].
  destruct (closed s) eqn:Ec; [done|]. pose proof (serve_command_recorded s w calls) as Hr.
  destruct (@serve_command _ _ CN UT recording SE server s (w, calls)) as [s' [w' calls']]. destruct Hr as [-> Hr].
  apply IH. by eapply accounted_turn.
Qed.
End Recording.

(** ** Properties *)

Section Properties.
Context {W Staged : Type}.
Context `{CN : Conn, UT : UnicodeTables, DL : !Delivery W Staged, LW : !DeliveryLaws W Staged, SE : SmtpEnv}.
Implicit Types (options : Options) (server : Server) (stream : str) (w : W).

(** C14: The client is told that a message was accepted exactly when [Publish]
    archived it.  Run on a store that records the calls of [Publish], and that
    otherwise is the same store: the contents, IDs and paths of the deliveries are,
    in order, those of the calls that succeeded; every delivery is at once followed
    by the acceptance, and no acceptance comes without one; and a call that failed
    is the last, is answered 452 when the day's budget is spent and 451 otherwise,
    and closes the session. *)
Theorem accepted_means_published factory options server fuel stream w s w' calls :
  NewServer factory options = Ok server ->
  serveConn (Delivery0 := recording) server fuel stream (w, []) = (s, (w', calls)) ->
  serveConn server fuel stream w = (s, w') /\
  delivered_messages (trace s) = published_messages calls /\
  (forall i, trace s !! S i = Some (Reply 250 ["2.0.0 message accepted" : str]) <->
     exists info t content id path, trace s !! i = Some (Delivered info t content id path)) /\
  trace s !! 0%nat <> Some (Reply 250 ["2.0.0 message accepted" : str]) /\
  (forall k p e, calls !! k = Some p -> pb_answer p = Err e -> S k = length calls /\ closed s = true /\
     last (trace s) = Some (if errors_Is e ErrDailyLimit then Reply 452 ["4.3.1 daily receiving budget exceeded" : str]
                            else Reply 451 ["4.3.0 temporary local failure" : str])).
Proof.
  intros Hs%NewServer_ok E.
  assert (serveConn server fuel stream w = (s, w') /\ accounted s calls) as [Eplain [Hp Hf]].
  { revert E. unfold serveConn, reply, reply_lines. destruct (write_ok _); [|intros [= <- <- <-]; by split].
    set (s0 := count_write _). intros E. pose proof (serve_loop_accounted server fuel s0 w []) as Ha.
    rewrite E in Ha. apply Ha. by split. }
  split; [exact Eplain|]. split; [done|].
  pose proof (so_paired _ _ (serveConn_ok server Hs fuel stream w)) as Hpairs. rewrite Eplain in Hpairs.
  destruct (paired_spec _ Hpairs) as [Hiff Hfirst]. split; [|split; [exact Hfirst | exact Hf]].
  intros i. etransitivity; [apply Hiff|]. split.
  - intros ([| |info t content id path] & Hi & Hd); [done.. |]. by exists info, t, content, id, path.
  - intros (info & t & content & id & path & Hi). eexists. by split.
Qed.
End Properties.

(** ** Witness *)

Section Witness.
Import SmtpTheorems.Demo.
Existing Instances tables conn env store laws.

Definition recorded_session : session * (list str * list publication) :=
  serveConn (Delivery0 := recording) server 20 client ([], []).

Lemma recorded_eta : serveConn (Delivery0 := recording) server 20 client ([], [])
  = (recorded_session.1, (recorded_session.2.1, recorded_session.2.2)).
Proof. unfold recorded_session. destruct (serveConn _ _ _ _) as [? [? ?]]. reflexivity. Qed.

(** One message was published, and the client was told so. *)
Lemma accepted_means_published_witness :
  length recorded_session.2.2 = 1%nat /\
  delivered_messages (trace recorded_session.1) = published_messages recorded_session.2.2 /\
  trace recorded_session.1 !! 6%nat = Some (Reply 250 ["2.0.0 message accepted" : str]).
Proof.
  destruct (accepted_means_published None options server 20 client [] _ _ _ server_made recorded_eta) as (_ & Hp & Hiff & _).
  split; [vm_compute; reflexivity|]. split; [exact Hp|].
  apply Hiff. do 5 eexists. vm_compute. reflexivity.
Defined.
End Witness.
