(* ===== verification/SmtpReplies.v ===== *)
(** * What the SMTP server writes (internal/smtp/server.go: reply, replyMulti)

    Every reply is well formed: a three-digit code, printable lines of at most
    512 octets, and an enhanced status whose class is the code's.  A client that
    splits the bytes at CRLF reads back exactly the replies, so nothing it sent
    can pass for a reply. *)

From S2P Require Import Prelude GoStrings Tree Config Wire SmtpSyntax SmtpData SmtpSession SmtpSpec SmtpTheorems.

(** ** The bytes of a trace *)

Definition event_bytes (e : event) : str :=
  match e with
  | Reply code [message] => reply_bytes code message
  | Reply code lines => reply_multi_bytes code lines
  | _ => []
  end.

(** What [fmt.Fprintf] put on the connection. *)
Definition written (t : list event) : str := mjoin (event_bytes <$> t).

Definition event_reply (e : event) : list (Z * list str) :=
  match e with Reply code lines => [(code, lines)] | _ => [] end.

Definition replies (t : list event) : list (Z * list str) := mjoin (event_reply <$> t).

(** ** The reading client *)

(** One line: the code, whether it is the last of its reply, the text. *)
Definition read_reply_line (line : str) : option (Z * bool * str) :=
  match line with
  | a :: b :: c :: sep :: text =>
      match Atoi [a; b; c] with
      | Ok code =>
          if decide (sep = " "%char) then Some (code, true, text)
          else if decide (sep = "-"%char) then Some (code, false, text)
          else None
      | Err _ => None
      end
  | _ => None
  end.

(** The lines up to the empty rest after the last line feed; [acc] are the lines
    of a reply that is not complete. *)
Fixpoint read_replies (lines : list str) (acc : list str) : option (list (Z * list str)) :=
  match lines with
  | [] => None
  | [rest] => if bool_decide (rest = []) && bool_decide (acc = []) then Some [] else None
  | line :: more =>
      match read_reply_line (TrimSuffix line [CR]) with
      | None => None
      | Some (code, true, text) => cons (code, acc ++ [text]) <$> read_replies more []
      | Some (_, false, text) => read_replies more (acc ++ [text])
      end
  end.

Definition client_reads (bytes : str) : option (list (Z * list str)) := read_replies (Split bytes LF) [].

(** ** Well-formed replies *)

(** Printable ASCII, no line end. *)
Definition printable (c : ascii) : bool := (32 <=? code c) && (code c <=? 126).

(** The code, a separator, the text and CRLF are within 512 octets. *)
Definition reply_line_ok (line : str) : bool := forallb printable line && (length line + 6 <=? 512)%nat.

Definition three_digits (code : Z) : Prop := 200 <= code <= 599.

(** RFC 3463: the text starts with the class of the code. *)
Definition has_status (code : Z) (text : str) : bool := HasPrefix text (Itoa (code / 100) ++ ".").

Section Typing.
Context (server : Server).

(** The replies without an enhanced status. *)
Inductive plain_reply : Z -> list str -> Prop :=
  | plain_greeting : plain_reply 220 [hostname server ++ " ESMTP picomx"]
  | plain_helo : plain_reply 250 [hostname server]
  | plain_ehlo s : plain_reply 250 (capabilities server s)
  | plain_data : plain_reply 354 ["end with <CRLF>.<CRLF>" : str].

Record reply_typed (code : Z) (lines : list str) : Prop := {
  rt_code : three_digits code;
  rt_some : lines <> [];
  rt_lines : Forall (fun line => reply_line_ok line = true) lines;
  rt_status : plain_reply code lines \/ exists text, lines = [text] /\ has_status code text = true;
}.

Definition event_typed (e : event) : Prop :=
  match e with Reply code lines => reply_typed code lines | _ => True end.
End Typing.

(** A reply with a status, checked by evaluation. *)
Definition status_reply (code : Z) (text : str) : bool :=
  (200 <=? code) && (code <=? 599) && reply_line_ok text && has_status code text.

(** ** Reading back *)

Section ReadBack.

Lemma printable_not_LF (line : str) : reply_line_ok line = true -> LF ∉ line.
Proof.
  intros [Hf _]%andb_true_iff Hin. apply forallb_Forall in Hf. rewrite Forall_forall in Hf.
  by specialize (Hf _ Hin).
Qed.

(** The three digits of a code, by evaluation over all of them. *)
Definition code_row (code : Z) : bool :=
  match Itoa code with
  | [a; b; c] => bool_decide (LF ∉ [a; b; c]) && match Atoi [a; b; c] with Ok n => n =? code | Err _ => false end
  | _ => false
  end.

Lemma code_table : forallb (fun n => code_row (200 + Z.of_nat n)) (seq 0 400) = true.
Proof. by vm_compute. Qed.

Lemma code_digits code : three_digits code ->
  exists a b c, Itoa code = [a; b; c] /\ LF ∉ [a; b; c] /\ Atoi [a; b; c] = Ok code.
Proof.
  intros Hc. pose proof code_table as Ht. apply forallb_Forall in Ht. rewrite Forall_forall in Ht.
  assert (code_row (200 + Z.of_nat (Z.to_nat (code - 200))) = true) as Hrow.
  { apply Ht. apply elem_of_seq. unfold three_digits in Hc. lia. }
  replace (200 + Z.of_nat (Z.to_nat (code - 200))) with code in Hrow by (unfold three_digits in Hc; lia).
  unfold code_row in Hrow. destruct (Itoa code) as [|a [|b [|c [|]]]]; try discriminate Hrow.
  exists a, b, c. apply andb_true_iff in Hrow as [Hl%bool_decide_eq_true Ha]. split; [done|]. split; [done|].
  destruct (Atoi _) as [n|]; [|discriminate Ha]. by apply Z.eqb_eq in Ha as ->.
Qed.

(** One line of a reply at the head of the stream. *)
Lemma read_line_head code sep (line rest : str) acc :
  three_digits code -> reply_line_ok line = true -> sep = " "%char \/ sep = "-"%char ->
  read_replies (Split ((Itoa code ++ sep :: line ++ CRLF) ++ rest) LF) acc =
    if decide (sep = " "%char) then cons (code, acc ++ [line]) <$> read_replies (Split rest LF) []
    else read_replies (Split rest LF) (acc ++ [line]).
Proof.
  intros Hc Hl Hsep. destruct (code_digits code Hc) as (a & b & c & -> & Hn & Ha).
  replace (([a; b; c] ++ sep :: line ++ CRLF) ++ rest) with (([a; b; c] ++ sep :: line ++ [CR]) ++ LF :: rest)
    by (cbn; unfold CRLF; rewrite <- !app_assoc; reflexivity).
  assert (LF ∉ [a; b; c] ++ sep :: line ++ [CR]) as Hnl.
  { apply printable_not_LF in Hl. apply not_elem_of_app. split; [done|]. apply not_elem_of_cons.
    split; [by destruct Hsep as [-> | ->]|]. apply not_elem_of_app. split; [done|]. by intros ?%list_elem_of_singleton. }
  rewrite Split_cons by done. destruct (Split rest LF) as [|next more] eqn:E; [by apply Split_nonempty in E|].
  cbn [read_replies]. rewrite app_comm_cons, app_assoc, TrimSuffix_app.
  cbn [app read_reply_line]. rewrite Ha.
  destruct Hsep as [-> | ->]; reflexivity.
Qed.

Lemma read_multi code (lines : list str) rest acc : three_digits code -> lines <> [] ->
  Forall (fun line => reply_line_ok line = true) lines ->
  read_replies (Split (reply_multi_bytes code lines ++ rest) LF) acc =
    cons (code, acc ++ lines) <$> read_replies (Split rest LF) [].
Proof.
  intros Hc Hne Hl. revert acc. induction Hl as [|line lines Hline Hl IH]; intros acc; [done|].
  destruct lines as [|next lines].
  - change (reply_multi_bytes code [line]) with (Itoa code ++ " "%char :: line ++ CRLF).
    by rewrite read_line_head by auto.
  - change (reply_multi_bytes code (line :: next :: lines))
      with (Itoa code ++ ("-" : str) ++ line ++ CRLF ++ reply_multi_bytes code (next :: lines)).
    replace ((Itoa code ++ ("-" : str) ++ line ++ CRLF ++ reply_multi_bytes code (next :: lines)) ++ rest)
      with ((Itoa code ++ "-"%char :: line ++ CRLF) ++ reply_multi_bytes code (next :: lines) ++ rest)
      by (cbn; rewrite <- !app_assoc; cbn; rewrite <- !app_assoc; reflexivity).
    rewrite read_line_head by auto. rewrite (decide_False (P := "-"%char = " "%char)) by done.
    rewrite IH by done. by rewrite <- app_assoc.
Qed.

Lemma written_reads_back server (t : list event) : Forall (event_typed server) t ->
  client_reads (written t) = Some (replies t).
Proof.
  unfold client_reads, written, replies. induction 1 as [|e t He Ht IH]; [done|].
  rewrite !fmap_cons. change (mjoin (event_bytes e :: (event_bytes <$> t))) with (event_bytes e ++ mjoin (event_bytes <$> t)).
  change (mjoin (event_reply e :: (event_reply <$> t))) with (event_reply e ++ mjoin (event_reply <$> t)).
  destruct e as [code lines| |]; [|exact IH..]. destruct He as [Hc Hn Hl _].
  assert (event_bytes (Reply code lines) = reply_multi_bytes code lines) as -> by (by destruct lines as [|? []]).
  rewrite read_multi by done. by rewrite IH.
Qed.
End ReadBack.

(** ** Every handler writes well-formed replies *)

Lemma format_digits_length fuel base z acc : (length (format_digits fuel base z acc) <= fuel + length acc)%nat.
Proof.
  revert z acc. induction fuel as [|fuel IH]; intros z acc; cbn [format_digits]; [lia|].
  destruct (z <? base); [cbn; lia|]. etransitivity; [apply IH|]. cbn. lia.
Qed.

Lemma Itoa_printable z : 0 <= z -> forallb printable (Itoa z) = true /\ (length (Itoa z) <= 64)%nat.
Proof.
  intros Hz. unfold Itoa. rewrite (proj2 (Z.ltb_ge _ _)) by lia. split.
  - apply forallb_Forall. eapply Forall_impl; [apply FormatUint_decimal|]. intros c Hc.
    unfold is_digit in Hc. unfold printable. lia.
  - unfold FormatUint. etransitivity; [apply format_digits_length|]. cbn. lia.
Qed.

Lemma domain_printable d : validDomain d = true -> forallb printable d = true /\ (length d <= 253)%nat.
Proof.
  intros Hd. split.
  - apply forallb_Forall. eapply Forall_impl; [by apply validDomain_chars|]. intros c Hc.
    unfold domain_char in Hc. apply orb_true_iff in Hc as [[Hc| ->%bool_decide_eq_true]%orb_true_iff| ->%bool_decide_eq_true];
      [|done..]. unfold lower_alnum, is_digit in Hc. unfold printable. lia.
  - unfold validDomain in Hd. apply andb_true_iff in Hd as [Hd%negb_true_iff%orb_false_iff _].
    by apply Nat.ltb_ge, Hd.
Qed.

Section Typed.
Context {W Staged : Type}.
Context `{Conn, UnicodeTables, !Delivery W Staged, SmtpEnv}.
Context (server : Server) (Hserver : server_ok server).

Definition typed (s : session) : Prop := Forall (event_typed server) (trace s).

Lemma reply_lines_typed code lines s : typed s -> reply_typed server code lines -> typed (reply_lines code lines s).2.
Proof. intros Hs Hr. apply Forall_app. split; [exact Hs | by apply Forall_singleton]. Qed.

Lemma say_typed code message s : typed s -> status_reply code message = true -> typed (say code message s).
Proof.
  intros Hs [[[Hlo Hhi]%andb_true_iff Hl]%andb_true_iff Hst]%andb_true_iff.
  apply reply_lines_typed; [done|]. split; [unfold three_digits; lia | done | by apply Forall_singleton | right; eauto].
Qed.

(** A fixed reply. *)
Ltac fixed := apply say_typed; [assumption | reflexivity].

Lemma hostname_line suffix : forallb printable suffix = true -> (length suffix <= 200)%nat ->
  reply_line_ok (hostname server ++ suffix) = true.
Proof.
  intros Hp Hl. destruct (domain_printable _ (sv_hostname _ Hserver)) as [Hd Hn]. unfold reply_line_ok.
  rewrite forallb_app, Hd, Hp. apply Nat.leb_le. rewrite length_app. lia.
Qed.

Lemma hostname_alone : reply_line_ok (hostname server) = true.
Proof. rewrite <- (app_nil_r (hostname server)). apply hostname_line; [done | cbn; lia]. Qed.

Lemma hostname_typed : reply_typed server 250 [hostname server].
Proof.
  split; [done | done | | left; constructor]. apply Forall_singleton, hostname_alone.
Qed.

Lemma capabilities_typed s : reply_typed server 250 (capabilities server s).
Proof.
  split; [done | done | | left; constructor]. unfold capabilities.
  pose proof (sv_size _ Hserver) as Hsize. destruct (Itoa_printable (maxMessageSize server)) as [Hp Hl]; [lia|].
  apply Forall_app. split; [|destruct (_ && _); [by apply Forall_singleton | constructor]].
  constructor; [apply hostname_alone|].
  constructor; [|by apply Forall_singleton]. unfold reply_line_ok. rewrite forallb_app, Hp.
  apply Nat.leb_le. rewrite length_app. change (length ("SIZE " : str)) with 5%nat. lia.
Qed.

Lemma handle_helo_typed extended argument s : typed s -> typed (handle_helo server extended argument s).
Proof.
  intros Hs. unfold handle_helo. destruct (negb _); [fixed|].
  destruct extended; (apply reply_lines_typed; [exact Hs|]); [apply capabilities_typed | apply hostname_typed].
Qed.

Lemma handle_starttls_typed argument s : typed s -> typed (handle_starttls server argument s).
Proof.
  intros Hs. unfold handle_starttls. destruct (_ || encrypted s); [fixed|].
  assert (typed (say 220 "2.0.0 ready to start TLS" s)) as Hr by fixed.
  unfold reply, reply_lines. destruct (write_ok _); [|exact Hr]. cbn [negb].
  destruct (handshake _); [|exact Hr]. apply Forall_app. split; [exact Hr | by apply Forall_singleton].
Qed.

Lemma handle_mail_typed argument s : typed s -> typed (handle_mail server argument s).
Proof.
  intros Hs. unfold handle_mail. destruct (negb _); [fixed|].
  destruct (parsePath _ _ _) as [[address params]|]; [|fixed].
  destruct (validateMailParameters _ _) as [e|]; [destruct (errors_Is e _); fixed | fixed].
Qed.

Lemma handle_rcpt_typed argument s : typed s -> typed (handle_rcpt server argument s).
Proof.
  intros Hs. unfold handle_rcpt. destruct (negb _); [fixed|].
  destruct (parsePath _ _ _) as [[address params]|]; [|fixed].
  destruct (negb _); [fixed|]. destruct (negb _); [fixed|]. destruct (_ <=? _); [fixed|].
  destruct (rd_Action _); fixed.
Qed.

Lemma finish_data_typed receivedAt bytes staged s w : typed s -> typed (finish_data server receivedAt bytes staged s w).1.
Proof.
  intros Hs. unfold finish_data. destruct (mdec_Action _); try (cbn [fst]; case_decide; fixed).
  destruct (Publish staged w) as [[[id path]|e] w'].
  - apply say_typed; [|reflexivity]. apply Forall_app. split; [exact Hs | by apply Forall_singleton].
  - destruct (errors_Is e _); fixed.
Qed.

Lemma handle_data_typed argument s w : typed s -> typed (handle_data server argument s w).1.
Proof.
  intros Hs. unfold handle_data. destruct (_ || _); [fixed|]. destruct (CheckReceive w); [fixed|].
  assert (typed (say 354 "end with <CRLF>.<CRLF>" s)) as Hr.
  { apply reply_lines_typed; [done|]. split; [done | done | by apply Forall_singleton | left; constructor]. }
  unfold reply. destruct (reply_lines 354 _ s) as [ok s'] eqn:E.
  assert (typed s') as Hs' by (unfold say, reply in Hr; rewrite E in Hr; exact Hr).
  destruct ok; cbn [negb]; [|exact Hs'].
  destruct (copy_reads _ _ _) as [reads data]. destruct (Stage reads w) as [[staged|e] w'].
  - by apply finish_data_typed.
  - unfold stage_failure. destruct (errors_Is e _); [|destruct (errors_Is e _); [|destruct (errors_Is e _)]]; fixed.
Qed.

Lemma dispatch_typed command argument s w : typed s -> typed (dispatch server command argument s w).1.
Proof.
  intros Hs. unfold dispatch. repeat case_decide; cbn [fst];
    auto using handle_helo_typed, handle_starttls_typed, handle_mail_typed, handle_rcpt_typed, handle_data_typed; fixed.
Qed.

Lemma serve_command_typed s w : typed s -> typed (serve_command server s w).1.
Proof.
  intros Hs. unfold serve_command. destruct (negb _); [exact Hs|].
  destruct (readLimitedLine _ _) as [[line|e] rest].
  - destruct (splitCommand line). by apply dispatch_typed.
  - destruct (errors_Is e _); [fixed | exact Hs].
Qed.

Lemma serve_loop_typed fuel s w : typed s -> typed (serve_loop server fuel s w).1.
Proof.
  revert s w. induction fuel as [|fuel IH]; intros s w Hs; cbn [serve_loop]; [done|].
  destruct (closed s); [done|]. pose proof (serve_command_typed s w Hs). destruct (serve_command server s w). by apply IH.
Qed.

Lemma serveConn_typed fuel stream w : typed (serveConn server fuel stream w).1.
Proof.
  unfold serveConn. assert (typed (say 220 (hostname server ++ " ESMTP picomx") (new_session stream))) as Hg.
  { apply reply_lines_typed; [constructor|]. split; [done | done | | left; constructor].
    apply Forall_singleton, hostname_line; [done | cbn; lia]. }
  unfold say in Hg. destruct (reply 220 _ _) as [[] s]; [by apply serve_loop_typed | exact Hg].
Qed.
End Typed.

(** ** Properties *)

Section Properties.
Context {W Staged : Type}.
Context `{Conn, UnicodeTables, !Delivery W Staged, SmtpEnv}.

(** C15: Every reply is well formed, whatever the client sends.  It has a
    three-digit code and at least one line; its lines are printable ASCII of
    at most 512 octets on the wire; its text starts with an enhanced status of
    the code's class, or it is the greeting, an answer to HELO or EHLO, or the
    go-ahead for DATA.  A client that splits the bytes at line ends reads back
    exactly the replies, so no client can inject one. *)
Theorem replies_are_well_formed factory (options : Options) (server : Server) fuel (stream : str) (w : W) :
  NewServer factory options = Ok server ->
  let t := trace (serveConn server fuel stream w).1 in
  (forall i code lines, t !! i = Some (Reply code lines) -> reply_typed server code lines) /\
  client_reads (written t) = Some (replies t).
Proof.
  intros Hs%NewServer_ok t. pose proof (serveConn_typed server Hs fuel stream w) as Ht. split.
  - intros i code lines Hi. unfold typed in Ht. rewrite Forall_lookup in Ht. exact (Ht i _ Hi).
  - by apply (written_reads_back server).
Qed.
End Properties.

(** ** Witness *)

Section Witness.
Import Demo.
Existing Instances tables conn env store.

Lemma replies_are_well_formed_witness :
  client_reads (written (trace (serveConn server 20 client []).1)) = Some (replies (trace (serveConn server 20 client []).1)).
Proof. apply (replies_are_well_formed None options server 20 client [] server_made). Defined.
End Witness.
