(* ===== verification/SmtpLog.v ===== *)
(** * What the SMTP server logs (internal/smtp/server.go: the logger calls)

    The log has one line per delivered message, with its envelope, ID and path;
    policy reasons are cut to a bound, and every line names the peer. *)

From S2P Require Import Prelude GoStrings Tree Config Wire SmtpSyntax SmtpData SmtpSession SmtpSpec SmtpTheorems.

(** ** Data *)

(** Sender, recipients, ID, path and whether TLS was on, in the log and in the
    trace. *)
Definition delivery_line : Type := str * list str * Z * str * bool.

Definition logged_delivery (x : str * log_entry) : option delivery_line :=
  match x.2 with
  | MessageDelivered from recipients _ id path tls => Some (from, recipients, id, path, tls)
  | _ => None
  end.

Definition traced_delivery (e : event) : option delivery_line :=
  match e with
  | Delivered info t _ id path => Some (tx_from t, tx_recipients t, id, path, ci_TLS info)
  | _ => None
  end.

Definition entry_ok (x : str * log_entry) : Prop :=
  match x.2 with
  | RecipientPolicy _ _ reason | MessagePolicy _ reason => (length reason <= reason_limit)%nat
  | _ => True
  end.

Lemma truncateReason_bound reason : (length (truncateReason reason) <= reason_limit)%nat.
Proof. unfold truncateReason. destruct (Nat.leb_spec (length reason) reason_limit); [done|]. rewrite length_take. lia. Qed.

Section Log.
Context {W Staged : Type}.
Context `{Conn, UnicodeTables, !Delivery W Staged, SmtpEnv}.
Context (server : Server).

Record log_ok (s : session) : Prop := {
  lo_deliveries : omap logged_delivery (logged s) = omap traced_delivery (trace s);
  lo_entries : Forall entry_ok (logged s);
  lo_remote : Forall (fun x : str * log_entry => x.1 = remote) (logged s);
}.

(** ** Steps *)

Lemma log_same s s' : log_ok s -> trace s' = trace s -> logged s' = logged s -> log_ok s'.
Proof. intros [] Ht Hl. by split; rewrite ?Ht, ?Hl. Qed.

Lemma log_close s : log_ok s -> log_ok (close s).
Proof. by intros []. Qed.

Lemma log_emit e s : log_ok s -> traced_delivery e = None -> log_ok (emit e s).
Proof. intros [L1 L2 L3] He. split; cbn; [|done..]. rewrite omap_app, L1. cbn. by rewrite He, app_nil_r. Qed.

Lemma log_reply code lines s : log_ok s -> log_ok (reply_lines code lines s).2.
Proof. intros Hs. by apply (log_same (emit (Reply code lines) s)); [apply log_emit|..]. Qed.

Lemma log_say code message s : log_ok s -> log_ok (say code message s).
Proof. apply log_reply. Qed.

Lemma log_note entry s : log_ok s -> logged_delivery (remote, entry) = None -> entry_ok (remote, entry) -> log_ok (note entry s).
Proof.
  intros [L1 L2 L3] Hd He. split; cbn.
  - rewrite omap_app, L1. cbn. by rewrite Hd, app_nil_r.
  - apply Forall_app. split; [done | by apply Forall_singleton].
  - apply Forall_app. split; [done | by apply Forall_singleton].
Qed.

(** A delivery and its line. *)
Lemma log_delivered s content bytes id path : log_ok s ->
  log_ok (note (MessageDelivered (tx_from (tx s)) (tx_recipients (tx s)) bytes id path (encrypted s))
            (emit (Delivered (connectionInfo s) (tx s) content id path) s)).
Proof.
  intros [L1 L2 L3]. split; cbn.
  - by rewrite !omap_app, L1.
  - apply Forall_app. split; [done | by apply Forall_singleton].
  - apply Forall_app. split; [done | by apply Forall_singleton].
Qed.

Lemma log_refused recipient decision s : log_ok s -> log_ok (logRecipientDecision recipient decision s).
Proof. intros Hs. apply log_note; [done | done | apply truncateReason_bound]. Qed.

Ltac same s0 := apply (log_same s0); [| done | done].
Ltac logs := solve [repeat first [assumption | apply log_say | apply log_refused
                    | apply log_note; [| reflexivity | first [exact I | apply truncateReason_bound]]]].

Lemma handle_helo_log extended argument s : log_ok s -> log_ok (handle_helo server extended argument s).
Proof.
  intros Hs. unfold handle_helo. destruct (negb _); [logs|].
  destruct extended; apply log_reply; by same s.
Qed.

Lemma handle_starttls_log argument s : log_ok s -> log_ok (handle_starttls server argument s).
Proof.
  intros Hs. unfold handle_starttls. destruct (_ || encrypted s); [logs|]. unfold reply.
  pose proof (log_reply 220 ["2.0.0 ready to start TLS" : str] s Hs) as Hr. destruct (reply_lines _ _ s) as [ok s1]. cbn [snd] in Hr.
  destruct ok; cbn [negb]; [|by apply log_close]. destruct (handshake _) as [plaintext|e].
  - by apply (log_same (emit TLSStarted s1)); [apply log_emit|..].
  - apply log_close. logs.
Qed.

Lemma handle_mail_log argument s : log_ok s -> log_ok (handle_mail server argument s).
Proof.
  intros Hs. unfold handle_mail. destruct (negb _); [logs|]. destruct (parsePath _ _ _) as [[address params]|]; [|logs].
  destruct (validateMailParameters _ _) as [e|]; [destruct (errors_Is e _); logs|]. apply log_say. by same s.
Qed.

Lemma handle_rcpt_log argument s : log_ok s -> log_ok (handle_rcpt server argument s).
Proof.
  intros Hs. unfold handle_rcpt. destruct (negb _); [logs|]. destruct (parsePath _ _ _) as [[address params]|]; [|logs].
  destruct (negb _); [logs|]. destruct (negb _); [logs|]. destruct (_ <=? _); [logs|]. cbn zeta.
  destruct (rd_Action _); try logs. apply log_say. by same s.
Qed.

Lemma finish_data_log receivedAt bytes staged s w : log_ok s -> log_ok (finish_data server receivedAt bytes staged s w).1.
Proof.
  intros Hs. unfold finish_data. cbn zeta. set (decision := evaluateMessage _ _ _).
  assert (forall action, log_ok (set_tx no_transaction (note (MessagePolicy action (truncateReason (mdec_Reason decision))) s))) as Hr.
  { intros action. by apply (log_same (note (MessagePolicy action (truncateReason (mdec_Reason decision))) s)); [logs|..]. }
  destruct (mdec_Action decision); try (cbn [fst]; case_decide; apply log_say, Hr).
  destruct (Publish staged w) as [[[id path]|e] w']; cbn [fst].
  - apply log_say. by apply (log_same _ _ (log_delivered s (Open staged w) bytes id path Hs)).
  - apply log_close. destruct (errors_Is e _); logs.
Qed.

Lemma handle_data_log argument s w : log_ok s -> log_ok (handle_data server argument s w).1.
Proof.
  intros Hs. unfold handle_data. destruct (_ || _); [logs|]. destruct (CheckReceive w) as [e|]; [logs|]. unfold reply.
  pose proof (log_reply 354 ["end with <CRLF>.<CRLF>" : str] s Hs) as Hr. destruct (reply_lines _ _ s) as [ok s1]. cbn [snd] in Hr.
  destruct ok; cbn [negb]; [|by apply log_close]. destruct (copy_reads _ _ _) as [reads data]. destruct (Stage reads w) as [[staged|e] w'].
  - apply finish_data_log. by same s1.
  - destruct (stage_failure e) as [code message]. cbn [fst]. apply log_close. logs.
Qed.

Lemma serve_command_log s w : log_ok s -> log_ok (serve_command server s w).1.
Proof.
  intros Hs. unfold serve_command. destruct (negb _); [by same s|]. destruct (readLimitedLine _ _) as [[line|e] rest].
  - destruct (splitCommand line) as [command argument].
    assert (log_ok (set_input rest (next_round s))) as Hs1 by (by same s). revert Hs1. generalize (set_input rest (next_round s)).
    intros s1 Hs1. unfold dispatch. repeat case_decide; cbn [fst];
      auto using handle_helo_log, handle_starttls_log, handle_mail_log, handle_rcpt_log, handle_data_log, log_say.
    + apply log_say. by same s1.
    + by apply log_say.
    + by apply log_close, log_say.
    + by apply log_say.
  - assert (log_ok (set_input rest (next_round s))) as Hs1 by (by same s). cbn [fst].
    apply log_close. destruct (errors_Is e _); [by apply log_say | exact Hs1].
Qed.

Lemma serve_loop_log fuel s w : log_ok s -> log_ok (serve_loop server fuel s w).1.
Proof.
  revert s w. induction fuel as [|fuel IH]; intros s w Hs; cbn [serve_loop]; [done|]. destruct (closed s); [done|].
  pose proof (serve_command_log s w Hs). destruct (serve_command server s w). by apply IH.
Qed.

Lemma new_session_log stream : log_ok (new_session stream).
Proof. by split; [|constructor..]. Qed.
End Log.

(** ** Property *)

(** The log tells what was delivered.  Whatever a client sends, the log has
    exactly one line per delivered message, in order, with its sender, its
    recipients, its ID and path and whether it came over TLS; no policy's reason
    takes more than [reason_limit] bytes of it; and every line has the peer's
    address. *)
Theorem deliveries_are_logged `{Conn, UnicodeTables, !Delivery W Staged, SmtpEnv} (server : Server) fuel (stream : str) (w : W) :
  let s := (serveConn server fuel stream w).1 in
  omap logged_delivery (logged s) = omap traced_delivery (trace s) /\
  Forall entry_ok (logged s) /\ Forall (fun x : str * log_entry => x.1 = remote) (logged s).
Proof.
  intros s. assert (log_ok s) as []; [|done]. unfold s, serveConn.
  pose proof (log_reply 220 [hostname server ++ " ESMTP picomx"] (new_session stream) (new_session_log stream)) as Hg.
  unfold reply. destruct (reply_lines _ _ _) as [[] s1]; cbn [snd] in Hg; [by apply serve_loop_log|]. cbn [fst].
  by apply log_close.
Qed.
