(* ===== verification/SmtpLiveness.v ===== *)
(** * An honest client is served (internal/smtp/server.go)

    The other theorems say what a session may not do; here is what it does.  A
    client that greets, sends well-formed mail to served recipients and quits,
    against a policy that accepts and a store that has room, gets every message
    accepted: the whole conversation is determined, reply by reply. *)

From S2P Require Import Prelude GoStrings Tree Config Wire SmtpSyntax Peer SmtpData SmtpSession SmtpSpec SmtpTheorems.

(** ** A store that serves *)

(** A store that is [serving] can receive [room] octets, where a message of [n]
    costs [price n]: one that fits is staged and published, and the store goes on
    serving with at most that much less room. *)
Class DeliveryServes (W Staged : Type) `{Delivery W Staged} (serving : W -> Prop) (room : W -> Z) (price : Z -> Z) := {
  price_octets n : 0 <= n -> n <= price n;
  CheckReceive_serves w : serving w -> price 0 <= room w -> CheckReceive w = None;
  price_monotone n m : 0 <= n <= m -> price n <= price m;
  Stage_serves reads w : serving w -> ends_once reads -> complete reads -> Forall (fun r => Z.of_nat (length r.1) <= 32768) reads ->
    price (Z.of_nat (length (mjoin reads.*1))) <= room w ->
    exists staged w', Stage reads w = (Ok staged, w') /\
    exists id path w'', Publish staged w' = (Ok (id, path), w'') /\ serving w'' /\
      room w - price (Z.of_nat (length (mjoin reads.*1))) <= room w'';
}.

(** ** The conversation of an honest client *)

(** A message: envelope and lines of text. *)
Record mail := { ml_from : str; ml_recipients : list str; ml_lines : list str }.

(** A command line with an argument. *)
Definition command_line (text : str) : str := text ++ CRLF.

Definition mail_line (from : str) : str := "MAIL" ++ " "%char :: "FROM:<" ++ from ++ ">".
Definition rcpt_line (recipient : str) : str := "RCPT" ++ " "%char :: "TO:<" ++ recipient ++ ">".
Definition greeting_line (extended : bool) (name : str) : str :=
  (if extended then "EHLO" else "HELO") ++ " "%char :: name.

Definition mail_bytes (m : mail) : str :=
  command_line (mail_line (ml_from m)) ++ mjoin (command_line ∘ rcpt_line <$> ml_recipients m)
  ++ command_line "DATA" ++ wire_lines (ml_lines m) ++ "." ++ CRLF.

Definition conversation (extended : bool) (name : str) (mails : list mail) : str :=
  command_line (greeting_line extended name) ++ mjoin (mail_bytes <$> mails) ++ command_line "QUIT".

(** How many commands that is. *)
Definition mail_commands (m : mail) : nat := 2 + length (ml_recipients m).
Definition conversation_commands (mails : list mail) : nat := 2 + sum_list_with mail_commands mails.

Definition mail_transaction (m : mail) : transaction :=
  {| tx_started := true; tx_from := ml_from m; tx_recipients := ml_recipients m |}.

(** ** Lemmas on text *)

Section Text.
Context `{UnicodeTables}.

Lemma word_app (a b : str) : word a -> word b -> word (a ++ b).
Proof. intros [Ha Fa] [_ Fb]. split; [by destruct a|]. by apply Forall_app. Qed.

Lemma word_notin (w : str) c : word w -> IsSpace (code c) = true -> c ∉ w.
Proof. intros [_ Hf] Hc Hin. rewrite Forall_forall in Hf. apply Hf in Hin as [_ Hs]. congruence. Qed.

Lemma splitCommand_argument (verb argument : str) : " "%char ∉ verb -> word argument ->
  splitCommand (verb ++ " "%char :: argument) = (ToUpper verb, argument).
Proof. intros Hv Ha. unfold splitCommand. by rewrite Cut_app, (TrimSpace_word argument). Qed.

(** Lower-casing keeps every character that is not a letter. *)
Lemma ToLower_keeps (s : str) c : ascii_only s -> rune_lower (code c) = code c -> c ∈ s -> c ∈ ToLower s.
Proof.
  intros Hs Hc Hin. unfold ToLower, Map. rewrite (runes_ascii s Hs). apply list_elem_of_join.
  pose proof Hs as Hcode. unfold ascii_only in Hcode. rewrite Forall_forall in Hcode. specialize (Hcode c Hin).
  pose proof (code_range c).
  assert (EncodeRune (code c) = [c]) as He.
  { unfold EncodeRune. rewrite (proj2 (Z.ltb_ge (code c) 0)), (proj2 (Z.ltb_ge 1114111 (code c))) by lia.
    rewrite (proj2 (Z.leb_gt 55296 (code c))) by lia. cbn [orb andb]. rewrite (proj2 (Z.ltb_lt (code c) 128)) by lia.
    by rewrite byte_of_code. }
  exists [c]. split; [by left|]. apply list_elem_of_fmap. exists (code c, [c]). split.
  - cbn [fst]. rewrite Hc, He. by rewrite (proj2 (Z.ltb_ge _ _)) by lia.
  - apply list_elem_of_fmap. by exists c.
Qed.

Lemma TrimSuffix_keeps (s suffix : str) c : c ∉ suffix -> c ∈ s -> c ∈ TrimSuffix s suffix.
Proof.
  intros Hc Hs. destruct (HasSuffix s suffix) eqn:E.
  - apply HasSuffix_spec in E as [t ->]. rewrite TrimSuffix_app. apply elem_of_app in Hs as [?|?]; done.
  - by rewrite TrimSuffix_none.
Qed.
End Text.

(** ** Paths *)

Section Paths.
Context `{UnicodeTables}.

(** An address an honest client writes: ASCII without spaces, and valid. *)
Definition honest_address (a : str) : Prop := word a /\ validAddress a = true.

Lemma local_rune_gt : local_rune (code ">"%char) = false.
Proof. by vm_compute. Qed.

Lemma honest_address_gt a : honest_address a -> ">"%char ∉ a.
Proof.
  intros [Hw Hv] Hin. unfold validAddress in Hv. destruct (_ || _); [discriminate|].
  destruct (Cut a "@"%char) as [[local domain] found] eqn:Ec. destruct (_ || negb _) eqn:Ed; [discriminate|].
  destruct (_ || _) in Hv; [discriminate|]. apply orb_false_iff in Ed as [_ Hd%negb_false_iff].
  assert (forall s : str, (forall c, c ∈ s -> c ∈ a) -> Forall (fun c => code c < 128 /\ IsSpace (code c) = false) s) as Hsub.
  { intros s Hs. destruct Hw as [_ Hw]. rewrite Forall_forall in Hw |- *. auto. }
  assert (forall c, c ∈ local \/ c ∈ domain -> c ∈ a) as Hcut by (intros c; exact (Cut_subseteq _ _ _ _ _ Ec c)).
  destruct found; [|apply Cut_missing in Ec as (-> & -> & _); by vm_compute in Hd].
  apply Cut_found in Ec as [Ea _]. rewrite Ea in Hin. apply elem_of_app in Hin as [Hin|[Heq|Hin]%elem_of_cons]; [|by vm_compute in Heq|].
  - assert (ascii_only local) as Hl by (eapply Forall_impl; [apply Hsub; auto | by intros c []]).
    rewrite (runes_ascii local Hl), <- list_fmap_compose in Hv. apply forallb_Forall in Hv. rewrite Forall_forall in Hv.
    assert (local_rune (code ">"%char) = true) as Hb by (apply Hv, list_elem_of_fmap; by exists ">"%char).
    by rewrite local_rune_gt in Hb.
  - assert (word domain) as Hwd by (split; [by intros -> ; apply elem_of_nil in Hin | apply Hsub; auto]).
    unfold normalizeDomain in Hd. rewrite (TrimSpace_word domain Hwd) in Hd. apply validDomain_chars in Hd.
    rewrite Forall_forall in Hd. assert (domain_char ">"%char = true) as Hb; [|by vm_compute in Hb].
    apply Hd, TrimSuffix_keeps; [by intros ?%list_elem_of_singleton|].
    apply ToLower_keeps; [by apply word_ascii | by vm_compute | done].
Qed.

Lemma honest_address_length a : honest_address a -> (length a <= 254)%nat.
Proof.
  intros [_ Hv]. unfold validAddress in Hv. destruct (_ || _) eqn:E; [discriminate|].
  apply orb_false_iff in E as [E%Nat.ltb_ge _]. done.
Qed.

(** A path in angle brackets, empty for the null sender. *)
Definition bracketed (a : str) : str := "<"%char :: a ++ [">"%char].

Lemma bracketed_word a : a = [] \/ honest_address a -> word (bracketed a).
Proof.
  intros Ha. split; [done|]. apply Forall_cons. split; [done|]. apply Forall_app.
  split; [|by apply Forall_singleton]. destruct Ha as [-> | [[_ Hf] _]]; [constructor | exact Hf].
Qed.

Lemma parsePath_bracketed (prefix a : str) allowEmpty : EqualFold prefix prefix = true ->
  (a = [] /\ allowEmpty = true) \/ honest_address a ->
  parsePath (prefix ++ bracketed a) prefix allowEmpty = Ok (a, []).
Proof.
  intros Hp Ha. unfold parsePath. rewrite (proj2 (Nat.ltb_ge _ _)) by (rewrite length_app; lia).
  rewrite take_app_length, Hp, drop_app_length. cbn [negb orb].
  rewrite TrimSpace_word by (apply bracketed_word; tauto). change (HasPrefix (bracketed a) "<") with true. cbn [negb].
  assert (">"%char ∉ "<"%char :: a) as Hn.
  { apply not_elem_of_cons. split; [done|]. destruct Ha as [[-> _]|Ha]; [apply not_elem_of_nil | by apply honest_address_gt]. }
  unfold bracketed. rewrite app_comm_cons, IndexByte_app by done.
  replace (take (length ("<"%char :: a) - 1) (drop 1 (("<"%char :: a) ++ [">"%char]))) with a
    by (cbn; rewrite Nat.sub_0_r, drop_0, take_app_length; done).
  rewrite drop_ge by (rewrite length_app; cbn; lia). change (TrimSpace []) with ([] : str).
  destruct Ha as [[-> ->]|Ha]; [done|]. destruct (bool_decide (a = []) && allowEmpty); [done|].
  destruct Ha as [_ ->]. done.
Qed.
End Paths.

(** ** Command lines *)

Section Commands.
Context `{UnicodeTables}.

Lemma readLimitedLine_command `{Conn} (text rest : str) : LF ∉ text -> (length text + 2 <= maxCommandLineBytes)%nat ->
  readLimitedLine maxCommandLineBytes (command_line text ++ rest) = (Ok text, rest).
Proof.
  intros Hn Hl. unfold readLimitedLine, readLimitedLineRaw.
  replace (command_line text ++ rest) with ((text ++ [CR]) ++ LF :: rest)
    by (unfold command_line, CRLF; rewrite <- !app_assoc; reflexivity).
  rewrite read_limited_line.
  - by rewrite <- app_assoc, trim_eol_crlf.
  - intros [?|?%list_elem_of_singleton]%elem_of_app; [done | discriminate].
  - rewrite length_app. cbn. lia.
  - unfold maxCommandLineBytes, smtp_buffer, maxDataLineBytes. lia.
Qed.

Lemma command_line_notin (verb argument : str) : LF ∉ verb -> word argument -> LF ∉ verb ++ " "%char :: argument.
Proof.
  intros Hv Ha [Hin|[Heq|Hin]%elem_of_cons]%elem_of_app; [done | by vm_compute in Heq|].
  by apply (word_notin argument LF Ha).
Qed.
End Commands.

(** ** The session, command by command *)

Section Serving.
Context {W Staged : Type}.
Context `{Conn, UnicodeTables, !Delivery W Staged, !DeliveryLaws W Staged, SmtpEnv}.
Context {serving : W -> Prop} {room : W -> Z} {price : Z -> Z} `{!DeliveryServes W Staged serving room price}.
Context (server : Server).

(** The connection stays open and is answered, the clock prints a date. *)
Class Cooperative : Prop := {
  writes_arrive n : write_ok n = true;
  deadlines_set n : deadline_ok n = true;
  date_length n : length (received_at n) = 31%nat;
  buffers_nonempty : Forall (fun n => 1 <= n)%nat copy_sizes;
  buffers_small : Forall (fun n => Z.of_nat n <= 32768) copy_sizes;
}.
Context `{CO : !Cooperative}.

(** The session waits for a command of a client greeted as [name]. *)
Record at_prompt (name : str) (t : transaction) (rest : str) (events : list event) (s : session) : Prop := {
  pr_closed : closed s = false;
  pr_greeted : greeted s = true;
  pr_helo : helo s = name;
  pr_encrypted : encrypted s = false;
  pr_tx : tx s = t;
  pr_input : input s = rest;
  pr_trace : trace s = events;
}.

(** [n] commands lead from one state to the other. *)
Definition runs (n : nat) (s : session) (w : W) (s' : session) (w' : W) : Prop :=
  forall fuel, serve_loop server (n + fuel) s w = serve_loop server fuel s' w'.

Lemma runs_trans n n' s w s' w' s'' w'' : runs n s w s' w' -> runs n' s' w' s'' w'' -> runs (n + n') s w s'' w''.
Proof. intros Ha Hb fuel. by rewrite <- Nat.add_assoc, Ha. Qed.

Lemma runs_none s w : runs 0 s w s w.
Proof. by intros fuel. Qed.

(** One command line. *)
Lemma runs_command s w (text rest : str) :
  closed s = false -> input s = command_line text ++ rest -> LF ∉ text -> (length text + 2 <= maxCommandLineBytes)%nat ->
  let '(s', w') := dispatch server (splitCommand text).1 (splitCommand text).2 (set_input rest (next_round s)) w in
  runs 1 s w s' w'.
Proof.
  intros Hc Hi Hn Hl. destruct (dispatch _ _ _ _ _) as [s' w'] eqn:E. intros fuel. cbn [Nat.add serve_loop]. rewrite Hc.
  unfold serve_command. rewrite deadlines_set. cbn [negb]. change (input (next_round s)) with (input s).
  rewrite Hi, readLimitedLine_command by done. destruct (splitCommand text) as [command argument].
  cbn [fst snd] in E. by rewrite E.
Qed.

Lemma say_prompt name t rest events s code message :
  at_prompt name t rest events s -> at_prompt name t rest (events ++ [Reply code [message]]) (say code message s).
Proof. intros []. split; cbn; try done. congruence. Qed.

Definition info_of (name : str) : ConnectionInfo := {| ci_RemoteIP := remote; ci_HELO := name; ci_TLS := false |}.

Lemma prompt_info name t rest events s : at_prompt name t rest events s -> connectionInfo s = info_of name.
Proof. intros []. unfold connectionInfo, info_of. congruence. Qed.

Lemma prompt_next name t rest rest' events s : at_prompt name t rest events s ->
  at_prompt name t rest' events (set_input rest' (next_round s)).
Proof. by intros []. Qed.

(** MAIL. *)
Lemma mail_runs name t from rest events s w :
  at_prompt name t (command_line (mail_line from) ++ rest) events s ->
  from = [] \/ honest_address from ->
  exists s', runs 1 s w s' w /\
    at_prompt name {| tx_started := true; tx_from := from; tx_recipients := [] |} rest
      (events ++ [Reply 250 ["2.1.0 sender accepted" : str]]) s'.
Proof.
  intros Hp Hf. pose proof (bracketed_word from Hf) as Hw.
  assert (word ("FROM:" ++ bracketed from)) as Harg.
  { apply word_app; [|done]. split; [done|]. by repeat constructor. }
  pose proof (runs_command s w (mail_line from) rest (pr_closed _ _ _ _ _ Hp) (pr_input _ _ _ _ _ Hp)) as Hr.
  change (mail_line from) with ("MAIL" ++ " "%char :: "FROM:" ++ bracketed from) in Hr.
  rewrite splitCommand_argument in Hr; [|by apply (bool_decide_unpack _); vm_compute | done].
  change (ToUpper "MAIL") with ("MAIL" : str) in Hr.
  change (dispatch server "MAIL" ("FROM:" ++ bracketed from)) with
    (fun s (w : W) => (handle_mail server ("FROM:" ++ bracketed from) s, w)) in Hr. cbn beta iota in Hr.
  eexists. split; [apply Hr|].
  - apply command_line_notin; [by apply (bool_decide_unpack _); vm_compute | done].
  - assert (length from <= 254)%nat by (destruct Hf as [-> |Hf]; [cbn; lia | by apply honest_address_length]).
    unfold bracketed, maxCommandLineBytes. rewrite !length_app. cbn. rewrite !length_app. cbn. lia.
  - unfold handle_mail. cbn [fst snd]. rewrite (pr_greeted _ _ _ _ _ (prompt_next _ _ _ rest _ _ Hp)). cbn [negb].
    rewrite (parsePath_bracketed "FROM:" from true) by (first [reflexivity | destruct Hf; auto]). change (validateMailParameters [] _) with (@None error).
    cbn iota. apply say_prompt. by destruct Hp.
Qed.

(** What the server asks of a recipient. *)
Definition honest_recipient (name from a : str) : Prop :=
  honest_address a /\ served server a = true /\ policy_accepts server (info_of name) from a.

(** RCPT. *)
Lemma rcpt_runs name t a rest events s w :
  at_prompt name t (command_line (rcpt_line a) ++ rest) events s ->
  honest_recipient name (tx_from t) a -> tx_started t = true ->
  Z.of_nat (length (tx_recipients t)) < maxRecipients server ->
  exists s', runs 1 s w s' w /\
    at_prompt name (add_recipient a t) rest (events ++ [Reply 250 ["2.1.5 recipient accepted" : str]]) s'.
Proof.
  intros Hp (Ha & Hs & Hpol) Ht Hn. pose proof (bracketed_word a (or_intror Ha)) as Hw.
  assert (word ("TO:" ++ bracketed a)) as Harg.
  { apply word_app; [|done]. split; [done|]. by repeat constructor. }
  pose proof (runs_command s w (rcpt_line a) rest (pr_closed _ _ _ _ _ Hp) (pr_input _ _ _ _ _ Hp)) as Hr.
  change (rcpt_line a) with ("RCPT" ++ " "%char :: "TO:" ++ bracketed a) in Hr.
  rewrite splitCommand_argument in Hr; [|by apply (bool_decide_unpack _); vm_compute | done].
  change (ToUpper "RCPT") with ("RCPT" : str) in Hr.
  change (dispatch server "RCPT" ("TO:" ++ bracketed a)) with
    (fun s (w : W) => (handle_rcpt server ("TO:" ++ bracketed a) s, w)) in Hr. cbn beta iota in Hr.
  eexists. split; [apply Hr|].
  - apply command_line_notin; [by apply (bool_decide_unpack _); vm_compute | done].
  - pose proof (honest_address_length a Ha). unfold bracketed, maxCommandLineBytes. rewrite !length_app. cbn. rewrite !length_app. cbn. lia.
  - pose proof (prompt_next _ _ _ rest _ _ Hp) as Hq. cbn [fst snd].
    unfold handle_rcpt. rewrite (pr_tx _ _ _ _ _ Hq), Ht. cbn [negb].
    rewrite (parsePath_bracketed "TO:" a false) by (first [reflexivity | auto]).
    change (bool_decide (TrimSpace [] = [])) with true. cbn [negb]. rewrite Hs. cbn [negb].
    rewrite (proj2 (Z.leb_gt _ _)) by done.
    assert (recipient_request a (set_input rest (next_round s)) = {| rq_Connection := info_of name;
      rq_EnvelopeFrom := envelopeAddress (tx_from t); rq_Recipient := envelopeAddress a |}) as ->.
    { unfold recipient_request. by rewrite (prompt_info _ _ _ _ _ Hq), (pr_tx _ _ _ _ _ Hq). }
    unfold policy_accepts in Hpol. rewrite Hpol. apply say_prompt. by destruct Hq.
Qed.

(** Every RCPT of an envelope. *)
Definition rcpt_replies (n : nat) : list event := replicate n (Reply 250 ["2.1.5 recipient accepted" : str]).

Definition add_recipients (t : transaction) (l : list str) : transaction :=
  {| tx_started := tx_started t; tx_from := tx_from t; tx_recipients := tx_recipients t ++ l |}.

Lemma rcpts_run name (l : list str) : forall t rest events s w,
  at_prompt name t (mjoin (command_line ∘ rcpt_line <$> l) ++ rest) events s ->
  Forall (honest_recipient name (tx_from t)) l -> tx_started t = true ->
  Z.of_nat (length (tx_recipients t) + length l) <= maxRecipients server ->
  exists s', runs (length l) s w s' w /\
    at_prompt name (add_recipients t l) rest (events ++ rcpt_replies (length l)) s'.
Proof.
  induction l as [|a l IH]; intros t rest events s w Hp Hl Ht Hn.
  { exists s. split; [apply runs_none|]. unfold add_recipients. rewrite !app_nil_r. by destruct t, Hp. }
  apply Forall_cons in Hl as [Ha Hl].
  assert (at_prompt name t (command_line (rcpt_line a) ++ mjoin (command_line ∘ rcpt_line <$> l) ++ rest) events s) as Hp1
    by (rewrite app_assoc; exact Hp).
  destruct (rcpt_runs name t a _ events s w Hp1 Ha Ht) as (s1 & Hr1 & Hs1); [cbn in Hn; lia|].
  destruct (IH _ _ _ _ w Hs1) as (s2 & Hr2 & Hs2); [done | done | cbn in Hn |- *; rewrite length_app; cbn; lia|].
  exists s2. split; [exact (runs_trans 1 _ _ _ _ _ _ _ Hr1 Hr2)|].
  replace (add_recipients t (a :: l)) with (add_recipients (add_recipient a t) l)
    by (unfold add_recipients; cbn; by rewrite <- app_assoc).
  rewrite <- app_assoc in Hs2. exact Hs2.
Qed.

(** The trace headers of a message; their length does not depend on the time. *)
Definition headers_of (name : str) (m : mail) (date : str) : str :=
  deliveryHeaders (hostname server) remote name false (mail_transaction m) date.

Definition mail_octets (name : str) (m : mail) : Z :=
  Z.of_nat (length (headers_of name m (replicate 31 " "%char)) + length (message_text (ml_lines m))).

Lemma headers_octets name m turn : Z.of_nat (length (headers_of name m (received_at turn) ++ message_text (ml_lines m))) = mail_octets name m.
Proof.
  unfold mail_octets, headers_of, deliveryHeaders. rewrite !length_app, date_length. reflexivity.
Qed.

(** DATA: the copy is staged whole, the policy accepts it, and it is published. *)
Definition text_ok (name : str) (m : mail) : Prop :=
  Forall text_line (ml_lines m) /\ Z.of_nat (length (message_text (ml_lines m))) <= maxMessageSize server /\
  mail_octets name m < Z.of_nat (length copy_sizes).

Lemma copy_whole name (m : mail) turn rest : text_ok name m ->
  let headers := headers_of name m (received_at turn) in
  let data := newDataReader (maxMessageSize server) (wire_lines (ml_lines m) ++ ("." ++ CRLF) ++ rest) in
  exists reads data', copy_reads copy_sizes headers data = (reads, data') /\ ends_once reads /\ complete reads /\
    Forall (fun r => Z.of_nat (length r.1) <= 32768) reads /\
    mjoin reads.*1 = headers ++ message_text (ml_lines m) /\ dr_input data' = rest.
Proof.
  intros (Hl & Hs & Hc) headers data.
  assert (remaining data = (message_text (ml_lines m), Sentinel IoEOF, rest)) as Hr.
  { unfold remaining, data, newDataReader. cbn [dr_done dr_input dr_maxBytes dr_bytesRead dr_pending].
    set (input := wire_lines _ ++ _). rewrite (data_spec_fuel _ (S (length (ml_lines m) + length input))) by lia.
    unfold input. rewrite data_spec_lines; [done | done | lia | lia]. }
  pose proof (copy_reads_spec copy_sizes headers data _ _ _ Hr) as Hcopy.
  destruct (copy_reads copy_sizes headers data) as [reads data'] eqn:Ec.
  exists reads, data'. split; [done|]. split; [by eapply copy_reads_end|].
  pose proof (copy_reads_size copy_sizes headers data 32768 buffers_small) as Hsmall. rewrite Ec in Hsmall.
  destruct Hcopy as [(before & bytes & -> & _ & Hm & Hd)|(_ & _ & Hlen)].
  - split; [by exists before, bytes, (Sentinel IoEOF)|]. done.
  - specialize (Hlen buffers_nonempty). pose proof (headers_octets name m turn) as Ho. fold headers in Ho. lia.
Qed.

Definition message_accepted (name : str) (m : mail) : Prop := forall md content,
  md_Connection md = info_of name -> md_EnvelopeFrom md = envelopeAddress (ml_from m) ->
  md_Recipients md = envelopeAddresses (ml_recipients m) ->
  mdec_Action (evaluateMessage server md content) = MessageAccept.

Definition data_events (name : str) (m : mail) (turn : nat) (id : Z) (path : str) : list event :=
  [Reply 354 ["end with <CRLF>.<CRLF>" : str];
   Delivered (info_of name) (mail_transaction m) (headers_of name m (received_at turn) ++ message_text (ml_lines m)) id path;
   Reply 250 ["2.0.0 message accepted" : str]].

Lemma data_runs name m rest events s w :
  at_prompt name (mail_transaction m) (command_line "DATA" ++ wire_lines (ml_lines m) ++ ("." ++ CRLF) ++ rest) events s ->
  ml_recipients m <> [] -> text_ok name m -> message_accepted name m -> serving w -> price (mail_octets name m) <= room w ->
  exists s' w' turn id path, runs 1 s w s' w' /\
    at_prompt name no_transaction rest (events ++ data_events name m turn id path) s' /\
    serving w' /\ room w - price (mail_octets name m) <= room w'.
Proof.
  intros Hp Hne Htext Hacc Hserving Hroom.
  pose proof (runs_command s w "DATA" _ (pr_closed _ _ _ _ _ Hp) (pr_input _ _ _ _ _ Hp)) as Hr.
  set (stream := wire_lines (ml_lines m) ++ _) in *. change (splitCommand "DATA") with ("DATA" : str, [] : str) in Hr.
  change (dispatch server ("DATA" : str, [] : str).1 ("DATA" : str, [] : str).2) with (handle_data server []) in Hr.
  pose proof (prompt_next _ _ _ stream _ _ Hp) as Hq. set (s1 := set_input stream (next_round s)) in *.
  assert (0 <= mail_octets name m) as Hpos by (unfold mail_octets; lia).
  pose proof (pr_tx _ _ _ _ _ Hq) as Htx. pose proof (pr_helo _ _ _ _ _ Hq) as Hhelo.
  pose proof (pr_encrypted _ _ _ _ _ Hq) as Henc. pose proof (pr_input _ _ _ _ _ Hq) as Hin.
  destruct (copy_whole name m (rounds s1) rest Htext) as (reads & data' & Hcopy & Honce & Hcomplete & Hsmall & Hcontent & Hrest).
  destruct (Stage_serves reads w Hserving Honce Hcomplete Hsmall) as (staged & w1 & Hstage & id & path & w2 & Hpub & Hserving' & Hroom').
  { rewrite Hcontent, headers_octets. exact Hroom. }
  pose proof (Stage_content _ _ _ _ Honce Hstage) as [_ Hopen]. rewrite Hcontent in Hopen.
  rewrite Hcontent, headers_octets in Hroom'.
  set (s2 := count_write (emit (Reply 354 ["end with <CRLF>.<CRLF>" : str]) s1)).
  assert (handle_data server [] s1 w = finish_data server (received_at (rounds s1)) (dr_bytesRead data') staged (set_input (dr_input data') s2) w1) as Hdata.
  { unfold handle_data. rewrite Htx. rewrite (bool_decide_eq_false_2 (tx_recipients _ = [])) by exact Hne.
    cbn [bool_decide negb orb]. rewrite CheckReceive_serves; [|done|etransitivity; [apply (price_monotone 0 (mail_octets name m)); lia | exact Hroom]].
    unfold reply, reply_lines. rewrite writes_arrive. cbn [negb]. fold s2.
    change (helo s2) with (helo s1). change (encrypted s2) with (encrypted s1). change (tx s2) with (tx s1).
    change (rounds s2) with (rounds s1). change (input s2) with (input s1). rewrite Hhelo, Henc, Htx, Hin.
    unfold headers_of in Hcopy. unfold stream. rewrite Hcopy, Hstage. reflexivity. }
  assert (finish_data server (received_at (rounds s1)) (dr_bytesRead data') staged (set_input (dr_input data') s2) w1 =
    (say 250 "2.0.0 message accepted" (set_tx no_transaction
       (note (MessageDelivered (ml_from m) (ml_recipients m) (dr_bytesRead data') id path (encrypted s1))
       (emit (Delivered (info_of name) (mail_transaction m)
       (headers_of name m (received_at (rounds s1)) ++ message_text (ml_lines m)) id path) (set_input rest s2)))), w2)) as Hfin.
  { unfold finish_data. assert (connectionInfo (set_input (dr_input data') s2) = info_of name) as Hinfo by exact (prompt_info _ _ _ _ _ Hq).
    rewrite Hacc; [|exact Hinfo | cbn; by rewrite (pr_tx _ _ _ _ _ Hp) ..].
    rewrite Hpub, Hopen, Hinfo, Hrest. cbn [tx emit]. change (tx (set_input rest s2)) with (tx s1). rewrite Htx. reflexivity. }
  rewrite Hdata, Hfin in Hr. eexists _, w2, (rounds s1), id, path. split; [apply Hr|].
  - by apply (bool_decide_unpack _); vm_compute.
  - unfold maxCommandLineBytes. cbn. lia.
  - split; [|by split]. destruct Hq. split; cbn; try done.
    rewrite <- pr_trace0. unfold data_events. by rewrite <- !app_assoc.
Qed.

(** A whole message. *)
Definition honest_mail (name : str) (m : mail) : Prop :=
  (ml_from m = [] \/ honest_address (ml_from m)) /\
  ml_recipients m <> [] /\ Forall (honest_recipient name (ml_from m)) (ml_recipients m) /\
  Z.of_nat (length (ml_recipients m)) <= maxRecipients server /\
  text_ok name m /\ message_accepted name m.

Definition mail_events (name : str) (m : mail) (turn : nat) (id : Z) (path : str) : list event :=
  Reply 250 ["2.1.0 sender accepted" : str] :: rcpt_replies (length (ml_recipients m)) ++ data_events name m turn id path.

(** The events of a served message, whatever its number and time. *)
Definition served_as (name : str) (m : mail) (events : list event) : Prop :=
  exists turn id path, events = mail_events name m turn id path.

Lemma mail_served name m rest events s w :
  at_prompt name no_transaction (mail_bytes m ++ rest) events s -> honest_mail name m -> serving w -> price (mail_octets name m) <= room w ->
  exists s' w' answers, runs (mail_commands m) s w s' w' /\ served_as name m answers /\
    at_prompt name no_transaction rest (events ++ answers) s' /\ serving w' /\
    room w - price (mail_octets name m) <= room w'.
Proof.
  intros Hp (Hfrom & Hne & Hrec & Hmax & Htext & Hacc) Hserving Hroom.
  unfold mail_bytes in Hp. rewrite <- !app_assoc in Hp.
  destruct (mail_runs name _ _ _ _ s w Hp Hfrom) as (s1 & Hr1 & Hs1).
  destruct (rcpts_run name _ _ _ _ _ w Hs1) as (s2 & Hr2 & Hs2); [done | done | exact Hmax|].
  change (add_recipients _ _) with (mail_transaction m) in Hs2.
  destruct (data_runs name m rest _ _ w Hs2) as (s3 & w3 & turn & id & path & Hr3 & Hs3 & Hserving3 & Hroom3); [done..|].
  exists s3, w3, (mail_events name m turn id path). split; [|split; [by exists turn, id, path|]].
  - replace (mail_commands m) with (1 + length (ml_recipients m) + 1)%nat by (unfold mail_commands; lia).
    exact (runs_trans _ _ _ _ _ _ _ _ (runs_trans _ _ _ _ _ _ _ _ Hr1 Hr2) Hr3).
  - split; [|by split]. unfold mail_events. rewrite <- !app_assoc in Hs3. exact Hs3.
Qed.

(** What the messages cost together. *)
Fixpoint mails_octets (name : str) (mails : list mail) : Z :=
  match mails with [] => 0 | m :: mails => price (mail_octets name m) + mails_octets name mails end.

Lemma mails_octets_nonneg name mails : 0 <= mails_octets name mails.
Proof. induction mails as [|m mails IH]; cbn [mails_octets]; [lia|].
  pose proof (price_octets (mail_octets name m)). unfold mail_octets in *. lia.
Qed.

Lemma mails_served name (mails : list mail) : forall rest events s w,
  at_prompt name no_transaction (mjoin (mail_bytes <$> mails) ++ rest) events s ->
  Forall (honest_mail name) mails -> serving w -> mails_octets name mails <= room w ->
  exists s' w' answers, runs (sum_list_with mail_commands mails) s w s' w' /\ Forall2 (served_as name) mails answers /\
    at_prompt name no_transaction rest (events ++ mjoin answers) s'.
Proof.
  induction mails as [|m mails IH]; intros rest events s w Hp Hall Hserving Hroom.
  { exists s, w, []. split; [apply runs_none|]. split; [constructor|]. by rewrite app_nil_r. }
  apply Forall_cons in Hall as [Hm Hall]. cbn [mails_octets] in Hroom.
  pose proof (mails_octets_nonneg name mails).
  assert (at_prompt name no_transaction (mail_bytes m ++ mjoin (mail_bytes <$> mails) ++ rest) events s) as Hp1
    by (rewrite app_assoc; exact Hp).
  destruct (mail_served name m _ _ _ w Hp1 Hm) as (s1 & w1 & a & Hr1 & Ha & Hs1 & Hserving1 & Hroom1); [done | lia|].
  destruct (IH _ _ _ w1 Hs1 Hall Hserving1) as (s2 & w2 & answers & Hr2 & Has & Hs2); [lia|].
  exists s2, w2, (a :: answers). split; [exact (runs_trans _ _ _ _ _ _ _ _ Hr1 Hr2)|].
  split; [by constructor|]. rewrite <- app_assoc in Hs2. exact Hs2.
Qed.

(** The greeting and QUIT. *)
Definition greeting_events (extended : bool) : list event :=
  [Reply 220 [hostname server ++ " ESMTP picomx"];
   Reply 250 (if extended then capabilities server (new_session []) else [hostname server])].

Definition honest_name (name : str) : Prop := word name /\ validHelo name = true /\ (length name <= 500)%nat.

Lemma greeting_runs extended name rest w s :
  honest_name name -> input s = command_line (greeting_line extended name) ++ rest ->
  closed s = false -> encrypted s = false -> trace s = [Reply 220 [hostname server ++ " ESMTP picomx"]] ->
  exists s', runs 1 s w s' w /\ at_prompt name no_transaction rest (greeting_events extended) s'.
Proof.
  intros (Hw & Hv & Hl) Hi Hc He Ht. set (verb := (if extended then "EHLO" else "HELO") : str).
  assert (" "%char ∉ verb /\ LF ∉ verb) as [Hsp Hlf]
    by (destruct extended; split; apply (bool_decide_unpack _); by vm_compute).
  pose proof (runs_command s w (greeting_line extended name) rest Hc Hi) as Hr. unfold greeting_line in Hr. fold verb in Hr.
  rewrite splitCommand_argument in Hr by done.
  assert (dispatch server (ToUpper verb, name).1 (ToUpper verb, name).2 (set_input rest (next_round s)) w =
    (handle_helo server extended name (set_input rest (next_round s)), w)) as Hd by (destruct extended; reflexivity).
  rewrite Hd in Hr. eexists. split; [apply Hr|].
  - by apply command_line_notin.
  - rewrite length_app. unfold maxCommandLineBytes. cbn. assert (length verb = 4%nat) as -> by (by destruct extended). lia.
  - unfold handle_helo. rewrite Hv. cbn [negb].
    assert (capabilities server (set_greeting name (set_input rest (next_round s))) = capabilities server (new_session [])) as Hcap
      by (unfold capabilities; cbn; by rewrite He).
    destruct extended; [rewrite Hcap|]; (split; [exact Hc | done | done | exact He | done | done | cbn; by rewrite Ht]).
Qed.

Lemma quit_runs name t events s w : at_prompt name t (command_line "QUIT") events s ->
  exists s', (forall fuel, serve_loop server (S fuel) s w = (s', w)) /\ closed s' = true /\
    trace s' = events ++ [Reply 221 ["2.0.0 bye" : str]].
Proof.
  intros Hp. assert (input s = command_line "QUIT" ++ []) as Hi by (rewrite app_nil_r; apply (pr_input _ _ _ _ _ Hp)).
  pose proof (runs_command s w "QUIT" [] (pr_closed _ _ _ _ _ Hp) Hi) as Hr.
  exists (close (say 221 "2.0.0 bye" (set_input [] (next_round s)))). split; [|split; [done | destruct Hp; cbn; by f_equal]].
  intros fuel. etransitivity; [apply (Hr ltac:(by apply (bool_decide_unpack _); vm_compute) ltac:(unfold maxCommandLineBytes; cbn; lia) fuel)|].
  by destruct fuel.
Qed.

(** The whole conversation. *)
Lemma conversation_served extended name mails w fuel :
  honest_name name -> Forall (honest_mail name) mails -> serving w ->
  mails_octets name mails <= room w ->
  (conversation_commands mails <= fuel)%nat ->
  exists answers, let s := (serveConn server fuel (conversation extended name mails) w).1 in
    Forall2 (served_as name) mails answers /\ closed s = true /\
    trace s = greeting_events extended ++ mjoin answers ++ [Reply 221 ["2.0.0 bye" : str]].
Proof.
  intros Hn Hall Hserving Hroom Hfuel. unfold serveConn, reply, reply_lines. rewrite writes_arrive.
  set (s0 := count_write _). unfold conversation_commands in Hfuel.
  destruct (greeting_runs extended name (mjoin (mail_bytes <$> mails) ++ command_line "QUIT") w s0) as (s1 & Hr1 & Hs1);
    [done..|].
  destruct (mails_served name mails _ _ _ w Hs1 Hall Hserving Hroom) as (s2 & w2 & answers & Hr2 & Hans & Hs2).
  destruct (quit_runs name _ _ _ w2 Hs2) as (s3 & Hr3 & Hc3 & Ht3).
  exists answers. pose proof (runs_trans _ _ _ _ _ _ _ _ Hr1 Hr2 (fuel - 1 - sum_list_with mail_commands mails)%nat) as Hr.
  replace (1 + sum_list_with mail_commands mails + (fuel - 1 - sum_list_with mail_commands mails))%nat with fuel in Hr by lia.
  rewrite Hr. replace (fuel - 1 - sum_list_with mail_commands mails)%nat
    with (S (fuel - 2 - sum_list_with mail_commands mails)) by lia.
  rewrite Hr3. split; [done|]. split; [done|]. cbn [fst]. rewrite Ht3. by rewrite <- app_assoc.
Qed.
End Serving.

(** ** Properties *)

Section Properties.
Context {W Staged : Type}.
Context `{Conn, UnicodeTables, !Delivery W Staged, !DeliveryLaws W Staged, SmtpEnv}.
Context {serving : W -> Prop} {room : W -> Z} {price : Z -> Z} `{!DeliveryServes W Staged serving room price}.
Context `{CO : !Cooperative}.

(** An honest client is served.  Over a connection that stays up, for a
    policy that accepts its envelopes and a store with room, a client that
    greets by HELO or EHLO, sends any number of messages (a valid or null sender,
    one to [maxRecipients] valid recipients of served domains, lines within the
    limits, dot-stuffed) and quits gets the expected answer to each command, in
    order; every message is delivered with exactly its headers and its text and
    then acknowledged, and the connection is closed after QUIT. *)
Theorem honest_mail_is_accepted (server : Server) extended (name : str) (mails : list mail) (w : W) fuel :
  honest_name name -> Forall (honest_mail server name) mails -> serving w ->
  mails_octets (price := price) server name mails <= room w -> (conversation_commands mails <= fuel)%nat ->
  exists answers, let s := (serveConn server fuel (conversation extended name mails) w).1 in
    Forall2 (served_as server name) mails answers /\ closed s = true /\
    trace s = greeting_events server extended ++ mjoin answers ++ [Reply 221 ["2.0.0 bye" : str]].
Proof. intros Hn Hm Hw Hr Hf. by apply (conversation_served server extended name mails w fuel Hn Hm Hw Hr Hf). Qed.
End Properties.

(** ** Witness *)

Module HonestDemo.
Import Demo.
Existing Instances tables conn store laws.

#[local] Instance env : SmtpEnv := {|
  peer := "192.0.2.1:49152"; received_at _ := "Mon, 01 Jan 2024 00:00:00 +0000"; deadline_ok _ := true;
  copy_sizes := replicate 500 512%nat; plaintext_buffered s := length s; handshake _ := Err (New "") |}.

#[local] Instance cooperative : Cooperative.
Proof.
  split; try done; apply Forall_replicate; [lia | done].
Qed.

(** The store in memory always has room. *)
Lemma store_serves : DeliveryServes (list str) str (fun _ => True) (fun _ => 1000000) (fun n => n).
Proof.
  split; try done; try lia.
  intros reads w _ Hends (before & bytes & e & -> & He) _ _. exists (mjoin (before ++ [(bytes, Some e)]).*1), w.
  split.
  - unfold Stage, store, stage. rewrite last_snoc, He. reflexivity.
  - eexists _, _, _. split; [reflexivity|]. split; [done|]. lia.
Qed.

Definition first_mail : mail :=
  {| ml_from := []; ml_recipients := ["a@example.net" : str; "Bob@EXAMPLE.net" : str]; ml_lines := ["..." : str; []; "hello" : str] |}.
Definition second_mail : mail :=
  {| ml_from := "carol@example.org"; ml_recipients := ["a@example.net" : str]; ml_lines := [] |}.

Lemma short_word (w : str) : bool_decide (word w) = true -> word w.
Proof. apply bool_decide_eq_true. Qed.

Lemma text_lines_check (lines : list str) :
  forallb (fun l => bool_decide (LF ∉ l) && (length (stuff_line l) + 2 <=? maxDataLineBytes)%nat) lines = true ->
  Forall text_line lines.
Proof.
  intros Hf%forallb_Forall. eapply Forall_impl; [exact Hf|]. intros l [Hl Hn]%andb_true_iff.
  split; [by apply bool_decide_eq_true in Hl | by apply Nat.leb_le].
Qed.

Lemma honest_check (m : mail) :
  bool_decide (ml_from m = []) || (bool_decide (word (ml_from m)) && validAddress (ml_from m)) = true ->
  bool_decide (ml_recipients m <> []) = true ->
  forallb (fun a => bool_decide (word a) && validAddress a && served server a) (ml_recipients m) = true ->
  (length (ml_recipients m) <=? 20)%nat = true -> Forall text_line (ml_lines m) ->
  (length (message_text (ml_lines m)) <=? 400)%nat = true -> mail_octets server "client.example.org" m <? 500 = true ->
  honest_mail server "client.example.org" m.
Proof.
  intros Hf Hne Hr Hn Ht Hs Ho. unfold honest_mail. split; [|split; [|split; [|split; [|split]]]].
  - apply orb_true_iff in Hf as [Hf%bool_decide_eq_true|[Hf%bool_decide_eq_true Hv]%andb_true_iff]; [by left | by right].
  - by apply bool_decide_eq_true in Hne.
  - apply forallb_Forall in Hr. eapply Forall_impl; [exact Hr|]. intros a [[Hw Hv]%andb_true_iff Hd]%andb_true_iff.
    split; [split; [by apply bool_decide_eq_true in Hw | done]|]. split; [done|]. reflexivity.
  - apply Nat.leb_le in Hn. change (maxRecipients server) with 20. lia.
  - split; [done|]. apply Nat.leb_le in Hs. apply Z.ltb_lt in Ho. split.
    + change (maxMessageSize server) with 26214400. lia.
    + unfold copy_sizes, env. rewrite length_replicate. exact Ho.
  - intros md content _ _ _. reflexivity.
Qed.

Lemma mails_honest : Forall (honest_mail server "client.example.org") [first_mail; second_mail].
Proof.
  assert (Forall text_line (ml_lines first_mail) /\ Forall text_line (ml_lines second_mail)) as [H1 H2]
    by (split; apply text_lines_check; by vm_compute).
  constructor; [|constructor; [|constructor]]; apply honest_check; first [assumption | by vm_compute].
Qed.
End HonestDemo.

Section Witness.
Import Demo HonestDemo.
Existing Instances tables conn store laws HonestDemo.env HonestDemo.cooperative.

Lemma honest_mail_is_accepted_witness :
  exists answers, Forall2 (served_as server "client.example.org") [first_mail; second_mail] answers /\
    trace (serveConn server 9 (conversation true "client.example.org" [first_mail; second_mail]) []).1
    = greeting_events server true ++ mjoin answers ++ [Reply 221 ["2.0.0 bye" : str]].
Proof.
  destruct (honest_mail_is_accepted (DeliveryServes0 := store_serves) server true "client.example.org" [first_mail; second_mail] [] 9)
    as (answers & Ha & _ & Ht).
  - split; [apply short_word; by vm_compute | split; [by vm_compute | cbn; lia]].
  - exact mails_honest.
  - exact I.
  - apply Z.leb_le. by vm_compute.
  - cbn. lia.
  - exists answers. split; [exact Ha | exact Ht].
Defined.
End Witness.
