(* ===== verification/PopSyntax.v ===== *)
(** * POP3 syntax and multi-line responses (internal/pop3: pure parts, auth.go)

    Arguments, credentials, and [streamMessage]: dot-stuffing of a stored
    message, and the TOP limit, against what a client reads back. *)

From S2P Require Import Prelude GoStrings IdPath Tree Wire.

(** ** Constants *)

(** Durations are in nanoseconds. *)
Definition minimumIdleTimeout : Z := 600000000000.
Definition maxCommandBytes : nat := 255.

Definition CRLF : str := [CR; LF].

(** ** Arguments *)

Definition messageID (argument : str) (lastID : Z) : option Z :=
  match ParseUint (TrimSpace argument) 10 64 with
  | Ok id => if (0 <? id) && (id <=? lastID) then Some id else None
  | Err _ => None
  end.

Definition uniqueID (id : Z) : str := "picomx-" ++ FormatUint id 36.

Definition topArguments (argument : str) (lastID : Z) : option (Z * Z) :=
  match Fields argument with
  | [number; lines] =>
      match messageID number lastID, ParseUint lines 10 64 with
      | Some id, Ok lines => Some (id, lines)
      | _, _ => None
      end
  | _ => None
  end.

Definition verbs : list str :=
  ["CAPA" : str; "USER" : str; "PASS" : str; "STAT" : str; "LIST" : str; "UIDL" : str; "RETR" : str; "TOP" : str;
   "DELE" : str; "RSET" : str; "NOOP" : str; "QUIT" : str].

Definition loggedCommand (command : str) : str :=
  if decide (command ∈ verbs) then command else "UNKNOWN".

Section Commands.
Context `{UnicodeTables}.

Definition splitCommand (line : str) : str * str :=
  match Cut line " "%char with
  | (command, _, false) => (ToUpper command, [])
  | (command, argument, true) => (ToUpper command, argument)
  end.

(** The fields of a command's log line: the verb and perhaps the argument. *)
Definition command_log (line : str) : str * option str :=
  let '(command, argument) := splitCommand line in
  (loggedCommand command,
   if negb (bool_decide (command = "PASS")) && negb (bool_decide (loggedCommand command = "UNKNOWN"))
      && negb (bool_decide (argument = [])) then Some argument else None).

Context `{Conn}.

(** [readCommand]; the buffer is [bufio.NewReaderSize(conn, maxCommandBytes+1)]. *)
Definition readCommand (input : str) : result str * str :=
  match read_limited (maxCommandBytes + 1) maxCommandBytes (Sentinel ErrCommandTooLong) input with
  | (Ok line, rest) => (Ok (trim_eol line), rest)
  | (Err e, rest) => (Err e, rest)
  end.
End Commands.

(** ** Credentials (auth.go) *)

(** [sha256.Sum256]. *)
Class Sha256 := { Sum256 : str -> str; Sum256_size s : length (Sum256 s) = 32%nat }.

Record Credentials := { configured : bool; usernameHash : str; passwordHash : str }.

(** The zero value: arrays of 32 zero bytes. *)
Definition zero_credentials : Credentials :=
  {| configured := false; usernameHash := replicate 32 NUL; passwordHash := replicate 32 NUL |}.

(** [subtle.ConstantTimeCompare] and [ConstantTimeByteEq]. *)
Definition ConstantTimeCompare (a b : str) : Z := if decide (a = b) then 1 else 0.
Definition ConstantTimeByteEq (a b : Z) : Z := if a =? b then 1 else 0.
Definition boolInt (value : bool) : Z := if value then 1 else 0.

Section Auth.
Context `{Sha256}.

Definition NewCredentials (username passwordSHA256 : str) : result Credentials :=
  let username := TrimSpace username in
  let passwordSHA256 := TrimSpace passwordSHA256 in
  if bool_decide (username = []) || bool_decide (passwordSHA256 = []) then Ok zero_credentials
  else match DecodeString passwordSHA256 with
  | Err _ => Err (New "POP3 password SHA-256 must be 64 hexadecimal characters")
  | Ok digest =>
      if negb (length digest =? 32)%nat then Err (New "POP3 password SHA-256 must be 64 hexadecimal characters")
      else Ok {| configured := true; usernameHash := Sum256 username; passwordHash := digest |}
  end.

Definition authenticate (c : Credentials) (username password : str) : bool :=
  let valid := Z.land (Z.land (ConstantTimeCompare (Sum256 username) (usernameHash c))
                              (ConstantTimeCompare (Sum256 password) (passwordHash c)))
                      (ConstantTimeByteEq (boolInt (configured c)) 1) in
  valid =? 1.
End Auth.

(** ** Streaming a message *)

(** [bufio.Reader.ReadBytes('\n')] on a source that ends in [final]. *)
Definition ReadBytes (content : str) (final : error) : str * option error * str :=
  match Cut content LF with
  | (line, rest, true) => (line ++ [LF], None, rest)
  | (line, _, false) => (line, Some final, [])
  end.

(** The loop of [streamMessage]: what is written, whether the last line ended
    with a line feed, and whether the source ended well.  [fuel] counts lines. *)
Fixpoint stream_lines (fuel : nat) (limit : option Z) (final : error) (inBody : bool) (bodyLines : Z)
    (lastEndedWithLF : bool) (content : str) : str * bool * bool :=
  match fuel with
  | O => ([], lastEndedWithLF, false)
  | S fuel =>
      let '(line, err, rest) := ReadBytes content final in
      let stop := match limit with Some n => inBody && (n <=? bodyLines) | None => false end in
      if bool_decide (line <> []) && stop then ([], lastEndedWithLF, true)
      else
        let bytes := (if bool_decide (head line = Some "."%char) then "."%char :: line else line) in
        let lastEndedWithLF := if bool_decide (line = []) then lastEndedWithLF else bool_decide (last line = Some LF) in
        let bodyLines' := if bool_decide (line <> []) && inBody then u64 (bodyLines + 1) else bodyLines in
        let inBody' := inBody || bool_decide (line = CRLF) in
        match err with
        | Some e => (bytes, lastEndedWithLF, errors_Is e IoEOF)
        | None =>
            let '(more, lf, ok) := stream_lines fuel limit final inBody' bodyLines' lastEndedWithLF rest in
            (bytes ++ more, lf, ok)
        end
  end.

(** [streamMessage]: the bytes written and whether the source ended well. *)
Definition streamMessage (greeting : str) (bodyLimit : option Z) (content : str) (final : error) : str * bool :=
  let '(bytes, lf, ok) := stream_lines (S (length content)) bodyLimit final false 0 true content in
  (greeting ++ CRLF ++ bytes ++ (if ok then (if lf then [] else CRLF) ++ "." ++ CRLF else []), ok).

(** ** What a client reads *)

(** RFC 1939: a multi-line response ends at the line with a single dot; of a
    longer line that starts with a dot the dot is removed.  The text and the
    bytes after the response. *)
Fixpoint client_lines (fuel : nat) (bytes : str) : option (str * str) :=
  match fuel with
  | O => None
  | S fuel =>
      match Cut bytes LF with
      | (line, rest, true) =>
          if decide (line = "." ++ [CR]) then Some ([], rest)
          else
            let line := match line with c :: t => if decide (c = "."%char) then t else line | [] => [] end in
            '(text, rest) ← client_lines fuel rest;
            Some (line ++ LF :: text, rest)
      | _ => None
      end
  end.

(** A text as lines with their line feeds, the last one perhaps without. *)
Fixpoint lines_of (s : str) : list str :=
  match s with
  | [] => []
  | c :: t =>
      if decide (c = LF) then [LF] :: lines_of t
      else match lines_of t with [] => [[c]] | l :: ls => (c :: l) :: ls end
  end.

(** The header with its empty line, and the rest. *)
Fixpoint split_header (ls : list str) : list str * list str :=
  match ls with
  | [] => ([], [])
  | l :: rest =>
      if decide (l = CRLF) then ([l], rest)
      else let '(h, b) := split_header rest in (l :: h, b)
  end.

(** RFC 1939's TOP: the header, the empty line and [n] lines of the body. *)
Definition top_of (n : option Z) (content : str) : str :=
  match n with
  | None => content
  | Some n => let '(h, b) := split_header (lines_of content) in mjoin h ++ mjoin (take (Z.to_nat n) b)
  end.

(** The text ends its last line. *)
Definition complete_lines (s : str) : str :=
  match last s with Some c => if decide (c = LF) then s else s ++ CRLF | None => s end.
