(* ===== verification/PopStream.v ===== *)
(** * Streaming a message over POP3 (internal/pop3/server.go: streamMessage)

    What [streamMessage] writes is read back by any client as the stored text,
    or as the part TOP asks for, with its last line ended. *)

From S2P Require Import Prelude GoStrings Tree Wire PopSyntax.

(** ** The lines that are sent *)

Fixpoint keep_lines (limit : option Z) (inBody : bool) (k : Z) (ls : list str) : list str :=
  match ls with
  | [] => []
  | l :: rest =>
      if match limit with Some n => inBody && (n <=? k) | None => false end then []
      else l :: keep_lines limit (inBody || bool_decide (l = CRLF)) (if inBody then k + 1 else k) rest
  end.

Definition stuffed (l : str) : str := if bool_decide (head l = Some "."%char) then "."%char :: l else l.

(** The last of some lines ends with a line feed. *)
Fixpoint ended (default : bool) (ls : list str) : bool :=
  match ls with [] => default | l :: rest => ended (bool_decide (last l = Some LF)) rest end.

(** Lines as [lines_of] makes them. *)
Inductive line_list : list str -> Prop :=
  | ll_nil : line_list []
  | ll_partial p : p <> [] -> LF ∉ p -> line_list [p]
  | ll_line b ls : LF ∉ b -> line_list ls -> line_list ((b ++ [LF]) :: ls).

(** ** Lemmas *)

Lemma lines_of_line b rest : LF ∉ b -> lines_of (b ++ LF :: rest) = (b ++ [LF]) :: lines_of rest.
Proof.
  induction b as [|c b IH]; intros Hb; [done|]. apply not_elem_of_cons in Hb as [Hc Hb].
  cbn [app lines_of]. rewrite decide_False by done. by rewrite IH.
Qed.

Lemma lines_of_partial p : LF ∉ p -> p <> [] -> lines_of p = [p].
Proof.
  induction p as [|c p IH]; intros Hp Hne; [done|]. apply not_elem_of_cons in Hp as [Hc Hp].
  cbn [lines_of]. rewrite decide_False by done. destruct p as [|d p]; [done|]. by rewrite IH.
Qed.

Lemma last_line b : last (b ++ [LF]) = Some LF.
Proof. by rewrite last_snoc. Qed.

Lemma partial_last p : LF ∉ p -> last p <> Some LF.
Proof. intros Hp E. apply last_Some in E as [q ->]. apply Hp. apply elem_of_app. right. by left. Qed.

(** Every text is a list of lines. *)
Lemma text_ind (P : str -> Prop) :
  P [] -> (forall p, p <> [] -> LF ∉ p -> P p) -> (forall b rest, LF ∉ b -> P rest -> P (b ++ LF :: rest)) ->
  forall s, P s.
Proof.
  intros H0 H1 H2 s. remember (length s) as n eqn:En. revert s En.
  induction n as [n IH] using lt_wf_ind. intros s ->.
  destruct (Cut s LF) as [[b rest] f] eqn:E. destruct f.
  - apply Cut_found in E as [-> Hb]. apply H2; [done|]. eapply IH; [|reflexivity]. rewrite length_app. simpl. lia.
  - apply Cut_missing in E as (-> & -> & Hs). destruct (decide (s = [])) as [->|]; auto.
Qed.

Lemma lines_of_ok s : line_list (lines_of s).
Proof.
  induction s as [|p Hne Hp|b rest Hb IH] using text_ind; [constructor | |].
  - rewrite lines_of_partial by done. by constructor.
  - rewrite lines_of_line by done. by constructor.
Qed.

Lemma lines_of_join s : mjoin (lines_of s) = s.
Proof.
  induction s as [|p Hne Hp|b rest Hb IH] using text_ind; [done | |].
  - rewrite lines_of_partial by done. cbn. by rewrite app_nil_r.
  - rewrite lines_of_line by done. change (mjoin ((b ++ [LF]) :: lines_of rest)) with ((b ++ [LF]) ++ mjoin (lines_of rest)).
    by rewrite IH, <- app_assoc.
Qed.

Lemma keep_line_list limit inBody k ls : line_list ls -> line_list (keep_lines limit inBody k ls).
Proof.
  intros Hl. revert inBody k. induction Hl as [|p Hne Hp|b ls Hb Hl IH]; intros inBody k; cbn [keep_lines]; [constructor | |].
  - destruct (match limit with Some n => _ | None => _ end); [constructor | by constructor].
  - destruct (match limit with Some n => _ | None => _ end); [constructor | by constructor].
Qed.

(** [streamMessage]'s loop writes the kept lines, stuffed. *)
Lemma stream_lines_keep limit final : errors_Is final IoEOF = true -> forall s fuel inBody k lf,
  (length s < fuel)%nat -> 0 <= k -> k + Z.of_nat (length s) <= MaxUint64 ->
  stream_lines fuel limit final inBody k lf s =
    (mjoin (stuffed <$> keep_lines limit inBody k (lines_of s)), ended lf (keep_lines limit inBody k (lines_of s)), true).
Proof.
  intros Hf. induction s as [|p Hne Hp|b rest Hb IH] using text_ind; intros [|fuel] inBody k lf Hfuel Hk Hmax; try lia;
    cbn [stream_lines]; unfold ReadBytes.
  - cbn. by rewrite Hf.
  - rewrite Cut_notin by done. rewrite (bool_decide_eq_true_2 (p <> [])), (bool_decide_eq_false_2 (p = [])) by done.
    cbn [andb]. rewrite lines_of_partial by done. cbn [keep_lines].
    destruct (match limit with Some n => _ | None => _ end); [done|]. rewrite Hf. cbn [fmap list_fmap mjoin list_join ended].
    rewrite app_nil_r. done.
  - rewrite Cut_app by done. assert (b ++ [LF] <> []) as Hne by (by destruct b).
    rewrite (bool_decide_eq_true_2 (b ++ [LF] <> [])), (bool_decide_eq_false_2 (b ++ [LF] = [])) by done.
    cbn [andb]. rewrite lines_of_line by done. cbn [keep_lines].
    destruct (match limit with Some n => _ | None => _ end); [done|].
    rewrite length_app in Hfuel, Hmax. cbn [length] in Hfuel, Hmax.
    assert ((if inBody then u64 (k + 1) else k) = (if inBody then k + 1 else k)) as ->
      by (destruct inBody; [rewrite u64_small; [done | unfold is_u64; lia] | done]).
    rewrite IH; [|lia|destruct inBody; lia|destruct inBody; lia]. done.
Qed.

(** ** The kept lines are what TOP asks for *)

Lemma keep_body n k ls : keep_lines (Some n) true k ls = take (Z.to_nat (n - k)) ls.
Proof.
  revert k. induction ls as [|l ls IH]; intros k; [by rewrite take_nil|]. cbn [keep_lines orb andb].
  destruct (Z.leb_spec n k); [by replace (Z.to_nat (n - k)) with 0%nat by lia|].
  replace (Z.to_nat (n - k)) with (S (Z.to_nat (n - (k + 1)))) by lia. cbn [take]. by rewrite IH.
Qed.

Lemma keep_header n ls : keep_lines (Some n) false 0 ls = (split_header ls).1 ++ take (Z.to_nat n) (split_header ls).2.
Proof.
  induction ls as [|l ls IH]; [by destruct (Z.to_nat n)|]. cbn [keep_lines orb andb split_header].
  destruct (decide (l = CRLF)) as [->|Hl].
  - rewrite bool_decide_eq_true_2 by done. cbn [fst snd]. rewrite keep_body, Z.sub_0_r. done.
  - rewrite bool_decide_eq_false_2 by done. rewrite IH. by destruct (split_header ls).
Qed.

Lemma keep_all inBody k ls : keep_lines None inBody k ls = ls.
Proof. revert inBody k. induction ls as [|l ls IH]; intros; cbn [keep_lines]; [done|]. by rewrite IH. Qed.

Lemma keep_top limit s : mjoin (keep_lines limit false 0 (lines_of s)) = top_of limit s.
Proof.
  destruct limit as [n|]; cbn [top_of].
  - rewrite keep_header. destruct (split_header (lines_of s)) as [h b]. cbn [fst snd].
    clear. induction h as [|x h IH]; [done|].
    change (x ++ mjoin (h ++ take (Z.to_nat n) b) = (x ++ mjoin h) ++ mjoin (take (Z.to_nat n) b)).
    by rewrite IH, app_assoc.
  - by rewrite keep_all, lines_of_join.
Qed.

(** ** Reading back *)

Definition line_end (lf : bool) : str := if lf then [] else CRLF.

Definition final_dot : str := "." ++ CRLF.

Lemma client_final fuel tail : client_lines (S fuel) (final_dot ++ tail) = Some ([], tail).
Proof.
  cbn [client_lines]. change (final_dot ++ tail) with (("." ++ [CR]) ++ LF :: tail).
  rewrite Cut_app by (apply (bool_decide_unpack (LF ∉ _)); by vm_compute). by rewrite decide_True.
Qed.

(** One stuffed line is read and unstuffed. *)
Lemma client_line fuel b c rest : LF ∉ b -> LF ∉ c -> (c = [] \/ c = [CR] /\ b <> []) ->
  client_lines (S fuel) ((stuffed b ++ c) ++ LF :: rest)
  = '(text, rest) ← client_lines fuel rest; Some ((b ++ c) ++ LF :: text, rest).
Proof.
  intros Hb Hc Hcase. cbn [client_lines].
  assert (LF ∉ stuffed b ++ c) as Hn.
  { rewrite not_elem_of_app. split; [|done]. unfold stuffed. case_bool_decide; [|done]. by apply not_elem_of_cons. }
  rewrite Cut_app by done. assert (stuffed b ++ c <> "." ++ [CR]) as Hdot.
  { intros E. unfold stuffed in E. case_bool_decide as Hh; destruct b as [|x b]; try done.
    - cbn in Hh. injection Hh as ->. injection E as E. destruct b; [destruct Hcase as [->|[-> _]]; discriminate E | done].
    - destruct Hcase as [->|[-> ?]]; done.
    - cbn in Hh. by injection E as -> _. }
  rewrite decide_False by done. f_equal. unfold stuffed. case_bool_decide as Hh.
  - cbn [app]. by rewrite decide_True.
  - destruct b as [|x b].
    + destruct Hcase as [->|[-> ?]]; done.
    + cbn in Hh. cbn [app]. rewrite decide_False; [done|]. by intros ->.
Qed.

Lemma stuffed_line b : stuffed (b ++ [LF]) = stuffed b ++ [LF].
Proof. unfold stuffed. destruct b as [|x b]; [done|]. cbn. by case_bool_decide. Qed.

Lemma ended_last lf ls : line_list ls -> ls <> [] -> ended lf ls = ended true ls.
Proof. by destruct 1. Qed.

Lemma client_stream ls : line_list ls -> forall fuel tail, (length ls < fuel)%nat ->
  client_lines fuel (mjoin (stuffed <$> ls) ++ line_end (ended true ls) ++ final_dot ++ tail)
  = Some (complete_lines (mjoin ls), tail).
Proof.
  induction 1 as [|p Hne Hp|b ls Hb Hl IH]; intros [|fuel] tail Hf; try (cbn in Hf; lia).
  - apply client_final.
  - destruct fuel as [|fuel]; [cbn in Hf; lia|]. cbn [fmap list_fmap mjoin list_join ended].
    rewrite (bool_decide_eq_false_2 _ (partial_last p Hp)). cbn [line_end].
    replace ((stuffed p ++ []) ++ CRLF ++ final_dot ++ tail) with ((stuffed p ++ [CR]) ++ LF :: final_dot ++ tail)
      by (rewrite app_nil_r, <- app_assoc; done).
    rewrite client_line; [|done|by apply not_elem_of_cons; split; [|apply not_elem_of_nil]|by right].
    rewrite client_final. cbn [mbind option_bind]. rewrite app_nil_r. unfold complete_lines.
    destruct (last p) as [c|] eqn:El; [|by apply last_None in El].
    rewrite decide_False; [|intros ->; by apply (partial_last p Hp)]. by rewrite <- app_assoc.
  - cbn [fmap list_fmap]. change (mjoin (stuffed (b ++ [LF]) :: (stuffed <$> ls))) with (stuffed (b ++ [LF]) ++ mjoin (stuffed <$> ls)).
    change (mjoin ((b ++ [LF]) :: ls)) with ((b ++ [LF]) ++ mjoin ls). cbn [ended]. rewrite last_line, bool_decide_eq_true_2 by done.
    rewrite stuffed_line.
    replace (((stuffed b ++ [LF]) ++ mjoin (stuffed <$> ls)) ++ line_end (ended true ls) ++ final_dot ++ tail)
      with ((stuffed b ++ []) ++ LF :: (mjoin (stuffed <$> ls) ++ line_end (ended true ls) ++ final_dot ++ tail))
      by (rewrite app_nil_r, <- !app_assoc; done).
    rewrite client_line; [|done|apply not_elem_of_nil|by left]. rewrite IH by (cbn in Hf; lia). cbn [mbind option_bind].
    rewrite app_nil_r. f_equal. f_equal. unfold complete_lines. rewrite <- app_assoc. cbn [app].
    destruct (last (mjoin ls)) as [c|] eqn:El.
    + rewrite last_app, last_cons, El. case_decide; [done|]. by rewrite <- app_assoc.
    + apply last_None in El as ->. rewrite last_snoc, decide_True by done. done.
Qed.

Lemma lines_length s : (length (lines_of s) <= length s)%nat.
Proof.
  induction s as [|p Hne Hp|b rest Hb IH] using text_ind; [done | |].
  - rewrite lines_of_partial by done. destruct p; [done | simpl; lia].
  - rewrite lines_of_line by done. rewrite length_app. cbn [length]. lia.
Qed.

Lemma keep_length limit inBody k ls : (length (keep_lines limit inBody k ls) <= length ls)%nat.
Proof.
  revert inBody k. induction ls as [|l ls IH]; intros inBody k; cbn [keep_lines]; [done|].
  destruct (match limit with Some n => _ | None => _ end); [simpl; lia|]. cbn [length]. specialize (IH (inBody || bool_decide (l = CRLF)) (if inBody then k + 1 else k)). lia.
Qed.

(** ** Properties *)

(** C28: What is stored is what a POP3 client reads.  For any message, the
    response of RETR (and of TOP, for any number of lines) is a greeting line
    and a multi-line text from which a client, removing the stuffed dots,
    recovers exactly the message (for TOP its header and that many lines of the
    body), its last line ended; what follows is left for the next response. *)
Theorem streaming_roundtrip (greeting : str) (limit : option Z) (content : str) (final : error) (tail : str) (fuel : nat) :
  LF ∉ greeting -> errors_Is final IoEOF = true -> Z.of_nat (length content) <= MaxUint64 -> (length content < fuel)%nat ->
  exists bytes, streamMessage greeting limit content final = (bytes, true) /\
  exists text, bytes ++ tail = (greeting ++ [CR]) ++ LF :: text /\ LF ∉ greeting ++ [CR] /\
    client_lines fuel text = Some (complete_lines (top_of limit content), tail).
Proof.
  intros Hg Hf Hmax Hfuel. unfold streamMessage.
  rewrite (stream_lines_keep limit final Hf content (S (length content)) false 0 true) by lia.
  set (kept := keep_lines limit false 0 (lines_of content)). eexists. split; [reflexivity|].
  exists (mjoin (stuffed <$> kept) ++ line_end (ended true kept) ++ final_dot ++ tail).
  split; [|split].
  - unfold CRLF at 1, line_end, final_dot. rewrite <- !app_assoc. done.
  - rewrite not_elem_of_app. split; [done|]. apply not_elem_of_cons. split; [done | apply not_elem_of_nil].
  - rewrite client_stream.
    + do 2 f_equal. unfold kept. by rewrite keep_top.
    + apply keep_line_list, lines_of_ok.
    + pose proof (keep_length limit false 0 (lines_of content)). pose proof (lines_length content). unfold kept. lia.
Qed.

Lemma streaming_roundtrip_witness :
  exists bytes, streamMessage "+OK" (Some 1) ("A: b" ++ CRLF ++ CRLF ++ ".x" ++ CRLF ++ "y") (Sentinel IoEOF) = (bytes, true).
Proof.
  destruct (streaming_roundtrip "+OK" (Some 1) ("A: b" ++ CRLF ++ CRLF ++ ".x" ++ CRLF ++ "y") (Sentinel IoEOF) [] 100)
    as (bytes & Hb & _).
  - apply (bool_decide_unpack (LF ∉ _)). vm_compute. exact I.
  - reflexivity.
  - unfold MaxUint64. simpl. lia.
  - simpl. lia.
  - exists bytes. exact Hb.
Defined.

(** ** Credentials *)

Section Auth.
Context `{Sha256}.

(** C29: POP3 credentials fail closed.  A password is accepted only if both a
    username and a digest are configured, the name hashes as the configured name
    does, and the password's SHA-256 is the configured digest; with either
    setting blank nothing is accepted, and a malformed digest is an error. *)
Theorem credentials_fail_closed (user digest : str) (c : Credentials) (username password : str) :
  NewCredentials user digest = Ok c ->
  authenticate c username password = true <->
  TrimSpace user <> [] /\ Sum256 username = Sum256 (TrimSpace user) /\
  DecodeString (TrimSpace digest) = Ok (Sum256 password).
Proof.
  unfold NewCredentials. set (u := TrimSpace user). set (d := TrimSpace digest).
  destruct (bool_decide (u = []) || bool_decide (d = [])) eqn:E.
  - intros <-%Ok_inj. split.
    + unfold authenticate, ConstantTimeCompare, ConstantTimeByteEq. cbn. by repeat case_decide.
    + intros (Hu & _ & Hd). exfalso. apply orb_true_iff in E as [E|E]; apply bool_decide_eq_true in E; [done|].
      rewrite E in Hd. cbn in Hd. apply Ok_inj in Hd. pose proof (Sum256_size password) as Hs. by rewrite <- Hd in Hs.
  - apply orb_false_iff in E as [Eu Ed]. apply bool_decide_eq_false in Eu, Ed.
    destruct (DecodeString d) as [bytes|e]; [|done]. destruct (negb _); [done|]. intros <-%Ok_inj.
    unfold authenticate, ConstantTimeCompare, ConstantTimeByteEq. cbn.
    destruct (decide (Sum256 username = Sum256 u)) as [H1|H1], (decide (Sum256 password = bytes)) as [H2|H2]; cbn;
      (split; [intros Hv; try discriminate Hv | intros (? & ? & E'); try reflexivity; try (apply Ok_inj in E'; congruence)]); try congruence.
    by rewrite H2.
Qed.
End Auth.

(** A stand-in for SHA-256 of the right size. *)
#[local] Instance padded_hash : Sha256.
Proof.
  refine {| Sum256 s := take 32 (s ++ replicate 32 NUL) |}.
  intros s. rewrite length_take, length_app, length_replicate. lia.
Defined.

Lemma credentials_fail_closed_witness :
  match NewCredentials " alice " (EncodeToString (Sum256 "secret")) with
  | Ok c => authenticate c "alice" "secret" = true /\ authenticate c "alice" "Secret" = false
  | Err _ => False
  end.
Proof.
  destruct (NewCredentials " alice " (EncodeToString (Sum256 "secret"))) as [c|e] eqn:E; [|vm_compute in E; discriminate E].
  pose proof (fun u p => credentials_fail_closed " alice " (EncodeToString (Sum256 "secret")) c u p E) as H.
  split.
  - apply H. split; [vm_compute; discriminate|]. split; vm_compute; reflexivity.
  - destruct (authenticate c "alice" "Secret") eqn:Ea; [|reflexivity].
    apply H in Ea as (_ & _ & Ed). vm_compute in Ed. discriminate Ed.
Defined.
