(* ===== verification/PopSession.v ===== *)
(** * The POP3 server (internal/pop3/server.go: Server)

    One connection is a session record that every command handler transforms,
    with the trace of what was sent, logged and deleted.  The maildrop is an
    interface ([Maildrop]), which other connections may change between commands;
    TLS, the network and the clock are parameters. *)

From S2P Require Import Prelude GoStrings IdPath Tree Wire PopSyntax.
From S2P Require Mailbox.

(** ** Data *)

Abbreviation Snapshot := Mailbox.Snapshot.

(** [pop3.mailbox] over the store's state [W].  A listing is the calls made to
    the visitor and its error; an opened message is what its reader yields until
    the final error, and the state after it was closed. *)
Class Maildrop (W : Type) := {
  TakeSnapshot : W -> Snapshot;
  ListAt : Snapshot -> (Z -> Z -> Z -> option error) -> W -> list (Z * Z * Z) * option error * W;
  Lookup : Snapshot -> Z -> M W Message;
  OpenMessage : Snapshot -> Message -> M W (str * error);
  DeleteAs : list Z -> str -> M W unit;
}.

(** The connection's surroundings: the deadline calls, TLS's plaintext stream,
    the writes inside a listing, and the order in which Go visits a map. *)
Class PopEnv := {
  deadline_ok : nat -> bool;
  handshake : str -> result str;
  row_ok : nat -> Z -> bool;
  deletion_order : gmap Z Z -> list (Z * Z);
  deletion_order_perm m : deletion_order m ≡ₚ map_to_list m;
}.

Record Options := {
  op_Hostname : str;
  op_Mailbox : bool;
  op_Credentials : Credentials;
  op_IdleTimeout : Z;
  op_MaxAuthFailures : Z;
  op_MaxConnections : Z;
}.

Record Server := {
  hostname : str;
  credentials : Credentials;
  idleTimeout : Z;
  maxAuthFailures : Z;
  connections : Z;
}.

(** What a session does, in order; [Sent] is one response handed to the
    connection's buffered writer, whether or not the flush succeeded. *)
Inductive event :=
  | Sent (bytes : str)
  | Logged (command : str) (argument : option str)
  | AuthenticationFailed
  | Authenticated (username : str)
  | Deletion (ids : list Z) (username : str) (ok : bool).

Record session := {
  username : str;
  authenticated : bool;
  snapshot : Snapshot;
  deleted : gmap Z Z;
  deletedOctets : Z;
  authFailures : Z;
  input : str;
  rounds : nat;
  writes : nat;
  trace : list event;
  closed : bool;
}.

(** ** Construction *)

Definition NewServer (options : Options) : result Server :=
  if bool_decide (TrimSpace (op_Hostname options) = []) then Err (New "POP3 hostname is required")
  else if negb (op_Mailbox options) then Err (New "POP3 mailbox is required")
  else
    let idle := if op_IdleTimeout options =? 0 then minimumIdleTimeout else op_IdleTimeout options in
    if idle <? minimumIdleTimeout then Err (New "POP3 idle timeout must be at least 10m0s")
    else Ok {| hostname := TrimSpace (op_Hostname options); credentials := op_Credentials options; idleTimeout := idle;
               maxAuthFailures := if op_MaxAuthFailures options <=? 0 then 3 else op_MaxAuthFailures options;
               connections := if op_MaxConnections options <=? 0 then 16 else op_MaxConnections options |}.

(** ** Session updates *)

Definition emit (e : event) (s : session) : session :=
  {| username := username s; authenticated := authenticated s; snapshot := snapshot s; deleted := deleted s;
     deletedOctets := deletedOctets s; authFailures := authFailures s; input := input s; rounds := rounds s;
     writes := writes s; trace := trace s ++ [e]; closed := closed s |}.

Definition count_write (s : session) : session :=
  {| username := username s; authenticated := authenticated s; snapshot := snapshot s; deleted := deleted s;
     deletedOctets := deletedOctets s; authFailures := authFailures s; input := input s; rounds := rounds s;
     writes := S (writes s); trace := trace s; closed := closed s |}.

Definition close (s : session) : session :=
  {| username := username s; authenticated := authenticated s; snapshot := snapshot s; deleted := deleted s;
     deletedOctets := deletedOctets s; authFailures := authFailures s; input := input s; rounds := rounds s;
     writes := writes s; trace := trace s; closed := true |}.

Definition advance_input (rest : str) (s : session) : session :=
  {| username := username s; authenticated := authenticated s; snapshot := snapshot s; deleted := deleted s;
     deletedOctets := deletedOctets s; authFailures := authFailures s; input := rest; rounds := rounds s;
     writes := writes s; trace := trace s; closed := closed s |}.

Definition next_round (s : session) : session :=
  {| username := username s; authenticated := authenticated s; snapshot := snapshot s; deleted := deleted s;
     deletedOctets := deletedOctets s; authFailures := authFailures s; input := input s; rounds := S (rounds s);
     writes := writes s; trace := trace s; closed := closed s |}.

Definition set_username (name : str) (failures : Z) (s : session) : session :=
  {| username := name; authenticated := authenticated s; snapshot := snapshot s; deleted := deleted s;
     deletedOctets := deletedOctets s; authFailures := failures; input := input s; rounds := rounds s;
     writes := writes s; trace := trace s; closed := closed s |}.

Definition log_in (snap : Snapshot) (s : session) : session :=
  {| username := username s; authenticated := true; snapshot := snap; deleted := deleted s;
     deletedOctets := deletedOctets s; authFailures := authFailures s; input := input s; rounds := rounds s;
     writes := writes s; trace := trace s; closed := closed s |}.

Definition set_deleted (marks : gmap Z Z) (octets : Z) (s : session) : session :=
  {| username := username s; authenticated := authenticated s; snapshot := snapshot s; deleted := marks;
     deletedOctets := octets; authFailures := authFailures s; input := input s; rounds := rounds s;
     writes := writes s; trace := trace s; closed := closed s |}.

Definition no_snapshot : Snapshot :=
  {| Mailbox.sn_LastID := 0; Mailbox.sn_TotalOctets := 0; Mailbox.sn_MessageCount := 0; Mailbox.sn_index := None;
     Mailbox.sn_commit := [] |}.

Definition new_session (stream : str) : session :=
  {| username := []; authenticated := false; snapshot := no_snapshot; deleted := ∅; deletedOctets := 0;
     authFailures := 0; input := stream; rounds := 0; writes := 0; trace := []; closed := false |}.

(** [snapshot.Count()]. *)
Definition Count (s : Snapshot) : Z := Mailbox.sn_MessageCount s.

(** ** Command handlers *)

Section Handlers.
Context {W : Type}.
Context `{Conn, UnicodeTables, Sha256, !Maildrop W, PopEnv}.
Context (server : Server).

(** Bytes written and flushed as one response. *)
Definition send (bytes : str) (s : session) : bool * session :=
  (write_ok (writes s), count_write (emit (Sent bytes) s)).

Definition reply (line : str) (s : session) : bool * session := send (line ++ CRLF) s.

(** A reply whose success the code does not look at. *)
Definition say (line : str) (s : session) : session := (reply line s).2.

Definition replyMulti (lines : list str) (s : session) : session :=
  (send (mjoin ((fun line => line ++ CRLF) <$> lines) ++ "." ++ CRLF) s).2.

Definition is_deleted (number : Z) (s : session) : bool := negb (default 0 (deleted s !! number) =? 0).

(** The row of a listed message, unless it is marked deleted. *)
Definition row_text (row : Z -> Z -> Z -> str) (s : session) (call : Z * Z * Z) : str :=
  let '(number, id, size) := call in if is_deleted number s then [] else row number id size ++ CRLF.

(** [writeListing] over [ListAt]. *)
Definition writeListing (row : Z -> Z -> Z -> str) (s : session) (w : W) : bool * session * W :=
  let visit number id size : option error :=
    if is_deleted number s then None
    else if row_ok (writes s) number then None else Some (New "write") in
  let '(calls, err, w) := ListAt (snapshot s) visit w in
  let rows := mjoin (row_text row s <$> calls) in
  match err with
  | Some _ => (false, count_write (emit (Sent ("+OK listing follows" ++ CRLF ++ rows)) s), w)
  | None => let '(ok, s) := send ("+OK listing follows" ++ CRLF ++ rows ++ "." ++ CRLF) s in (ok, s, w)
  end.

(** A message number the session can refer to. *)
Definition numbered_message (argument : str) (s : session) : option Z :=
  match messageID argument (Count (snapshot s)) with
  | Some id => if is_deleted id s then None else Some id
  | None => None
  end.

Definition handle_capa (argument : str) (s : session) : session :=
  if negb (bool_decide (argument = [])) then say "-ERR invalid arguments" s
  else replyMulti ["+OK Capability list follows" : str; "USER" : str; "UIDL" : str; "TOP" : str;
                   "IMPLEMENTATION picomx" : str] s.

Definition handle_user (argument : str) (s : session) : session :=
  if authenticated s || bool_decide (TrimSpace argument = []) then say "-ERR command not valid now" s
  else say "+OK send PASS" (set_username (TrimSpace argument) (authFailures s) s).

Definition handle_pass (argument : str) (s : session) (w : W) : session :=
  if authenticated s || bool_decide (username s = []) || bool_decide (argument = [])
  then say "-ERR command not valid now" s
  else if negb (authenticate (credentials server) (username s) argument) then
    let failures := authFailures s + 1 in
    let s := emit AuthenticationFailed (set_username (username s) failures s) in
    let s := say "-ERR authentication failed" (set_username [] failures s) in
    if maxAuthFailures server <=? failures then close s else s
  else
    let snap := TakeSnapshot w in
    let s := emit (Authenticated (username s)) (log_in snap s) in
    say ("+OK maildrop ready with " ++ FormatUint (Count snap) 10 ++ " messages") s.

Definition handle_stat (argument : str) (s : session) : session :=
  if negb (authenticated s) || negb (bool_decide (argument = [])) then say "-ERR command not valid now" s
  else say ("+OK " ++ FormatUint (u64 (Count (snapshot s) - Z.of_nat (size (deleted s)))) 10 ++ " "
            ++ FormatUint (u64 (Mailbox.sn_TotalOctets (snapshot s) - deletedOctets s)) 10) s.

(** LIST and UIDL: one message, or all that are not marked. *)
Definition handle_listing (one : Z -> Message -> str) (row : Z -> Z -> Z -> str) (argument : str) (s : session) (w : W)
    : session * W :=
  if negb (authenticated s) then (say "-ERR authenticate first" s, w)
  else if negb (bool_decide (argument = [])) then
    match numbered_message argument s with
    | None => (say "-ERR no such message" s, w)
    | Some id =>
        match Lookup (snapshot s) id w with
        | (Err _, w) => (say "-ERR unable to inspect message" s, w)
        | (Ok message, w) => (say ("+OK " ++ one id message) s, w)
        end
    end
  else
    let '(ok, s, w) := writeListing row s w in
    (if ok then s else close s, w).

Definition handle_list : str -> session -> W -> session * W :=
  handle_listing (fun id message => FormatUint id 10 ++ " " ++ FormatUint (Size message) 10)
                 (fun number _ size => FormatUint number 10 ++ " " ++ FormatUint size 10).

Definition handle_uidl : str -> session -> W -> session * W :=
  handle_listing (fun id message => FormatUint id 10 ++ " " ++ uniqueID (ID message))
                 (fun number id _ => FormatUint number 10 ++ " " ++ uniqueID id).

(** Streaming an opened message, whose reader is closed afterwards. *)
Definition stream (greeting : str) (limit : option Z) (content : str * error) (s : session) : session :=
  let '(bytes, good) := streamMessage greeting limit content.1 content.2 in
  let '(ok, s) := send bytes s in
  if ok && good then s else close s.

Definition handle_retr (argument : str) (s : session) (w : W) : session * W :=
  if negb (authenticated s) then (say "-ERR authenticate first" s, w)
  else match numbered_message argument s with
  | None => (say "-ERR no such message" s, w)
  | Some id =>
      match Lookup (snapshot s) id w with
      | (Err _, w) => (say "-ERR unable to inspect message" s, w)
      | (Ok message, w) =>
          match OpenMessage (snapshot s) message w with
          | (Err _, w) => (say "-ERR unable to open message" s, w)
          | (Ok content, w) => (stream ("+OK " ++ FormatUint (Size message) 10 ++ " octets") None content s, w)
          end
      end
  end.

(** [openMessage]. *)
Definition openMessage (snapshot : Snapshot) (number : Z) : M W (str * error) :=
  let* message := Lookup snapshot number in OpenMessage snapshot message.

Definition handle_top (argument : str) (s : session) (w : W) : session * W :=
  if negb (authenticated s) then (say "-ERR authenticate first" s, w)
  else match topArguments argument (Count (snapshot s)) with
  | None => (say "-ERR invalid arguments" s, w)
  | Some (id, bodyLines) =>
      if is_deleted id s then (say "-ERR invalid arguments" s, w)
      else match openMessage (snapshot s) id w with
      | (Err _, w) => (say "-ERR unable to open message" s, w)
      | (Ok content, w) => (stream "+OK top of message follows" (Some bodyLines) content s, w)
      end
  end.

Definition handle_dele (argument : str) (s : session) (w : W) : session * W :=
  if negb (authenticated s) then (say "-ERR authenticate first" s, w)
  else match numbered_message argument s with
  | None => (say "-ERR no such message" s, w)
  | Some id =>
      match Lookup (snapshot s) id w with
      | (Err _, w) => (say "-ERR unable to inspect message" s, w)
      | (Ok message, w) =>
          (say "+OK message marked for deletion"
             (set_deleted (<[id := ID message]> (deleted s)) (u64 (deletedOctets s + Size message)) s), w)
      end
  end.

Definition handle_rset (argument : str) (s : session) : session :=
  if negb (authenticated s) || negb (bool_decide (argument = [])) then say "-ERR command not valid now" s
  else say "+OK no messages deleted" (set_deleted ∅ 0 s).

Definition handle_noop (argument : str) (s : session) : session :=
  if negb (authenticated s) || negb (bool_decide (argument = [])) then say "-ERR command not valid now" s
  else say "+OK" s.

Definition handle_quit (argument : str) (s : session) (w : W) : session * W :=
  if negb (bool_decide (argument = [])) then (say "-ERR invalid arguments" s, w)
  else if authenticated s && (0 <? Z.of_nat (size (deleted s))) then
    let ids := (deletion_order (deleted s)).*2 in
    match DeleteAs ids (username s) w with
    | (Err _, w) => (close (say "-ERR unable to commit deletions" (emit (Deletion ids (username s) false) s)), w)
    | (Ok _, w) => (close (say "+OK bye" (emit (Deletion ids (username s) true) s)), w)
    end
  else (close (say "+OK bye" s), w).

(** A command the server does not know. *)
Definition handle_unknown (s : session) : session := say "-ERR command not implemented" s.

(** ** The command loop *)

(** What other connections do to the store before each command is read. *)
Context (others : nat -> W -> W).

Definition dispatch (command argument : str) (s : session) (w : W) : session * W :=
  if decide (command = "CAPA") then (handle_capa argument s, w)
  else if decide (command = "USER") then (handle_user argument s, w)
  else if decide (command = "PASS") then (handle_pass argument s w, w)
  else if decide (command = "STAT") then (handle_stat argument s, w)
  else if decide (command = "LIST") then handle_list argument s w
  else if decide (command = "UIDL") then handle_uidl argument s w
  else if decide (command = "RETR") then handle_retr argument s w
  else if decide (command = "TOP") then handle_top argument s w
  else if decide (command = "DELE") then handle_dele argument s w
  else if decide (command = "RSET") then (handle_rset argument s, w)
  else if decide (command = "NOOP") then (handle_noop argument s, w)
  else if decide (command = "QUIT") then handle_quit argument s w
  else (handle_unknown s, w).

(** One turn of the loop. *)
Definition serve_command (s : session) (w : W) : session * W :=
  let s := next_round s in
  if negb (deadline_ok (rounds s)) then (close s, w)
  else match readCommand (input s) with
  | (Err e, rest) =>
      let s := advance_input rest s in
      (close (if errors_Is e ErrCommandTooLong then say "-ERR command too long" s else s), w)
  | (Ok line, rest) =>
      let '(command, argument) := splitCommand line in
      let '(verb, logged) := command_log line in
      dispatch command argument (emit (Logged verb logged) (advance_input rest s)) w
  end.

Fixpoint serve_loop (fuel : nat) (s : session) (w : W) : session * W :=
  match fuel with
  | O => (s, w)
  | S fuel =>
      if closed s then (s, w)
      else let '(s, w) := serve_command s (others (rounds s) w) in serve_loop fuel s w
  end.

(** [serveConn] on the bytes the client sends. *)
Definition serveConn (fuel : nat) (stream : str) (w : W) : session * W :=
  let '(ok, s) := reply ("+OK " ++ hostname server ++ " picomx ready") (new_session stream) in
  if ok then serve_loop fuel s w else (close s, w).

(** [serveTLSConn]: only what TLS decrypted is served. *)
Definition serveTLSConn (fuel : nat) (raw : str) (w : W) : session * W :=
  if negb (deadline_ok 0) then (close (new_session []), w)
  else match handshake raw with
  | Err _ => (close (new_session []), w)
  | Ok plaintext => serveConn fuel plaintext w
  end.
End Handlers.

(** ** The connection limit of [Serve] *)

(** [Serve] refuses to run without TLS, and closes a connection beyond the limit. *)
Definition Serve_error (tlsConfig : bool) : option error :=
  if tlsConfig then None else Some (New "POP3S TLS configuration is required").

Inductive serve_event := Accepted (conn : nat) | Finished (conn : nat).

Definition Serve_step (limit : Z) (active : list nat) (e : serve_event) : list nat :=
  match e with
  | Accepted conn => if Z.of_nat (length active) <? limit then conn :: active else active
  | Finished conn => filter (fun c => c <> conn) active
  end.

Definition Serve (limit : Z) (events : list serve_event) : list nat := foldl (Serve_step limit) [] events.
