(* ===== verification/PopSpec.v ===== *)
(** * The invariant of a POP3 session

    For every client, network and interleaving with other connections: what a
    session's marks mean in its maildrop, and how far its trace can go. *)

From S2P Require Import Prelude GoStrings IdPath Tree Wire PopSyntax PopSession.
From S2P Require MailboxSpec.

(** ** Maildrops *)

Definition total_size (l : list Message) : Z := foldr (fun m acc => Size m + acc) 0 l.

(** The messages numbered from [k] on that are marked, and the others with
    their numbers. *)
Fixpoint marked_from (k : Z) (drop : list Message) (marks : gmap Z Z) : list Message :=
  match drop with
  | [] => []
  | m :: rest =>
      match marks !! k with
      | Some _ => m :: marked_from (k + 1) rest marks
      | None => marked_from (k + 1) rest marks
      end
  end.

Fixpoint unmarked_from (k : Z) (drop : list Message) (marks : gmap Z Z) : list (Z * Message) :=
  match drop with
  | [] => []
  | m :: rest =>
      match marks !! k with
      | Some _ => unmarked_from (k + 1) rest marks
      | None => (k, m) :: unmarked_from (k + 1) rest marks
      end
  end.

Record drop_ok (snap : Snapshot) (drop : list Message) : Prop := {
  do_count : Count snap = Z.of_nat (length drop);
  do_total : Mailbox.sn_TotalOctets snap = total_size drop;
  do_count_u64 : Z.of_nat (length drop) <= MaxUint64;
  do_total_u64 : total_size drop <= MaxUint64;
  do_messages : Forall (fun m => 1 <= ID m /\ 0 <= Size m) drop;
}.

(** What the store promises a session: a snapshot shows a fixed maildrop, to
    every call of the session and whatever other connections do. *)
Class MaildropLaws (W : Type) `{Maildrop W} (others : nat -> W -> W) (good : W -> Prop)
    (shows : W -> Snapshot -> list Message -> Prop) : Prop := {
  ml_taken w : good w -> exists drop, shows w (TakeSnapshot w) drop;
  ml_good w snap drop : shows w snap drop -> good w;
  ml_drop w snap drop : shows w snap drop -> drop_ok snap drop;
  ml_others_good k w : good w -> good (others k w);
  ml_others k w snap drop : shows w snap drop -> shows (others k w) snap drop;
  ml_lookup w snap drop number : shows w snap drop -> 1 <= number <= Z.of_nat (length drop) ->
    shows (Lookup snap number w).2 snap drop /\
    forall m, (Lookup snap number w).1 = Ok m -> drop !! Z.to_nat (number - 1) = Some m;
  ml_list w snap drop visit : shows w snap drop ->
    shows (ListAt snap visit w).2 snap drop /\
    (ListAt snap visit w).1 = MailboxSpec.visit_spec visit (MailboxSpec.enumerate 0 drop);
  ml_open w snap drop m : shows w snap drop -> shows (OpenMessage snap m w).2 snap drop;
}.

(** ** Lemmas on marks *)

#[export] Instance total_size_proper : Proper ((≡ₚ) ==> eq) total_size.
Proof. unfold total_size. induction 1; cbn in *; lia. Qed.

Lemma total_size_app l l' : total_size (l ++ l') = total_size l + total_size l'.
Proof. unfold total_size. induction l as [|m l IH]; cbn in *; lia. Qed.

Lemma total_size_nonneg l : Forall (fun m => 1 <= ID m /\ 0 <= Size m) l -> 0 <= total_size l.
Proof. unfold total_size. induction 1 as [|m l Hm HF IH]; cbn in *; lia. Qed.

(** The marked and the unmarked messages make up the maildrop. *)
Lemma marked_split k drop marks : drop ≡ₚ marked_from k drop marks ++ (unmarked_from k drop marks).*2.
Proof.
  revert k. induction drop as [|m drop IH]; intros k; [done|]. cbn [marked_from unmarked_from].
  destruct (marks !! k); cbn [app fmap list_fmap snd].
  - by rewrite <- IH.
  - rewrite <- Permutation_middle. by rewrite <- IH.
Qed.

Lemma total_split k drop marks :
  total_size drop = total_size (marked_from k drop marks) + total_size (unmarked_from k drop marks).*2.
Proof. rewrite <- total_size_app. apply total_size_proper, marked_split. Qed.

Lemma messages_split k drop marks (P : Message -> Prop) : Forall P drop ->
  Forall P (marked_from k drop marks) /\ Forall P (unmarked_from k drop marks).*2.
Proof. intros HF. apply Forall_app. by rewrite <- marked_split. Qed.

Lemma marked_empty k drop : marked_from k drop ∅ = [].
Proof. revert k. induction drop as [|m drop IH]; intros k; cbn; [done|]. by rewrite lookup_empty. Qed.

Lemma marked_below k n id drop marks : n < k -> marked_from k drop (<[n := id]> marks) = marked_from k drop marks.
Proof.
  revert k. induction drop as [|m drop IH]; intros k Hk; cbn [marked_from]; [done|].
  rewrite lookup_insert_ne by lia. by rewrite IH by lia.
Qed.

(** Marking one more message. *)
Lemma marked_insert k n id drop marks m : k <= n -> drop !! Z.to_nat (n - k) = Some m -> marks !! n = None ->
  marked_from k drop (<[n := id]> marks) ≡ₚ m :: marked_from k drop marks.
Proof.
  revert k. induction drop as [|x drop IH]; intros k Hk Hm Hn; [done|]. cbn [marked_from].
  destruct (decide (k = n)) as [->|Hne].
  - rewrite Z.sub_diag in Hm. injection Hm as ->. rewrite lookup_insert_eq, Hn, marked_below by lia. done.
  - rewrite lookup_insert_ne by done. replace (Z.to_nat (n - k)) with (S (Z.to_nat (n - (k + 1)))) in Hm by lia.
    specialize (IH (k + 1) ltac:(lia) Hm Hn). destruct (marks !! k); [|done].
    rewrite IH. apply Permutation_swap.
Qed.

(** Marks that stand for messages of the maildrop. *)
Record marks_ok (drop : list Message) (marks : gmap Z Z) (octets : Z) : Prop := {
  mo_ids : (map_to_list marks).*2 ≡ₚ ID <$> marked_from 1 drop marks;
  mo_octets : octets = total_size (marked_from 1 drop marks);
  mo_nonzero n id : marks !! n = Some id -> id <> 0;
}.

Lemma marks_ok_empty drop : marks_ok drop ∅ 0.
Proof. split; rewrite ?marked_empty; [by rewrite map_to_list_empty | done |]. intros n id. by rewrite lookup_empty. Qed.

Lemma marks_ok_insert snap drop marks octets n m : drop_ok snap drop -> marks_ok drop marks octets -> 1 <= n ->
  drop !! Z.to_nat (n - 1) = Some m -> marks !! n = None ->
  marks_ok drop (<[n := ID m]> marks) (u64 (octets + Size m)).
Proof.
  intros Hd [Hi Ho Hz] Hn Hm Hf. pose proof (marked_insert 1 n (ID m) drop marks m Hn Hm Hf) as HP.
  destruct (messages_split 1 drop (<[n := ID m]> marks) _ (do_messages _ _ Hd)) as [HF1 Hpos%total_size_nonneg].
  rewrite HP in HF1.
  split.
  - rewrite map_to_list_insert by done. cbn. rewrite HP. cbn. by rewrite Hi.
  - rewrite HP. cbn. rewrite Ho. rewrite u64_small; [unfold total_size; lia|].
    pose proof (do_total_u64 _ _ Hd) as HM. rewrite (total_split 1 drop (<[n := ID m]> marks)), HP in HM.
    pose proof (total_size_nonneg _ HF1) as Hp. cbn in Hp, HM. unfold total_size, is_u64 in *. lia.
  - intros n' id' [[<- <-]|[_ Hl]]%lookup_insert_Some; [|by eapply Hz].
    apply Forall_cons in HF1 as [[? _] _]. lia.
Qed.

(** Counting what is left. *)
Lemma marks_size drop marks octets : marks_ok drop marks octets ->
  Z.of_nat (size marks) = Z.of_nat (length (marked_from 1 drop marks)).
Proof.
  intros [Hi _ _]. apply Permutation_length in Hi. rewrite !length_fmap, length_map_to_list in Hi. by rewrite Hi.
Qed.

Lemma left_count snap drop marks octets : drop_ok snap drop -> marks_ok drop marks octets ->
  u64 (Count snap - Z.of_nat (size marks)) = Z.of_nat (length (unmarked_from 1 drop marks)).
Proof.
  intros Hd Hm. rewrite (marks_size _ _ _ Hm), (do_count _ _ Hd).
  pose proof (Permutation_length (marked_split 1 drop marks)) as HS. rewrite length_app, length_fmap in HS.
  pose proof (do_count_u64 _ _ Hd). rewrite u64_small; [lia | unfold is_u64; lia].
Qed.

Lemma left_octets snap drop marks octets : drop_ok snap drop -> marks_ok drop marks octets ->
  u64 (Mailbox.sn_TotalOctets snap - octets) = total_size (unmarked_from 1 drop marks).*2.
Proof.
  intros Hd Hm. rewrite (mo_octets _ _ _ Hm), (do_total _ _ Hd).
  destruct (messages_split 1 drop marks _ (do_messages _ _ Hd)) as [H1%total_size_nonneg H2%total_size_nonneg].
  pose proof (do_total_u64 _ _ Hd). pose proof (total_split 1 drop marks). rewrite u64_small; [lia | unfold is_u64; lia].
Qed.

(** ** The invariant *)

#[export] Instance event_eq_dec : EqDecision event.
Proof. solve_decision. Defined.

Definition failures (t : list event) : list event := filter (fun e => e = AuthenticationFailed) t.

Definition deletions (t : list event) : list (list Z * str * bool) :=
  omap (fun e => match e with Deletion ids name ok => Some (ids, name, ok) | _ => None end) t.

Arguments failures : simpl never.
Arguments deletions : simpl never.

Definition accepted {A} (r : result A) : bool := match r with Ok _ => true | Err _ => false end.

(** The log names a verb, never the argument of PASS or of anything unknown. *)
Definition log_ok (e : event) : Prop :=
  match e with
  | Logged verb argument =>
      (verb ∈ verbs \/ verb = "UNKNOWN") /\ (verb = "PASS" \/ verb = "UNKNOWN" -> argument = None)
  | _ => True
  end.

Section Invariant.
Context {W : Type}.
Context `{Conn, UnicodeTables, Sha256, MD : !Maildrop W, PopEnv}.
Context (server : Server) (others : nat -> W -> W) (good : W -> Prop) (shows : W -> Snapshot -> list Message -> Prop).
Context `{ML : !MaildropLaws W others good shows}.

Record session_ok (s : session) (w : W) : Prop := {
  so_good : deletions (trace s) = [] -> good w;
  so_out : authenticated s = false -> deleted s = ∅ /\ deletedOctets s = 0;
  so_user : authenticated s = true -> exists password, authenticate (credentials server) (username s) password = true;
  so_in : authenticated s = true -> exists drop, drop_ok (snapshot s) drop /\ marks_ok drop (deleted s) (deletedOctets s) /\
    (closed s = false -> shows w (snapshot s) drop) /\
    (deletions (trace s) = [] \/ exists ids r before, deletions (trace s) = [(ids, username s, accepted r)] /\
       ids ≡ₚ ID <$> marked_from 1 drop (deleted s) /\
       shows before (snapshot s) drop /\ DeleteAs ids (username s) before = (r, w));
  so_no_deletion : closed s = false \/ authenticated s = false -> deletions (trace s) = [];
  so_failures : authFailures s = Z.of_nat (length (failures (trace s)));
  so_limit : authFailures s <= Z.max 1 (maxAuthFailures server);
  so_below : closed s = false -> authFailures s < Z.max 1 (maxAuthFailures server);
  so_log : Forall log_ok (trace s);
  so_name : (length (username s) <= maxCommandBytes)%nat;
}.

(** Events that neither delete nor count as failures. *)
Definition quiet (e : event) : Prop :=
  match e with Deletion _ _ _ | AuthenticationFailed => False | _ => True end.

Lemma failures_snoc t e : quiet e -> failures (t ++ [e]) = failures t.
Proof. intros Hq. unfold failures. rewrite filter_app. destruct e; try done; by rewrite app_nil_r. Qed.

Lemma deletions_snoc t e : quiet e -> deletions (t ++ [e]) = deletions t.
Proof. intros Hq. unfold deletions. rewrite omap_app. destruct e; try done; by rewrite app_nil_r. Qed.

(** A session whose only news is a quiet event. *)
Lemma emit_ok e s w : quiet e -> log_ok e -> session_ok s w -> session_ok (emit e s) w.
Proof.
  intros Hq Hl []. split; cbn; rewrite ?(deletions_snoc _ _ Hq), ?(failures_snoc _ _ Hq); try done.
  apply Forall_app. split; [done | by constructor].
Qed.

Lemma count_write_ok s w : session_ok s w -> session_ok (count_write s) w.
Proof. by intros []. Qed.

Lemma send_ok bytes s w : session_ok s w -> session_ok (send bytes s).2 w.
Proof. intros Hs. by apply count_write_ok, emit_ok. Qed.

Lemma pop_say_ok line s w : session_ok s w -> session_ok (say line s) w.
Proof. apply send_ok. Qed.

Lemma pop_close_ok s w : session_ok s w -> session_ok (close s) w.
Proof.
  intros []. split; cbn; try done.
  - intros Ha. destruct (so_in0 Ha) as (drop & ? & ? & _ & ?). by exists drop.
  - intros [?|?]; [done | auto].
Qed.

Lemma advance_input_ok rest s w : session_ok s w -> session_ok (advance_input rest s) w.
Proof. by intros []. Qed.

Lemma pop_next_round_ok s w : session_ok s w -> session_ok (next_round s) w.
Proof. by intros []. Qed.

(** The store changed but still shows what it did. *)
Lemma world_ok s w w' : session_ok s w -> closed s = false -> (good w -> good w') ->
  (forall drop, shows w (snapshot s) drop -> shows w' (snapshot s) drop) -> session_ok s w'.
Proof.
  intros [] Hc Hg Hw. split; try done; [auto|].
  intros Ha. destruct (so_in0 Ha) as (drop & ? & ? & ? & _). exists drop. split_and!; auto.
Qed.

Lemma kept_ok s w w' : session_ok s w -> authenticated s = true -> closed s = false ->
  (forall drop, shows w (snapshot s) drop -> shows w' (snapshot s) drop) -> session_ok s w'.
Proof.
  intros Hs Ha Hc Hw. apply (world_ok s w); [done | done | | done]. intros _.
  destruct (so_in _ _ Hs Ha) as (drop & _ & _ & Hd & _). eapply ml_good. by apply Hw, Hd.
Qed.

Hint Resolve pop_say_ok send_ok pop_close_ok emit_ok advance_input_ok pop_next_round_ok : picomx.

Lemma pop_new_session_ok stream w : good w -> session_ok (new_session stream) w.
Proof. intros Hg. split; cbn; done || lia. Qed.

Lemma set_username_ok name s w : session_ok s w -> authenticated s = false -> (length name <= maxCommandBytes)%nat -> session_ok (set_username name (authFailures s) s) w.
Proof. intros [] Ha Hn. split; cbn; try done; congruence. Qed.

Lemma handle_capa_ok argument s w : session_ok s w -> session_ok (handle_capa argument s) w.
Proof. intros Hs. unfold handle_capa, replyMulti. destruct (negb _); auto with picomx. Qed.

Lemma handle_user_ok argument s w : session_ok s w -> (length argument <= maxCommandBytes)%nat ->
  session_ok (handle_user argument s) w.
Proof.
  intros Hs Hl. unfold handle_user. destruct (authenticated s) eqn:Ha; cbn [orb]; [auto with picomx|].
  destruct (bool_decide _); [auto with picomx|]. apply pop_say_ok, set_username_ok; [done | done|].
  pose proof (TrimSpace_length argument). lia.
Qed.

Lemma handle_pass_ok argument s w : session_ok s w -> closed s = false -> session_ok (handle_pass server argument s w) w.
Proof.
  intros Hs Hc. unfold handle_pass. destruct (authenticated s) eqn:Ha; cbn [orb]; [auto with picomx|].
  destruct (_ || _); [auto with picomx|].
  destruct (authenticate (credentials server) (username s) argument) eqn:E; cbn [negb].
  - apply pop_say_ok, emit_ok; [done | done|]. destruct Hs. destruct (so_out0 Ha) as [Hd Ho].
    destruct (ml_taken w (so_good0 (so_no_deletion0 (or_introl Hc)))) as [drop Hdrop]. pose proof (ml_drop _ _ _ Hdrop).
    split; cbn; try done.
    + intros _. by exists argument.
    + intros _. exists drop. rewrite Hd, Ho. split_and!; try done; [apply marks_ok_empty|]. left. apply so_no_deletion0. auto.
    + auto.
  - set (s1 := say "-ERR authentication failed" _).
    assert (authFailures s + 1 = Z.of_nat (length (failures (trace s1)))) as Hcount.
    { unfold s1. cbn. rewrite failures_snoc by done. unfold failures. rewrite filter_app, length_app.
      pose proof (so_failures _ _ Hs) as Hf. unfold failures in Hf. rewrite filter_cons_True by done. cbn. lia. }
    assert (deletions (trace s1) = []) as Hdel.
    { unfold s1. cbn. rewrite deletions_snoc by done. unfold deletions. rewrite omap_app.
      change (deletions (trace s) ++ [] = []). by rewrite (so_no_deletion _ _ Hs) by auto. }
    assert (Forall log_ok (trace s1)) as Hlog.
    { unfold s1. cbn. rewrite !Forall_app. split; [split; [apply Hs|]|]; by repeat constructor. }
    pose proof (so_below _ _ Hs Hc) as Hb. destruct (so_out _ _ Hs Ha) as [Hd Ho].
    destruct (Z.leb_spec (maxAuthFailures server) (authFailures s + 1)); split; cbn; try done; try congruence; try lia;
      intros; first [by apply Hs | by apply Hs, (so_no_deletion _ _ Hs); auto].
Qed.

Lemma handle_stat_ok argument s w : session_ok s w -> session_ok (handle_stat argument s) w.
Proof. intros Hs. unfold handle_stat. destruct (_ || _); auto with picomx. Qed.

(** What a number refers to. *)
Lemma messageID_range argument count id : messageID argument count = Some id -> 1 <= id <= count.
Proof.
  unfold messageID. destruct (ParseUint _ _ _) as [n|]; [|done]. destruct (_ && _) eqn:E; [|done]. intros [= <-].
  apply andb_true_iff in E as [E1%Z.ltb_lt E2%Z.leb_le]. lia.
Qed.

Lemma not_deleted_ok id s w : session_ok s w -> authenticated s = true -> is_deleted id s = false -> deleted s !! id = None.
Proof.
  intros Hs Ha Hd. destruct (so_in _ _ Hs Ha) as (drop & _ & Hm & _). unfold is_deleted in Hd.
  destruct (deleted s !! id) as [x|] eqn:Ex; [|done]. apply negb_false_iff, Z.eqb_eq in Hd.
  by apply (mo_nonzero _ _ _ Hm) in Ex.
Qed.

Lemma numbered_message_ok argument s w id : session_ok s w -> authenticated s = true ->
  numbered_message argument s = Some id -> deleted s !! id = None /\ 1 <= id <= Count (snapshot s).
Proof.
  intros Hs Ha. unfold numbered_message. destruct (messageID _ _) as [n|] eqn:E; [|done].
  destruct (is_deleted n s) eqn:Ed; [done|]. intros [= <-]. split; [by eapply not_deleted_ok | by eapply messageID_range].
Qed.

(** The calls a session makes to the store keep the invariant. *)
Lemma lookup_shows s w id drop : shows w (snapshot s) drop -> 1 <= id <= Count (snapshot s) ->
  shows (Lookup (snapshot s) id w).2 (snapshot s) drop /\
  forall m, (Lookup (snapshot s) id w).1 = Ok m -> drop !! Z.to_nat (id - 1) = Some m.
Proof. intros Hd Hid. apply ml_lookup; [done|]. by rewrite <- (do_count _ _ (ml_drop _ _ _ Hd)). Qed.

Lemma lookup_ok s w id : session_ok s w -> authenticated s = true -> closed s = false -> 1 <= id <= Count (snapshot s) ->
  session_ok s (Lookup (snapshot s) id w).2.
Proof. intros Hs Ha Hc Hid. apply (kept_ok s w); [done..|]. intros drop Hd. by apply lookup_shows. Qed.

Lemma handle_listing_ok one row argument s w : session_ok s w -> closed s = false ->
  let '(s', w') := handle_listing one row argument s w in session_ok s' w'.
Proof.
  intros Hs Hc. unfold handle_listing. destruct (authenticated s) eqn:Ha; cbn [negb]; [|auto with picomx].
  destruct (negb _).
  - destruct (numbered_message argument s) as [id|] eqn:En; [|auto with picomx].
    destruct (numbered_message_ok _ _ _ _ Hs Ha En) as [_ Hid]. pose proof (lookup_ok s w id Hs Ha Hc Hid) as Hl.
    destruct (Lookup (snapshot s) id w) as [[m|e] w']; auto with picomx.
  - unfold writeListing. set (visit := fun number _ _ => _).
    assert (session_ok s (ListAt (snapshot s) visit w).2) as Hl.
    { apply (kept_ok s w); [done..|]. intros drop Hd. by apply (ml_list w _ drop visit Hd). }
    destruct (ListAt (snapshot s) visit w) as [[calls [e|]] w']; cbn [snd] in Hl.
    + apply (pop_close_ok _ w'). by apply count_write_ok, emit_ok.
    + destruct (send _ s) as [ok s'] eqn:Es.
      assert (session_ok s' w') as Hs' by (apply (f_equal snd) in Es; cbn [snd] in Es; rewrite <- Es; by apply send_ok).
      destruct ok; [done | by apply (pop_close_ok _ w')].
Qed.

Lemma stream_ok greeting limit content s w : session_ok s w -> session_ok (stream greeting limit content s) w.
Proof.
  intros Hs. unfold stream. destruct (streamMessage _ _ _ _) as [bytes fine]. destruct (send bytes s) as [ok s'] eqn:Es.
  assert (session_ok s' w) as Hs' by (apply (f_equal snd) in Es; cbn [snd] in Es; rewrite <- Es; by apply send_ok).
  destruct (ok && fine); [done | by apply (pop_close_ok _ w)].
Qed.

(** Opening a message. *)
Lemma opened_ok s w m line greeting limit : session_ok s w -> authenticated s = true -> closed s = false ->
  let '(s', w') := match OpenMessage (snapshot s) m w with
                   | (Err _, w) => (say line s, w)
                   | (Ok content, w) => (stream greeting limit content s, w)
                   end in session_ok s' w'.
Proof.
  intros Hs Ha Hc. assert (session_ok s (OpenMessage (snapshot s) m w).2) as Ho.
  { apply (kept_ok s w); [done..|]. intros drop Hd. by apply (ml_open w _ drop m Hd). }
  destruct (OpenMessage (snapshot s) m w) as [[content|e] w']; [by apply stream_ok | by apply pop_say_ok].
Qed.

Lemma handle_retr_ok argument s w : session_ok s w -> closed s = false ->
  let '(s', w') := handle_retr argument s w in session_ok s' w'.
Proof.
  intros Hs Hc. unfold handle_retr. destruct (authenticated s) eqn:Ha; cbn [negb]; [|auto with picomx].
  destruct (numbered_message argument s) as [id|] eqn:En; [|auto with picomx].
  destruct (numbered_message_ok _ _ _ _ Hs Ha En) as [_ Hid]. pose proof (lookup_ok s w id Hs Ha Hc Hid) as Hl.
  destruct (Lookup (snapshot s) id w) as [[m|e] w']; [by apply opened_ok | by apply pop_say_ok].
Qed.

Lemma handle_top_ok argument s w : session_ok s w -> closed s = false ->
  let '(s', w') := handle_top argument s w in session_ok s' w'.
Proof.
  intros Hs Hc. unfold handle_top. destruct (authenticated s) eqn:Ha; cbn [negb]; [|auto with picomx].
  destruct (topArguments argument _) as [[id lines]|] eqn:En; [|auto with picomx].
  destruct (is_deleted id s); [auto with picomx|].
  assert (1 <= id <= Count (snapshot s)) as Hid.
  { unfold topArguments in En. destruct (Fields argument) as [|f [|g [|]]]; try done.
    destruct (messageID f _) as [n|] eqn:E; [|done]. destruct (ParseUint g _ _); [|done]. injection En as -> ->.
    by eapply messageID_range. }
  unfold openMessage, mbind_. pose proof (lookup_ok s w id Hs Ha Hc Hid) as Hl.
  destruct (Lookup (snapshot s) id w) as [[m|e] w']; [by apply opened_ok | by apply pop_say_ok].
Qed.

Lemma handle_dele_ok argument s w : session_ok s w -> closed s = false ->
  let '(s', w') := handle_dele argument s w in session_ok s' w'.
Proof.
  intros Hs Hc. unfold handle_dele. destruct (authenticated s) eqn:Ha; cbn [negb]; [|auto with picomx].
  destruct (numbered_message argument s) as [id|] eqn:En; [|auto with picomx].
  destruct (numbered_message_ok _ _ _ _ Hs Ha En) as [Hfree Hid]. destruct (so_in _ _ Hs Ha) as (drop & Hd & Hm & Hw & _).
  destruct (lookup_shows s w id drop (Hw Hc) Hid) as [Hw' Hl]. pose proof (lookup_ok s w id Hs Ha Hc Hid) as Hs'.
  destruct (Lookup (snapshot s) id w) as [[m|e] w']; cbn [fst snd] in *; [|by apply pop_say_ok].
  apply pop_say_ok. destruct Hs'. split; cbn; try done; [congruence|]. intros _. exists drop. split; [done|]. split.
  - apply (marks_ok_insert (snapshot s)); try done; [lia | by apply Hl].
  - split; [done|]. left. auto.
Qed.

Lemma handle_rset_ok argument s w : session_ok s w -> closed s = false -> session_ok (handle_rset argument s) w.
Proof.
  intros Hs Hc. unfold handle_rset. destruct (authenticated s) eqn:Ha; cbn [negb orb]; [|auto with picomx].
  destruct (negb _); [auto with picomx|]. apply pop_say_ok. destruct Hs. split; cbn; try done.
  intros _. destruct (so_in0 Ha) as (drop & Hd & _ & Hw & _). exists drop. split_and!; auto. apply marks_ok_empty.
Qed.

Lemma handle_noop_ok argument s w : session_ok s w -> session_ok (handle_noop argument s) w.
Proof. intros Hs. unfold handle_noop. destruct (_ || _); auto with picomx. Qed.

(** The one deletion of a session. *)
Lemma deletion_ok ids r line s w w' : session_ok s w -> authenticated s = true -> closed s = false ->
  DeleteAs ids (username s) w = (r, w') ->
  (forall drop, marks_ok drop (deleted s) (deletedOctets s) -> ids ≡ₚ ID <$> marked_from 1 drop (deleted s)) ->
  session_ok (close (say line (emit (Deletion ids (username s) (accepted r)) s))) w'.
Proof.
  intros Hs Ha Hc Hdelete Hids. pose proof (so_no_deletion _ _ Hs (or_introl Hc)) as Hno.
  assert (failures (trace s ++ [Deletion ids (username s) (accepted r)]) = failures (trace s)) as Hf.
  { unfold failures. rewrite filter_app. by rewrite app_nil_r. }
  assert (deletions (trace s ++ [Deletion ids (username s) (accepted r)]) = [(ids, username s, accepted r)]) as Hdel.
  { unfold deletions. rewrite omap_app. change (deletions (trace s) ++ [(ids, username s, accepted r)] = [(ids, username s, accepted r)]).
    by rewrite Hno. }
  destruct Hs. split; cbn; rewrite ?failures_snoc, ?deletions_snoc by done; rewrite ?Hf, ?Hdel; try done.
  - intros _. destruct (so_in0 Ha) as (drop & Hd & Hm & Hw & _). exists drop. split_and!; [done | done | done|].
    right. exists ids, r, w. auto 6.
  - intros [?|?]; congruence.
  - rewrite !Forall_app. split; [split; [done|]|]; by repeat constructor.
Qed.

Lemma handle_quit_ok argument s w : session_ok s w -> closed s = false ->
  let '(s', w') := handle_quit argument s w in session_ok s' w'.
Proof.
  intros Hs Hc. unfold handle_quit. destruct (negb _); [by apply pop_say_ok|].
  destruct (authenticated s) eqn:Ha; cbn [andb]; [|by apply (pop_close_ok _ w), pop_say_ok].
  destruct (0 <? Z.of_nat (size (deleted s))); [|by apply (pop_close_ok _ w), pop_say_ok].
  assert (forall drop, marks_ok drop (deleted s) (deletedOctets s) ->
    (deletion_order (deleted s)).*2 ≡ₚ ID <$> marked_from 1 drop (deleted s)) as Hids.
  { intros drop Hm. rewrite <- (mo_ids _ _ _ Hm). by rewrite deletion_order_perm. }
  destruct (DeleteAs _ _ w) as [[u|e] w'] eqn:E;
    [by apply (deletion_ok _ (Ok u) _ s w w') | by apply (deletion_ok _ (Err e) _ s w w')].
Qed.

Lemma pop_dispatch_ok command argument s w : session_ok s w -> closed s = false -> (length argument <= maxCommandBytes)%nat ->
  let '(s', w') := dispatch server command argument s w in session_ok s' w'.
Proof.
  intros Hs Hc Hl. unfold dispatch, handle_list, handle_uidl.
  repeat (case_decide; [first [by apply handle_listing_ok | by apply handle_retr_ok | by apply handle_top_ok
    | by apply handle_dele_ok | by apply handle_quit_ok
    | auto using handle_capa_ok, handle_user_ok, handle_pass_ok, handle_stat_ok, handle_rset_ok, handle_noop_ok]|]).
  by apply pop_say_ok.
Qed.

Lemma command_log_ok line verb argument : command_log line = (verb, argument) -> log_ok (Logged verb argument).
Proof.
  unfold command_log. destruct (splitCommand line) as [command arg]. intros [= <- <-]. unfold loggedCommand. split.
  - case_decide; auto.
  - destruct (decide (command ∈ verbs)) as [Hv|Hv].
    + intros [->| ->]; [done|]. by vm_compute in Hv.
    + intros _. rewrite (bool_decide_eq_true_2 (("UNKNOWN" : str) = "UNKNOWN")) by done. cbn [negb]. by rewrite andb_false_r.
Qed.

Lemma readCommand_length stream line rest : readCommand stream = (Ok line, rest) -> (length line <= maxCommandBytes)%nat.
Proof.
  unfold readCommand. destruct (read_limited _ _ _ _) as [[l|e] r] eqn:E; [|done]. intros [= <- <-].
  apply read_limited_sound in E as [_ (body & -> & _ & Hl)]. unfold trim_eol.
  pose proof (TrimSuffix_length (TrimSuffix (body ++ [LF]) [LF]) [CR]). pose proof (TrimSuffix_length (body ++ [LF]) [LF]). lia.
Qed.

Lemma splitCommand_length line command argument : splitCommand line = (command, argument) -> (length argument <= length line)%nat.
Proof.
  unfold splitCommand. destruct (Cut line " "%char) as [[b a] []] eqn:E; intros [= <- <-]; [|cbn; lia].
  apply Cut_found in E as [-> _]. rewrite length_app. cbn. lia.
Qed.

Lemma pop_serve_command_ok s w : session_ok s w -> closed s = false ->
  let '(s', w') := serve_command server s w in session_ok s' w'.
Proof.
  intros Hs Hc. unfold serve_command. destruct (negb (deadline_ok _)); [by apply (pop_close_ok _ w), pop_next_round_ok|].
  destruct (readCommand _) as [[line|e] rest] eqn:Er.
  - apply readCommand_length in Er. destruct (splitCommand line) as [command argument] eqn:Es.
    apply splitCommand_length in Es. destruct (command_log line) as [verb logged] eqn:El.
    apply pop_dispatch_ok; [|done|lia]. apply emit_ok; [done | by eapply command_log_ok | by apply advance_input_ok, pop_next_round_ok].
  - apply (pop_close_ok _ w). destruct (errors_Is e _); [apply pop_say_ok|]; by apply advance_input_ok, pop_next_round_ok.
Qed.

Lemma pop_serve_loop_ok fuel s w : session_ok s w ->
  let '(s', w') := serve_loop server others fuel s w in session_ok s' w'.
Proof.
  revert s w. induction fuel as [|fuel IH]; intros s w Hs; cbn [serve_loop]; [done|].
  destruct (closed s) eqn:Hc; [done|].
  assert (session_ok s (others (rounds s) w)) as Ho.
  { apply (world_ok s w); [done | done | apply ml_others_good | intros drop; apply ml_others]. }
  pose proof (pop_serve_command_ok s _ Ho Hc) as H'. destruct (serve_command server s _) as [s' w']. by apply IH.
Qed.

Lemma pop_serveConn_ok fuel stream w : good w -> let '(s', w') := serveConn server others fuel stream w in session_ok s' w'.
Proof.
  intros Hg. unfold serveConn. destruct (reply _ _) as [ok s] eqn:Er.
  assert (session_ok s w) as Hs.
  { apply (f_equal snd) in Er. cbn [snd] in Er. rewrite <- Er. by apply send_ok, pop_new_session_ok. }
  destruct ok; [by apply pop_serve_loop_ok | by apply (pop_close_ok _ w)].
Qed.
End Invariant.
