(* ===== verification/PopStalled.v ===== *)
(** * POP3 sessions over a store that has stalled

    A store that fails for good in the middle of a session answers what it can
    and deletes nothing more.  What the invariant of [PopSpec] says of a session
    then becomes: no deletion of it was reported as done. *)

From S2P Require Import Prelude GoStrings IdPath Tree Wire PopSyntax PopSession PopSpec.

(** What a stalled store promises a session: reading leaves it stalled, as long as
    the snapshot is one that it gave out, and it refuses to delete. *)
Class StalledLaws (W : Type) `{Maildrop W} (broken : W -> Prop) (fits : Snapshot -> Prop) : Prop := {
  tl_taken w : broken w -> fits (TakeSnapshot w);
  tl_lookup w snap number : broken w -> fits snap -> broken (Lookup snap number w).2;
  tl_list w snap visit : broken w -> fits snap -> broken (ListAt snap visit w).2;
  tl_open w snap m : broken w -> fits snap -> broken (OpenMessage snap m w).2;
  tl_delete w ids name : broken w -> exists e w', DeleteAs ids name w = (Err e, w') /\ broken w';
}.

Section Stalled.
Context {W : Type}.
Context `{Conn, UnicodeTables, Sha256, MD : !Maildrop W, PopEnv}.
Context (server : Server) (broken : W -> Prop) (fits : Snapshot -> Prop).
Context `{TL : !StalledLaws W broken fits}.

(** A session of a store that stalled: none of its deletions succeeded. *)
Record adrift (s : session) (w : W) : Prop := {
  ad_broken : broken w;
  ad_fits : authenticated s = true -> fits (snapshot s);
  ad_deletions : Forall (fun d => d.2 = false) (deletions (trace s));
}.

(** Nothing of it changed that matters here. *)
Record plain (s s' : session) : Prop := {
  pn_authenticated : authenticated s' = authenticated s;
  pn_snapshot : snapshot s' = snapshot s;
  pn_deletions : deletions (trace s') = deletions (trace s);
}.

Lemma adrift_plain s s' w w' : adrift s w -> plain s s' -> broken w' -> adrift s' w'.
Proof. intros [Hb Hf Hd] [Q1 Q2 Q3] Hw. split; rewrite ?Q1, ?Q2, ?Q3; done. Qed.

Lemma plain_refl s : plain s s.
Proof. by split. Qed.

Lemma plain_emit e s s' : (forall ids name ok, e <> Deletion ids name ok) -> plain s s' -> plain s (emit e s').
Proof.
  intros He [Q1 Q2 Q3]. split; cbn; [done | done|]. rewrite <- Q3. unfold deletions. rewrite omap_app.
  destruct e; try (by rewrite app_nil_r). exfalso. by eapply He.
Qed.

Lemma plain_send bytes s s' : plain s s' -> plain s (send bytes s').2.
Proof. intros Hp. destruct (plain_emit (Sent bytes) s s') as [Q1 Q2 Q3]; [done | done|]. by split. Qed.

Lemma plain_say line s s' : plain s s' -> plain s (say line s').
Proof. apply plain_send. Qed.

Lemma plain_close s s' : plain s s' -> plain s (close s').
Proof. by intros []. Qed.

Lemma plain_stream greeting limit content s s' : plain s s' -> plain s (stream greeting limit content s').
Proof.
  intros Hp. unfold stream. destruct (streamMessage _ _ _ _) as [bytes fine]. pose proof (plain_send bytes s s' Hp) as Hs.
  destruct (send bytes s') as [ok s1]. cbn [snd] in Hs. by destruct (ok && fine); [|apply plain_close].
Qed.

Hint Resolve plain_refl plain_send plain_say plain_close plain_stream : picomx.

Lemma adrift_same s s' w : adrift s w -> plain s s' -> adrift s' w.
Proof. intros Ha Hp. by apply (adrift_plain s s' w w); [..|apply Ha]. Qed.

Lemma handle_pass_adrift argument s w : adrift s w -> adrift (handle_pass server argument s w) w.
Proof.
  intros Ha. unfold handle_pass. destruct (_ || _ || _); [by eapply adrift_same, plain_say, plain_refl|].
  destruct (negb _).
  - assert (plain s (say "-ERR authentication failed" (set_username [] (authFailures s + 1)
      (emit AuthenticationFailed (set_username (username s) (authFailures s + 1) s))))) as Hp.
    { apply plain_say. destruct (plain_emit AuthenticationFailed s (set_username (username s) (authFailures s + 1) s)) as [Q1 Q2 Q3];
        [done | by split | by split]. }
    cbv zeta. destruct (_ <=? _); eapply adrift_same; try done. by apply plain_close.
  - destruct Ha as [Hb Hf Hd].
    assert (adrift (emit (Authenticated (username s)) (log_in (TakeSnapshot w) s)) w) as Q1.
    { split; cbn; [done | intros _; by apply tl_taken|]. unfold deletions. rewrite omap_app. cbn. rewrite app_nil_r. exact Hd. }
    eapply adrift_same; [exact Q1 | by apply plain_say, plain_refl].
Qed.

Lemma handle_listing_adrift one row argument s w : adrift s w -> let '(s', w') := handle_listing one row argument s w in adrift s' w'.
Proof.
  intros Ha. unfold handle_listing. destruct (authenticated s) eqn:Hau; cbn [negb]; [|eapply adrift_same; [eassumption|auto with picomx]].
  pose proof (ad_fits _ _ Ha Hau) as Hf. pose proof (ad_broken _ _ Ha) as Hb. destruct (negb _).
  - destruct (numbered_message argument s) as [id|]; [|eapply adrift_same; [eassumption|auto with picomx]].
    pose proof (tl_lookup w (snapshot s) id Hb Hf) as Hl.
    destruct (Lookup (snapshot s) id w) as [[m|e] w']; (eapply adrift_plain; [exact Ha | auto with picomx | done]).
  - unfold writeListing. set (visit := fun number _ _ => _). pose proof (tl_list w (snapshot s) visit Hb Hf) as Hl.
    destruct (ListAt (snapshot s) visit w) as [[calls [e|]] w']; cbn [snd] in Hl.
    + eapply adrift_plain; [exact Ha | apply plain_close | done].
      destruct (plain_emit (Sent ("+OK listing follows" ++ CRLF ++ mjoin (row_text row s <$> calls))) s s) as [Q1 Q2 Q3];
        [done | apply plain_refl | by split].
    + pose proof (plain_send ("+OK listing follows" ++ CRLF ++ mjoin (row_text row s <$> calls) ++ "." ++ CRLF) s s (plain_refl s)) as Hp.
      destruct (send _ s) as [ok s1]. cbn [snd] in Hp. eapply adrift_plain; [exact Ha | | done].
      destruct ok; auto with picomx.
Qed.

(** Opening a message and streaming it, or not. *)
Lemma opened_adrift s w m line greeting limit : adrift s w -> authenticated s = true ->
  let '(s', w') := match OpenMessage (snapshot s) m w with
                   | (Err _, w) => (say line s, w)
                   | (Ok content, w) => (stream greeting limit content s, w)
                   end in adrift s' w'.
Proof.
  intros Ha Hau. pose proof (tl_open w (snapshot s) m (ad_broken _ _ Ha) (ad_fits _ _ Ha Hau)) as Ho.
  destruct (OpenMessage (snapshot s) m w) as [[content|e] w']; (eapply adrift_plain; [exact Ha | auto with picomx | done]).
Qed.

Lemma looked_up_adrift s w id : adrift s w -> authenticated s = true -> adrift s (Lookup (snapshot s) id w).2.
Proof.
  intros Ha Hau. apply (adrift_plain s s w); [done | apply plain_refl|].
  apply tl_lookup; [apply Ha | by apply (ad_fits _ _ Ha)].
Qed.

Lemma handle_retr_adrift argument s w : adrift s w -> let '(s', w') := handle_retr argument s w in adrift s' w'.
Proof.
  intros Ha. unfold handle_retr. destruct (authenticated s) eqn:Hau; cbn [negb]; [|eapply adrift_same; [eassumption|auto with picomx]].
  destruct (numbered_message argument s) as [id|]; [|eapply adrift_same; [eassumption|auto with picomx]].
  pose proof (looked_up_adrift s w id Ha Hau) as Hl.
  destruct (Lookup (snapshot s) id w) as [[m|e] w']; [by apply opened_adrift | eapply adrift_same; [eassumption|auto with picomx]].
Qed.

Lemma handle_top_adrift argument s w : adrift s w -> let '(s', w') := handle_top argument s w in adrift s' w'.
Proof.
  intros Ha. unfold handle_top. destruct (authenticated s) eqn:Hau; cbn [negb]; [|eapply adrift_same; [eassumption|auto with picomx]].
  destruct (topArguments argument _) as [[id lines]|]; [|eapply adrift_same; [eassumption|auto with picomx]].
  destruct (is_deleted id s); [eapply adrift_same; [eassumption|auto with picomx]|]. unfold openMessage, mbind_.
  pose proof (looked_up_adrift s w id Ha Hau) as Hl.
  destruct (Lookup (snapshot s) id w) as [[m|e] w']; [by apply opened_adrift | eapply adrift_same; [eassumption|auto with picomx]].
Qed.

Lemma handle_dele_adrift argument s w : adrift s w -> let '(s', w') := handle_dele argument s w in adrift s' w'.
Proof.
  intros Ha. unfold handle_dele. destruct (authenticated s) eqn:Hau; cbn [negb]; [|eapply adrift_same; [eassumption|auto with picomx]].
  destruct (numbered_message argument s) as [id|]; [|eapply adrift_same; [eassumption|auto with picomx]].
  pose proof (looked_up_adrift s w id Ha Hau) as Hl.
  destruct (Lookup (snapshot s) id w) as [[m|e] w']; (eapply adrift_same; [eassumption|auto with picomx]).
  apply plain_say. by split.
Qed.

(** The store refuses: the deletion is not reported as done. *)
Lemma handle_quit_adrift argument s w : adrift s w -> let '(s', w') := handle_quit argument s w in adrift s' w'.
Proof.
  intros Ha. unfold handle_quit. destruct (negb _); [eapply adrift_same; [eassumption|auto with picomx]|].
  destruct (_ && _); [|eapply adrift_same; [eassumption|auto with picomx]].
  destruct (tl_delete w (deletion_order (deleted s)).*2 (username s) (ad_broken _ _ Ha)) as (e & w' & -> & Hb).
  destruct Ha as [_ Hf Hd]. apply (adrift_plain (emit (Deletion (deletion_order (deleted s)).*2 (username s) false) s) _ w');
    [|auto with picomx | done].
  split; cbn; [done | done|]. unfold deletions. rewrite omap_app, Forall_app. split; [exact Hd | by repeat constructor].
Qed.

Lemma dispatch_adrift command argument s w : adrift s w -> let '(s', w') := dispatch server command argument s w in adrift s' w'.
Proof.
  intros Ha. unfold dispatch, handle_list, handle_uidl.
  assert (plain s (handle_capa argument s)) as Q1 by (unfold handle_capa, replyMulti; destruct (negb _); auto with picomx).
  assert (plain s (handle_user argument s)) as Q2
    by (unfold handle_user; destruct (_ || _); [auto with picomx | apply plain_say; by split]).
  assert (plain s (handle_stat argument s)) as Q3 by (unfold handle_stat; destruct (_ || _); auto with picomx).
  assert (plain s (handle_rset argument s)) as Q4
    by (unfold handle_rset; destruct (_ || _); [auto with picomx | apply plain_say; by split]).
  assert (plain s (handle_noop argument s)) as Q5 by (unfold handle_noop; destruct (_ || _); auto with picomx).
  repeat (case_decide; [first [by apply handle_listing_adrift | by apply handle_retr_adrift | by apply handle_top_adrift
    | by apply handle_dele_adrift | by apply handle_quit_adrift | by apply handle_pass_adrift
    | by eapply adrift_same; [eassumption|auto with picomx]]|]).
  eapply adrift_same; [exact Ha | apply plain_say, plain_refl].
Qed.

Lemma serve_command_adrift s w : adrift s w -> let '(s', w') := serve_command server s w in adrift s' w'.
Proof.
  intros Ha. assert (plain s (next_round s)) as Hn by (by split). unfold serve_command.
  destruct (negb _); [eapply adrift_same; [eassumption|auto with picomx]|]. destruct (readCommand _) as [[line|e] rest].
  - destruct (splitCommand line) as [command argument], (command_log line) as [verb logged]. apply dispatch_adrift.
    eapply adrift_same; [exact Ha|]. apply plain_emit; [done | by split].
  - eapply adrift_same; [exact Ha|]. apply plain_close. destruct (errors_Is e _); [apply plain_say|]; by split.
Qed.

(** ** Whole sessions *)

(** The store is good until another connection makes it stall. *)
Context (others : nat -> W -> W) (good : W -> Prop) (shows : W -> Snapshot -> list Message -> Prop).
Context `{ML : !MaildropLaws W (fun _ w => w) good shows}.
Context (others_good : forall k w, good w ->
  (good (others k w) /\ forall snap drop, shows w snap drop -> shows (others k w) snap drop) \/ broken (others k w)).
Context (others_broken : forall k w, broken w -> broken (others k w)).
Context (shows_fits : forall w snap drop, shows w snap drop -> fits snap).

Lemma serve_loop_or_adrift fuel s w : session_ok server good shows s w \/ adrift s w ->
  let '(s', w') := serve_loop server others fuel s w in session_ok server good shows s' w' \/ adrift s' w'.
Proof using TL ML others_good others_broken shows_fits.
  revert s w. induction fuel as [|fuel IH]; intros s w Hs; cbn [serve_loop]; [done|].
  destruct (closed s) eqn:Hc; [done|].
  assert (session_ok server good shows s (others (rounds s) w) \/ adrift s (others (rounds s) w)) as [Ho|Ho].
  { destruct Hs as [Hs|Ha]; [|right; apply (adrift_plain s s w); [done | apply plain_refl | apply others_broken, Ha]].
    pose proof (so_no_deletion _ _ _ _ _ Hs (or_introl Hc)) as Hno.
    destruct (others_good (rounds s) w (so_good _ _ _ _ _ Hs Hno)) as [[Hg Hsh]|Hb].
    - left. apply (world_ok server good shows s w); [done | done | done | intros drop; apply Hsh].
    - right. split; [done | | by rewrite Hno]. intros Hau.
      destruct (so_in _ _ _ _ _ Hs Hau) as (drop & _ & _ & Hd & _). eapply shows_fits, Hd, Hc. }
  - pose proof (pop_serve_command_ok server (fun _ w => w) good shows s _ Ho Hc) as H'.
    destruct (serve_command server s _) as [s' w']. apply IH. by left.
  - pose proof (serve_command_adrift s _ Ho) as H'. destruct (serve_command server s _) as [s' w']. apply IH. by right.
Qed.

Lemma serveConn_or_adrift fuel input w : good w -> let '(s', w') := serveConn server others fuel input w in
  session_ok server good shows s' w' \/ adrift s' w'.
Proof using TL ML others_good others_broken shows_fits.
  intros Hg. unfold serveConn. destruct (reply _ _) as [ok s] eqn:Er.
  assert (session_ok server good shows s w) as Hs.
  { apply (f_equal snd) in Er. cbn [snd] in Er. rewrite <- Er. by apply send_ok, pop_new_session_ok. }
  destruct ok; [apply serve_loop_or_adrift; by left | left; by apply (pop_close_ok server good shows _ w)].
Qed.
End Stalled.
