(* ===== verification/PopTheorems.v ===== *)
(** * What the POP3 server guarantees

    The theorems over whole sessions, for every client, network and maildrop that
    keeps its promises, and a small concrete environment. *)

From S2P Require Import Prelude GoStrings IdPath Tree Wire PopSyntax PopSession PopSpec.
From S2P Require Mailbox MailboxSpec.

(** ** Listings *)

(** The rows of a listing: one line per message that is not marked. *)
Definition listing_rows (row : Z -> Z -> Z -> str) (left : list (Z * Message)) : str :=
  mjoin ((fun '(number, m) => row number (ID m) (Size m) ++ CRLF) <$> left).

Definition listing_text (row : Z -> Z -> Z -> str) (left : list (Z * Message)) : str :=
  "+OK listing follows" ++ CRLF ++ listing_rows row left ++ "." ++ CRLF.

Lemma visit_all visit l : (forall n i z, visit n i z = None) -> MailboxSpec.visit_spec visit l = (l, None).
Proof. intros Hv. induction l as [|[[n i] z] l IH]; cbn; [done|]. by rewrite Hv, IH. Qed.

Lemma unmarked_number k drop marks n m :
  (n, m) ∈ unmarked_from k drop marks <-> k <= n /\ drop !! Z.to_nat (n - k) = Some m /\ marks !! n = None.
Proof.
  revert k. induction drop as [|x drop IH]; intros k; cbn [unmarked_from]; [set_solver|].
  assert ((n, m) ∈ unmarked_from (k + 1) drop marks <-> k < n /\ (x :: drop) !! Z.to_nat (n - k) = Some m /\ marks !! n = None)
    as Hrest.
  { rewrite IH. split; intros (Hn & Hm & Hf); (split; [lia|]); (split; [|done]);
      replace (Z.to_nat (n - k)) with (S (Z.to_nat (n - (k + 1)))) in * by lia; done. }
  destruct (marks !! k) eqn:Ek.
  - rewrite Hrest. split; intros (Hn & Hm & Hf); (split; [|done]); [lia|].
    assert (n <> k) by (intros ->; congruence). lia.
  - rewrite elem_of_cons, Hrest. split.
    + intros [[= -> ->]|(Hn & Hm & Hf)]; [rewrite Z.sub_diag; done | split; [lia | done]].
    + intros (Hn & Hm & Hf). destruct (decide (n = k)) as [->|]; [|right; split; [lia | done]].
      left. rewrite Z.sub_diag in Hm. injection Hm as ->. done.
Qed.

Section Listings.
Context {W : Type}.
Context `{Conn, UnicodeTables, Sha256, MD : !Maildrop W, PopEnv}.
Context (server : Server) (others : nat -> W -> W) (good : W -> Prop) (shows : W -> Snapshot -> list Message -> Prop).
Context `{ML : !MaildropLaws W others good shows}.

Lemma rows_unmarked row s marks k l : (forall n id, marks !! n = Some id -> id <> 0) -> deleted s = marks ->
  mjoin (row_text row s <$> MailboxSpec.enumerate (k - 1) l) = listing_rows row (unmarked_from k l marks).
Proof.
  intros Hz <-. unfold listing_rows. revert k. induction l as [|m l IH]; intros k; cbn [MailboxSpec.enumerate unmarked_from]; [done|].
  replace (k - 1 + 1) with ((k + 1) - 1) by lia. specialize (IH (k + 1)).
  replace (k + 1 - 1) with k in * by lia. cbn [fmap list_fmap]. unfold row_text at 1, is_deleted.
  destruct (deleted s !! k) as [id|] eqn:Ek.
  - apply Hz, Z.eqb_neq in Ek. change (default 0 (Some id)) with id. rewrite Ek. exact IH.
  - exact (f_equal (app (row k (ID m) (Size m) ++ CRLF)) IH).
Qed.

(** A listing of an open session: every unmarked message, once, in order. *)
Lemma listing_sent one row s w drop : authenticated s = true -> shows w (snapshot s) drop ->
  (forall n id, deleted s !! n = Some id -> id <> 0) -> (forall number, row_ok (writes s) number = true) ->
  trace (handle_listing one row [] s w).1 = trace s ++ [Sent (listing_text row (unmarked_from 1 drop (deleted s)))].
Proof.
  intros Ha Hd Hz Hrow. unfold handle_listing. rewrite Ha. cbn [negb]. unfold writeListing.
  set (visit := fun number _ _ => _). destruct (ml_list w _ drop visit Hd) as [_ Hcalls].
  rewrite visit_all in Hcalls by (intros n i z; unfold visit; rewrite Hrow; by destruct (is_deleted n s)).
  destruct (ListAt (snapshot s) visit w) as [[calls err] w']. cbn [fst] in Hcalls. injection Hcalls as -> ->.
  change (MailboxSpec.enumerate 0 drop) with (MailboxSpec.enumerate (1 - 1) drop).
  rewrite (rows_unmarked row s (deleted s)) by done. unfold send. by destruct (write_ok (writes s)).
Qed.
End Listings.

(** ** Sessions without a password *)

Section Strangers.
Context {W : Type}.
Context `{Conn, UnicodeTables, Sha256, MD : !Maildrop W, PopEnv}.
Context (server : Server) (others : nat -> W -> W).

(** What no command but PASS changes, and no command at all. *)
Definition kept (s s' : session) : Prop := authenticated s' = authenticated s /\ input s' = input s.

(** A handler that keeps an authenticated session authenticated, and for any
    other session either authenticates it or depends on no store. *)
Definition guarded (f : session -> W -> session * W) : Prop :=
  forall s w, (authenticated s = true -> authenticated (f s w).1 = true) /\
    (authenticated s = false -> authenticated (f s w).1 = false ->
       (f s w).2 = w /\ forall w', (f s w').1 = (f s w).1 /\ (f s w').2 = w').

Lemma guarded_pure (f : session -> session) : (forall s, authenticated (f s) = authenticated s) ->
  guarded (fun s w => (f s, w)).
Proof. intros Hf s w. cbn. rewrite Hf. auto. Qed.

(** Commands of the transaction state. *)
Lemma guarded_private (line : str) (f : session -> W -> session * W) :
  (forall s w, authenticated (f s w).1 = authenticated s) ->
  (forall s w, authenticated s = false -> f s w = (say line s, w)) -> guarded f.
Proof. intros Hm Hf s w. rewrite Hm. split; [done|]. intros Ha _. split; [|intros w']; by rewrite !Hf. Qed.

Lemma handle_listing_kept one row argument s w :
  kept s (handle_listing one row argument s w).1.
Proof.
  unfold handle_listing. destruct (negb (authenticated s)); [done|]. destruct (negb _).
  - destruct (numbered_message _ _); [|done]. by destruct (Lookup _ _ _) as [[] ?].
  - unfold writeListing. destruct (ListAt _ _ _) as [[calls []] w']; [done|]. unfold send.
    by destruct (write_ok _).
Qed.

Lemma stream_kept greeting limit content s : kept s (stream greeting limit content s).
Proof. unfold stream, send. destruct (streamMessage _ _ _ _). by destruct (_ && _). Qed.

Lemma handle_retr_kept argument s w : kept s (handle_retr argument s w).1.
Proof.
  unfold handle_retr. destruct (negb (authenticated s)); [done|]. destruct (numbered_message _ _); [|done].
  destruct (Lookup _ _ _) as [[] ?]; [|done]. destruct (OpenMessage _ _ _) as [[] ?]; [|done]. apply stream_kept.
Qed.

Lemma handle_top_kept argument s w : kept s (handle_top argument s w).1.
Proof.
  unfold handle_top. destruct (negb (authenticated s)); [done|]. destruct (topArguments _ _) as [[id lines]|]; [|done].
  destruct (is_deleted id s); [done|]. destruct (openMessage _ _ _) as [[] ?]; [|done]. apply stream_kept.
Qed.

Lemma handle_dele_kept argument s w : kept s (handle_dele argument s w).1.
Proof.
  unfold handle_dele. destruct (negb (authenticated s)); [done|]. destruct (numbered_message _ _); [|done].
  by destruct (Lookup _ _ _) as [[] ?].
Qed.

Lemma handle_quit_kept argument s w : kept s (handle_quit argument s w).1.
Proof.
  unfold handle_quit. destruct (negb _); [done|]. destruct (_ && _); [|done]. by destruct (DeleteAs _ _ _) as [[] ?].
Qed.

Lemma guarded_pass argument : guarded (fun s w => (handle_pass server argument s w, w)).
Proof.
  intros s w. unfold handle_pass. cbn [fst snd]. destruct (authenticated s) eqn:Ha; cbn [orb]; [by split|].
  split; [done|]. intros _. destruct (_ || _); [by split|]. destruct (negb _); [by split|]. intros Hf. done.
Qed.

Lemma guarded_quit argument : guarded (handle_quit argument).
Proof.
  intros s w. rewrite (proj1 (handle_quit_kept argument s w)). split; [done|]. intros Ha _. unfold handle_quit. rewrite Ha. cbn [andb].
  by destruct (negb _).
Qed.

Lemma guarded_if (P : Prop) `{Decision P} f g : guarded f -> guarded g ->
  guarded (fun s w => if decide P then f s w else g s w).
Proof. intros Hf Hg s w. case_decide; [apply Hf | apply Hg]. Qed.

Lemma dispatch_guarded command argument : guarded (dispatch server command argument).
Proof.
  unfold dispatch, handle_list, handle_uidl.
  repeat (apply guarded_if;
    [first [ apply guarded_pass | apply guarded_quit
      | apply (guarded_private "-ERR authenticate first");
        [ intros; eapply proj1; first [apply handle_listing_kept | apply handle_retr_kept
                        | apply handle_top_kept | apply handle_dele_kept]
        | intros s' w' Ha; unfold handle_listing, handle_retr, handle_top, handle_dele; by rewrite Ha ]
      | apply guarded_pure; intros s';
        unfold handle_capa, handle_user, handle_stat, handle_rset, handle_noop, replyMulti; by repeat case_match ]|]).
  by apply guarded_pure.
Qed.

Lemma serve_command_guarded : guarded (serve_command server).
Proof.
  intros s w. unfold serve_command. destruct (negb (deadline_ok _)); [by split|].
  destruct (readCommand _) as [[line|e] rest].
  - destruct (splitCommand line) as [command argument]. destruct (command_log line) as [verb logged].
    apply (dispatch_guarded command argument (emit (Logged verb logged) (advance_input rest (next_round s)))).
  - by destruct (errors_Is e _).
Qed.

(** Other connections' actions at some turns. *)
Definition meanwhile (turns : list nat) (w : W) : W := foldl (fun w turn => others turn w) w turns.

Lemma serve_loop_authenticated fuel s w : authenticated s = true -> authenticated (serve_loop server others fuel s w).1 = true.
Proof.
  revert s w. induction fuel as [|fuel IH]; intros s w Ha; cbn [serve_loop]; [done|]. destruct (closed s); [done|].
  pose proof (proj1 (serve_command_guarded s (others (rounds s) w)) Ha) as Ha'.
  destruct (serve_command server s _). by apply IH.
Qed.

Lemma serve_loop_blind fuel s w : authenticated s = false -> authenticated (serve_loop server others fuel s w).1 = false ->
  (exists turns, (serve_loop server others fuel s w).2 = meanwhile turns w) /\
  forall w', (serve_loop server others fuel s w').1 = (serve_loop server others fuel s w).1.
Proof.
  revert s w. induction fuel as [|fuel IH]; intros s w Ha; cbn [serve_loop]; [intros _; split; [by exists []|done]|].
  destruct (closed s); [intros _; split; [by exists []|done]|].
  destruct (serve_command_guarded s (others (rounds s) w)) as [_ Hg]. specialize (Hg Ha).
  destruct (serve_command server s (others (rounds s) w)) as [s1 w1] eqn:E1. cbn [fst snd] in Hg. intros Hf.
  destruct (authenticated s1) eqn:Ha1; [by rewrite serve_loop_authenticated in Hf|].
  destruct (Hg eq_refl) as [-> Hw]. destruct (IH s1 (others (rounds s) w) Ha1 Hf) as [[turns Ht] Hs]. split.
  - exists (rounds s :: turns). by rewrite Ht.
  - intros w'. destruct (Hw (others (rounds s) w')) as [H1' H2'].
    destruct (serve_command server s (others (rounds s) w')) as [s2 w2]. cbn [fst snd] in H1', H2'. subst s2 w2. apply Hs.
Qed.

(** Every turn closes the session or consumes input. *)
Lemma dispatch_input command argument s w : input (dispatch server command argument s w).1 = input s.
Proof.
  unfold dispatch. repeat (case_decide;
    [first [ apply handle_listing_kept | apply handle_retr_kept | apply handle_top_kept | apply handle_dele_kept
           | apply handle_quit_kept
           | unfold handle_capa, handle_user, handle_pass, handle_stat, handle_rset, handle_noop, replyMulti;
             by repeat case_match ]|]).
  done.
Qed.

Lemma pop_serve_command_advances s w : let s' := (serve_command server s w).1 in
  closed s' = true \/ (length (input s') < length (input s))%nat.
Proof.
  unfold serve_command. destruct (negb (deadline_ok _)); [by left|]. unfold readCommand. cbn [input next_round].
  destruct (read_limited _ _ _ _) as [[line|e] rest] eqn:E; [|by left; destruct (errors_Is _ _)].
  apply read_limited_sound in E as [-> (body & -> & _)]. destruct (splitCommand _) as [command argument].
  destruct (command_log _). right. rewrite dispatch_input. cbn. rewrite !length_app. cbn. lia.
Qed.

Lemma serve_loop_closes fuel s w : (length (input s) < fuel)%nat -> closed (serve_loop server others fuel s w).1 = true.
Proof.
  revert s w. induction fuel as [|fuel IH]; intros s w Hf; [lia|]. cbn [serve_loop]. destruct (closed s) eqn:Hc; [done|].
  pose proof (pop_serve_command_advances s (others (rounds s) w)) as Hadv.
  destruct (serve_command server s _) as [s' w']. cbn [fst] in Hadv. destruct Hadv as [Hc'|Hl]; [|apply IH; lia].
  destruct fuel; cbn [serve_loop]; [done|]. by rewrite Hc'.
Qed.

Lemma pop_serve_loop_more fuel more s w : closed (serve_loop server others fuel s w).1 = true ->
  serve_loop server others (fuel + more) s w = serve_loop server others fuel s w.
Proof.
  revert s w. induction fuel as [|fuel IH]; intros s w; cbn [serve_loop Nat.add].
  - intros Hc. cbn [fst] in Hc. destruct more; cbn [serve_loop]; [done|]. by rewrite Hc.
  - destruct (closed s); [done|]. destruct (serve_command server s _). apply IH.
Qed.
End Strangers.

(** ** The connection limit *)

Lemma Serve_step_bound limit active e : 0 <= limit -> Z.of_nat (length active) <= limit ->
  Z.of_nat (length (Serve_step limit active e)) <= limit.
Proof.
  intros Hl Ha. destruct e as [conn|conn]; cbn [Serve_step].
  - destruct (Z.ltb_spec (Z.of_nat (length active)) limit); [cbn [length]; lia | done].
  - pose proof (length_filter (fun c => c <> conn) active). lia.
Qed.

Lemma Serve_bound limit active events : 0 <= limit -> Z.of_nat (length active) <= limit ->
  Z.of_nat (length (foldl (Serve_step limit) active events)) <= limit.
Proof.
  intros Hl. revert active. induction events as [|e events IH]; intros active Ha; cbn [foldl]; [done|].
  by apply IH, Serve_step_bound.
Qed.

Lemma pop_NewServer_ok options server : NewServer options = Ok server ->
  0 < maxAuthFailures server /\ 0 < connections server.
Proof.
  unfold NewServer. destruct (bool_decide _); [done|]. destruct (negb _); [done|]. destruct (_ <? minimumIdleTimeout); [done|].
  intros [= <-]. cbn. split; destruct (Z.leb_spec (op_MaxAuthFailures options) 0); destruct (Z.leb_spec (op_MaxConnections options) 0); lia.
Qed.

(** ** A concrete environment *)

Module Demo.
(** ASCII case mapping, a client that stays connected, no TLS framing, a
    stand-in for SHA-256 of the right size. *)
#[local] Instance tables : UnicodeTables := {| table_upper r := r; table_lower r := r; table_fold _ _ := false |}.
#[local] Instance conn : Conn := {| end_error := Sentinel IoEOF; write_ok _ := true |}.

#[local] Instance sha : Sha256.
Proof.
  refine {| Sum256 s := take 32 (s ++ replicate 32 NUL) |}.
  intros s. rewrite length_take, length_app, length_replicate. lia.
Defined.

#[local] Instance env : PopEnv.
Proof.
  by refine {| deadline_ok _ := true; handshake raw := Ok raw; row_ok _ _ := true; deletion_order := map_to_list |}.
Defined.

(** Messages with their contents, in memory. *)
Definition box : Type := list (Message * str).

Definition snapshot_of (w : box) : Snapshot :=
  {| Mailbox.sn_LastID := 0; Mailbox.sn_TotalOctets := total_size w.*1; Mailbox.sn_MessageCount := Z.of_nat (length w);
     Mailbox.sn_index := None; Mailbox.sn_commit := [] |}.

#[local] Instance drop : Maildrop box := {|
  TakeSnapshot := snapshot_of;
  ListAt _ visit w := (MailboxSpec.visit_spec visit (MailboxSpec.enumerate 0 w.*1), w);
  Lookup _ number w :=
    (match w.*1 !! Z.to_nat (number - 1) with Some m => Ok m | None => Err (New "no such message") end, w);
  OpenMessage _ m w :=
    (match list_find (fun x => x.1 = m) w with Some (_, (_, content)) => Ok (content, Sentinel IoEOF) | None => Err (New "gone") end, w);
  DeleteAs ids _ w := (Ok tt, filter (fun x => ID x.1 ∉ ids) w);
|}.

Definition alone (turn : nat) (w : box) : box := w.

Definition good (w : box) : Prop := drop_ok (snapshot_of w) w.*1.

Definition shows (w : box) (snap : Snapshot) (messages : list Message) : Prop :=
  good w /\ messages = w.*1 /\ drop_ok snap messages.

#[local] Instance laws : MaildropLaws box alone good shows.
Proof.
  split; try done.
  - intros w Hw. by exists w.*1.
  - by intros w snap l (? & _).
  - by intros w snap l (_ & _ & ?).
  - intros w snap l number (Hg & -> & Hd) Hn. split; [done|]. cbn. intros m. by destruct (w.*1 !! _); [intros [= ->]|].
  - intros w snap l visit (Hg & -> & Hd). split; [done|]. cbn. by destruct (MailboxSpec.visit_spec _ _).
Defined.

Definition store : box :=
  [({| ID := 3; Size := 4; Path := "1/003" |}, "ab" ++ CRLF : str);
   ({| ID := 7; Size := 6; Path := "1/007" |}, ".wxy" ++ CRLF : str)].

Lemma store_good : good store.
Proof. split; try (vm_compute; discriminate); try reflexivity. by repeat constructor. Qed.

Definition digest : str := EncodeToString (Sum256 "secret").

Definition options : Options := {|
  op_Hostname := " mail.example.net "; op_Mailbox := true; op_Credentials :=
    {| configured := true; usernameHash := Sum256 "alice"; passwordHash := Sum256 "secret" |};
  op_IdleTimeout := 0; op_MaxAuthFailures := 2; op_MaxConnections := 2 |}.

Definition server : Server := {|
  hostname := "mail.example.net"; credentials := op_Credentials options; idleTimeout := minimumIdleTimeout;
  maxAuthFailures := 2; connections := 2 |}.

Lemma pop_server_made : NewServer options = Ok server.
Proof. vm_compute. reflexivity. Qed.

Definition line (s : string) : str := (s : str) ++ CRLF.

Definition login : str := line "USER alice" ++ line "PASS secret".
Definition client : str := login ++ line "DELE 2" ++ line "QUIT".
Definition guesser : str := line "USER alice" ++ line "PASS guess" ++ line "USER alice" ++ line "PASS 1234" ++ line "STAT".
End Demo.

(** ** Properties *)

Section Properties.
Context {W : Type}.
Context `{Conn, UnicodeTables, Sha256, MD : !Maildrop W, PopEnv}.
Context (others : nat -> W -> W) (good : W -> Prop) (shows : W -> Snapshot -> list Message -> Prop).
Context `{ML : !MaildropLaws W others good shows}.
Implicit Types (options : Options) (server : Server) (stream : str) (w : W).

(** C16: Only what the client marked is deleted.  However long a session runs and
    whatever other connections do, it calls [DeleteAs] at most once, as its last
    action, for a user whose password was right, and with exactly the identifiers
    of the messages marked in the maildrop its snapshot shows; the store is then
    left as that call left it.  Without such a call, or before authentication,
    nothing is deleted. *)
Theorem only_marked_messages_are_deleted server fuel stream w s w' :
  good w -> serveConn server others fuel stream w = (s, w') ->
  deletions (trace s) = [] \/
  exists drop ids r before,
    deletions (trace s) = [(ids, username s, accepted r)] /\
    closed s = true /\ authenticated s = true /\
    (exists password, authenticate (credentials server) (username s) password = true) /\
    shows before (snapshot s) drop /\ DeleteAs ids (username s) before = (r, w') /\
    ids ≡ₚ ID <$> marked_from 1 drop (deleted s).
Proof.
  intros Hg E. pose proof (pop_serveConn_ok server others good shows fuel stream w Hg) as Hs. rewrite E in Hs.
  destruct (closed s) eqn:Hc; [|left; apply (so_no_deletion _ _ _ _ _ Hs); auto].
  destruct (authenticated s) eqn:Ha; [|left; apply (so_no_deletion _ _ _ _ _ Hs); auto].
  destruct (so_in _ _ _ _ _ Hs Ha) as (drop & _ & _ & _ & [Hd|(ids & r & before & Hd & Hi & Hb & Hr)]); [by left|].
  right. exists drop, ids, r, before. pose proof (so_user _ _ _ _ _ Hs Ha). auto 10.
Qed.

(** C17: STAT, LIST and UIDL agree.  In every state an authenticated open session
    reaches there is one maildrop its snapshot shows; STAT reports the number of
    its unmarked messages and their total size, with no wrap-around, and LIST and
    UIDL send one row per such message, with the same numbers and sizes. *)
Theorem listings_agree server fuel stream w s w' :
  good w -> serveConn server others fuel stream w = (s, w') -> authenticated s = true -> closed s = false ->
  exists drop, shows w' (snapshot s) drop /\
    let left := unmarked_from 1 drop (deleted s) in
    handle_stat [] s = say ("+OK " ++ FormatUint (Z.of_nat (length left)) 10 ++ " " ++ FormatUint (total_size left.*2) 10) s /\
    ((forall number, row_ok (writes s) number = true) ->
       trace (handle_list [] s w').1 = trace s ++
         [Sent (listing_text (fun number _ size => FormatUint number 10 ++ " " ++ FormatUint size 10) left)] /\
       trace (handle_uidl [] s w').1 = trace s ++
         [Sent (listing_text (fun number id _ => FormatUint number 10 ++ " " ++ uniqueID id) left)]) /\
    (forall number m, (number, m) ∈ left <->
       1 <= number /\ drop !! Z.to_nat (number - 1) = Some m /\ deleted s !! number = None).
Proof.
  intros Hg E Ha Hc. pose proof (pop_serveConn_ok server others good shows fuel stream w Hg) as Hs. rewrite E in Hs.
  destruct (so_in _ _ _ _ _ Hs Ha) as (drop & Hd & Hm & Hw & _). specialize (Hw Hc). exists drop. split; [done|].
  cbn zeta. split; [|split].
  - unfold handle_stat. rewrite Ha. cbn [negb orb]. rewrite bool_decide_eq_true_2 by done. cbn [negb].
    by rewrite (left_count _ _ _ _ Hd Hm), (left_octets _ _ _ _ Hd Hm).
  - intros Hrow. unfold handle_list, handle_uidl.
    by split; apply (listing_sent others good shows); try done; apply (mo_nonzero _ _ _ Hm).
  - intros number m. apply unmarked_number.
Qed.

(** C18: Without a password nothing is learned and nothing is changed.  If a
    session ends unauthenticated, the store is what other connections made of it
    and everything the client saw, and everything logged, would have been the
    same over any other store. *)
Theorem strangers_learn_nothing server fuel stream w :
  authenticated (serveConn server others fuel stream w).1 = false ->
  (exists turns, (serveConn server others fuel stream w).2 = meanwhile others turns w) /\
  forall w', (serveConn server others fuel stream w').1 = (serveConn server others fuel stream w).1.
Proof.
  unfold serveConn. destruct (reply _ _) as [[] s] eqn:E; [|by split; [exists []|]].
  apply serve_loop_blind. unfold reply, send in E. by injection E as _ <-.
Qed.

(** C38: Guessing is bounded.  A session of a server that [NewServer] made has at
    most [maxAuthFailures] failed passwords, counted where they are reported,
    and stays open only below the limit. *)
Theorem guessing_is_bounded options server fuel stream w :
  good w -> NewServer options = Ok server ->
  let s := (serveConn server others fuel stream w).1 in
  Z.of_nat (length (failures (trace s))) <= maxAuthFailures server /\
  (closed s = false -> Z.of_nat (length (failures (trace s))) < maxAuthFailures server).
Proof.
  intros Hg Hn%pop_NewServer_ok. pose proof (pop_serveConn_ok server others good shows fuel stream w Hg) as Hs.
  destruct (serveConn server others fuel stream w) as [s w']. cbn [fst]. rewrite <- (so_failures _ _ _ _ _ Hs).
  split; [pose proof (so_limit _ _ _ _ _ Hs) | intros Hc; pose proof (so_below _ _ _ _ _ Hs Hc)]; lia.
Qed.

(** C39: Passwords are not logged.  A log line names one of the server's verbs or
    UNKNOWN, and carries no argument for PASS nor for anything unknown. *)
Theorem secrets_are_not_logged server fuel stream w i verb argument :
  good w -> trace (serveConn server others fuel stream w).1 !! i = Some (Logged verb argument) ->
  (verb ∈ verbs \/ verb = "UNKNOWN") /\ (verb = "PASS" \/ verb = "UNKNOWN" -> argument = None).
Proof.
  intros Hg Hi. pose proof (pop_serveConn_ok server others good shows fuel stream w Hg) as Hs.
  destruct (serveConn server others fuel stream w) as [s w']. pose proof (so_log _ _ _ _ _ Hs) as Hl.
  rewrite Forall_lookup in Hl. exact (Hl _ _ Hi).
Qed.

(** Every connection ends.  A session on a client's finite input is closed
    after at most one command per byte and one more, and stays as it then is. *)
Theorem pop_session_ends server stream w more :
  let fuel := S (length stream) in
  closed (serveConn server others fuel stream w).1 = true /\
  serveConn server others (fuel + more) stream w = serveConn server others fuel stream w.
Proof.
  unfold serveConn, reply, send. destruct (write_ok _); [|by split].
  assert (closed (serve_loop server others (S (length stream)) (count_write
    (emit (Sent (("+OK " ++ hostname server ++ " picomx ready") ++ CRLF)) (new_session stream))) w).1 = true) as Hc.
  { apply serve_loop_closes. cbn. lia. }
  split; [exact Hc | by apply pop_serve_loop_more].
Qed.
End Properties.

(** The server serves at most [connections] clients at once, whatever the
    order in which they come and go. *)
Theorem connections_are_bounded options server events :
  NewServer options = Ok server -> Z.of_nat (length (Serve (connections server) events)) <= connections server.
Proof. intros [_ Hc]%pop_NewServer_ok. apply Serve_bound; cbn; lia. Qed.

(** ** Witnesses *)

Section Witnesses.
Import Demo.
Existing Instances tables conn sha env drop laws.

(** The demonstration session deletes the second message. *)
Lemma only_marked_messages_are_deleted_witness :
  let '(s, w) := serveConn server alone 9 client store in
  deletions (trace s) = [([7], "alice" : str, true)] /\ w = take 1 store /\
  exists messages, [7] ≡ₚ ID <$> marked_from 1 messages (deleted s).
Proof.
  destruct (serveConn server alone 9 client store) as [s w] eqn:E.
  assert (deletions (trace s) = [([7], "alice" : str, true)]) as Hd.
  { apply (f_equal (fun r => deletions (trace r.1))) in E. cbn [fst] in E. rewrite <- E. vm_compute. reflexivity. }
  assert (w = take 1 store) as Hw.
  { apply (f_equal snd) in E. cbn [snd] in E. rewrite <- E. vm_compute. reflexivity. }
  split; [exact Hd|]. split; [exact Hw|].
  destruct (only_marked_messages_are_deleted alone good shows server 9 client store s w store_good E)
    as [Hno|(messages & ids & r & before & Hids & _ & _ & _ & _ & _ & Hp)].
  - rewrite Hno in Hd. discriminate Hd.
  - exists messages. rewrite Hids in Hd. injection Hd as Hi _ _. rewrite <- Hi. exact Hp.
Defined.

Lemma listings_agree_witness :
  let '(s, w) := serveConn server alone 3 client store in
  exists messages, shows w (snapshot s) messages /\
    handle_stat [] s = say ("+OK " ++ FormatUint 1 10 ++ " " ++ FormatUint 4 10) s.
Proof.
  destruct (serveConn server alone 3 client store) as [s w] eqn:E.
  assert (authenticated s = true /\ closed s = false /\ deleted s = {[2 := 7]}) as (Ha & Hc & Hm).
  { apply (f_equal (fun r => (authenticated r.1, closed r.1, deleted r.1))) in E. cbn [fst] in E.
    assert ((authenticated s, closed s, deleted s) = (true, false, {[2 := 7]})) as E' by (rewrite <- E; vm_compute; reflexivity).
    injection E' as -> -> ->. auto. }
  destruct (listings_agree alone good shows server 3 client store s w store_good E Ha Hc) as (messages & Hs & Hstat & _).
  exists messages. split; [exact Hs|]. destruct Hs as (_ & Hmessages & _).
  assert (w = store) as Hw.
  { apply (f_equal snd) in E. cbn [snd] in E. rewrite <- E. vm_compute. reflexivity. }
  rewrite Hstat, Hm, Hmessages, Hw. f_equal.
Defined.

Lemma strangers_learn_nothing_witness :
  authenticated (serveConn server alone 9 guesser store).1 = false /\
  (serveConn server alone 9 guesser []).1 = (serveConn server alone 9 guesser store).1.
Proof.
  assert (authenticated (serveConn server alone 9 guesser store).1 = false) as Ha by (vm_compute; reflexivity).
  split; [exact Ha|]. exact (proj2 (strangers_learn_nothing alone server 9 guesser store Ha) []).
Defined.

Lemma guessing_is_bounded_witness :
  length (failures (trace (serveConn server alone 9 guesser store).1)) = 2%nat /\
  closed (serveConn server alone 9 guesser store).1 = true.
Proof.
  assert (length (failures (trace (serveConn server alone 9 guesser store).1)) = 2%nat) as Hf by (vm_compute; reflexivity).
  split; [exact Hf|]. destruct (guessing_is_bounded alone good shows options server 9 guesser store store_good pop_server_made) as [_ Hb].
  destruct (closed (serveConn server alone 9 guesser store).1) eqn:Hc; [reflexivity|].
  specialize (Hb eq_refl). rewrite Hf in Hb. cbn in Hb. lia.
Defined.

Lemma secrets_are_not_logged_witness :
  trace (serveConn server alone 9 guesser store).1 !! 3%nat = Some (Logged "PASS" None).
Proof.
  destruct (trace (serveConn server alone 9 guesser store).1 !! 3%nat) as [e|] eqn:E; [|vm_compute in E; discriminate E].
  assert (exists argument, e = Logged "PASS" argument) as [argument ->].
  { vm_compute in E. injection E as <-. eexists. vm_compute. reflexivity. }
  destruct (secrets_are_not_logged alone good shows server 9 guesser store 3 "PASS" argument store_good E) as [_ Hn].
  rewrite (Hn (or_introl eq_refl)). reflexivity.
Defined.

Lemma connections_are_bounded_witness :
  Z.of_nat (length (Serve (connections server) [Accepted 1; Accepted 2; Accepted 3; Finished 1; Accepted 4])) <= 2.
Proof. exact (connections_are_bounded options server _ pop_server_made). Defined.
End Witnesses.
