(* ===== verification/Archive.v ===== *)
(** * The archive as both servers use it (internal/archive/store.go, mailbox.go)

    The store, the staged messages its callers hold and their temporary files, as
    one state; the store's methods implement what the SMTP server and the POP3
    server require of it ([SmtpSession.Delivery], [PopSession.Maildrop]). *)

From S2P Require Import Prelude GoStrings IdPath Directories Cache Tree CatFile Listing Contents State Quota Import Mailbox.
From S2P Require SmtpSession PopSession.

(** ** The surroundings *)

(** The clock's day at each call, the file system's failures, the names
    [os.CreateTemp] makes up, what other connections do to the store while
    [DeleteAs] resolves IDs, and a bound on how often they do. *)
Class Surroundings `{Git, MapOrder} := {
  clock : nat -> nat -> str;
  tmp_mkdir : nat -> option error;
  tmp_name : nat -> result str;
  tmp_write : nat -> str -> option error;
  tmp_sync : nat -> option error;
  tmp_close : nat -> option error;
  tmp_read : nat -> option error;
  receipt_write : nat -> dailyReceipt -> option error;
  rival : nat -> nat -> Store -> Store;
  attempts : nat;
}.

Section Archive.
Context `{GitI : Git, MO : MapOrder, GR : !GitReader, GT : GraphicTable, SU : !Surroundings}.

(** ** Data *)

(** The store, the heap of [StagedMessage] objects, the files under [tmp], and
    how many calls were made. *)
Record archive := {
  ar_store : Store;
  ar_heap : list StagedMessage;
  ar_files : gmap str str;
  ar_calls : nat;
}.

(** A [*StagedMessage] and its size, which never changes. *)
Record staged_ref := { sr_index : nat; sr_size : Z }.

Definition set_budget (b : budget) (s : Store) : Store := {| mb := mb s; gs := gs s; bud := b; rd := rd s |}.

Definition set_store (s : Store) (w : archive) : archive :=
  {| ar_store := s; ar_heap := ar_heap w; ar_files := ar_files w; ar_calls := S (ar_calls w) |}.

(** The temporary file of the [n]-th call. *)
Definition temp_file (n : nat) : TempFile :=
  {| mkdir_error := tmp_mkdir n; create_temp := tmp_name n; write_temp := tmp_write n; sync_error := tmp_sync n;
     close_error := tmp_close n |}.

(** [os.ReadFile] of a staged message and [writeReceipt]. *)
Definition store_files (n : nat) (files : gmap str str) : StoreFiles :=
  {| read_staged path :=
       match files !! path with
       | Some content => match tmp_read n with Some e => Err e | None => Ok content end
       | None => Err (Sentinel OsErrNotExist)
       end;
     write_receipt := receipt_write n |}.

(** ** Receiving *)

Definition archive_CheckReceive (w : archive) : option error :=
  CheckReceive (failure (gs (ar_store w))) (clock (ar_calls w) 0) (bud (ar_store w)).

(** What a copy of the reads writes before the first error. *)
Fixpoint copied (reads : list (str * option error)) : str :=
  match reads with
  | [] => []
  | (bytes, Some _) :: _ => bytes
  | (bytes, None) :: rest => bytes ++ copied rest
  end.

(** [Store.Stage]: on success the caller holds a new staged message. *)
Definition archive_Stage (reads : list (str * option error)) : M archive staged_ref := fun w =>
  let n := ar_calls w in
  let s := ar_store w in
  let dated := imap (fun k r => (r.1, r.2, clock n (S (S k)))) reads in
  match @Stage (temp_file n) (failure (gs s)) (clock n 1) dated (bud s) with
  | (Err e, b) => (Err e, set_store (set_budget b s) w)
  | (Ok m, b) =>
      (Ok {| sr_index := length (ar_heap w); sr_size := sm_size m |},
       {| ar_store := set_budget b s; ar_heap := ar_heap w ++ [m]; ar_files := <[sm_path m := copied reads]> (ar_files w);
          ar_calls := S n |})
  end.

(** [Store.Publish] of a staged message; it drops the message's file when it
    releases the reservation. *)
Definition archive_Publish (r : staged_ref) : M archive (Z * str) := fun w =>
  let n := ar_calls w in
  match ar_heap w !! sr_index r with
  | None => (Err (New "staged message does not belong to this store"), w)
  | Some m =>
      let '(res, m', s) := @Publish _ MO (store_files n (ar_files w)) (clock n 0) (clock n 1) (Some m) (ar_store w) in
      let m' := default m m' in
      (res, {| ar_store := s; ar_heap := <[sr_index r := m']> (ar_heap w);
               ar_files := if sm_done m' && negb (sm_done m) then delete (sm_path m) (ar_files w) else ar_files w;
               ar_calls := S n |})
  end.

(** [StagedMessage.Discard]. *)
Definition archive_Discard (r : staged_ref) (w : archive) : archive :=
  match ar_heap w !! sr_index r with
  | None => w
  | Some m =>
      let '(m', b) := discardLocked m (bud (ar_store w)) in
      {| ar_store := set_budget b (ar_store w); ar_heap := <[sr_index r := m']> (ar_heap w);
         ar_files := delete (sm_path m) (ar_files w); ar_calls := ar_calls w |}
  end.

(** [StagedMessage.Open], read to its end. *)
Definition archive_Open (r : staged_ref) (w : archive) : str :=
  match ar_heap w !! sr_index r with
  | None => []
  | Some m => default [] (ar_files w !! sm_path m)
  end.

(** [Store.Deliver]: the three of them in turn. *)
Definition archive_Deliver (reads : list (str * option error)) : M archive str := fun w =>
  match archive_Stage reads w with
  | (Err e, w) => (Err e, w)
  | (Ok r, w) =>
      let '(res, w) := archive_Publish r w in
      (match res with Ok (_, path) => Ok path | Err e => Err e end, archive_Discard r w)
  end.

#[export] Instance archive_delivery : SmtpSession.Delivery archive staged_ref := {|
  SmtpSession.CheckReceive := archive_CheckReceive;
  SmtpSession.Stage := archive_Stage;
  SmtpSession.Publish := archive_Publish;
  SmtpSession.Discard := archive_Discard;
  SmtpSession.Size := sr_size;
  SmtpSession.Open := archive_Open;
|}.

(** ** Reading *)

(** A call that only uses the reader. *)
Definition reading_call {A} (f : M readerStore A) : M archive A := fun w =>
  let '(r, read) := f (rd (ar_store w)) in (r, set_store (set_rd read (ar_store w)) w).

(** What a [bufio.Reader] gets from the blob, with its final error. *)
Fixpoint read_content `{CatFile} (fuel : nat) (reader : blobReader) (st : readState) : str * error * blobReader * readState :=
  match fuel with
  | O => ([], Panicked "out of fuel", reader, st)
  | S fuel =>
      match blobReader_Read 4096 (S (chunk fuel)) reader st with
      | (got, Some e, reader, st) => (got, e, reader, st)
      | (got, None, reader, st) =>
          let '(more, e, reader, st) := read_content fuel reader st in (got ++ more, e, reader, st)
      end
  end.

(** [OpenMessage], the whole content, and [Close]. *)
Definition open_and_read `{CatFile} (snapshot : Snapshot) (message : Message) : M readerStore (str * error) := fun st =>
  match OpenMessage snapshot message st with
  | (Err e, st) => (Err e, st)
  | (Ok reader, st) =>
      let fuel := S (S (Z.to_nat (br_remaining reader))) in
      let '(content, e, reader, read) := read_content fuel reader (rs_read st) in
      let '(_, _, read) := blobReader_Close reader read in
      (Ok (content, e), {| rs_read := read; rs_cache := rs_cache st |})
  end.

Definition repo_cat (w : archive) : CatFile := cat (repository (gs (ar_store w))).

Definition archive_ListAt (snapshot : Snapshot) (visit : Z -> Z -> Z -> option error) (w : archive)
    : list (Z * Z * Z) * option error * archive :=
  let '(calls, e, read) := @ListAt (repo_cat w) snapshot visit (rd (ar_store w)) in
  (calls, e, set_store (set_rd read (ar_store w)) w).

(** [DeleteAs]. *)
Definition archive_DeleteAs (ids : list Z) (username : str) : M archive unit := fun w =>
  let '(r, s) := @DeleteAs _ MO GR GT attempts (rival (ar_calls w)) ids username (ar_store w) in (r, set_store s w).

#[export] Instance archive_maildrop : PopSession.Maildrop archive := {|
  PopSession.TakeSnapshot w := snapshotLocked (ar_store w);
  PopSession.ListAt := archive_ListAt;
  PopSession.Lookup snapshot number w := reading_call (@Lookup (repo_cat w) snapshot number) w;
  PopSession.OpenMessage snapshot message w := reading_call (@open_and_read (repo_cat w) snapshot message) w;
  PopSession.DeleteAs := archive_DeleteAs;
|}.
End Archive.
