(* ===== verification/ArchiveSpec.v ===== *)
(** * The archive keeps its promises to the servers

    The invariant of the composed state, and that receiving, publishing and
    discarding keep it: in general up to a store that stalls, and without that
    when Git always answers in time. *)

From S2P Require Import Prelude GoStrings IdPath Directories Numbering Cache Tree CatFile Listing Contents State Quota Import.
From S2P Require Import Mailbox MailboxSpec Reading Startup Restart Holding Archive.
From S2P Require SmtpSession SmtpSpec PopSession PopSpec.

(** ** The budget of one message *)

Lemma usage_nonneg day b : bud_ok b -> 0 <= (receiptUsageLocked day b).2.
Proof.
  intros (_ & _ & Hr). unfold receiptUsageLocked. destruct (receipt b); [|done]. by destruct (negb _).
Qed.

Lemma canReserve_bound day b extra : bud_ok b -> 0 <= extra -> canReserveLocked day b extra = true ->
  reservedBytes b + extra <= maxDailyBytes b.
Proof.
  intros Hb He Hc. pose proof (usage_nonneg day b Hb). destruct Hb as (Hm & Hr & _).
  apply (canReserve_spec (maxDailyBytes b)) in Hc; [lia | unfold MaxUint64; lia | done | done | done].
Qed.

(** A message being staged: its reservation is part of what is reserved. *)
Record staging (base : Z) (r : quotaReader) (m : StagedMessage) (b : budget) : Prop := {
  st_base : 0 <= base;
  st_consumed : 0 <= qr_consumed r;
  st_reserved : sm_reserved m = cost (qr_consumed r);
  st_sum : reservedBytes b = base + sm_reserved m;
  st_max : base + sm_reserved m <= maxDailyBytes b;
  st_open : sm_done m = false;
  st_bud : bud_ok b;
}.

Lemma stage_reserve_ok failure day b m b' : bud_ok b -> stage_reserve failure day b = Ok (m, b') ->
  staging (reservedBytes b) {| qr_consumed := 0 |} m b'.
Proof.
  intros Hb. unfold stage_reserve. destruct failure; [done|]. destruct (canReserveLocked _ _ _) eqn:Hc; [|done].
  cbn [negb]. intros [= <- <-]. apply (canReserve_bound day b) in Hc; [|done|unfold minimumReceiptCharge; lia].
  destruct Hb as (Hm & Hr & Hu). unfold minimumReceiptCharge in *.
  split; cbn; rewrite ?u64_small by (unfold is_u64, MaxUint64; lia); try done; try lia.
  split_and!; cbn; rewrite ?u64_small by (unfold is_u64, MaxUint64; lia); try done; lia.
Qed.

Lemma quotaReader_Read_ok base day n err r m b : staging base r m b -> 0 <= n < 2 ^ 62 ->
  let '(n', err', r', m', b') := quotaReader_Read day n err r m b in
  staging base r' m' b' /\ sm_path m' = sm_path m /\
  ((n' = n /\ err' = err /\ qr_consumed r' = qr_consumed r + n) \/ err' = Some (Sentinel ErrDailyLimit)).
Proof.
  intros Hs Hn. pose proof Hs as [H1 H2 H3 H4 H5 H6 H7]. unfold quotaReader_Read. pose proof H7 as (Hm & Hr & Hu).
  destruct (Z.eqb_spec n 0) as [->|Hn0]; [split_and!; [done | done | left; split_and!; lia || done]|].
  unfold cost, minimumReceiptCharge in H3.
  assert (is_u64 (qr_consumed r + n)) as Hu64 by (unfold is_u64, MaxUint64 in *; lia).
  rewrite !(u64_small _ Hu64).
  assert ((if qr_consumed r + n <? minimumReceiptCharge then minimumReceiptCharge else qr_consumed r + n)
    = cost (qr_consumed r + n)) as ->
    by (unfold cost; destruct (Z.ltb_spec (qr_consumed r + n) minimumReceiptCharge); lia).
  assert (is_u64 (cost (qr_consumed r + n) - sm_reserved m)) as Hu64'
    by (unfold is_u64, cost, minimumReceiptCharge, MaxUint64 in *; lia).
  rewrite !(u64_small _ Hu64').
  destruct (canReserveLocked _ _ _) eqn:Hc; cbn [negb]; [|split_and!; auto].
  apply (canReserve_bound day b) in Hc; [|done|apply Hu64'].
  assert (is_u64 (reservedBytes b + (cost (qr_consumed r + n) - sm_reserved m))) as Hu2
    by (unfold is_u64, MaxUint64 in *; lia).
  rewrite (u64_small _ Hu2). split_and!; [|done|left; auto].
  destruct Hu2. by split; cbn; try done; lia.
Qed.

Section Copying.
Context `{TempFile}.

Lemma stage_copy_ok base (dated : list (str * option error * str)) : forall written r m b,
  staging base r m b -> Forall (fun d => octets d.1.1 < 2 ^ 62) dated -> written = qr_consumed r ->
  let '(res, m', b') := stage_copy dated written r m b in
  exists r', staging base r' m' b' /\ sm_path m' = sm_path m /\
  match res with
  | Ok total => total = qr_consumed r' /\ total = written + octets (copied dated.*1) /\
      exists before bytes e rest, dated.*1 = before ++ (bytes, Some e) :: rest /\ errors_Is e IoEOF = true
  | Err _ => True
  end.
Proof.
  induction dated as [|[[data err] day] dated IH]; intros written r m b Hs HF ->; cbn [stage_copy]; [by exists r|].
  apply Forall_cons in HF as [Hd HF]. cbn [fst] in Hd. unfold octets in Hd.
  pose proof (quotaReader_Read_ok base day (Z.of_nat (length data)) err r m b Hs ltac:(lia)) as Hq.
  destruct (quotaReader_Read _ _ _ _ _ _) as [[[[n err'] r1] m1] b1]. destruct Hq as (Hs1 & Hp & Hq).
  destruct (if 0 <? n then _ else _) as [e|]; [by exists r1|].
  destruct Hq as [(-> & -> & Hc) | ->].
  2: { exists r1. by cbn. }
  change (((data, err, day) :: dated).*1) with ((data, err) :: dated.*1). cbn [copied]. destruct err as [e|].
  - destruct (errors_Is e IoEOF) eqn:Ee; [|by exists r1]. exists r1. unfold octets. split_and!; try done; try lia.
    by exists [], data, e, dated.*1.
  - specialize (IH (qr_consumed r + Z.of_nat (length data)) r1 m1 b1 Hs1 HF ltac:(lia)).
    destruct (stage_copy _ _ _ _ _) as [[res m2] b2]. destruct IH as (r2 & Hs2 & Hp2 & Hres).
    exists r2. split_and!; [done | congruence |]. destruct res as [total|]; [|done].
    destruct Hres as (H1 & H2 & before & bytes & e & rest & Hb & He). split_and!; [done | |].
    + unfold octets in *. rewrite length_app. lia.
    + exists ((data, None) :: before), bytes, e, rest. by rewrite Hb.
Qed.
(** A copy that succeeds saw the end of its source. *)
Lemma stage_copy_ends (dated : list (str * option error * str)) : forall written r m b total m' b',
  stage_copy dated written r m b = (Ok total, m', b') ->
  exists before bytes e rest, dated.*1 = before ++ (bytes, Some e) :: rest /\ errors_Is e IoEOF = true.
Proof.
  induction dated as [|[[data err] day] dated IH]; intros written r m b total m' b'; cbn [stage_copy]; [done|].
  assert (let '(_, err', _, _, _) := quotaReader_Read day (Z.of_nat (length data)) err r m b in
    err' = err \/ err' = Some (Sentinel ErrDailyLimit)) as Herr.
  { unfold quotaReader_Read. destruct (_ =? 0); [by left|]. destruct (negb _); [by right | by left]. }
  destruct (quotaReader_Read _ _ _ _ _ _) as [[[[n err'] r1] m1] b1].
  destruct (if 0 <? n then _ else _) as [e|]; [done|].
  change (((data, err, day) :: dated).*1) with ((data, err) :: dated.*1). destruct err' as [e|].
  - destruct (errors_Is e IoEOF) eqn:Ee; [|done]. intros _. destruct Herr as [<-|Herr]; [|by injection Herr as ->].
    by exists [], data, e, dated.*1.
  - intros H1%IH. destruct H1 as (before & bytes & e & rest & -> & He). destruct Herr as [<-|Herr]; [|done].
    by exists ((data, None) :: before), bytes, e, rest.
Qed.
End Copying.

(** ** The invariant *)

Section ArchiveOk.
Context `{GitI : Git, MO : MapOrder, GR : !GitReader, GT : GraphicTable, SU : !Surroundings}.
Context {objects_of : repo -> str -> option gitObject} {files_of : repo -> str -> option (gmap str str)}.

Abbreviation store_good := (store_ok (objects_of := objects_of) (files_of := files_of)).

(** Documented behaviour: [os.CreateTemp]'s names are new. *)
Class SurroundingsLaws : Prop := {
  tmp_name_some n p : tmp_name n = Ok p -> p <> [];
  tmp_name_new n n' p : tmp_name n = Ok p -> tmp_name n' = Ok p -> n = n';
}.

(** A staged message that is not done has its content in its file. *)
Definition staged_as (w : archive) (m : StagedMessage) (content : str) : Prop :=
  ar_files w !! sm_path m = Some content /\ octets content = sm_size m /\ octets content < 2 ^ 63.

Record archive_ok (w : archive) (live : mailbox) : Prop := {
  ao_store : store_good (ar_store w) live;
  ao_bud : bud_ok (bud (ar_store w));
  ao_paths i m : ar_heap w !! i = Some m -> exists n, (n < ar_calls w)%nat /\ tmp_name n = Ok (sm_path m);
  ao_distinct i j m m' : ar_heap w !! i = Some m -> ar_heap w !! j = Some m' -> sm_path m = sm_path m' -> i = j;
  ao_staged i m : ar_heap w !! i = Some m -> sm_done m = false -> exists content, staged_as w m content;
}.

Context `{GL : !GitLaws objects_of files_of, SL : !SurroundingsLaws}.

Lemma store_ok_set_budget s live b : store_good s live -> store_good (set_budget b s) live.
Proof using Type. intros []. by split. Qed.

(** Any call that keeps the heap and its files. *)
Lemma set_store_ok w live live' s : archive_ok w live -> store_good s live' -> bud_ok (bud s) -> archive_ok (set_store s w) live'.
Proof using Type.
  intros [_ _ H3 H4 H5] Hs Hb. split; cbn; try done. intros i m Hi. destruct (H3 i m Hi) as (n & ? & ?). exists n. split; [lia | done].
Qed.

(** A new staged message. *)
Lemma stage_heap_ok w live m b content : archive_ok w live -> bud_ok b -> tmp_name (ar_calls w) = Ok (sm_path m) ->
  octets content = sm_size m -> octets content < 2 ^ 63 ->
  archive_ok {| ar_store := set_budget b (ar_store w); ar_heap := ar_heap w ++ [m];
                ar_files := <[sm_path m := content]> (ar_files w); ar_calls := S (ar_calls w) |} live.
Proof using SL.
  intros [H1 H2 H3 H4 H5] Hb Hp Hs Hlen.
  assert (forall i m', ar_heap w !! i = Some m' -> sm_path m' <> sm_path m) as Hnew.
  { intros i m' Hi E. destruct (H3 i m' Hi) as (n & Hn & Hp'). rewrite E in Hp'.
    pose proof (tmp_name_new _ _ _ Hp' Hp). lia. }
  split; cbn; [by apply store_ok_set_budget | done | | |].
  - intros i m' [Hi|[_ Hi]]%lookup_app_Some.
    + destruct (H3 i m' Hi) as (n & ? & ?). exists n. split; [lia | done].
    + apply list_lookup_singleton_Some in Hi as [_ <-]. exists (ar_calls w). split; [lia | done].
  - intros i j m1 m2 [Hi|[Hli Hi]]%lookup_app_Some [Hj|[Hlj Hj]]%lookup_app_Some E.
    + by eapply H4.
    + apply list_lookup_singleton_Some in Hj as [_ <-]. by apply Hnew in Hi.
    + apply list_lookup_singleton_Some in Hi as [_ <-]. symmetry in E. by apply Hnew in Hj.
    + apply list_lookup_singleton_Some in Hi as [Hi _], Hj as [Hj _]. lia.
  - intros i m' [Hi|[_ Hi]]%lookup_app_Some Hd.
    + destruct (H5 i m' Hi Hd) as (c & Hc & ? & ?). exists c. split_and!; [|done|done]. cbn.
      rewrite lookup_insert_ne by (intros E; by apply (Hnew i m' Hi)). done.
    + apply list_lookup_singleton_Some in Hi as [_ <-]. exists content. split_and!; [|done|done]. cbn. by rewrite lookup_insert_eq.
Qed.

(** A staged message that changed, and perhaps lost its file. *)
Lemma update_heap_ok w live live' i m m' s (drop_file : bool) : archive_ok w live -> ar_heap w !! i = Some m ->
  store_good s live' -> bud_ok (bud s) -> sm_path m' = sm_path m -> sm_size m' = sm_size m ->
  (sm_done m = true -> sm_done m' = true) -> (drop_file = true -> sm_done m' = true) -> forall n, (ar_calls w <= n)%nat ->
  archive_ok {| ar_store := s; ar_heap := <[i := m']> (ar_heap w);
                ar_files := if drop_file then delete (sm_path m) (ar_files w) else ar_files w; ar_calls := n |} live'.
Proof using Type.
  intros [H1 H2 H3 H4 H5] Hm Hs Hb Hp Hz Hd Hf n Hn.
  assert (forall j x, <[i := m']> (ar_heap w) !! j = Some x ->
    exists y, ar_heap w !! j = Some y /\ sm_path x = sm_path y /\ sm_size x = sm_size y /\
      (sm_done x = false -> sm_done y = false) /\ (j = i -> x = m')) as Hold.
  { intros j x [(<- & <- & _)|[Hne Hj]]%list_lookup_insert_Some; [exists m | exists x].
    - split_and!; try done. destruct (sm_done m); [by rewrite Hd|done].
    - split_and!; done. }
  split; cbn; [done | done | | |].
  - intros j x (y & Hy & -> & _)%Hold. destruct (H3 j y Hy) as (k & ? & ?). exists k. split; [lia | done].
  - intros j k x x' (y & Hy & -> & _)%Hold (y' & Hy' & -> & _)%Hold E. by eapply H4.
  - intros j x (y & Hy & Hpx & Hzx & Hdx & Hji)%Hold Hx. destruct (H5 j y Hy (Hdx Hx)) as (c & Hc & ? & ?).
    exists c. unfold staged_as. cbn. rewrite Hpx, Hzx. split_and!; [|done|done].
    destruct drop_file; [|done]. rewrite lookup_delete_ne; [done|]. intros E.
    specialize (H4 i j m y Hm Hy E) as <-. rewrite (Hji eq_refl), (Hf eq_refl) in Hx. done.
Qed.

(** ** Receiving *)

Lemma discard_bud m b : bud_ok b -> bud_ok (discardLocked m b).2.
Proof using Type.
  intros (H1 & H2 & H3). unfold discardLocked. destruct (sm_done m); [done|]. split_and!; cbn; try done; try lia.
  apply u64_range.
Qed.

Lemma imap_dated (f : nat -> str) reads : (imap (fun k (r : str * option error) => (r.1, r.2, f k)) reads).*1 = reads.
Proof using Type.
  revert f. induction reads as [|[b e] reads IH]; intros f; [done|]. rewrite imap_cons, fmap_cons. f_equal. apply IH.
Qed.

Lemma ends_once_copied before bytes e rest : SmtpSpec.ends_once (before ++ (bytes, Some e) :: rest) ->
  rest = [] /\ copied (before ++ [(bytes, Some e)]) = mjoin (before ++ [(bytes, Some e)]).*1.
Proof using Type.
  intros Hends. assert (rest = []) as ->.
  { specialize (Hends (length before) bytes e). rewrite lookup_app_r, Nat.sub_diag, length_app in Hends by lia.
    specialize (Hends eq_refl). destruct rest; [done|]. cbn in Hends. lia. }
  split; [done|]. assert (forall i b e', before !! i = Some (b, Some e') -> False) as Hnone.
  { intros i b e' Hi. pose proof (lookup_lt_Some _ _ _ Hi). specialize (Hends i b e').
    rewrite lookup_app_l, length_app in Hends by done. specialize (Hends Hi). cbn in Hends. lia. }
  clear Hends. induction before as [|[b [e'|]] before IH].
  - cbn. by rewrite app_nil_r.
  - exfalso. by apply (Hnone 0%nat b e').
  - change (b ++ copied (before ++ [(bytes, Some e)]) = b ++ mjoin (before ++ [(bytes, Some e)]).*1). f_equal.
    apply IH. intros i b' e'. apply (Hnone (S i)).
Qed.

Definition small_reads (reads : list (str * option error)) : Prop := Forall (fun r => octets r.1 < 2 ^ 62) reads.

Lemma archive_Stage_ok reads w live : archive_ok w live -> small_reads reads ->
  match archive_Stage reads w with
  | (Ok r, w') => archive_ok w' live /\ archive_Open r w' = copied reads /\
      (exists m, ar_heap w' !! sr_index r = Some m /\ sm_done m = false) /\
      exists before bytes e rest, reads = before ++ (bytes, Some e) :: rest /\ errors_Is e IoEOF = true
  | (Err _, w') => archive_ok w' live
  end.
Proof using SL.
  intros Hok Hsmall. unfold archive_Stage, Stage.
  destruct (stage_reserve _ _ _) as [[m b]|e] eqn:Er.
  2: { apply set_store_ok with live; [done | apply store_ok_set_budget, Hok | apply Hok]. }
  apply stage_reserve_ok in Er; [|apply Hok].
  assert (forall m' b' r', staging (reservedBytes (bud (ar_store w))) r' m' b' ->
    archive_ok (set_store (set_budget (discardLocked m' b').2 (ar_store w)) w) live) as Hfail.
  { intros m' b' r' Hs. apply set_store_ok with live; [done | apply store_ok_set_budget, Hok |].
    apply discard_bud, Hs. }
  cbn [mkdir_error create_temp sync_error close_error temp_file].
  destruct (tmp_mkdir _) as [e|]; [by eapply (Hfail m b)|].
  destruct (tmp_name _) as [path|e] eqn:Et; [|by eapply (Hfail m b)].
  set (m1 := {| sm_path := path; sm_size := sm_size m; sm_reserved := sm_reserved m; sm_done := sm_done m |}).
  assert (staging (reservedBytes (bud (ar_store w))) {| qr_consumed := 0 |} m1 b) as Hs1 by (destruct Er; by split).
  set (dated := imap _ reads).
  assert (Forall (fun d => octets d.1.1 < 2 ^ 62) dated) as HF.
  { apply Forall_forall. intros d Hd. apply list_elem_of_lookup in Hd as [i Hi]. unfold dated in Hi.
    rewrite list_lookup_imap in Hi. destruct (reads !! i) as [x|] eqn:Ex; [|done]. injection Hi as <-. cbn.
    unfold small_reads in Hsmall. rewrite Forall_lookup in Hsmall. by apply (Hsmall i). }
  pose proof (stage_copy_ok (reservedBytes (bud (ar_store w))) (H := temp_file (ar_calls w)) dated 0 _ m1 b Hs1 HF eq_refl) as Hc.
  destruct (stage_copy dated _ _ _ _) as [[[total|e] m2] b2]; destruct Hc as (r2 & Hs2 & Hp2 & Hc);
    [|by eapply (Hfail m2 b2)].
  destruct (tmp_sync _) as [e|]; [by eapply (Hfail m2 b2)|]. destruct (tmp_close _) as [e|]; [by eapply (Hfail m2 b2)|].
  destruct Hc as (Ht & Htot & before & bytes & e & rest & Hd & He). unfold dated in Htot, Hd. rewrite imap_dated in Htot, Hd.
  cbn [sm_path m1] in Hp2. destruct Hs2 as [Hb1 Hb2 Hb3 Hb4 Hb5 Hb6 Hb7]. unfold cost in Hb3.
  assert (u64 total = octets (copied reads) /\ octets (copied reads) < 2 ^ 63) as [Hsize Hlt].
  { destruct Hb7 as (? & ? & _). rewrite u64_small by (unfold is_u64, MaxUint64; lia). lia. }
  split; [|split; [|split]].
  - cbn [sm_path]. rewrite Hp2. apply (stage_heap_ok w live {| sm_path := path; sm_size := u64 total; sm_reserved := _; sm_done := _ |});
      cbn; done.
  - unfold archive_Open. cbn. rewrite lookup_app_r, Nat.sub_diag by lia. cbn. by rewrite lookup_insert_eq.
  - cbn. rewrite lookup_app_r, Nat.sub_diag by lia. eexists. by split.
  - by exists before, bytes, e, rest.
Qed.

(** Staging touches neither the mailbox nor Git. *)
Lemma archive_Stage_store reads w :
  mb (ar_store (archive_Stage reads w).2) = mb (ar_store w) /\ gs (ar_store (archive_Stage reads w).2) = gs (ar_store w) /\
  rd (ar_store (archive_Stage reads w).2) = rd (ar_store w).
Proof using Type. unfold archive_Stage. by destruct (Stage _ _ _ _) as [[m|e] b]. Qed.

Lemma archive_Discard_store r w : mb (ar_store (archive_Discard r w)) = mb (ar_store w) /\
  gs (ar_store (archive_Discard r w)) = gs (ar_store w) /\ rd (ar_store (archive_Discard r w)) = rd (ar_store w).
Proof using Type. unfold archive_Discard. destruct (ar_heap w !! sr_index r); [|done]. by destruct (discardLocked _ _). Qed.

Lemma archive_Discard_ok r w live : archive_ok w live -> archive_ok (archive_Discard r w) live.
Proof using Type.
  intros Hok. unfold archive_Discard. destruct (ar_heap w !! sr_index r) as [m|] eqn:Em; [|done].
  pose proof (discard_bud m _ (ao_bud _ _ Hok)) as Hb.
  assert (sm_path (discardLocked m (bud (ar_store w))).1 = sm_path m /\ sm_size (discardLocked m (bud (ar_store w))).1 = sm_size m
    /\ sm_done (discardLocked m (bud (ar_store w))).1 = true) as (Hp & Hz & Hd)
    by (unfold discardLocked; by destruct (sm_done m) eqn:E).
  destruct (discardLocked m _) as [m' b]. cbn [fst snd] in *.
  apply (update_heap_ok w live live (sr_index r) m m' _ true); try done. apply store_ok_set_budget, Hok.
Qed.

(** What [Publish] does besides publishing. *)
Record publish_frame (m : StagedMessage) (s : Store) (m' : option StagedMessage) (s' : Store) : Prop := {
  pf_staged : exists x, m' = Some x /\ sm_path x = sm_path m /\ sm_size x = sm_size m /\ (sm_done m = true -> sm_done x = true);
  pf_bud : bud_ok (bud s) -> bud_ok (bud s');
}.

Lemma publish_frame_refl m s : publish_frame m s (Some m) s.
Proof using Type. split; [by exists m | done]. Qed.

Lemma Publish_frame `{SF : StoreFiles} now day m s :
  let '(r, m', s') := Publish now day (Some m) s in publish_frame m s m' s'.
Proof using Type.
  unfold Publish. destruct (bool_decide _); [apply publish_frame_refl|].
  destruct (failure (gs s)); [apply publish_frame_refl|]. destruct (sm_done m) eqn:Hd; [apply publish_frame_refl|].
  destruct (negb _); [apply publish_frame_refl|]. destruct (next_state _ _) as [[path state]|e]; [|apply publish_frame_refl].
  destruct (read_staged _) as [content|e]; [|apply publish_frame_refl].
  unfold publish_charge. destruct (receiptUsageLocked day (bud s)) as [d used].
  destruct (write_receipt _) as [e|]; [by split; [exists m |]|].
  assert (forall b, bud_ok b -> bud_ok (set_receipt (Some {| Day := d; ChargedBytes := u64 (used + sm_reserved m) |}) b)) as Hset.
  { intros b (H1 & H2 & _). split_and!; cbn; try done; try lia. apply u64_range. }
  unfold discardLocked. rewrite Hd.
  assert (forall g i, publish_frame m s (Some {| sm_path := sm_path m; sm_size := sm_size m; sm_reserved := 0; sm_done := true |})
      {| mb := i; gs := g; rd := rd s;
         bud := set_reserved (u64 (reservedBytes (bud s) - sm_reserved m))
           (set_receipt (Some {| Day := d; ChargedBytes := u64 (used + sm_reserved m) |}) (bud s)) |}) as Hframe.
  { intros g i. split; [eexists; by split |]. cbn. intros Hb%Hset.
    pose proof (discard_bud m _ Hb) as Hb'. unfold discardLocked in Hb'. by rewrite Hd in Hb'. }
  destruct (commitChanges _ _ _ _ (gs s)) as [[u|e] g]; apply Hframe.
Qed.

Lemma Publish_unreadable `{SF : StoreFiles} now day m s e : read_staged (sm_path m) = Err e \/ sm_done m = true ->
  exists e', Publish now day (Some m) s = (Err e', Some m, s).
Proof using Type.
  intros Hr. unfold Publish. destruct (bool_decide _); [eauto|]. destruct (failure (gs s)); [eauto|].
  destruct (sm_done m); [eauto|]. destruct Hr as [Hr|]; [|done]. destruct (negb _); [eauto|].
  destruct (next_state _ _) as [[path state]|?]; [|eauto]. rewrite Hr. eauto.
Qed.

(** A publication either did not reach the store, or was made with the content of
    the message's file. *)
Lemma archive_Publish_cases r w live : archive_ok w live -> let '(res, w') := archive_Publish r w in
  (is_ok res = false /\ ar_store w' = ar_store w /\ archive_ok w' live) \/
  exists n files now day m m' content,
    @Publish _ MO (store_files n files) now day (Some m) (ar_store w) = (res, m', ar_store w') /\
    @read_staged (store_files n files) (sm_path m) = Ok content /\ octets content = sm_size m /\ octets content < 2 ^ 63 /\
    archive_Open r w = content /\ (forall live', store_good (ar_store w') live' -> archive_ok w' live').
Proof using Type.
  intros Hok. unfold archive_Publish, archive_Open. destruct (ar_heap w !! sr_index r) as [m|] eqn:Em; [|by left].
  set (SF := store_files (ar_calls w) (ar_files w)).
  set (now := clock (ar_calls w) 0). set (day := clock (ar_calls w) 1).
  pose proof (Publish_frame (SF := SF) now day m (ar_store w)) as Hframe.
  assert (forall r' m' s' live', Publish now day (Some m) (ar_store w) = (r', m', s') -> store_good s' live' ->
    archive_ok {| ar_store := s'; ar_heap := <[sr_index r := default m m']> (ar_heap w);
      ar_files := if sm_done (default m m') && negb (sm_done m) then delete (sm_path m) (ar_files w) else ar_files w;
      ar_calls := S (ar_calls w) |} live') as Hupdate.
  { intros r' m' s' live' E Hs. rewrite E in Hframe. destruct Hframe as [(x & -> & Hp & Hz & Hd) Hb]. cbn [default from_option].
    apply (update_heap_ok w live live' (sr_index r) m x s'); try done; [apply Hb, Hok | | lia].
    by intros [? _]%andb_true_iff. }
  assert (forall e0, read_staged (sm_path m) = Err e0 \/ sm_done m = true ->
    let '(res, w') := (let '(res, m', s) := Publish now day (Some m) (ar_store w) in
      (res, {| ar_store := s; ar_heap := <[sr_index r := default m m']> (ar_heap w);
        ar_files := if sm_done (default m m') && negb (sm_done m) then delete (sm_path m) (ar_files w) else ar_files w;
        ar_calls := S (ar_calls w) |})) in
    is_ok res = false /\ ar_store w' = ar_store w /\ archive_ok w' live) as Hno.
  { intros e0 H. destruct (Publish_unreadable (SF := SF) now day m (ar_store w) e0 H) as [e E]. rewrite E.
    split_and!; [done | done | apply (Hupdate _ _ _ _ E), Hok]. }
  destruct (sm_done m) eqn:Hdone.
  { specialize (Hno (New "") (or_intror eq_refl)). destruct (Publish now day (Some m) (ar_store w)) as [[res m'] s']. by left. }
  destruct (ao_staged _ _ Hok _ _ Em Hdone) as (content & Hfile & Hsize & Hlen).
  destruct (tmp_read (ar_calls w)) as [e|] eqn:Etmp.
  { assert (read_staged (sm_path m) = Err e) as Hread by (cbn; by rewrite Hfile, Etmp). specialize (Hno e (or_introl Hread)).
    destruct (Publish now day (Some m) (ar_store w)) as [[res m'] s']. by left. }
  destruct (Publish now day (Some m) (ar_store w)) as [[res m'] s'] eqn:E. right.
  exists (ar_calls w), (ar_files w), now, day, m, m', content.
  split_and!; [done | cbn; by rewrite Hfile, Etmp | done | done | by rewrite Hfile |]. intros live'. by apply (Hupdate res m' s' live').
Qed.

(** ** A Git that always answers in time *)

Class Timely : Prop := git_timely title : import_interruption title = None.

Section Timely.
Context `{TL : !Timely}.

(** A transaction that failed did not move the store's HEAD. *)
Lemma commitChanges_timely title state changes removals g e g' :
  commitChanges title state changes removals g = (Err e, g') -> headID g' = headID g.
Proof using TL.
  unfold commitChanges. destruct (failure g) as [e0|]; [by intros [= _ <-]|].
  destruct (buildDirectoryIndex _ _); [|by intros [= _ <-]]. destruct (head (repository g)) as [current err].
  destruct (_ || _); [by intros [= _ <-]|].
  destruct (importerLocked (import g)) as [[process|e0] i]; [|by intros [= _ <-]].
  pose proof (importCommitLocked_cases process title state changes removals (set_import i g)) as Hc.
  destruct (importCommitLocked _ _ _ _ _ _) as [r g1]. rewrite git_timely. unfold watchGit.
  destruct r as [u|e0]; [done|]. destruct (abortImporterLocked _ _) as [e1 i1]. intros [= _ <-]. apply Hc.
Qed.

Lemma Publish_timely `{SF : StoreFiles} now day m s :
  match Publish now day (Some m) s with (Ok _, _, _) => True | (Err _, _, s') => headID (gs s') = headID (gs s) end.
Proof using TL.
  unfold Publish. destruct (bool_decide _); [done|]. destruct (failure (gs s)); [done|]. destruct (sm_done m); [done|].
  destruct (negb _); [done|]. destruct (next_state _ _) as [[path state]|e]; [|done].
  destruct (read_staged _) as [content|e]; [|done]. destruct (publish_charge _ _ _ _) as [[[e|] m'] b]; [done|].
  destruct (commitChanges _ _ _ _ (gs s)) as [[u|e] g] eqn:Ec; [done|]. by apply commitChanges_timely in Ec.
Qed.

Lemma archive_Publish_ok r w live : archive_ok w live ->
  match archive_Publish r w with
  | (Ok (id, path), w') => archive_ok w' (<[id := archive_Open r w]> live) /\ id = LastID (mb (ar_store w)) + 1 /\
      LastID (mb (ar_store w')) = id
  | (Err _, w') => archive_ok w' live /\ LastID (mb (ar_store w')) = LastID (mb (ar_store w))
  end.
Proof using GL TL.
  intros Hok. pose proof (archive_Publish_cases r w live Hok) as HC. destruct (archive_Publish r w) as [res w'].
  destruct HC as [(Hr & Hs & Hw)|(n & files & now & day & m & m' & content & E & Hread & Hsize & Hlen & -> & Hw)].
  { destruct res; [done|]. by rewrite Hs. }
  pose proof (Publish_ok (SF := store_files n files) now day m (ar_store w) live content (ao_store _ _ Hok) Hread Hsize Hlen) as HP.
  pose proof (Publish_timely (SF := store_files n files) now day m (ar_store w)) as HT. rewrite E in HP, HT.
  destruct res as [[id path]|e]; [|destruct HP as (Hmb & _ & Hsame & _); rewrite Hmb; auto].
  destruct HP as (-> & _ & Hs & _ & _ & Hlast). auto.
Qed.
End Timely.

(** ** Any Git *)

(** An archive whose store is running, or has stalled. *)
Record archive_runs (w : archive) (live : mailbox) : Prop := {
  aw_ok : archive_ok w live;
  aw_failure : failure (gs (ar_store w)) = None;
  aw_synced : synced (ar_store w);
}.

Abbreviation store_runs := (runs (objects_of := objects_of) (files_of := files_of)).
Abbreviation store_stalled := (stalled (objects_of := objects_of) (files_of := files_of)).

Definition archive_keeps (w : archive) (live : mailbox) (last : Z) : Prop :=
  (archive_runs w live /\ LastID (mb (ar_store w)) = last) \/ store_stalled (ar_store w) live last.

Lemma archive_runs_store w live : archive_runs w live -> store_runs (ar_store w) live.
Proof using Type. intros [Hok Hf Hs]. split; [apply Hok | done | done]. Qed.

Lemma archive_runs_keeps w live : archive_runs w live -> archive_keeps w live (LastID (mb (ar_store w))).
Proof using Type. by left. Qed.

Lemma archive_keeps_store w live last : archive_keeps w live last ->
  keeps (objects_of := objects_of) (files_of := files_of) (ar_store w) live last.
Proof using Type. intros [[Hw Hl]|Hs]; [left; split; [by apply archive_runs_store | done] | by right]. Qed.

(** A call that led from a running archive to a store that keeps its mailbox. *)
Lemma keeps_archive w' live last :
  keeps (objects_of := objects_of) (files_of := files_of) (ar_store w') live last ->
  (forall live', store_good (ar_store w') live' -> archive_ok w' live') -> archive_keeps w' live last.
Proof using Type. intros [[[Hok Hf Hs] Hl]|Hs] Hw; [left; split; [split; auto | done] | by right]. Qed.

(** Calls that only use the heap, the files and the budget. *)
Lemma archive_runs_same w w' live live' : mb (ar_store w') = mb (ar_store w) -> gs (ar_store w') = gs (ar_store w) ->
  archive_runs w live -> archive_ok w' live' -> archive_runs w' live'.
Proof using Type. intros _ Hg [_ Hf Hs] Hok. split; [done | by rewrite Hg | unfold synced; by rewrite Hg]. Qed.

Lemma archive_stalled_same w w' live last : mb (ar_store w') = mb (ar_store w) -> gs (ar_store w') = gs (ar_store w) ->
  rd (ar_store w') = rd (ar_store w) -> store_stalled (ar_store w) live last -> store_stalled (ar_store w') live last.
Proof using Type. intros Hm Hg Hr Hs. apply (stalled_same (ar_store w)); [done | done | rewrite Hr; apply Hs | done]. Qed.

(** A publication adds one message, or leaves the mailbox, or stalls with Git
    holding the one or the other; a stalled store refuses it. *)
Lemma archive_Publish_keeps `{AR : !AtomicRefs} r w live : archive_runs w live ->
  match archive_Publish r w with
  | (Ok (id, path), w') => archive_runs w' (<[id := archive_Open r w]> live) /\ id = LastID (mb (ar_store w)) + 1 /\
      LastID (mb (ar_store w')) = id
  | (Err _, w') => mb (ar_store w') = mb (ar_store w) /\ (archive_keeps w' live (LastID (mb (ar_store w))) \/
      store_stalled (ar_store w') (<[LastID (mb (ar_store w)) + 1 := archive_Open r w]> live) (LastID (mb (ar_store w)) + 1))
  end.
Proof using GL.
  intros Hrun. pose proof (archive_Publish_cases r w live (aw_ok _ _ Hrun)) as HC. destruct (archive_Publish r w) as [res w'].
  destruct HC as [(Hr & Hs & Hw)|(n & files & now & day & m & m' & content & E & Hread & Hsize & Hlen & -> & Hw)].
  { destruct res; [done|]. rewrite Hs. split; [done|]. left. left. rewrite Hs. split; [|done].
    by apply (archive_runs_same w w' live); rewrite ?Hs. }
  pose proof (Publish_keeps (SF := store_files n files) now day m (ar_store w) live content (archive_runs_store _ _ Hrun) Hread Hsize Hlen) as HP.
  rewrite E in HP. destruct res as [[id path]|e].
  - destruct HP as (-> & [Hs Hf Hsy] & Hl). split; [split; auto | done].
  - destruct HP as (Hmb & [Hk|Hk]); (split; [done|]); [left; by apply keeps_archive | by right].
Qed.

Lemma archive_Publish_stalled r w : failure (gs (ar_store w)) <> None ->
  exists e w', archive_Publish r w = (Err e, w') /\ ar_store w' = ar_store w.
Proof using Type.
  intros Hf. unfold archive_Publish. destruct (ar_heap w !! sr_index r) as [m|]; [|by do 2 eexists].
  destruct (Publish_stalled (SF := store_files (ar_calls w) (ar_files w)) (clock (ar_calls w) 0) (clock (ar_calls w) 1) m (ar_store w) Hf)
    as [e ->]. by do 2 eexists.
Qed.

Lemma archive_Discard_runs r w live : archive_runs w live -> archive_runs (archive_Discard r w) live.
Proof using Type.
  intros Hw. destruct (archive_Discard_store r w) as (Hm & Hg & _).
  by apply (archive_runs_same w _ live); [..|apply archive_Discard_ok, Hw].
Qed.

Lemma archive_Discard_keeps r w live last : archive_keeps w live last -> archive_keeps (archive_Discard r w) live last.
Proof using Type.
  destruct (archive_Discard_store r w) as (Hm & Hg & Hr).
  intros [[Hw Hl]|Hs]; [left | right; by apply (archive_stalled_same w)]. rewrite Hm. split; [by apply archive_Discard_runs | done].
Qed.

Lemma archive_Stage_runs reads w live : archive_runs w live -> small_reads reads ->
  archive_runs (archive_Stage reads w).2 live /\
  (forall r, (archive_Stage reads w).1 = Ok r -> archive_Open r (archive_Stage reads w).2 = copied reads).
Proof using SL.
  intros Hw Hsmall. pose proof (archive_Stage_ok reads w live (aw_ok _ _ Hw) Hsmall) as HS.
  destruct (archive_Stage_store reads w) as (Hm & Hg & _). destruct (archive_Stage reads w) as [[r|e] w']; cbn [fst snd] in *.
  - destruct HS as (Hw' & Ho & _). split; [by apply (archive_runs_same w _ live) | by intros r' [= <-]].
  - split; [by apply (archive_runs_same w _ live) | done].
Qed.

(** [Deliver] adds the message read under the next ID, or leaves the mailbox, or
    stalls with Git holding the one or the other. *)
Lemma archive_Deliver_keeps `{AR : !AtomicRefs} reads w live : archive_runs w live -> small_reads reads ->
  match archive_Deliver reads w with
  | (Ok _, w') => archive_runs w' (<[LastID (mb (ar_store w)) + 1 := copied reads]> live)
  | (Err _, w') => archive_keeps w' live (LastID (mb (ar_store w))) \/
      store_stalled (ar_store w') (<[LastID (mb (ar_store w)) + 1 := copied reads]> live) (LastID (mb (ar_store w)) + 1)
  end.
Proof using SL GL.
  intros Hw Hsmall. unfold archive_Deliver. destruct (archive_Stage_runs reads w live Hw Hsmall) as [Hw1 Ho].
  destruct (archive_Stage_store reads w) as (Hm & _). destruct (archive_Stage reads w) as [[r|e] w1]; cbn [fst snd] in *.
  2: { left. left. by rewrite Hm. }
  pose proof (archive_Publish_keeps r w1 live Hw1) as HP. rewrite (Ho r eq_refl), Hm in HP.
  destruct (archive_Publish r w1) as [[[id path]|e] w2].
  - destruct HP as (H2 & -> & _). by apply archive_Discard_runs.
  - destruct HP as (_ & [H|H]); [left; by apply archive_Discard_keeps|].
    right. destruct (archive_Discard_store r w2) as (? & ? & ?). by apply (archive_stalled_same w2).
Qed.
End ArchiveOk.
