(* ===== verification/ArchiveLaws.v ===== *)
(** * The archive implements what the servers require

    Reading and deleting on the composed state, its histories with maintenance,
    restarts and writes whose outcome Git did not report, and the instances of
    [DeliveryLaws], [MaildropLaws] and [StalledLaws] for the archive. *)

From S2P Require Import Prelude GoStrings IdPath Directories Numbering Cache Tree CatFile Listing Contents State Quota Import.
From S2P Require Import Mailbox MailboxSpec MailboxTheorems Reading Startup Restart Holding Archive ArchiveSpec.
From S2P Require SmtpSession SmtpSpec PopSession PopSpec PopStalled.

(** ** Time passing *)

(** [later] contents come from [live], except under IDs allocated since. *)
Definition evolves (last : Z) (live later : mailbox) : Prop :=
  forall id content, id <= last -> later !! id = Some content -> live !! id = Some content.

(** [later] still has every message of [live] that nobody else may delete. *)
Definition spares (removable : Z -> Prop) (live later : mailbox) : Prop :=
  forall id content, live !! id = Some content -> ~ removable id -> later !! id = Some content.

Lemma spares_without (removable : Z -> Prop) live ids : Forall removable ids -> spares removable live (without ids live).
Proof.
  intros HF id c Hc Hid. apply map_lookup_filter_Some. split; [done|]. intros Hin. apply Hid.
  rewrite Forall_forall in HF. by apply HF.
Qed.

Lemma spares_insert removable live id content : live !! id = None -> spares removable live (<[id := content]> live).
Proof. intros Hl i c Hi _. rewrite lookup_insert_ne; [done|]. intros ->. congruence. Qed.

Lemma evolves_refl last live : evolves last live live.
Proof. by intros id c _. Qed.

Lemma evolves_trans last last' live now later : evolves last live now -> last <= last' -> evolves last' now later ->
  evolves last live later.
Proof. intros H1 Hl H2 id c Hid Hc. apply H1; [done|]. apply H2; [lia | done]. Qed.

Lemma evolves_without last live ids : evolves last live (without ids live).
Proof. by intros id c _ [Hc _]%map_lookup_filter_Some. Qed.

Lemma evolves_insert last live id content : last < id -> evolves last live (<[id := content]> live).
Proof. intros Hl i c Hi. by rewrite lookup_insert_ne by lia. Qed.

(** The octets of the numbered messages are the mailbox's. *)
Lemma total_size_numbered (live : mailbox) : PopSpec.total_size (numbered live) = total_octets live.
Proof.
  unfold numbered. assert (forall l (m : mailbox), NoDup l -> (forall id, id ∈ l <-> is_Some (m !! id)) -> m ⊆ live ->
    PopSpec.total_size (message_of live <$> l) = total_octets m) as Hgen.
  { induction l as [|id l IH]; intros m HN Hl Hsub.
    - assert (m = ∅) as ->; [|done]. apply map_empty. intros i. destruct (m !! i) eqn:E; [|done].
      assert (i ∈ (@nil Z)) by (apply Hl; eauto). set_solver.
    - apply NoDup_cons in HN as [Hid HN]. destruct (proj1 (Hl id) ltac:(set_solver)) as [c Hc].
      rewrite (total_octets_delete m id c Hc). cbn [fmap list_fmap PopSpec.total_size foldr]. fold (PopSpec.total_size (message_of live <$> l)).
      rewrite (IH (delete id m)).
      + unfold message_of at 1. cbn [Size]. by rewrite (lookup_weaken _ _ _ _ Hc Hsub).
      + done.
      + intros i. rewrite lookup_delete_is_Some, <- Hl, elem_of_cons. split; [intros Hi; split; [by intros ->|by right] | by intros [Hne [->|Hi]]].
      + etransitivity; [apply delete_subseteq | done]. }
  apply Hgen; [| |done].
  - rewrite sort_ids_perm. apply NoDup_live_ids.
  - intros id. rewrite elem_of_sort_ids. apply elem_of_live_ids.
Qed.

Section ArchiveLaws.
Context `{GitI : Git, MO : MapOrder, GR : !GitReader, GT : GraphicTable, SU : !Surroundings}.
Context {objects_of : repo -> str -> option gitObject} {files_of : repo -> str -> option (gmap str str)}.

(** The messages that other connections may delete. *)
Context {removable : Z -> Prop}.

Abbreviation store_good := (store_ok (objects_of := objects_of) (files_of := files_of)).
Abbreviation archive_good := (archive_ok (objects_of := objects_of) (files_of := files_of)).
Abbreviation running := (archive_runs (objects_of := objects_of) (files_of := files_of)).
Abbreviation holds := (archive_keeps (objects_of := objects_of) (files_of := files_of)).
Abbreviation store_runs := (runs (objects_of := objects_of) (files_of := files_of)).
Abbreviation store_stalled := (stalled (objects_of := objects_of) (files_of := files_of)).
Abbreviation store_keeps := (keeps (objects_of := objects_of) (files_of := files_of)).

(** What one archive may have become: its repository, the last ID allocated and
    the messages, then and now. *)
Record since (r : repo) (last : Z) (live : mailbox) (r' : repo) (last' : Z) (live' : mailbox) : Prop := {
  sc_live : evolves last live live';
  sc_spared : spares removable live live';
  sc_last : last <= last';
  sc_repo : rtc grown r r';
}.

Lemma since_refl r last live : since r last live r last live.
Proof using Type. split; [apply evolves_refl | by intros id c Hc | lia | done]. Qed.

(** The same messages, in a repository that may have grown. *)
Lemma since_grown r r' last live : rtc grown r r' -> since r last live r' last live.
Proof using Type. intros Hg. split; [apply evolves_refl | by intros id c Hc | lia | done]. Qed.

Lemma since_trans r last live r1 last1 live1 r2 last2 live2 :
  since r last live r1 last1 live1 -> since r1 last1 live1 r2 last2 live2 -> since r last live r2 last2 live2.
Proof using Type.
  intros [H1 H2 H3 H4] [H5 H6 H7 H8]. split; [by eapply evolves_trans | | lia | by etransitivity].
  intros id c Hc Hid. apply H6; [by apply H2 | done].
Qed.

(** One more message under a new ID, or some fewer. *)
Lemma since_insert r r' last live id content : live_ok live last -> last < id -> rtc grown r r' ->
  since r last live r' id (<[id := content]> live).
Proof using Type.
  intros Hl Hid Hg. split; [by apply evolves_insert | | lia | done]. apply spares_insert.
  destruct (live !! id) as [c|] eqn:E; [|done]. destruct (Hl _ _ E). lia.
Qed.

Lemma since_without r r' last live ids : Forall removable ids -> rtc grown r r' -> since r last live r' last (without ids live).
Proof using Type. intros HF Hg. split; [apply evolves_without | by apply spares_without | lia | done]. Qed.

(** Documented behaviour of the other connections: during [DeleteAs] they only
    add messages under new IDs and delete messages, perhaps until a write makes
    the store fail for good; they do nothing to a store that has failed; and they
    leave it alone in the end. *)
Class RivalLaws : Prop := {
  rival_ok n k s live : store_runs s live -> bud_ok (bud s) -> exists live' last',
    store_keeps (rival n k s) live' last' /\ bud_ok (bud (rival n k s)) /\
    since (repository (gs s)) (LastID (mb s)) live (repository (gs (rival n k s))) last' live';
  rival_stalled n k s live last : store_stalled s live last ->
    store_stalled (rival n k s) live last /\ rtc grown (repository (gs s)) (repository (gs (rival n k s)));
  rival_quiet n k s : (attempts <= S k)%nat -> headID (gs (rival n k s)) = headID (gs s);
  attempts_pos : (0 < attempts)%nat;
}.

Context `{GL : !GitLaws objects_of files_of, AR : !AtomicRefs, SL : !SurroundingsLaws, RL : !RivalLaws}.

(** ** Deleting *)

Lemma deleteLocked_bud messages username s : bud (deleteLocked messages username s).2 = bud s.
Proof using Type.
  unfold deleteLocked. destruct (failure (gs s)); [done|]. destruct (bool_decide _); [done|].
  destruct (deleted_state messages (mb s)) as [next|e]; [|done]. by destruct (commitChanges _ _ _ _ (gs s)) as [[u|e] g].
Qed.

(** Resolving IDs on a stalled store. *)
Lemma stalled_resolves s kept last ids : store_stalled s kept last ->
  store_stalled (set_rd (resolve_ids (H := cat (repository (gs s))) (snapshotLocked s) (sort_ids ids) 0 (rd s)).2 s) kept last.
Proof using GL.
  intros Hs. apply (stalled_same s); [done | done | | done].
  apply (resolve_ids_reads (GO := gl_reader _)); [apply Hs | apply Hs].
Qed.

(** A stalled store refuses to delete, and stays as it is. *)
Lemma archive_DeleteAs_stalled ids username w kept last : store_stalled (ar_store w) kept last ->
  exists e w', archive_DeleteAs ids username w = (Err e, w') /\ store_stalled (ar_store w') kept last /\
    rtc grown (repository (gs (ar_store w))) (repository (gs (ar_store w'))).
Proof using GL RL.
  intros Hs. set (r := repository (gs (ar_store w))) in *.
  destruct (DeleteAs_loop_lost (rival (ar_calls w)) username ids
    (fun s => store_stalled s kept last /\ rtc grown r (repository (gs s)))) with (fuel := attempts) (k := 0%nat) (s := ar_store w)
    as (e & s' & E & Hs' & Hg').
  - intros s [Hf _]. apply Hf.
  - intros s [Hf Hg]. split; [by apply stalled_resolves | done].
  - intros k s [Hf Hg]. destruct (rival_stalled (ar_calls w) k s kept last Hf) as [Hf' Hg']. split; [done | by etransitivity].
  - done.
  - unfold archive_DeleteAs, DeleteAs. rewrite E. by exists e, (set_store s' w).
Qed.

(** [DeleteAs] removes the messages from those that the other connections left;
    without success it leaves these, or stalls with Git holding the one or the
    other. *)
Lemma archive_DeleteAs_ok ids username w live : running w live -> Forall (fun id => 0 <= id) ids ->
  octets username < 2 ^ 59 ->
  exists now last, let '(res, w') := archive_DeleteAs ids username w in
    since (repository (gs (ar_store w))) (LastID (mb (ar_store w))) live (repository (gs (ar_store w'))) last now /\
    match res with
    | Ok _ => running w' (without ids now) /\ LastID (mb (ar_store w')) = last
    | Err _ => holds w' now last \/ store_stalled (ar_store w') (without ids now) last
    end.
Proof using GL AR RL.
  intros Hrun Hpos Huser. pose proof (aw_ok _ _ Hrun) as Hok. unfold archive_DeleteAs.
  destruct (decide (Forall (fun id => 1 <= id <= LastID (mb (ar_store w))) ids)) as [Hids|Hbad].
  2: { apply not_Forall_Exists in Hbad; [|apply _]. apply Exists_exists in Hbad as (id & Hid & Hbad).
    destruct (DeleteAs_unknown (files_of := files_of) attempts (rival (ar_calls w)) ids id username (ar_store w) live
      (ao_store _ _ Hok) Hpos Hid Hbad attempts_pos) as (r & -> & Hr).
    exists live, (LastID (mb (ar_store w))). split; [apply since_refl|]. left. left. split; [|done].
    apply (archive_runs_same w _ live); [done..|].
    apply (set_store_ok w live); [done | by apply store_ok_set_rd, Hr; apply Hok | apply Hok]. }
  set (r0 := repository (gs (ar_store w))). set (last0 := LastID (mb (ar_store w))).
  set (Inv := fun s now => store_runs s now /\ bud_ok (bud s) /\
    Forall (fun id => 1 <= id <= LastID (mb s)) ids /\ since r0 last0 live (repository (gs s)) (LastID (mb s)) now).
  set (Lost := fun s => exists now last, store_stalled s now last /\ since r0 last0 live (repository (gs s)) last now).
  destruct (DeleteAs_loop_ok Inv (rival (ar_calls w)) username ids Huser) with (Lost := Lost) (fuel := attempts) (k := 0%nat)
    (s := ar_store w) (live := live) as [(now & s0 & l & (Hs0 & Hb0 & Hi0 & Hsince) & HN & Hl & Hw & Heq)|(e & s' & Heq & now & last & Hst & Hsince)].
  - intros s l ([Hs _ _] & _ & ? & _). done.
  - intros s l r (Hs & Hb & Hi & Hn) Hr. split_and!; [by apply (runs_same s) | done | done |]. by destruct Hn.
  - intros s (now & last & Hf & _). apply Hf.
  - intros s (now & last & Hf & Hn). exists now, last. split; [by apply stalled_resolves | by destruct Hn].
  - intros k s (now & last & Hf & Hn). destruct (rival_stalled (ar_calls w) k s now last Hf) as [Hf' Hg]. exists now, last. split; [done|].
    eapply since_trans; [exact Hn | by apply since_grown].
  - intros k s l (Hs & Hb & Hi & Hn). destruct (rival_ok (ar_calls w) k s l Hs Hb) as (l' & last' & [[Hs' <-]|Hs'] & Hb' & Hsc).
    + left. exists l'. split_and!; [|apply Hsc | apply Hsc]. split_and!; [done | done | | by eapply since_trans].
      pose proof (sc_last _ _ _ _ _ _ Hsc). eapply Forall_impl; [exact Hi|]. simpl. lia.
    + right. exists l', last'. split; [done | by eapply since_trans].
  - split_and!; [by apply archive_runs_store | apply Hok | done | apply since_refl].
  - intros j s' Hj. apply rival_quiet. lia.
  - apply attempts_pos.
  - exists now, (LastID (mb s0)). unfold DeleteAs. rewrite Heq.
    pose proof (deleteLocked_bud (message_of now <$> l) username s0) as Hbud.
    pose proof (deleteLocked_grown (message_of now <$> l) username s0) as Hg.
    pose proof (deleteLocked_keeps l username s0 now Hs0 HN Hl Huser) as HD.
    destruct (deleteLocked _ username s0) as [[u|e] s1]; cbn [snd] in *;
      (split; [eapply since_trans; [exact Hsince | by apply since_grown, rtc_once]|]).
    + destruct HD as [[Hs1 Hf1 Hy1] Hl1]. rewrite <- Hw. split; [|exact Hl1].
      split; [|exact Hf1 | exact Hy1]. apply (set_store_ok w live); [done | done | by rewrite Hbud].
    + rewrite <- Hw. destruct HD as [HD|HD]; [left | by right]. apply keeps_archive; [exact HD|].
      intros live' Hlive'. apply (set_store_ok w live); [done | done | by cbn; rewrite Hbud].
  - exists now, last. unfold DeleteAs. rewrite Heq. split; [exact Hsince|]. left. by right.
Qed.

(** ** Reading *)

Lemma read_content_ok `{GitObjects objects} content fuel : forall pos reader st, reading content pos reader st ->
  (length content - pos + 2 <= fuel)%nat ->
  exists reader' st', read_content fuel reader st = (drop pos content, Sentinel IoEOF, reader', st') /\
    reading content (length content) reader' st'.
Proof using Type.
  induction fuel as [|fuel IH]; intros pos reader st Hr Hf; [lia|]. cbn [read_content].
  destruct (Read_ok content pos reader st 4096 (chunk fuel) Hr) as (n & r1 & s1 & -> & Hr1 & _ & Hn).
  cbn [Nat.eqb]. pose proof Hr as (_ & _ & Hpos & _). destruct (Nat.eqb_spec pos (length content)) as [->|Hne].
  - rewrite drop_ge, take_nil by done. exists r1, s1. split; [done|].
    destruct Hr1 as (H1 & H2 & H3 & H4 & H5). assert (n = 0)%nat as -> by lia. by rewrite Nat.add_0_r in *.
  - specialize (Hn ltac:(done) ltac:(lia)). destruct (IH (pos + n)%nat r1 s1 Hr1 ltac:(lia)) as (r2 & s2 & -> & Hr2).
    exists r2, s2. split; [|done]. by rewrite <- drop_drop, take_drop.
Qed.

Section Shown.
Context `{GO : GitObjects objects}.
Context (snapshot : Snapshot) (live : mailbox) (Hshow : snapshot_shows objects snapshot live).

Lemma open_and_read_ok message st : reader_ok objects st ->
  reader_ok objects (open_and_read snapshot message st).2 /\
  forall id content, live !! id = Some content -> message = message_of live id ->
    (open_and_read snapshot message st).1 = Ok (content, Sentinel IoEOF).
Proof using GO Hshow.
  intros Hst. unfold open_and_read. destruct (decide (message ∈ numbered live)) as [Hin|Hno].
  - apply list_elem_of_fmap in Hin as (id & -> & Hid). rewrite elem_of_sort_ids in Hid. apply elem_of_live_ids in Hid as [content Hc].
    destruct (OpenMessage_live snapshot live Hshow id content st Hst Hc) as (reader & st' & -> & Hrd & Hca).
    pose proof Hrd as (_ & _ & _ & Hrem & _).
    destruct (read_content_ok content (S (S (Z.to_nat (br_remaining reader)))) 0 reader _ Hrd) as (r1 & s1 & -> & Hr1); [lia|].
    destruct (Close_ok _ _ _ _ Hr1) as (r2 & s2 & -> & Hr2 & _). split.
    + destruct Hst as [_ H2 H3]. split; cbn; rewrite ?Hca; done.
    + cbn [fst]. intros id' content' Hc' E. apply (f_equal ID) in E. rewrite !message_of_ID in E. subst id'.
      rewrite Hc in Hc'. by injection Hc' as ->.
  - destruct (OpenMessage_other snapshot live Hshow message st Hst) as (e & st' & -> & Hst').
    { intros id Hid ->. apply Hno. unfold numbered. apply list_elem_of_fmap_2. by rewrite elem_of_sort_ids. }
    split; [done|]. intros id content Hc ->. exfalso. apply Hno. unfold numbered. apply list_elem_of_fmap_2.
    rewrite elem_of_sort_ids. apply elem_of_live_ids. eauto.
Qed.
End Shown.

(** ** Histories *)

(** What any connection, or the maintenance loop, does to the archive. *)
Inductive archive_step (w : archive) : archive -> Prop :=
  | as_stage reads : small_reads reads -> archive_step w (archive_Stage reads w).2
  | as_publish r : archive_step w (archive_Publish r w).2
  | as_discard r : archive_step w (archive_Discard r w)
  | as_delete ids username : Forall (fun id => 0 <= id) ids -> Forall removable ids -> octets username < 2 ^ 59 ->
      archive_step w (archive_DeleteAs ids username w).2
  | as_read r : reader_ok (objects_of (repository (gs (ar_store w)))) r ->
      archive_step w (set_store (set_rd r (ar_store w)) w)
  | as_maintain env : archive_step w (set_store (Maintain env (ar_store w)).2 w).

(** The process ended, at any point between two steps, and another one opened the
    archive: what is left is Git's repository and the files. *)
Inductive archive_restart (w : archive) : archive -> Prop :=
  | as_restart s' : opens_on (repository (gs (ar_store w))) s' ->
      archive_restart w {| ar_store := s'; ar_heap := []; ar_files := ar_files w; ar_calls := S (ar_calls w) |}.

Lemma archive_Publish_grown r w : grown (repository (gs (ar_store w))) (repository (gs (ar_store (archive_Publish r w).2))).
Proof using Type.
  unfold archive_Publish. destruct (ar_heap w !! sr_index r) as [m|]; [|by left].
  pose proof (Publish_grown (SF := store_files (ar_calls w) (ar_files w)) (clock (ar_calls w) 0) (clock (ar_calls w) 1)
    (Some m) (ar_store w)) as Hg.
  by destruct (Publish _ _ _ _) as [[res m'] s].
Qed.

(** From one archive to a later one. *)
Definition leads (w : archive) (live : mailbox) (last : Z) (w' : archive) : Prop :=
  exists live' last', holds w' live' last' /\
    since (repository (gs (ar_store w))) last live (repository (gs (ar_store w'))) last' live'.

Lemma leads_same w w' live last : holds w' live last ->
  rtc grown (repository (gs (ar_store w))) (repository (gs (ar_store w'))) -> leads w live last w'.
Proof using Type. intros Hw Hg. exists live, last. split; [done | by apply since_grown]. Qed.

(** A step of a running archive. *)
Lemma running_step w w' live : running w live -> archive_step w w' -> leads w live (LastID (mb (ar_store w))) w'.
Proof using GL AR SL RL.
  intros Hrun. pose proof (aw_ok _ _ Hrun) as Hok. intros [reads Hsmall|r|r|ids username Hpos Hrem Huser|r Hr|env].
  - destruct (archive_Stage_runs reads w live Hrun Hsmall) as [Hw _]. destruct (archive_Stage_store reads w) as (Em & Eg & _).
    apply leads_same; [left; by rewrite Em | by rewrite Eg].
  - pose proof (archive_Publish_keeps r w live Hrun) as H. pose proof (rtc_once _ _ (archive_Publish_grown r w)) as Hg.
    pose proof (keeps_live _ _ _ (archive_keeps_store _ _ _ (archive_runs_keeps _ _ Hrun))) as Hl.
    destruct (archive_Publish r w) as [[[id path]|e] w1]; cbn [snd] in *.
    + destruct H as (Hw & -> & El). eexists _, _. split; [left; split; [exact Hw | exact El]|]. apply since_insert; [done | lia | done].
    + destruct H as (Em & [Hw|Hs]); [by apply leads_same|].
      eexists _, _. split; [right; exact Hs|]. apply since_insert; [done | lia | done].
  - destruct (archive_Discard_store r w) as (Em & Eg & _).
    apply leads_same; [by apply archive_Discard_keeps, archive_runs_keeps | by rewrite Eg].
  - destruct (archive_DeleteAs_ok ids username w live Hrun Hpos Huser) as (now & last & H).
    destruct (archive_DeleteAs ids username w) as [[u|e] w1]; cbn [snd]; destruct H as [Hsc H].
    + destruct H as [Hw <-]. eexists _, _. split; [left; by split|]. eapply since_trans; [exact Hsc | by apply since_without].
    + destruct H as [H|H]; [by exists now, last|]. eexists _, _. split; [right; exact H|].
      eapply since_trans; [exact Hsc | by apply since_without].
  - apply leads_same; [|done]. left. split; [|done]. apply (archive_runs_same w _ live); [done..|].
    apply (set_store_ok w live); [done | by apply store_ok_set_rd, Hr; apply Hok | apply Hok].
  - apply leads_same; [|apply Maintain_grown].
    apply keeps_archive; [by apply Maintain_keeps, archive_keeps_store, archive_runs_keeps|].
    intros live' Hlive'. apply (set_store_ok w live); [done | done |]. cbn.
    rewrite (k_bud _ _ (Maintain_kept env (ar_store w))). apply Hok.
Qed.

(** Nothing happens to a stalled one. *)
Lemma stalled_step w w' live last : store_stalled (ar_store w) live last -> archive_step w w' ->
  store_stalled (ar_store w') live last /\ rtc grown (repository (gs (ar_store w))) (repository (gs (ar_store w'))).
Proof using GL AR RL.
  intros Hs [reads Hsmall|r|r|ids username Hpos Hrem Huser|r Hr|env].
  - destruct (archive_Stage_store reads w) as (Em & Eg & Er). split; [by apply (archive_stalled_same w) | by rewrite Eg].
  - destruct (archive_Publish_stalled r w (sd_failure _ _ _ Hs)) as (e & w1 & -> & E). cbn [snd]. by rewrite E.
  - destruct (archive_Discard_store r w) as (Em & Eg & Er). split; [by apply (archive_stalled_same w) | by rewrite Eg].
  - destruct (archive_DeleteAs_stalled ids username w live last Hs) as (e & w1 & -> & Hs1 & Hg). by split.
  - split; [|done]. by apply (stalled_same (ar_store w)).
  - cbn. by rewrite Maintain_stalled by apply Hs.
Qed.

Lemma archive_step_ok w w' live last : holds w live last -> archive_step w w' -> leads w live last w'.
Proof using GL AR SL RL.
  intros [[Hw <-]|Hs] Hstep; [by apply running_step|]. destruct (stalled_step w w' live last Hs Hstep) as [Hs' Hg].
  apply leads_same; [by right | done].
Qed.

Lemma archive_restart_ok w w' live last : holds w live last -> archive_restart w w' ->
  running w' live /\ LastID (mb (ar_store w')) = last /\ repository (gs (ar_store w')) = repository (gs (ar_store w)).
Proof using GL.
  intros Hw [s' Hs]. destruct (reopened_runs _ _ _ _ (archive_keeps_store _ _ _ Hw) Hs) as ([Hok Hf Hy] & Hl & Hb & Hr).
  split; [|by split]. split; [|done | done]. by split.
Qed.

Lemma leads_trans w live last w1 w2 : leads w live last w1 ->
  (forall live1 last1, holds w1 live1 last1 -> leads w1 live1 last1 w2) -> leads w live last w2.
Proof using Type.
  intros (live1 & last1 & H1 & Hs1) H. destruct (H live1 last1 H1) as (live2 & last2 & H2 & Hs2).
  exists live2, last2. split; [done | by eapply since_trans].
Qed.

Lemma archive_run_ok w w' live last : holds w live last -> rtc archive_step w w' -> leads w live last w'.
Proof using GL AR SL RL.
  intros Hw Hrun. revert live last Hw. induction Hrun as [w|w w1 w2 Hstep _ IH]; intros live last Hw; [by apply leads_same|].
  eapply leads_trans; [by apply archive_step_ok | exact IH].
Qed.

(** The archive's whole history, over any number of processes. *)
Definition archive_event (w w' : archive) : Prop := archive_step w w' \/ archive_restart w w'.

Lemma archive_history_ok w w' live last : holds w live last -> rtc archive_event w w' -> leads w live last w'.
Proof using GL AR SL RL.
  intros Hw Hrun. revert live last Hw. induction Hrun as [w|w w1 w2 Hstep _ IH]; intros live last Hw; [by apply leads_same|].
  eapply leads_trans; [|exact IH]. destruct Hstep as [Hstep|Hstep]; [by apply archive_step_ok|].
  destruct (archive_restart_ok w w1 live last Hw Hstep) as (H1 & <- & Hr). apply leads_same; [by left | by rewrite Hr].
Qed.

(** ** The POP3 server's maildrop *)

(** The archive when a session started: its repository, last ID and messages. *)
Context (origin : repo) (first : Z) (start : mailbox).

(** It became this one, which is running. *)
Definition archive_settled (w : archive) : Prop := exists live, running w live /\
  since origin first start (repository (gs (ar_store w))) (LastID (mb (ar_store w))) live.

(** It became this one, whose store has stalled. *)
Definition archive_stuck (w : archive) : Prop := exists live last, store_stalled (ar_store w) live last /\
  since origin first start (repository (gs (ar_store w))) last live.

(** The maildrop a snapshot shows, in a later archive. *)
Definition archive_shows (w : archive) (snapshot : Snapshot) (drop : list Message) : Prop :=
  archive_settled w /\
  exists live, drop = numbered live /\ total_octets live <= MaxUint64 /\ (exists r last, since origin first start r last live) /\
    (exists files, files_of (repository (gs (ar_store w))) (sn_commit snapshot) = Some files /\ represents files live) /\
    snapshot_shows (objects_of (repository (gs (ar_store w)))) snapshot live.

Lemma archive_settled_next w w' : archive_settled w -> rtc archive_step w w' ->
  (archive_settled w' \/ archive_stuck w') /\ rtc grown (repository (gs (ar_store w))) (repository (gs (ar_store w'))).
Proof using GL AR SL RL.
  intros (live & Hw & Hs) Hrun.
  destruct (archive_run_ok w w' live _ (archive_runs_keeps _ _ Hw) Hrun) as (live' & last' & Hw' & Hs').
  split; [|apply Hs']. destruct Hw' as [[Hw' <-]|Hw']; [left; exists live' | right; exists live', last'];
    (split; [done | by eapply since_trans]).
Qed.

Lemma archive_stuck_next w w' : archive_stuck w -> rtc archive_step w w' -> archive_stuck w'.
Proof using GL AR RL.
  intros Hw Hrun. induction Hrun as [w|w w1 w2 Hstep _ IH]; [done|]. apply IH. destruct Hw as (live & last & Hs & Hsc).
  destruct (stalled_step w w1 live last Hs Hstep) as [Hs1 Hg]. exists live, last. split; [done|].
  eapply since_trans; [exact Hsc | by apply since_grown].
Qed.

Lemma archive_shows_later w w' snapshot drop : archive_shows w snapshot drop ->
  rtc grown (repository (gs (ar_store w))) (repository (gs (ar_store w'))) -> archive_settled w' ->
  archive_shows w' snapshot drop.
Proof using GL.
  intros (_ & live & -> & Ht & Hsince & Hf & Hs) Hg Hw. split; [done|].
  destruct (rtc_grown_shows _ _ snapshot live Hg Hf Hs) as [Hf' Hs']. by exists live.
Qed.

(** Reading on behalf of a session. *)
Lemma archive_settled_read w r : archive_settled w -> reader_ok (objects_of (repository (gs (ar_store w)))) r ->
  archive_settled (set_store (set_rd r (ar_store w)) w).
Proof using Type.
  intros (live & Hw & Hs) Hr. pose proof (aw_ok _ _ Hw) as Hok. exists live. split; [|done].
  apply (archive_runs_same w _ live); [done..|].
  apply (set_store_ok w live); [done | by apply store_ok_set_rd, Hr; apply Hok | apply Hok].
Qed.

Lemma archive_shows_read w snapshot drop r : archive_shows w snapshot drop ->
  reader_ok (objects_of (repository (gs (ar_store w)))) r -> archive_shows (set_store (set_rd r (ar_store w)) w) snapshot drop.
Proof using GL.
  intros Hs Hr. apply (archive_shows_later w); [done | done |]. apply archive_settled_read; [apply Hs | done].
Qed.

Lemma archive_stuck_read w r : archive_stuck w -> reader_ok (objects_of (repository (gs (ar_store w)))) r ->
  archive_stuck (set_store (set_rd r (ar_store w)) w).
Proof using Type.
  intros (live & last & Hs & Hsc) Hr. exists live, last. split; [|done]. by apply (stalled_same (ar_store w)).
Qed.

Lemma archive_drop_ok w snapshot drop : archive_shows w snapshot drop -> PopSpec.drop_ok snapshot drop.
Proof using Type.
  intros (_ & live & -> & Ht & _ & _ & [H1 H2 H3 H4 _ _ _]).
  assert (length (numbered live) = size live) as Hlen.
  { unfold numbered. by rewrite length_fmap, (Permutation_length (sort_ids_perm _)), size_live_ids. }
  pose proof (live_ids_bound live _ H1) as Hb. pose proof (live_length _ _ (NoDup_live_ids live) Hb) as Hl.
  rewrite size_live_ids in Hl. split.
  - unfold PopSession.Count. by rewrite H4, Hlen.
  - by rewrite H3, total_size_numbered.
  - rewrite Hlen. lia.
  - by rewrite total_size_numbered.
  - unfold numbered. apply Forall_fmap, Forall_forall. intros id Hid. rewrite elem_of_sort_ids in Hid.
    rewrite Forall_forall in Hb. specialize (Hb id Hid). simpl in Hb. unfold compose. rewrite message_of_ID.
    split; [lia|]. unfold message_of. cbn. unfold octets. lia.
Qed.

#[export] Instance archive_maildrop_laws : PopSpec.MaildropLaws archive (fun _ w => w) archive_settled archive_shows.
Proof using GL.
  split.
  - intros w (live & Hw & Hs). pose proof (aw_ok _ _ Hw) as Hok. exists (numbered live). split; [by exists live|]. exists live.
    split_and!; [done | apply Hok | eauto | apply Hok | by apply snapshotLocked_shows, Hok].
  - by intros w snap drop [Hw _].
  - intros w snap drop. apply archive_drop_ok.
  - done.
  - done.
  - intros w snap drop number Hs Hn. pose proof Hs as ((now & [Hok _ _] & _) & live & -> & _ & _ & _ & Hshow).
    cbn. unfold reading_call, repo_cat. unfold numbered in Hn. rewrite length_fmap, (Permutation_length (sort_ids_perm _)), size_live_ids in Hn.
    destruct (Lookup_in_range (GO := gl_reader _) snap live Hshow number (rd (ar_store w)) (so_reader _ _ (ao_store _ _ Hok)) Hn)
      as (message & st' & -> & Hst' & Hm). split; [by apply archive_shows_read|]. cbn. by intros m [= <-].
  - intros w snap drop visit Hs. pose proof Hs as ((now & [Hok _ _] & _) & live & -> & _ & _ & _ & Hshow). cbn. unfold archive_ListAt, repo_cat.
    destruct (ListAt_spec (GO := gl_reader _) snap live Hshow visit (rd (ar_store w)) (so_reader _ _ (ao_store _ _ Hok)))
      as (st' & E & Hst'). rewrite E. destruct (visit_spec visit _) as [calls e]. split; [by apply archive_shows_read | done].
  - intros w snap drop m Hs. pose proof Hs as ((now & [Hok _ _] & _) & live & -> & _ & _ & _ & Hshow). cbn. unfold reading_call, repo_cat.
    destruct (open_and_read_ok (GO := gl_reader _) snap live Hshow m (rd (ar_store w)) (so_reader _ _ (ao_store _ _ Hok))) as [Hr _].
    destruct (open_and_read snap m (rd (ar_store w))) as [r st]. by apply archive_shows_read.
Qed.

(** Opening and reading from a stalled store. *)
Lemma open_and_read_reads `{GO : GitObjects objects} (snapshot : Snapshot) message st : plausible snapshot -> reader_ok objects st ->
  reader_ok objects (open_and_read snapshot message st).2.
Proof using Type.
  intros Hp Hst. pose proof (OpenMessage_reads snapshot Hp message st Hst) as Ho. unfold open_and_read.
  destruct (OpenMessage snapshot message st) as [[reader|e] st']; [|exact Ho]. destruct Ho as [[content Hrd] Hca].
  pose proof Hrd as (_ & _ & _ & Hrem & _).
  destruct (read_content_ok content (S (S (Z.to_nat (br_remaining reader)))) 0 reader _ Hrd) as (r1 & s1 & -> & Hr1); [lia|].
  destruct (Close_ok _ _ _ _ Hr1) as (r2 & s2 & -> & Hr2 & _). destruct Hst as [_ H2 H3]. split; cbn; rewrite ?Hca; done.
Qed.

#[export] Instance archive_stalled_laws : PopStalled.StalledLaws archive archive_stuck plausible.
Proof using GL RL.
  split.
  - intros w (live & last & Hs & _). apply Hs.
  - intros w snap number Hw Hp. pose proof Hw as (live & last & Hs & _). cbn. unfold reading_call, repo_cat.
    pose proof (Lookup_reads (GO := gl_reader _) snap Hp number (rd (ar_store w)) (sd_reader _ _ _ Hs)) as Hr.
    destruct (Lookup _ _ _) as [r st]. by apply archive_stuck_read.
  - intros w snap visit Hw Hp. pose proof Hw as (live & last & Hs & _). cbn. unfold archive_ListAt, repo_cat.
    pose proof (ListAt_reads (GO := gl_reader _) snap Hp visit (rd (ar_store w)) (sd_reader _ _ _ Hs)) as Hr.
    destruct (ListAt _ _ _) as [[calls e] st]. by apply archive_stuck_read.
  - intros w snap m Hw Hp. pose proof Hw as (live & last & Hs & _). cbn. unfold reading_call, repo_cat.
    pose proof (open_and_read_reads (GO := gl_reader _) snap m (rd (ar_store w)) Hp (sd_reader _ _ _ Hs)) as Hr.
    destruct (open_and_read _ _ _) as [r st]. by apply archive_stuck_read.
  - intros w ids name (live & last & Hs & Hsc). destruct (archive_DeleteAs_stalled ids name w live last Hs) as (e & w' & E & Hs' & Hg).
    exists e, w'. split; [exact E|]. exists live, last. split; [done|]. eapply since_trans; [exact Hsc | by apply since_grown].
Qed.

Lemma archive_shows_plausible w snapshot drop : archive_shows w snapshot drop -> plausible snapshot.
Proof using Type. intros (_ & live & _ & _ & _ & _ & Hs). by eapply shows_plausible. Qed.

(** What other connections do between the commands of a session. *)
Lemma archive_others (others : nat -> archive -> archive) (others_run : forall k w, rtc archive_step w (others k w)) k w :
  archive_settled w ->
  (archive_settled (others k w) /\ forall snap drop, archive_shows w snap drop -> archive_shows (others k w) snap drop) \/
  archive_stuck (others k w).
Proof using GL AR SL RL.
  intros Hw. destruct (archive_settled_next w (others k w) Hw (others_run k w)) as [[Hs|Hs] Hg]; [left | by right].
  split; [done|]. intros snap drop Hd. by apply (archive_shows_later w).
Qed.

(** ** The SMTP server's delivery *)

#[export] Instance archive_delivery_laws : SmtpSpec.DeliveryLaws archive staged_ref.
Proof using Type.
  split. intros reads w staged w' Hends. cbn [SmtpSession.Stage SmtpSession.Open archive_delivery]. unfold archive_Stage, Stage.
  destruct (stage_reserve _ _ _) as [[m b]|e]; [|done]. destruct mkdir_error; [done|]. destruct create_temp as [path|e]; [|done].
  set (dated := imap _ reads). destruct (stage_copy dated _ _ _ _) as [[[total|e] m2] b2] eqn:Ec; [|done].
  destruct sync_error; [done|]. destruct close_error; [done|]. intros [= <- <-].
  apply stage_copy_ends in Ec as (before & bytes & e & rest & Hd & He). unfold dated in Hd. rewrite imap_dated in Hd. subst reads.
  apply ends_once_copied in Hends as [-> Hc]. split; [by exists before, bytes, e|].
  unfold archive_Open. cbn [ar_heap ar_files sr_index]. rewrite lookup_app_r, Nat.sub_diag by done. cbn [lookup list_lookup].
  by rewrite lookup_insert_eq.
Qed.
End ArchiveLaws.
