(* ===== verification/ArchiveSmtp.v ===== *)
(** * SMTP sessions over the archive

    What a whole SMTP session leaves in the mailbox: the messages it was told
    were accepted, under the next IDs, and nothing else; if Git's answer to a
    commit is lost, at most the message whose acceptance was not confirmed. *)

From S2P Require Import Prelude GoStrings IdPath Directories Cache Tree CatFile Listing Contents State Quota Import Mailbox MailboxSpec Restart Holding Config Wire SmtpSyntax SmtpData SmtpSession SmtpSpec.
From S2P Require Import Archive ArchiveSpec ArchiveLaws.

(** ** Deliveries *)

(** The messages a trace delivered. *)
Definition deliveries (t : list event) : list (Z * str) :=
  omap (fun e => match e with Delivered _ _ content id _ => Some (id, content) | _ => None end) t.

Definition fill (live : mailbox) (l : list (Z * str)) : mailbox := foldl (fun m x => <[x.1 := x.2]> m) live l.

Lemma fill_other live l id : id ∉ l.*1 -> fill live l !! id = live !! id.
Proof.
  revert live. induction l as [|[i c] l IH]; intros live Hid; [done|]. cbn in Hid |- *. apply not_elem_of_cons in Hid as [Hne Hid].
  unfold fill in IH. by rewrite IH, lookup_insert_ne.
Qed.

Lemma fill_lookup live l id content : NoDup l.*1 -> (id, content) ∈ l -> fill live l !! id = Some content.
Proof.
  revert live. induction l as [|[i c] l IH]; intros live HN Hin; [by apply elem_of_nil in Hin|].
  cbn in HN. apply NoDup_cons in HN as [Hi HN]. apply elem_of_cons in Hin as [[= <- <-]|Hin]; [|by apply IH].
  change (fill (<[id := content]> live) l !! id = Some content). by rewrite fill_other, lookup_insert_eq.
Qed.

Lemma deliveries_elem (t : list event) i info tr content id path :
  t !! i = Some (Delivered info tr content id path) -> (id, content) ∈ deliveries t.
Proof. intros Hi. apply list_elem_of_omap. eexists. split; [by eapply list_elem_of_lookup_2 | done]. Qed.

(** The same deliveries. *)
Definition no_news (s s' : session) : Prop := deliveries (trace s') = deliveries (trace s).

Lemma deliveries_snoc t e : deliveries (t ++ [e]) =
  deliveries t ++ match e with Delivered _ _ content id _ => [(id, content)] | _ => [] end.
Proof. unfold deliveries. rewrite omap_app. by destruct e. Qed.

Lemma fill_snoc live l id content : fill live (l ++ [(id, content)]) = <[id := content]> (fill live l).
Proof. unfold fill. by rewrite foldl_app. Qed.

Lemma no_news_trans s s1 s2 : no_news s s1 -> no_news s1 s2 -> no_news s s2.
Proof. unfold no_news. congruence. Qed.

Lemma no_news_say `{Conn, UnicodeTables} code message s s1 : no_news s s1 -> no_news s (say code message s1).
Proof. unfold no_news. intros <-. cbn. by rewrite deliveries_snoc, app_nil_r. Qed.

Lemma no_news_same s s' : trace s' = trace s -> no_news s s'.
Proof. unfold no_news. by intros ->. Qed.

Section Quiet.
Context `{Conn, UnicodeTables, SmtpEnv}.
Context (server : Server).

Ltac quiet := repeat (apply no_news_say); by apply no_news_same.

Lemma handle_helo_quiet extended argument s : no_news s (handle_helo server extended argument s).
Proof.
  unfold handle_helo. destruct (negb _); [quiet|]. destruct extended; [|quiet].
  unfold no_news, reply_lines. cbn. by rewrite deliveries_snoc, app_nil_r.
Qed.

Lemma handle_starttls_quiet argument s : no_news s (handle_starttls server argument s).
Proof.
  unfold handle_starttls. destruct (_ || _); [quiet|]. unfold reply, reply_lines.
  assert (forall line, no_news s (count_write (emit (Reply 220 line) s))) as Hr
    by (intros line; unfold no_news; cbn; by rewrite deliveries_snoc, app_nil_r).
  destruct (write_ok _); cbn [negb]; [|exact (Hr _)]. destruct (handshake _); [|exact (Hr _)].
  unfold no_news. cbn. by rewrite !deliveries_snoc, !app_nil_r.
Qed.

Lemma handle_mail_quiet argument s : no_news s (handle_mail server argument s).
Proof.
  unfold handle_mail. destruct (negb _); [quiet|]. destruct (parsePath _ _ _) as [[address params]|]; [|quiet].
  destruct (validateMailParameters _ _) as [e|]; [destruct (errors_Is e _)|]; quiet.
Qed.

Lemma handle_rcpt_quiet argument s : no_news s (handle_rcpt server argument s).
Proof.
  unfold handle_rcpt. destruct (negb _); [quiet|]. destruct (parsePath _ _ _) as [[address params]|]; [|quiet].
  destruct (negb _); [quiet|]. destruct (negb _); [quiet|]. destruct (_ <=? _); [quiet|].
  destruct (rd_Action _); quiet.
Qed.
End Quiet.

(** ** Sessions *)

Section Sessions.
Context `{GitI : Git, MO : MapOrder, GR : !GitReader, GT : GraphicTable, SU : !Surroundings}.
Context {objects_of : repo -> str -> option gitObject} {files_of : repo -> str -> option (gmap str str)}.
Context `{CN : Conn, UT : UnicodeTables, SE : SmtpEnv}.
Context (server : Server).

(** [io.Copy]'s buffers are of bounded size. *)
Context (buffers : Forall (fun n => Z.of_nat n <= 32768) copy_sizes).

(** What a relation between archives and mailboxes needs, to be kept by a session
    that fills the mailbox with what it was told is accepted. *)
Class Receives (Inv : archive -> mailbox -> Prop) : Prop := {
  rv_stage reads w live : Inv w live -> small_reads reads -> Inv (archive_Stage reads w).2 live;
  rv_discard r w live : Inv w live -> Inv (archive_Discard r w) live;
  rv_publish r w live : Inv w live ->
    match archive_Publish r w with
    | (Ok (id, path), w') => Inv w' (<[id := archive_Open r w]> live) /\ id = LastID (mb (ar_store w)) + 1 /\
        LastID (mb (ar_store w')) = id
    | (Err _, w') => Inv w' live /\ LastID (mb (ar_store w')) = LastID (mb (ar_store w))
    end;
}.

Section Filling.
Context (Inv : archive -> mailbox -> Prop) `{RV : !Receives Inv}.

(** The session of an archive that held [live]. *)
Record filled (live : mailbox) (last : Z) (s : session) (w : archive) : Prop := {
  fd_archive : Inv w (fill live (deliveries (trace s)));
  fd_ids : (deliveries (trace s)).*1 = seqZ (last + 1) (Z.of_nat (length (deliveries (trace s))));
  fd_last : LastID (mb (ar_store w)) = last + Z.of_nat (length (deliveries (trace s)));
}.

Lemma filled_quiet live last s s' w : filled live last s w -> no_news s s' -> filled live last s' w.
Proof using Type. intros [] Hn. unfold no_news in Hn. split; by rewrite Hn. Qed.

Lemma filled_archive live last s w w' : filled live last s w -> Inv w' (fill live (deliveries (trace s))) ->
  LastID (mb (ar_store w')) = LastID (mb (ar_store w)) -> filled live last s w'.
Proof using Type. intros [] Hw Hl. split; [done | done | congruence]. Qed.

Lemma filled_discard live last s w r : filled live last s w -> filled live last s (archive_Discard r w).
Proof using RV.
  intros Hf. apply (filled_archive _ _ _ w); [done | apply rv_discard, Hf|].
  unfold archive_Discard. destruct (ar_heap w !! _); [|done]. by destruct (discardLocked _ _).
Qed.

Lemma filled_same live last s s' w : filled live last s w -> trace s' = trace s -> filled live last s' w.
Proof using Type. intros Hf Ht. by apply (filled_quiet _ _ s), no_news_same. Qed.

Lemma filled_say live last s code message w : filled live last s w -> filled live last (say code message s) w.
Proof using UT. intros Hf. by apply (filled_quiet _ _ s), no_news_say, no_news_same. Qed.

(** An accepted message is under the next ID. *)
Lemma filled_delivered live last s w info t id path content w' : filled live last s w ->
  Inv w' (<[id := content]> (fill live (deliveries (trace s)))) -> id = LastID (mb (ar_store w)) + 1 ->
  LastID (mb (ar_store w')) = id -> filled live last (emit (Delivered info t content id path) s) w'.
Proof using Type.
  intros [Ha Hi Hl] Hw Hid Hl'. split; cbn [trace emit]; rewrite deliveries_snoc, ?fill_snoc; [done | |].
  - rewrite fmap_app, Hi, length_app. cbn. rewrite Nat2Z.inj_add, seqZ_app by lia. f_equal. rewrite Hid, Hl, seqZ_cons by lia. f_equal. lia.
  - rewrite length_app. cbn. lia.
Qed.

Lemma finish_data_filled live last receivedAt bytes staged s w : filled live last s w ->
  let '(s', w') := finish_data server receivedAt bytes staged s w in filled live last s' w'.
Proof using RV.
  intros Hf. unfold finish_data. cbn [Publish Discard Open archive_delivery].
  destruct (mdec_Action _);
    try (eapply filled_quiet; [by apply filled_discard|]; case_decide; apply no_news_say; by apply no_news_same).
  pose proof (rv_publish staged w _ (fd_archive _ _ _ _ Hf)) as HP.
  destruct (archive_Publish staged w) as [[[id path]|e] w'].
  - destruct HP as (Hw & Hid & Hlast).
    apply filled_say. eapply filled_same; [by apply (filled_delivered live last s w (connectionInfo s) (tx s) id path) | done].
  - destruct HP as [Hw Hmb]. eapply filled_quiet.
    + apply filled_discard. by apply (filled_archive _ _ _ w).
    + eapply no_news_trans; [|by apply no_news_same]. destruct (errors_Is e _); apply no_news_say; by apply no_news_same.
Qed.

Lemma handle_data_filled live last argument s w : filled live last s w ->
  let '(s', w') := handle_data server argument s w in filled live last s' w'.
Proof using RV buffers.
  intros Hf. unfold handle_data. destruct (_ || _); [by apply filled_say|].
  cbn [CheckReceive archive_delivery].
  destruct (archive_CheckReceive w); [by apply filled_say, (filled_same _ _ s)|].
  destruct (reply 354 _ s) as [ok s1] eqn:Er.
  assert (filled live last s1 w) as Hf1.
  { eapply filled_quiet; [exact Hf|]. unfold reply, reply_lines in Er. injection Er as <- <-.
    unfold no_news. cbn. by rewrite deliveries_snoc, app_nil_r. }
  destruct ok; cbn [negb]; [|by apply (filled_same _ _ _ _ _ Hf1)].
  destruct (copy_reads _ _ _) as [reads data] eqn:Ec. cbn [Stage archive_delivery].
  assert (small_reads reads) as Hsmall.
  { pose proof (copy_reads_size copy_sizes (deliveryHeaders (hostname server) remote (helo s1) (encrypted s1) (tx s1) (received_at (rounds s1)))
      (newDataReader (maxMessageSize server) (input s1)) 32768 buffers) as HF. rewrite Ec in HF.
    eapply Forall_impl; [exact HF|]. intros x Hx. cbn in Hx. unfold octets. lia. }
  pose proof (rv_stage reads w _ (fd_archive _ _ _ _ Hf1) Hsmall) as HS. pose proof (archive_Stage_store reads w) as [Hm _].
  destruct (archive_Stage reads w) as [[staged|e] w1]; cbn [snd] in Hm, HS.
  - apply finish_data_filled. apply (filled_same _ _ s1); [|done].
    by apply (filled_archive _ _ s1 w); [..|rewrite Hm].
  - destruct (stage_failure e) as [code message].
    eapply filled_same; [apply filled_say, (filled_same _ _ s1); [apply (filled_archive _ _ s1 w); [done..|by rewrite Hm] | done] | done].
Qed.

Lemma dispatch_filled live last command argument s w : filled live last s w ->
  let '(s', w') := dispatch server command argument s w in filled live last s' w'.
Proof using RV buffers.
  intros Hf. unfold dispatch. repeat (case_decide; [first [by apply handle_data_filled
    | eapply filled_quiet; [exact Hf|]; first [apply handle_helo_quiet | apply handle_starttls_quiet | apply handle_mail_quiet
      | apply handle_rcpt_quiet | by apply no_news_say, no_news_same
      | eapply no_news_trans; [by apply no_news_say, no_news_same | by apply no_news_same]]]|]).
  eapply filled_quiet; [exact Hf|]. by apply no_news_say, no_news_same.
Qed.

Lemma serve_command_filled live last s w : filled live last s w ->
  let '(s', w') := serve_command server s w in filled live last s' w'.
Proof using RV buffers.
  intros Hf. unfold serve_command. destruct (negb (deadline_ok _)); [by apply (filled_same _ _ _ _ _ Hf)|].
  destruct (readLimitedLine _ _) as [[line|e] rest].
  - destruct (splitCommand line) as [command argument]. apply dispatch_filled. by apply (filled_same _ _ _ _ _ Hf).
  - eapply filled_quiet; [exact Hf|]. destruct (errors_Is e _); [|by apply no_news_same].
    eapply no_news_trans; [|by apply no_news_same]. by apply no_news_say, no_news_same.
Qed.

Lemma serve_loop_filled fuel live last s w : filled live last s w ->
  let '(s', w') := serve_loop server fuel s w in filled live last s' w'.
Proof using RV buffers.
  revert s w. induction fuel as [|fuel IH]; intros s w Hf; cbn [serve_loop]; [done|].
  destruct (closed s); [done|]. pose proof (serve_command_filled live last s w Hf) as H'.
  destruct (serve_command server s w) as [s' w']. by apply IH.
Qed.

Lemma serveConn_filled fuel stream live w : Inv w live ->
  let '(s', w') := serveConn server fuel stream w in filled live (LastID (mb (ar_store w))) s' w'.
Proof using RV buffers.
  intros Hw. assert (filled live (LastID (mb (ar_store w))) (new_session stream) w) as Hf by (split; cbn; [done | done | lia]).
  unfold serveConn, reply, reply_lines.
  set (greeted := count_write (emit (Reply 220 [hostname server ++ " ESMTP picomx"]) (new_session stream))).
  assert (filled live (LastID (mb (ar_store w))) greeted w) as Hf1 by (by eapply filled_quiet; [exact Hf|]).
  destruct (write_ok _); [by apply serve_loop_filled | by apply (filled_same _ _ greeted)].
Qed.
End Filling.

(** ** With any Git *)

Context `{GL : !GitLaws objects_of files_of, SL : !SurroundingsLaws}.

(** The archive is running with these messages; or its store has stalled, and Git
    holds them or, beside them, one whose acceptance was not confirmed, under the
    next ID. *)
Definition fills (w : archive) (live : mailbox) : Prop :=
  archive_runs (objects_of := objects_of) (files_of := files_of) w live \/
  exists kept last, stalled (objects_of := objects_of) (files_of := files_of) (ar_store w) kept last /\
    ((kept = live /\ last = LastID (mb (ar_store w))) \/
     (exists content, kept = <[LastID (mb (ar_store w)) + 1 := content]> live /\ last = LastID (mb (ar_store w)) + 1)).

Lemma fills_same w w' live : mb (ar_store w') = mb (ar_store w) -> gs (ar_store w') = gs (ar_store w) ->
  rd (ar_store w') = rd (ar_store w) ->
  (archive_runs (objects_of := objects_of) (files_of := files_of) w live ->
   archive_runs (objects_of := objects_of) (files_of := files_of) w' live) -> fills w live -> fills w' live.
Proof using Type.
  intros Hm Hg Hr Hrun [Hw|(kept & last & Hs & Hk)]; [left; auto|]. right. exists kept, last.
  split; [by apply (archive_stalled_same w) | by rewrite Hm].
Qed.

#[export] Instance fills_receives `{AR : !AtomicRefs} : Receives fills.
Proof using GL SL.
  split.
  - intros reads w live Hw Hsmall. destruct (archive_Stage_store reads w) as (Hm & Hg & Hr).
    apply (fills_same w); [done.. | | done]. intros Hrun. by apply archive_Stage_runs.
  - intros r w live Hw. destruct (archive_Discard_store r w) as (Hm & Hg & Hr).
    apply (fills_same w); [done.. | | done]. apply archive_Discard_runs.
  - intros r w live [Hw|(kept & last & Hs & Hk)].
    + pose proof (archive_Publish_keeps r w live Hw) as HP. destruct (archive_Publish r w) as [[[id path]|e] w'].
      * destruct HP as (H' & Hid & Hl). split; [by left | done].
      * destruct HP as (Hmb & [[[H' _]|H']|H']); rewrite Hmb; (split; [|done]); [by left | right..].
        -- do 2 eexists. split; [exact H' | left]. by rewrite Hmb.
        -- do 2 eexists. split; [exact H' | right]. rewrite Hmb. by eexists.
    + destruct (archive_Publish_stalled r w (sd_failure _ _ _ Hs)) as (e & w' & -> & E). rewrite E. split; [|done].
      right. exists kept, last. by rewrite E.
Qed.

(** ** With a Git that always answers in time *)

#[export] Instance ok_receives `{TL : !Timely} : Receives (archive_ok (objects_of := objects_of) (files_of := files_of)).
Proof using GL SL.
  split.
  - intros reads w live Hw Hsmall. pose proof (archive_Stage_ok reads w live Hw Hsmall) as HS.
    destruct (archive_Stage reads w) as [[r|e] w']; [apply HS | exact HS].
  - intros r w live. apply archive_Discard_ok.
  - intros r w live. apply archive_Publish_ok.
Qed.
End Sessions.
