(* ===== verification/EndToEnd.v ===== *)
(** * Mail from one client to another

    SMTP sessions, POP3 sessions and the archive together: what the senders were
    told is accepted is what the readers see, until a reader deletes it, also
    across maintenance, restarts and commits whose outcome Git did not report. *)

From S2P Require Import Prelude GoStrings IdPath Directories Numbering Cache Tree CatFile Listing Contents State Quota Import.
From S2P Require Import Mailbox MailboxSpec Reading Startup Restart Holding Wire Archive ArchiveSpec ArchiveLaws ArchiveSmtp.
From S2P Require PopSyntax PopSession PopSpec PopStalled PopTheorems SmtpSyntax SmtpSession SmtpSpec SmtpTheorems Config ToyGit ToyStart MailboxTheorems.

(** A number as a client sends it. *)
Lemma messageID_FormatUint number count : 1 <= number <= count -> count <= MaxUint64 ->
  PopSyntax.messageID (FormatUint number 10) count = Some number.
Proof.
  intros Hn Hc. unfold PopSyntax.messageID. rewrite (TrimSpace_word _ (word_decimal number)).
  rewrite ParseUint_FormatUint; [|lia | unfold is_u64; lia | unfold MaxUint64 in *; lia].
  by destruct (Z.ltb_spec 0 number), (Z.leb_spec number count); try lia.
Qed.

Section EndToEnd.
Context `{GitI : Git, MO : MapOrder, GR : !GitReader, GT : GraphicTable, SU : !Surroundings}.
Context {objects_of : repo -> str -> option gitObject} {files_of : repo -> str -> option (gmap str str)}.
Context {removable : Z -> Prop}.
Context `{GL : !GitLaws objects_of files_of, AR : !AtomicRefs, SL : !SurroundingsLaws}.

Abbreviation running := (archive_runs (objects_of := objects_of) (files_of := files_of)).
Abbreviation holds := (archive_keeps (objects_of := objects_of) (files_of := files_of)).
Abbreviation store_stalled := (stalled (objects_of := objects_of) (files_of := files_of)).
Abbreviation event := (archive_event (objects_of := objects_of) (removable := removable)).
Abbreviation step := (archive_step (objects_of := objects_of) (removable := removable)).

(** ** Reading over the archive *)

(** A live message has a number, under which it is found and read. *)
Lemma live_message_read w snapshot shown id content : reader_ok (objects_of (repository (gs (ar_store w)))) (rd (ar_store w)) ->
  snapshot_shows (objects_of (repository (gs (ar_store w)))) snapshot shown -> shown !! id = Some content ->
  exists number, 1 <= number <= Z.of_nat (size shown) /\
    exists st, Lookup (H := repo_cat w) snapshot number (rd (ar_store w)) = (Ok (message_of shown id), st) /\
      (open_and_read (H := repo_cat w) snapshot (message_of shown id) st).1 = Ok (content, Sentinel IoEOF).
Proof using GL.
  intros Hr Hshow Hc. assert (id ∈ sort_ids (live_ids shown)) as Hid by (rewrite elem_of_sort_ids; apply elem_of_live_ids; eauto).
  apply list_elem_of_lookup in Hid as [i Hi]. pose proof (lookup_lt_Some _ _ _ Hi) as Hlt.
  rewrite (Permutation_length (sort_ids_perm _)), size_live_ids in Hlt.
  exists (Z.of_nat i + 1). split; [lia|].
  destruct (Lookup_in_range (GO := gl_reader _) snapshot shown Hshow (Z.of_nat i + 1) (rd (ar_store w)) Hr ltac:(lia)) as (message & st & E & Hst & Hm).
  exists st. replace (Z.to_nat (Z.of_nat i + 1 - 1)) with i in Hm by lia. unfold numbered in Hm.
  rewrite list_lookup_fmap, Hi in Hm. injection Hm as <-. split; [exact E|].
  destruct (open_and_read_ok (GO := gl_reader _) snapshot shown Hshow (message_of shown id) st Hst) as [_ Ho]. by apply (Ho id).
Qed.

(** RETR over the archive. *)
Lemma handle_retr_reads `{Conn, UnicodeTables, PopSession.PopEnv} s w shown id content :
  reader_ok (objects_of (repository (gs (ar_store w)))) (rd (ar_store w)) -> snapshot_shows (objects_of (repository (gs (ar_store w)))) (PopSession.snapshot s) shown ->
  shown !! id = Some content -> PopSession.authenticated s = true ->
  exists number, 1 <= number <= PopSession.Count (PopSession.snapshot s) /\
    (PopSession.is_deleted number s = false ->
     (PopSession.handle_retr (FormatUint number 10) s w).1 =
       PopSession.stream ("+OK " ++ FormatUint (octets content) 10 ++ " octets") None (content, Sentinel IoEOF) s).
Proof using GL.
  intros Hr Hshow Hc Ha. destruct (live_message_read w _ shown id content Hr Hshow Hc) as (number & Hn & st & El & Eo).
  pose proof (ss_count _ _ _ Hshow) as Hcount. exists number. unfold PopSession.Count. split; [lia|]. intros Hd.
  unfold PopSession.handle_retr. rewrite Ha. cbn [negb]. unfold PopSession.numbered_message, PopSession.Count.
  pose proof (live_ids_bound shown _ (ss_live _ _ _ Hshow)) as Hb.
  pose proof (live_length _ _ (NoDup_live_ids shown) Hb) as Hl. rewrite size_live_ids in Hl.
  pose proof (ss_last _ _ _ Hshow). rewrite messageID_FormatUint, Hd by lia.
  cbn [PopSession.Lookup PopSession.OpenMessage archive_maildrop]. unfold reading_call at 1. rewrite El.
  unfold reading_call. cbn [ar_store set_store rd set_rd].
  change (repo_cat (set_store (set_rd st (ar_store w)) w)) with (repo_cat w).
  destruct (open_and_read _ _ _) as [r st'] eqn:E. cbn [fst] in Eo. subst r.
  unfold message_of. cbn [Size]. by rewrite Hc.
Qed.

(** ** From the senders *)

Section Senders.
Context `{RL : !RivalLaws (objects_of := objects_of) (files_of := files_of) (removable := removable)}.
Context `{CN : Conn, UT : UnicodeTables, SE : SmtpSession.SmtpEnv}.
Context (buffers : Forall (fun n => Z.of_nat n <= 32768) SmtpSession.copy_sizes).

(** What a session that started on a running archive leaves. *)
Lemma session_filled (server : SmtpSession.Server) fuel stream w live s w' :
  running w live -> SmtpSession.serveConn server fuel stream w = (s, w') ->
  filled (fills (objects_of := objects_of) (files_of := files_of)) live (LastID (mb (ar_store w))) s w'.
Proof using GL AR SL buffers.
  intros Hw E. assert (fills (objects_of := objects_of) (files_of := files_of) w live) as Hf by (by left).
  pose proof (serveConn_filled server buffers _ fuel stream live w Hf) as H. by rewrite E in H.
Qed.

(** Whatever was delivered is among the messages that are kept. *)
Lemma delivered_kept (server : SmtpSession.Server) live last s w id content :
  filled (fills (objects_of := objects_of) (files_of := files_of)) live last s w ->
  (id, content) ∈ deliveries (SmtpSession.trace s) ->
  exists kept last', holds w kept last' /\ kept !! id = Some content.
Proof using Type.
  intros [Hw Hids Hlast] Hin. set (l := deliveries (SmtpSession.trace s)) in *.
  assert (fill live l !! id = Some content) as Hc by (apply fill_lookup; [rewrite Hids; apply NoDup_seqZ | done]).
  assert (id ∈ l.*1) as Hid by (apply list_elem_of_fmap; by exists (id, content)).
  rewrite Hids in Hid. apply elem_of_seqZ in Hid.
  destruct Hw as [Hw|(kept & last' & Hs & [[-> ->]|(extra & -> & ->)])].
  - exists (fill live l), (LastID (mb (ar_store w))). split; [by left | done].
  - do 2 eexists. split; [right; exact Hs | done].
  - do 2 eexists. split; [right; exact Hs|]. rewrite lookup_insert_ne by lia. done.
Qed.


(** C5: Accepted mail reaches the reader.  Take a message that an SMTP session on a
    running archive was told is accepted, and that nobody else is to delete.
    Whatever happens afterwards (other sessions, deletions of other messages,
    maintenance, writes that fail or whose outcome Git does not report in time,
    the end of the process and a new start of the archive, any number of times),
    the mailbox that is kept has the message, with its content, under its ID.  And
    a reader who logs in while the store has not failed finds a number for it in
    the maildrop; unless the reader has marked it, RETR of that number sends
    exactly its content, whatever happens to the archive meanwhile. *)
Theorem mail_reaches_the_reader `{PE : PopSession.PopEnv} (server : SmtpSession.Server) fuel stream w live s w1
    i info t content id path w2 :
  running w live -> SmtpSession.serveConn server fuel stream w = (s, w1) ->
  SmtpSession.trace s !! i = Some (SmtpSession.Delivered info t content id path) -> ~ removable id ->
  rtc event w1 w2 ->
  (exists kept last, holds w2 kept last /\ kept !! id = Some content) /\
  (failure (gs (ar_store w2)) = None -> forall w3 (p : PopSession.session), rtc step w2 w3 ->
   PopSession.authenticated p = true -> PopSession.snapshot p = PopSession.TakeSnapshot w2 ->
   exists number, 1 <= number <= PopSession.Count (PopSession.snapshot p) /\
    (PopSession.is_deleted number p = false ->
     (PopSession.handle_retr (FormatUint number 10) p w3).1 =
       PopSession.stream ("+OK " ++ FormatUint (octets content) 10 ++ " octets") None (content, Sentinel IoEOF) p)).
Proof using GL AR SL RL buffers.
  intros Hw E Hi Hid H12. pose proof (session_filled server fuel stream w live s w1 Hw E) as Hf.
  destruct (delivered_kept server live _ s w1 id content Hf) as (kept1 & last1 & Hk1 & Hc1); [by eapply deliveries_elem|].
  destruct (archive_history_ok w1 w2 _ _ Hk1 H12) as (kept2 & last2 & Hk2 & [_ Hspared _ _]).
  assert (kept2 !! id = Some content) as Hc2 by (by apply Hspared). split; [by exists kept2, last2|].
  intros Hnone w3 p H23 Ha Hsnap. destruct (archive_run_ok w2 w3 _ _ Hk2 H23) as (kept3 & last3 & Hk3 & [_ _ _ Hg]).
  destruct Hk2 as [[[Hok2 _ _] _]|Hs2]; [|by destruct (sd_failure _ _ _ Hs2)].
  destruct (rtc_grown_shows _ _ (PopSession.snapshot p) kept2 Hg) as [_ Hshow].
  - rewrite Hsnap. apply Hok2.
  - rewrite Hsnap. by apply snapshotLocked_shows, Hok2.
  - apply (handle_retr_reads p w3 kept2 id content); [by eapply keeps_reader, archive_keeps_store | done..].
Qed.
End Senders.

(** ** To the readers *)

Section Readers.
Context `{RL : !RivalLaws (objects_of := objects_of) (files_of := files_of) (removable := removable)}.
Context `{CN : Conn, UT : UnicodeTables, SH : PopSyntax.Sha256, PE : PopSession.PopEnv}.
Context (others : nat -> archive -> archive) (others_run : forall k w, rtc step w (others k w)).

(** The IDs are those of the marked messages in a maildrop the session was shown. *)
Definition marked_ids (w : archive) (live : mailbox) (s : PopSession.session) (ids : list Z) : Prop :=
  exists shown, evolves (LastID (mb (ar_store w))) live shown /\ spares removable live shown /\
    ids ≡ₚ ID <$> PopSpec.marked_from 1 (numbered shown) (PopSession.deleted s).

(** C7: QUIT deletes what was marked, and nothing else is lost.  Over a whole POP3
    session on a running archive, let [now] be what other connections made of the
    mailbox: only messages that they may delete are gone, and only under new IDs
    are there others.  If the session asked for no deletion, [now] is what is
    kept.  If QUIT reported success, the archive is running and holds [now]
    without the deleted IDs, which are those of the messages that the session had
    marked in the maildrop it was shown.  If QUIT reported an error, [now] is kept
    whole, or the store failed for good during the commit and what Git holds is
    [now] without exactly the marked messages.  What is kept is the mailbox of
    the running archive or, if the store has failed, the one that the next start
    will find. *)
Theorem quit_deletes_marked (server : PopSession.Server) fuel stream w live s w' :
  running w live -> PopSession.serveConn server others fuel stream w = (s, w') ->
  exists now last, evolves (LastID (mb (ar_store w))) live now /\ spares removable live now /\
    match PopSpec.deletions (PopSession.trace s) with
    | [] => holds w' now last
    | (ids, _, true) :: _ => running w' (without ids now) /\ marked_ids w live s ids
    | (ids, _, false) :: _ => holds w' now last \/
        (store_stalled (ar_store w') (without ids now) last /\ marked_ids w live s ids)
    end.
Proof using GL AR SL RL others_run.
  intros Hw E. set (r0 := repository (gs (ar_store w))). set (last0 := LastID (mb (ar_store w))).
  assert (archive_settled (objects_of := objects_of) (files_of := files_of) (removable := removable) r0 last0 live w) as Hs
    by (exists live; split; [done | apply since_refl]).
  pose proof (archive_maildrop_laws (removable := removable) r0 last0 live) as ML.
  pose proof (archive_stalled_laws (removable := removable) r0 last0 live) as TL.
  pose proof (PopStalled.serveConn_or_adrift server _ _ others _ _ (archive_others r0 last0 live others others_run)
    (fun k w0 Hw0 => archive_stuck_next r0 last0 live w0 (others k w0) Hw0 (others_run k w0))
    (archive_shows_plausible r0 last0 live) fuel stream w Hs) as Hend.
  rewrite E in Hend. destruct Hend as [Hok|[(now & last & Hst & [H1 H2 _ _]) _ Hno]].
  2: { exists now, last. split_and!; [done | done |].
    destruct (PopSpec.deletions (PopSession.trace s)) as [|[[ids name] [|]] more]; [by right | | by left; right].
    by apply Forall_inv in Hno. }
  destruct (PopSpec.deletions (PopSession.trace s)) as [|[[ids name] executed] more] eqn:Ed.
  { destruct (PopSpec.so_good _ _ _ _ _ Hok Ed) as (now & Hn & [H1 H2 _ _]). exists now, (LastID (mb (ar_store w'))).
    split_and!; [done | done | by left]. }
  destruct (PopSession.closed s) eqn:Hc; [|pose proof (PopSpec.so_no_deletion _ _ _ _ _ Hok (or_introl Hc)); congruence].
  destruct (PopSession.authenticated s) eqn:Ha; [|pose proof (PopSpec.so_no_deletion _ _ _ _ _ Hok (or_intror Ha)); congruence].
  destruct (PopSpec.so_in _ _ _ _ _ Hok Ha) as (drop & Hd & _ & _ & [Hno|(ids' & r & before & Hdel & Hids & Hb & Hr)]); [congruence|].
  rewrite Ed in Hdel. injection Hdel as -> -> -> ->.
  destruct Hb as ((at_before & Hgood & Hsince) & shown & -> & _ & (r1 & last1 & [H1 H2 _ _]) & _).
  assert (marked_ids w live s ids') as Hmarked by (by exists shown).
  pose proof (PopSpec.so_name _ _ _ _ _ Hok) as Hname.
  assert (Forall (fun id => 0 <= id) ids') as Hpos.
  { rewrite Hids. apply Forall_forall. intros id Hid. apply list_elem_of_fmap in Hid as (m & -> & Hm).
    assert (Forall (fun m => 1 <= ID m /\ 0 <= Size m) (numbered shown)) as HF by (apply Hd).
    rewrite (PopSpec.marked_split 1 _ (PopSession.deleted s)), Forall_app, !Forall_forall in HF.
    pose proof (proj1 HF m Hm). simpl in *. lia. }
  destruct (archive_DeleteAs_ok ids' (PopSession.username s) before at_before Hgood Hpos) as (now & last & H4).
  { unfold octets, PopSyntax.maxCommandBytes in *. lia. }
  cbn [PopSession.DeleteAs archive_maildrop] in Hr. rewrite Hr in H4. destruct H4 as [Hsc H4].
  destruct (since_trans _ _ _ _ _ _ _ _ _ Hsince Hsc) as [H5 H6 _ _]. exists now, last. split_and!; [done | done |].
  destruct r; cbn [PopSpec.accepted]; [split; [apply H4 | done]|]. destruct H4; auto.
Qed.
End Readers.
End EndToEnd.

(** ** A concrete mail server *)

Module Demo.
Import ToyGit MailboxTheorems.
Existing Instances SmtpTheorems.Demo.tables SmtpTheorems.Demo.conn SmtpTheorems.Demo.env PopTheorems.Demo.sha PopTheorems.Demo.env
  ToyStart.toy_refs.

#[local] Instance surroundings : Surroundings := {|
  clock _ _ := "2024-01-01"; tmp_mkdir _ := None; tmp_name n := Ok (replicate (S n) "t"%char); tmp_write _ _ := None;
  tmp_sync _ := None; tmp_close _ := None; tmp_read _ := None; receipt_write _ _ := None; rival _ _ s := s; attempts := 1%nat |}.

(** Nobody else deletes. *)
Definition nobody (id : Z) : Prop := False.

#[local] Instance surroundings_laws : SurroundingsLaws.
Proof.
  split.
  - by intros n p [= <-].
  - intros n n' p [= <-] [= E]. apply (f_equal length) in E. rewrite !length_replicate in E. lia.
Defined.

#[local] Instance rival_laws : RivalLaws (objects_of := toy_objects) (files_of := toy_files) (removable := nobody).
Proof.
  split.
  - intros n k s live Hs Hb. exists live, (LastID (mb s)). split_and!; [by left | done | apply since_refl].
  - done.
  - done.
  - cbn. lia.
Defined.

Definition empty_archive : archive := {|
  ar_store := {| mb := state0; gs := gs toy_store;
    bud := {| maxDailyBytes := DefaultMaxDailyBytes; receipt := None; reservedBytes := 0 |}; rd := idle_reader |};
  ar_heap := []; ar_files := ∅; ar_calls := 0 |}.

Lemma empty_archive_runs : archive_runs (objects_of := toy_objects) (files_of := toy_files) empty_archive ∅.
Proof.
  split; [|done | by vm_compute]. split; cbn; try done. apply (store_ok_set_budget toy_store ∅ _ toy_store_ok).
Qed.

Lemma buffers : Forall (fun n => Z.of_nat n <= 32768) SmtpSession.copy_sizes.
Proof. apply (bool_decide_unpack _). by vm_compute. Qed.

(** One message arrives. *)
Definition received : SmtpSession.session * archive :=
  SmtpSession.serveConn SmtpTheorems.Demo.server 20 SmtpTheorems.Demo.client empty_archive.

Lemma received_one : deliveries (SmtpSession.trace received.1) = [(1, mail)].
Proof. vm_compute. reflexivity. Qed.

Lemma received_last : exists i info t path,
  SmtpSession.trace received.1 !! i = Some (SmtpSession.Delivered info t mail 1 path).
Proof. exists 5%nat. do 3 eexists. vm_compute. reflexivity. Qed.

(** The archive with that message in it, without the way there. *)
Definition full_archive : archive := received.2.

Lemma received_eta : SmtpSession.serveConn SmtpTheorems.Demo.server 20 SmtpTheorems.Demo.client empty_archive
  = (received.1, full_archive).
Proof. unfold full_archive, received. destruct (SmtpSession.serveConn _ _ _ _). reflexivity. Qed.

Lemma received_no_failure : failure (gs (ar_store full_archive)) = None.
Proof. vm_compute. reflexivity. Qed.

Lemma full_archive_runs : archive_runs (objects_of := toy_objects) (files_of := toy_files) full_archive {[1 := mail]}.
Proof.
  pose proof (session_filled buffers SmtpTheorems.Demo.server 20 SmtpTheorems.Demo.client empty_archive ∅ received.1 full_archive
    empty_archive_runs received_eta) as [H _ _].
  rewrite received_one in H. destruct H as [H|(kept & last & [Hf _ _ _ _] & _)]; [exact H|].
  destruct (Hf received_no_failure).
Qed.

Definition alone (turn : nat) (w : archive) : archive := w.

Lemma alone_run k w : rtc (archive_step (objects_of := toy_objects) (removable := nobody)) w (alone k w).
Proof. apply rtc_refl. Qed.

(** The archive opened again after that. *)
Lemma reopens : exists s', opens_on (repository (gs (ar_store full_archive))) s'.
Proof.
  destruct (keeps_at_rest _ _ _ (archive_keeps_store _ _ _ (archive_runs_keeps _ _ full_archive_runs))) as (state & Hr & _).
  destruct (NewWithOptions_ok (GitI := toy_git) (IN := ToyStart.toy_machine) (MF := ToyStart.no_files) (SD := ToyStart.toy_directory) (objects_of := toy_objects)
    "archive" toy_ref 0 _ _ _ (Err ToyStart.not_there) None (fun _ => None) ToyStart.toy_healthy Hr) as (s' & E & _); [by split|].
  exists s', ToyStart.toy_machine, ToyStart.no_files, ToyStart.toy_directory, ("archive" : str), toy_ref, 0, (Err ToyStart.not_there),
    None, (fun _ => None).
  split; [exact ToyStart.toy_healthy|]. split; [by split|]. split; [lia|]. split; [done | exact E].
Qed.

(** A client that logged in on an archive and marked nothing, and one that deletes
    the message. *)
Definition reader (w : archive) : PopSession.session := {|
  PopSession.username := "alice"; PopSession.authenticated := true; PopSession.snapshot := PopSession.TakeSnapshot w;
  PopSession.deleted := ∅; PopSession.deletedOctets := 0; PopSession.authFailures := 0; PopSession.input := [];
  PopSession.rounds := 0; PopSession.writes := 0; PopSession.trace := []; PopSession.closed := false |}.

Definition deleter : str := PopTheorems.Demo.login ++ PopTheorems.Demo.line "DELE 1" ++ PopTheorems.Demo.line "QUIT".
End Demo.

(** ** Witnesses *)

Section Witnesses.
Import ToyGit MailboxTheorems Demo.
Existing Instances SmtpTheorems.Demo.tables SmtpTheorems.Demo.conn SmtpTheorems.Demo.env PopTheorems.Demo.sha PopTheorems.Demo.env ToyStart.toy_refs
  surroundings surroundings_laws rival_laws.


(** The archive is opened again before the reader comes. *)
Lemma mail_reaches_the_reader_witness :
  exists w, archive_restart full_archive w /\
  exists number, 1 <= number /\
    (PopSession.handle_retr (FormatUint number 10) (reader w) w).1 =
      PopSession.stream ("+OK " ++ FormatUint (octets mail) 10 ++ " octets") None (mail, Sentinel IoEOF) (reader w).
Proof.
  destruct received_last as (i & info & tr & path & Hi). destruct reopens as [s' Hs'].
  pose proof (as_restart full_archive s' Hs') as Hre.
  set (w := {| ar_store := s'; ar_heap := []; ar_files := ar_files full_archive; ar_calls := S (ar_calls full_archive) |}) in *.
  exists w. split; [exact Hre|].
  destruct (archive_restart_ok full_archive w _ _ (archive_runs_keeps _ _ full_archive_runs) Hre) as ([_ Hf _] & _).
  assert (rtc (archive_event (objects_of := toy_objects) (removable := nobody)) full_archive w) as Hhistory
    by (apply rtc_once; right; exact Hre).
  destruct (mail_reaches_the_reader (removable := nobody) buffers SmtpTheorems.Demo.server 20 SmtpTheorems.Demo.client
    empty_archive ∅ received.1 full_archive i info tr mail 1 path w
    empty_archive_runs received_eta Hi (fun H => H) Hhistory) as [_ H].
  destruct (H Hf w (reader w) (rtc_refl _ _) eq_refl eq_refl) as (number & Hn & Hr).
  exists number. split; [exact (proj1 Hn) | apply Hr; reflexivity].
Defined.

Lemma quit_deletes_marked_witness :
  exists now, now !! 1 = Some mail /\
    archive_runs (objects_of := toy_objects) (files_of := toy_files)
      (PopSession.serveConn PopTheorems.Demo.server alone 9 deleter full_archive).2 (without [1] now).
Proof.
  destruct (PopSession.serveConn PopTheorems.Demo.server alone 9 deleter full_archive) as [s w] eqn:E.
  assert (PopSpec.deletions (PopSession.trace s) = [([1], "alice" : str, true)]) as Hd.
  { apply (f_equal (fun r => PopSpec.deletions (PopSession.trace r.1))) in E. cbn [fst] in E. rewrite <- E. vm_compute. reflexivity. }
  destruct (quit_deletes_marked alone alone_run PopTheorems.Demo.server 9 deleter full_archive {[1 := mail]} s w
    full_archive_runs E) as (now & last & _ & Hspares & Hfinal).
  rewrite Hd in Hfinal. exists now. split; [|exact (proj1 Hfinal)].
  apply Hspares; [apply lookup_singleton_eq | exact (fun H => H)].
Defined.
End Witnesses.
