(* ===== verification/ArchiveServes.v ===== *)
(** * The archive serves

    While Git takes commits, the disk takes files and the day's budget is not used
    up, every message that is delivered is published: the archive is a store that
    serves in the sense of [SmtpLiveness.DeliveryServes]. *)

From S2P Require Import Prelude GoStrings IdPath Directories Numbering Cache Tree CatFile Listing Contents State StateBound Quota Import.
From S2P Require Import Mailbox MailboxSpec MailboxTheorems Startup Restart Holding Archive ArchiveSpec ArchiveLaws ArchiveSmtp.
From S2P Require Wire SmtpSyntax SmtpData SmtpSession SmtpSpec SmtpLiveness.

(** ** Git at work *)

(** A path an archive may hold, in a change Git is asked for. *)
Definition change_valid (c : fi_change) : bool :=
  match c with FileModify path _ | FileDelete path => validArchivePath path end.

Section Serving.
Context `{GitI : Git, MO : MapOrder}.

(** Documented behaviour: while it has the [capacity] for a commit, Git takes a
    transaction that continues the branch [ref] it has checked out, names the new
    commit, echoes the checkpoint and has moved HEAD to the commit. *)
Class GitServes (capacity : str -> repo -> nat) : Prop := {
  gv_start : import_start_error = None;
  gv_timely title : import_interruption title = None;
  gv_commit ref r tx c : (0 < capacity ref r)%nat -> fi_parse tx = Some c -> fc_ref c = ref ->
    head r = (default [] (fc_from c), None) -> forallb change_valid (fc_changes c) = true -> (length (fc_changes c) <= 2)%nat ->
    exists next, mark_line r tx = Ok next /\ validObjectID next = true /\
      checkpoint_line r tx ("checkpoint" ++ LF :: "progress " ++ next ++ [LF]) = Ok ("progress " ++ next) /\
      head (published r tx) = (next, None) /\ (capacity ref r <= S (capacity ref (published r tx)))%nat;
}.

Context {capacity : str -> repo -> nat} `{GV : !GitServes capacity}.

#[export] Instance serves_timely : Timely.
Proof using GV. exact gv_timely. Qed.

(** The store's half of it: nothing failed, and HEAD is where the store left it. *)
Record git_ready (g : gitState) : Prop := {
  gr_failure : failure g = None;
  gr_closed : closed (import g) = false;
  gr_error : importError (import g) = None;
  gr_head : head (repository g) = (headID g, None);
}.

Lemma importer_serves i : closed i = false -> importError i = None ->
  exists process i', importerLocked i = (Ok process, i') /\ closed i' = false /\ importError i' = None.
Proof.
  intros Hc He. unfold importerLocked. cbn. rewrite Hc, He. destruct (importer i); [by eexists _, _|].
  rewrite gv_start. by eexists _, _.
Qed.
(** Changes of valid paths are written. *)
Lemma changes_written (l : list (str * str)) : Forall (fun e => validArchivePath e.1 = true) l ->
  exists bytes, import_changes ((fun e => (e.1, Some e.2)) <$> l) = Ok bytes.
Proof.
  induction 1 as [|[p c] l Hp _ (bytes & IH)]; [by eexists|]. cbn [fmap list_fmap fst snd] in *. cbn [import_changes].
  unfold import_change. rewrite Hp, IH. by eexists.
Qed.

Lemma transaction_written (mark : Z) (title ref parent : str) (m : gmap str str) :
  (forall p c, m !! p = Some c -> validArchivePath p = true) ->
  exists bytes, import_transaction mark title ref parent (map_order (Some <$> m)) [] = Ok bytes.
Proof.
  intros Hm. destruct (changes_order m) as (l & -> & HP). unfold import_transaction.
  destruct (changes_written l) as (bytes & ->).
  { apply Forall_forall. intros [p c] Hin. rewrite HP in Hin. apply elem_of_map_to_list in Hin. by eapply Hm. }
  by eexists.
Qed.

Lemma contents_valid (m : gmap str str) cs : (forall p c, m !! p = Some c -> validArchivePath p = true) ->
  contents_of (map_order (Some <$> m)) = Ok cs -> forallb change_valid cs = true /\ length cs = size m.
Proof.
  intros Hm. destruct (changes_order m) as (l & -> & HP). rewrite contents_of_some. intros <-%Ok_inj. split.
  - apply forallb_Forall, Forall_fmap, Forall_forall. intros [p c] Hin. rewrite HP in Hin.
    apply elem_of_map_to_list in Hin. by apply (Hm p c).
  - by rewrite length_fmap, HP, length_map_to_list.
Qed.

(** ** A commit succeeds *)

Lemma import_serves (process : Z) (title : str) (state : mailboxState) (m : gmap str str) (g : gitState) : git_ready g ->
  (0 < capacity (refName g) (repository g))%nat ->
  LF ∉ refName g -> validObjectID (headID g) = true -> octets title < 2 ^ 63 ->
  (size (<[mailboxStateName := Marshal state ++ [LF]]> m) <= 2)%nat ->
  (forall p c, (<[mailboxStateName := Marshal state ++ [LF]]> m) !! p = Some c -> validArchivePath p = true /\ octets c < 2 ^ 63) ->
  exists g', importCommitLocked process title state (Some <$> m) [] g = (Ok tt, g') /\ git_ready g' /\
    refName g' = refName g /\
    (capacity (refName g) (repository g) <= S (capacity (refName g') (repository g')))%nat.
Proof using GV.
  intros [Hf Hc He Hh] Hcap Href Hhead Ht Hsize Hm. unfold importCommitLocked. rewrite <- fmap_insert.
  set (files := <[mailboxStateName := Marshal state ++ [LF]]> m) in *. set (mark := u64 (process + 1)).
  destruct (transaction_written mark title (refName g) (headID g) files) as (tx & Htx); [intros p c Hp; by eapply Hm|].
  cbn [set_import refName headID repository]. rewrite Htx.
  destruct (transaction_parse _ _ _ _ _ _ _ Htx) as (cs & Hcs & Hparse); [done | by apply validObjectID_query | done | |].
  { apply small_some. intros p c Hp. by eapply Hm. }
  destruct (contents_valid files cs) as [Hvalid Hlen]; [intros p c Hp; by eapply Hm | done |].
  rewrite (bool_decide_eq_false_2 (headID g = [])) in Hparse by (intros E; rewrite E in Hhead; done).
  destruct (gv_commit (refName g) (repository g) tx _ Hcap Hparse) as (next & Hmark & Hnext & Hcheck & Hpub & Hleft);
    [done | exact Hh | by cbn; rewrite app_nil_r | cbn; rewrite app_nil_r; lia |].
  rewrite Hmark, Hnext. cbn [negb]. rewrite Hcheck, bool_decide_eq_true_2 by done. cbn [negb].
  cbn [set_repository set_import repository]. rewrite Hpub, bool_decide_eq_true_2 by done. cbn [negb].
  eexists. split; [reflexivity|]. split; [by split|]. by split.
Qed.

Lemma commit_serves (title : str) (state : mailboxState) (m : gmap str str) (g : gitState) : git_ready g ->
  (0 < capacity (refName g) (repository g))%nat ->
  LF ∉ refName g -> validObjectID (headID g) = true -> octets title < 2 ^ 63 ->
  (exists index, buildDirectoryIndex (Directories state) (LastID state) = Ok index) ->
  (size (<[mailboxStateName := Marshal state ++ [LF]]> m) <= 2)%nat ->
  (forall p c, (<[mailboxStateName := Marshal state ++ [LF]]> m) !! p = Some c -> validArchivePath p = true /\ octets c < 2 ^ 63) ->
  exists g', commitChanges title state (Some <$> m) [] g = (Ok tt, g') /\ git_ready g' /\
    refName g' = refName g /\
    (capacity (refName g) (repository g) <= S (capacity (refName g') (repository g')))%nat.
Proof using GV.
  intros Hg Hcap Href Hhead Ht [index Hi] Hsize Hm. unfold commitChanges.
  rewrite (gr_failure _ Hg), Hi, (gr_head _ Hg). rewrite (bool_decide_eq_false_2 (headID g <> headID g)) by (by intros []).
  rewrite (bool_decide_eq_false_2 (None <> None)) by (by intros []). cbn [andb orb].
  destruct (importer_serves (import g)) as (process & i & -> & Hc & He); [apply Hg..|].
  destruct (import_serves process title state m (set_import i g)) as (g' & -> & [Hf' Hc' He' Hh'] & Hr' & Hcap');
    [destruct Hg; by split | done.. |].
  rewrite gv_timely. cbn [watchGit]. eexists. split; [reflexivity|].
  split; [split; cbn; try done; unfold armIdleLocked; by destruct (importer (import g'))|]. by split.
Qed.
End Serving.

(** ** The budget of a message *)

(** What may still be reserved today. *)
Definition avail (b : budget) : Z :=
  maxDailyBytes b - match receipt b with Some usage => ChargedBytes usage | None => 0 end - reservedBytes b.

Lemma usage_charged (day : str) (b : budget) : bud_ok b ->
  0 <= (receiptUsageLocked day b).2 <= match receipt b with Some usage => ChargedBytes usage | None => 0 end.
Proof.
  intros Hb. split; [by apply usage_nonneg|]. destruct Hb as (_ & _ & Hr). unfold receiptUsageLocked.
  destruct (receipt b); [destruct (negb _)|]; cbn; lia.
Qed.

Lemma can_reserve (day : str) (b : budget) extra : bud_ok b -> 0 <= extra <= avail b -> canReserveLocked day b extra = true.
Proof.
  intros Hb He. pose proof (usage_charged day b Hb). destruct Hb as (Hm & Hr & _). unfold avail in He.
  apply (canReserve_spec (maxDailyBytes b)); [unfold MaxUint64; lia | done | lia | done | lia].
Qed.

Lemma cost_bounds n : 0 <= n -> n <= cost n /\ minimumReceiptCharge <= cost n.
Proof. unfold cost, minimumReceiptCharge. lia. Qed.

Lemma cost_mono n n' : n <= n' -> cost n <= cost n'.
Proof. unfold cost, minimumReceiptCharge. lia. Qed.

Lemma quota_serves base (day : str) n err r m b : staging base r m b -> 0 <= n < 2 ^ 62 ->
  cost (qr_consumed r + n) <= avail b + sm_reserved m ->
  exists r' m' b', quotaReader_Read day n err r m b = (n, err, r', m', b') /\ staging base r' m' b' /\
    sm_path m' = sm_path m /\ qr_consumed r' = qr_consumed r + n /\ avail b' + sm_reserved m' = avail b + sm_reserved m.
Proof.
  intros Hs Hn Ha. pose proof (quotaReader_Read_ok base day n err r m b Hs Hn) as Hok. unfold quotaReader_Read in *.
  destruct (Z.eqb_spec n 0) as [->|Hn0]; [exists r, m, b; split_and!; try done; lia|].
  destruct Hs as [H1 H2 H3 H4 H5 H6 H7]. unfold cost, minimumReceiptCharge in *. destruct H7 as (Hm & Hr & Hu).
  assert (0 <= match receipt b with Some usage => ChargedBytes usage | None => 0 end) by (destruct (receipt b); lia).
  unfold avail in Ha.
  rewrite (u64_small (qr_consumed r + n)) in * by (unfold is_u64, MaxUint64; lia).
  set (charge := if qr_consumed r + n <? 4096 then 4096 else qr_consumed r + n) in *.
  assert (charge = Z.max 4096 (qr_consumed r + n)) as Ec by (unfold charge; destruct (Z.ltb_spec (qr_consumed r + n) 4096); lia).
  rewrite (u64_small (charge - sm_reserved m)) in * by (unfold is_u64, MaxUint64; lia).
  assert (canReserveLocked day b (charge - sm_reserved m) = true) as Hcan
    by (apply can_reserve; [by split | unfold avail; lia]).
  rewrite Hcan in Hok |- *. cbn [negb] in Hok |- *.
  rewrite (u64_small (reservedBytes b + (charge - sm_reserved m))) in Hok |- * by (unfold is_u64, MaxUint64; lia).
  eexists _, _, _. split; [reflexivity|]. destruct Hok as (Hst & Hp & _). split_and!; [done | done | done |].
  unfold avail. cbn [maxDailyBytes receipt reservedBytes set_reserved sm_reserved]. lia.
Qed.

(** A source that ends, into a file that takes what it is given. *)
Lemma copy_serves `{TempFile} base (before : list (str * option error)) (bytes : str) (e : error) (days : nat -> str) :
  (forall data, write_temp data = None) -> errors_Is e IoEOF = true -> Forall (fun d => d.2 = None) before ->
  Forall (fun d => octets d.1 < 2 ^ 62) (before ++ [(bytes, Some e)]) ->
  forall written r m b, staging base r m b -> written = qr_consumed r ->
  cost (qr_consumed r + octets (mjoin (before ++ [(bytes, Some e)]).*1)) <= avail b + sm_reserved m ->
  exists total r' m' b', stage_copy (imap (fun k (d : str * option error) => (d.1, d.2, days k)) (before ++ [(bytes, Some e)])) written r m b = (Ok total, m', b') /\
    staging base r' m' b' /\ sm_path m' = sm_path m /\
    qr_consumed r' = qr_consumed r + octets (mjoin (before ++ [(bytes, Some e)]).*1) /\
    avail b' + sm_reserved m' = avail b + sm_reserved m.
Proof.
  intros Hw He Hnone Hsmall. revert days Hsmall. induction Hnone as [|[data err] before Herr _ IH]; intros days Hsmall written r m b Hs -> Hcost.
  - cbn [app imap] in *. cbn [stage_copy]. pose proof (Forall_inv Hsmall) as Hd. cbn [fst snd] in *.
    cbn [fmap list_fmap fst mjoin list_join] in *. rewrite app_nil_r in *. unfold octets in *.
    destruct (quota_serves base (days 0%nat) (Z.of_nat (length bytes)) (Some e) r m b Hs) as (r' & m' & b' & -> & Hs' & Hp & Hc & Ha);
      [lia | done |].
    rewrite Hw, He. destruct (0 <? Z.of_nat (length bytes)); eexists _, r', m', b'; by split_and!.
  - cbn [snd] in Herr. subst err. change (((data, None) :: before) ++ [(bytes, Some e)]) with ((data, None) :: (before ++ [(bytes, Some e)])) in *.
    rewrite imap_cons. cbn [stage_copy fst snd]. apply Forall_cons in Hsmall as [Hd Hsmall]. cbn [fst] in Hd.
    cbn [fmap list_fmap fst] in *. change (mjoin (data :: ?l)) with (data ++ mjoin l) in *.
    set (rest := mjoin _) in *. unfold octets in *. rewrite length_app, Nat2Z.inj_add in *.
    destruct (quota_serves base (days 0%nat) (Z.of_nat (length data)) None r m b Hs) as (r' & m' & b' & -> & Hs' & Hp & Hc & Ha);
      [lia | etransitivity; [apply cost_mono | exact Hcost]; lia |].
    rewrite Hw. destruct (IH (days ∘ S) Hsmall (qr_consumed r + Z.of_nat (length data)) r' m' b' Hs') as (total & r2 & m2 & b2 & E & Hs2 & Hp2 & Hc2 & Ha2);
      [lia | rewrite Hc, Ha; unfold octets; fold rest; by rewrite <- Z.add_assoc |].
    exists total, r2, m2, b2. split; [|split_and!; [done | congruence | unfold octets in Hc2; fold rest in Hc2; lia | lia]].
    rewrite <- E. by destruct (0 <? Z.of_nat (length data)).
Qed.

Lemma ends_once_before before (bytes : str) (e : error) : SmtpSpec.ends_once (before ++ [(bytes, Some e)]) ->
  Forall (fun d : str * option error => d.2 = None) before.
Proof.
  intros Hends. apply Forall_lookup. intros i [b [e'|]] Hi; [|done]. exfalso.
  pose proof (lookup_lt_Some _ _ _ Hi). specialize (Hends i b e').
  rewrite lookup_app_l, length_app in Hends by done. specialize (Hends Hi). cbn in Hends. lia.
Qed.

Lemma stage_reserve_avail failure (day : str) b m b' : bud_ok b -> stage_reserve failure day b = Ok (m, b') ->
  avail b' + sm_reserved m = avail b.
Proof.
  intros Hb Hr. pose proof (st_sum _ _ _ _ (stage_reserve_ok failure day b m b' Hb Hr)) as Hsum. unfold stage_reserve in Hr.
  destruct failure; [done|]. destruct (negb _); [done|]. injection Hr as <- <-. unfold avail. cbn in *. lia.
Qed.

Section Archive.
Context `{GitI : Git, MO : MapOrder, GR : !GitReader, GT : GraphicTable, SU : !Surroundings}.
Context {objects_of : repo -> str -> option gitObject} {files_of : repo -> str -> option (gmap str str)}.

Abbreviation archive_good := (archive_ok (objects_of := objects_of) (files_of := files_of)).
Abbreviation store_good := (store_ok (objects_of := objects_of) (files_of := files_of)).

(** The file system does what it is asked. *)
Class DiskServes : Prop := {
  sv_mkdir n : tmp_mkdir n = None;
  sv_name n : exists p, tmp_name n = Ok p;
  sv_write n data : tmp_write n data = None;
  sv_sync n : tmp_sync n = None;
  sv_close n : tmp_close n = None;
  sv_read n : tmp_read n = None;
  sv_receipt n usage : receipt_write n usage = None;
}.

Context {capacity : str -> repo -> nat} `{GV : !GitServes capacity, DS : !DiskServes}.
Context `{GL : !GitLaws objects_of files_of, SL : !SurroundingsLaws}.

(** ** Staging *)

Lemma stage_serves (reads : list (str * option error)) (w : archive) live : archive_good w live ->
  failure (gs (ar_store w)) = None -> SmtpSpec.ends_once reads -> SmtpSpec.complete reads -> small_reads reads ->
  cost (octets (mjoin reads.*1)) <= avail (bud (ar_store w)) ->
  exists r w' m, archive_Stage reads w = (Ok r, w') /\ archive_good w' live /\ archive_Open r w' = mjoin reads.*1 /\
    ar_heap w' !! sr_index r = Some m /\ sm_done m = false /\ sm_path m <> [] /\
    0 <= sm_reserved m <= reservedBytes (bud (ar_store w')) /\
    avail (bud (ar_store w)) - cost (octets (mjoin reads.*1)) <= avail (bud (ar_store w')).
Proof.
  intros Hok Hfail Hends (before & bytes & e & -> & He) Hsmall Hcost.
  pose proof (archive_Stage_ok (before ++ [(bytes, Some e)]) w live Hok Hsmall) as Hstage.
  destruct (archive_Stage_store (before ++ [(bytes, Some e)]) w) as (Hmb & Hgs & _).
  destruct (ends_once_copied before bytes e [] Hends) as [_ Hcopied]. rewrite Hcopied in Hstage.
  set (reads := before ++ [(bytes, Some e)]) in *. set (content := mjoin reads.*1) in *.
  destruct (cost_bounds (octets content)) as [Hc1 Hc2]; [unfold octets; lia|].
  assert (exists r w', archive_Stage reads w = (Ok r, w') /\ exists m b, ar_heap w' !! sr_index r = Some m /\
    ar_store w' = set_budget b (ar_store w) /\ sm_path m <> [] /\ 0 <= sm_reserved m <= reservedBytes b /\
    avail (bud (ar_store w)) - cost (octets content) <= avail b) as (r & w' & E & m & b & Hm & Hb & Hp & Hr & Ha).
  2: { rewrite E in Hstage. destruct Hstage as (Hok' & Hopen & (m' & Hm' & Hd') & _). rewrite Hm in Hm'. injection Hm' as <-.
    exists r, w', m. rewrite Hb. cbn [bud set_budget]. destruct Hr as [Hr1 Hr2]. by split_and!. }
  clear Hstage Hmb Hgs. unfold archive_Stage, Stage. rewrite Hfail. pose proof (ao_bud _ _ Hok) as Hbud.
  destruct (stage_reserve None (clock (ar_calls w) 1) (bud (ar_store w))) as [[m0 b0]|] eqn:Er.
  2: { unfold stage_reserve in Er. rewrite can_reserve in Er; [discriminate Er | done | unfold minimumReceiptCharge in *; lia]. }
  pose proof (stage_reserve_ok _ _ _ _ _ Hbud Er) as Hs0. pose proof (stage_reserve_avail _ _ _ _ _ Hbud Er) as Ha0.
  cbn [mkdir_error create_temp sync_error close_error temp_file]. rewrite sv_mkdir, sv_sync, sv_close.
  destruct (sv_name (ar_calls w)) as [path Hpath]. rewrite Hpath.
  set (m1 := {| sm_path := path; sm_size := sm_size m0; sm_reserved := sm_reserved m0; sm_done := sm_done m0 |}).
  assert (staging (reservedBytes (bud (ar_store w))) {| qr_consumed := 0 |} m1 b0) as Hs1 by (destruct Hs0; by split).
  destruct (copy_serves (H := temp_file (ar_calls w)) (reservedBytes (bud (ar_store w))) before bytes e
    (fun k => clock (ar_calls w) (S (S k)))) with (written := 0) (r := {| qr_consumed := 0 |}) (m := m1) (b := b0)
    as (total & r' & m' & b' & Ecopy & Hs' & Hp' & Hq' & Ha');
    [intros data; apply sv_write | done | by eapply ends_once_before | done | done | done | cbn [qr_consumed sm_reserved m1]; fold reads content; rewrite Ha0; exact Hcost |].
  fold reads in Ecopy. rewrite Ecopy. cbn [qr_consumed] in Hq'. fold reads content in Hq'. rewrite Z.add_0_l in Hq'. cbn [sm_reserved m1] in Ha'.
  eexists _, _. split; [reflexivity|]. eexists _, b'. cbn [ar_heap ar_store sr_index].
  split; [by rewrite lookup_app_r, Nat.sub_diag by lia|]. split; [done|]. cbn [sm_path sm_reserved]. rewrite Hp'.
  split; [by eapply tmp_name_some|]. pose proof (st_reserved _ _ _ _ Hs') as Hres. rewrite Hq' in Hres.
  pose proof (st_sum _ _ _ _ Hs'). pose proof (st_base _ _ _ _ Hs'). unfold minimumReceiptCharge in *. lia.
Qed.
(** ** Publishing *)

Lemma charge_serves (day : str) (write : dailyReceipt -> option error) m b : bud_ok b -> 0 <= avail b ->
  0 <= sm_reserved m <= reservedBytes b -> sm_done m = false -> (forall usage, write usage = None) ->
  exists m' b', publish_charge day write m b = (None, m', b') /\ avail b <= avail b'.
Proof using Type.
  intros Hb Ha Hr Hd Hw. pose proof (usage_charged day b Hb) as Hu. unfold publish_charge.
  destruct (receiptUsageLocked day b) as [d used]. cbn [snd] in Hu. rewrite Hw. unfold discardLocked. rewrite Hd.
  eexists _, _. split; [reflexivity|]. unfold avail in *. cbn [maxDailyBytes receipt reservedBytes set_receipt set_reserved ChargedBytes].
  destruct Hb as (Hm & _ & _). rewrite !u64_small by (unfold is_u64, MaxUint64; lia). lia.
Qed.

Lemma next_state_builds (size : Z) (old state : mailboxState) (path : str) : next_state size old = Ok (path, state) ->
  exists index, buildDirectoryIndex (Directories state) (LastID state) = Ok index.
Proof using Type.
  unfold next_state. destruct (_ =? _); [done|]. intros (p & _ & Hn)%rbind_Ok. destruct (_ <? _); [done|].
  apply rbind_Ok in Hn as (index & Hi & Hn). apply Ok_inj in Hn. injection Hn as _ <-. by exists index.
Qed.

Lemma delivery_title (n : Z) : is_u64 n -> octets ("mail: receive " ++ FormatUint n 10) < 2 ^ 63.
Proof using Type.
  intros Hn. unfold octets. rewrite length_app. pose proof (FormatUint_length10 n Hn).
  change (length (list_ascii_of_string "mail: receive ")) with 14%nat. lia.
Qed.

(** The two files of a delivery. *)
Lemma delivery_files (blob content : str) (id : Z) : valid_id id -> octets blob < 2 ^ 63 -> octets content < 2 ^ 63 ->
  let m := <[mailboxStateName := blob]> ({[mail_path id (octets content) := content]} : gmap str str) in
  (size m <= 2)%nat /\ forall p c, m !! p = Some c -> validArchivePath p = true /\ octets c < 2 ^ 63.
Proof using Type.
  intros Hv Hb Hc m. split.
  - unfold m. destruct (decide (({[mail_path id (octets content) := content]} : gmap str str) !! (mailboxStateName : str) = None)) as [E|E].
    + rewrite map_size_insert_None by done. by rewrite map_size_singleton.
    + rewrite map_size_insert_Some by (by destruct (_ !! _)). by rewrite map_size_singleton; lia.
  - intros p c [[<- <-]|[_ Hp]]%lookup_insert_Some; [done|]. apply lookup_singleton_Some in Hp as [<- <-]. split; [|done].
    apply validArchivePath_spec. right. eexists. apply messageFromPath_mail; [done|].
    unfold is_u64, MaxUint64, octets in *. lia.
Qed.

(** What a store can still take, apart from the budget. *)
Definition store_room (s : Store) : Z :=
  Z.min (4096 * Z.of_nat (capacity (refName (gs s)) (repository (gs s))))
    (Z.min (4096 * (MaxUint64 - LastID (mb s))) (MaxUint64 - TotalOctets (mb s))).

Lemma publish_serves `{SF : StoreFiles} (now day : str) m s live content : store_good s live -> git_ready (gs s) ->
  read_staged (sm_path m) = Ok content -> octets content = sm_size m -> octets content < 2 ^ 63 ->
  sm_path m <> [] -> sm_done m = false -> (forall usage, write_receipt usage = None) ->
  bud_ok (bud s) -> 0 <= avail (bud s) -> 0 <= sm_reserved m <= reservedBytes (bud s) -> cost (octets content) <= store_room s ->
  exists id path m' s', Publish now day (Some m) s = (Ok (id, path), m', s') /\ git_ready (gs s') /\
    avail (bud s) <= avail (bud s') /\ store_room s - cost (octets content) <= store_room s'.
Proof using GV GL.
  intros Hok Hg Hread Hsize Hlen Hp Hd Hw Hb Ha Hr Hroom. unfold Publish.
  destruct (cost_bounds (octets content)) as [Hc1 Hc2]; [unfold octets; lia|]. unfold minimumReceiptCharge in Hc2.
  assert (is_u64 (octets content)) as Hu by (unfold is_u64, MaxUint64, octets in *; lia).
  unfold store_room in Hroom.
  destruct (next_state_ok s live (octets content) Hok Hu) as (state & En & H1 & H2 & H3 & H4 & H5 & H6 & Hjson);
    [unfold MaxUint64 in *; lia | rewrite <- (so_total _ _ Hok); lia |].
  rewrite bool_decide_eq_false_2, (gr_failure _ Hg), Hd, can_reserve, <- Hsize, En, Hread by (done || lia). cbn [negb].
  destruct (charge_serves day write_receipt m (bud s)) as (m' & b' & Echarge & Hb'); [done..|]. rewrite Echarge.
  rewrite <- (map_fmap_singleton Some).
  pose proof (so_last _ _ Hok) as Hlast. pose proof (total_octets_nonneg live).
  assert (valid_id (LastID (mb s) + 1)) as Hv by (unfold valid_id, MaxUint64 in *; lia).
  destruct (delivery_files (Marshal state ++ [LF]) content (LastID (mb s) + 1) Hv Hjson Hlen) as [Hfiles Hvalid].
  destruct (commit_serves ("mail: receive " ++ FormatUint (LastID state) 10) state
    {[mail_path (LastID (mb s) + 1) (octets content) := content]} (gs s) Hg) as (g & -> & Hg' & Href & Hcap).
  - lia.
  - apply Hok.
  - apply Hok.
  - apply delivery_title. rewrite H1. unfold is_u64, valid_id in *. lia.
  - by eapply next_state_builds.
  - exact Hfiles.
  - exact Hvalid.
  - eexists _, _, _, _. split; [reflexivity|]. split; [exact Hg'|]. split; [exact Hb'|].
    unfold store_room. cbn [gs mb]. rewrite H1, H2, <- (so_total _ _ Hok). lia.
Qed.
(** ** The interface *)

(** Nothing failed so far. *)
Definition archive_serving (w : archive) : Prop := git_ready (gs (ar_store w)) /\ exists live, archive_good w live.

(** The octets that can still be received: today's budget, Git's capacity for
    commits (each costs at least 4096), and the 64-bit counters. *)
Definition archive_room (w : archive) : Z := Z.min (avail (bud (ar_store w))) (store_room (ar_store w)).

Lemma archive_publish_serves r w live m content : archive_good w live -> git_ready (gs (ar_store w)) ->
  ar_heap w !! sr_index r = Some m -> sm_done m = false -> sm_path m <> [] -> archive_Open r w = content ->
  0 <= sm_reserved m <= reservedBytes (bud (ar_store w)) ->
  0 <= avail (bud (ar_store w)) -> cost (octets content) <= store_room (ar_store w) ->
  exists id path w', archive_Publish r w = (Ok (id, path), w') /\ archive_serving w' /\
    avail (bud (ar_store w)) <= avail (bud (ar_store w')) /\ store_room (ar_store w) - cost (octets content) <= store_room (ar_store w').
Proof using GV DS GL SL.
  intros Hok Hg Hm Hd Hp Hopen Hr Ha Hroom. pose proof (archive_Publish_ok r w live Hok) as Hpub.
  destruct (ao_staged _ _ Hok _ _ Hm Hd) as (c & Hfile & Hsize & Hlen).
  unfold archive_Open in Hopen. rewrite Hm, Hfile in Hopen. cbn in Hopen. subst c.
  unfold archive_Publish in *. rewrite Hm in *.
  set (SF := store_files (ar_calls w) (ar_files w)) in *.
  destruct (publish_serves (SF := SF) (clock (ar_calls w) 0) (clock (ar_calls w) 1) m (ar_store w) live content)
    as (id & path & m' & s' & E & Hg' & Hb' & Hroom'); try done.
  - apply Hok.
  - unfold SF. cbn [read_staged store_files]. by rewrite Hfile, sv_read.
  - intros usage. apply sv_receipt.
  - apply Hok.
  - rewrite E in *. destruct Hpub as (Hok' & _). eexists _, _, _. split; [reflexivity|].
    split; [split; [exact Hg' | by eexists]|]. by split.
Qed.

#[export] Instance archive_delivery_serves :
  SmtpLiveness.DeliveryServes archive staged_ref archive_serving archive_room cost.
Proof using GV DS GL SL.
  split.
  - intros n Hn. by apply cost_bounds.
  - intros w [Hg (live & Hok)] Hroom. cbn [SmtpSession.CheckReceive archive_delivery]. unfold archive_CheckReceive, CheckReceive.
    rewrite (gr_failure _ Hg), can_reserve; [done | apply Hok |]. unfold archive_room, cost, minimumReceiptCharge in *. lia.
  - intros n m Hnm. apply cost_mono. lia.
  - intros reads w [Hg (live & Hok)] Hends Hcomplete Hsmall Hroom. cbn [SmtpSession.Stage SmtpSession.Publish archive_delivery].
    change (Z.of_nat (length (mjoin reads.*1))) with (octets (mjoin reads.*1)) in *. unfold archive_room in *.
    destruct (archive_Stage_store reads w) as (Hmb & Hgs & _).
    destruct (stage_serves reads w live Hok) as (r & w1 & m & E & Hok1 & Hopen & Hm & Hd & Hp & Hr & Ha);
      [apply Hg | done | done | | lia |].
    { eapply Forall_impl; [exact Hsmall|]. intros x Hx. unfold octets. cbn in Hx. lia. }
    exists r, w1. split; [exact E|]. rewrite E in Hmb, Hgs. cbn [snd] in Hmb, Hgs.
    assert (store_room (ar_store w1) = store_room (ar_store w)) as Hsr by (unfold store_room; by rewrite Hmb, Hgs).
    destruct (archive_publish_serves r w1 live m (mjoin reads.*1)) as (id & path & w2 & E2 & Hs2 & Ha2 & Hr2);
      try done; [by rewrite Hgs | lia | rewrite Hsr; lia |].
    exists id, path, w2. split; [exact E2|]. split; [exact Hs2|]. lia.
Qed.
End Archive.

(** ** An honest sender *)

Section Senders.
Import Wire SmtpSyntax SmtpData SmtpSession SmtpSpec SmtpLiveness.
Context `{GitI : Git, MO : MapOrder, GR : !GitReader, GT : GraphicTable, SU : !Surroundings}.
Context {objects_of : repo -> str -> option gitObject} {files_of : repo -> str -> option (gmap str str)}.
Context {capacity : str -> repo -> nat} `{GV : !GitServes capacity, DS : !DiskServes}.
Context `{GL : !GitLaws objects_of files_of, SL : !SurroundingsLaws}.
Context `{CN : Conn, UT : UnicodeTables, SE : SmtpEnv, CO : !Cooperative}.

Abbreviation archive_good := (archive_ok (objects_of := objects_of) (files_of := files_of)).






End Senders.
