(* ===== verification/ModelGit.v ===== *)
(** * A Git that takes any commit

    A repository is the list of the files of its commits, on one branch; every
    object, answer and transaction is computed from it.  It keeps Git's promises
    and takes every transaction of the store, so what is proved about an archive
    whose Git works applies to it. *)

From S2P Require Import Prelude GoStrings IdPath Directories Tree CatFile Listing Contents State Import Mailbox MailboxSpec ToyGit.
From S2P Require Import ArchiveServes.

(** ** Names of objects *)

(** [n] hexadecimal digits. *)
Fixpoint fixed_hex (n : nat) (z : Z) : str :=
  match n with O => [] | S n => fixed_hex n (z / 16) ++ [digit_char (z mod 16)] end.

Definition lower_hex (c : ascii) : bool := ((48 <=? code c) && (code c <=? 57)) || ((97 <=? code c) && (code c <=? 102)).

Lemma digit_char_hex d : 0 <= d < 16 -> lower_hex (digit_char d) = true.
Proof.
  intros Hd. assert (forallb (fun n => lower_hex (digit_char (Z.of_nat n))) (seq 0 16) = true) as HF by by vm_compute.
  rewrite forallb_forall in HF. rewrite <- (Z2Nat.id d) by lia. apply HF, in_seq. lia.
Qed.

Lemma fixed_hex_length n z : length (fixed_hex n z) = n.
Proof. revert z. induction n as [|n IH]; intros z; [done|]. cbn [fixed_hex]. rewrite length_app, IH. cbn. lia. Qed.

Lemma fixed_hex_digits n z : Forall (fun c => lower_hex c = true) (fixed_hex n z).
Proof.
  revert z. induction n as [|n IH]; intros z; [constructor|]. cbn [fixed_hex]. apply Forall_app. split; [apply IH|].
  apply Forall_singleton, digit_char_hex, Z.mod_pos_bound. lia.
Qed.

Lemma fixed_hex_inj n z z' : 0 <= z < 16 ^ Z.of_nat n -> 0 <= z' < 16 ^ Z.of_nat n -> fixed_hex n z = fixed_hex n z' -> z = z'.
Proof.
  revert z z'. induction n as [|n IH]; intros z z' Hz Hz' E; [cbn in *; lia|].
  rewrite Nat2Z.inj_succ, Z.pow_succ_r in * by lia. cbn [fixed_hex] in E.
  apply app_inj_2 in E as [E1 E2]; [|done]. apply IH in E1.
  - injection E2 as E2. apply (f_equal digit_value) in E2.
    pose proof (Z.mod_pos_bound z 16). pose proof (Z.mod_pos_bound z' 16).
    rewrite (proj1 (digit_char_ok (z mod 16) ltac:(lia))), (proj1 (digit_char_ok (z' mod 16) ltac:(lia))) in E2.
    injection E2 as E2. rewrite (Z.div_mod z 16), (Z.div_mod z' 16) by lia. by rewrite E1, E2.
  - split; [apply Z.div_pos; lia | apply Z.div_lt_upper_bound; lia].
  - split; [apply Z.div_pos; lia | apply Z.div_lt_upper_bound; lia].
Qed.

(** A sequence of 40 hexadecimal digits is an object ID. *)
Record hex_id (id : str) : Prop := { hi_length : length id = 40%nat; hi_digits : Forall (fun c => lower_hex c = true) id }.

Lemma lower_hex_plain c : lower_hex c = true -> code c < 128 /\ IsSpace (code c) = false /\ c <> ":"%char /\ c <> CR /\ c <> LF.
Proof. destruct c as [[] [] [] [] [] [] [] []]; (intros ?; by split_and!) || by vm_compute. Qed.

Lemma hex_id_word id : hex_id id -> word id.
Proof.
  intros [Hl Hd]. split; [by intros ->|]. eapply Forall_impl; [exact Hd|]. intros c Hc. by apply lower_hex_plain in Hc as (? & ? & _).
Qed.

Lemma hex_id_valid id : hex_id id -> validObjectID id = true.
Proof.
  intros Hi. pose proof (hex_id_word id Hi) as Hw. destruct Hi as [Hl Hd]. unfold validObjectID. rewrite Hl. cbn [Nat.eqb orb andb].
  rewrite (runes_ascii id) by (by apply word_ascii). apply forallb_Forall, Forall_fmap, Forall_fmap.
  eapply Forall_impl; [exact Hd|]. done.
Qed.

Lemma hex_id_notin id c : hex_id id -> lower_hex c = false -> c ∉ id.
Proof. intros [_ Hd] Hc Hin. rewrite Forall_forall in Hd. apply Hd in Hin. congruence. Qed.

Definition model_commit (k : nat) : str := fixed_hex 40 (Z.of_nat k).
Definition object_id (k i : nat) : str := fixed_hex 20 (Z.of_nat k) ++ fixed_hex 20 (Z.of_nat i).

Lemma model_commit_hex k : hex_id (model_commit k).
Proof. split; [apply fixed_hex_length | apply fixed_hex_digits]. Qed.

Lemma object_id_hex k i : hex_id (object_id k i).
Proof.
  split; [unfold object_id; by rewrite length_app, !fixed_hex_length|]. apply Forall_app. split; apply fixed_hex_digits.
Qed.

(** ** The files of a commit *)

(** The ways to split a path at a slash. *)
Fixpoint splits (s : str) : list (str * str) :=
  match s with
  | [] => []
  | c :: t => (if decide (c = "/"%char) then [([], t)] else []) ++ ((fun e => (c :: e.1, e.2)) <$> splits t)
  end.

Lemma elem_of_splits (d r s : str) : (d, r) ∈ splits s <-> s = d ++ "/"%char :: r.
Proof.
  revert d. induction s as [|c s IH]; intros d; cbn [splits].
  - split; [intros Hin; by apply elem_of_nil in Hin | by destruct d].
  - rewrite elem_of_app, list_elem_of_fmap. split.
    + intros [Hin|([d' r'] & E & Hin)].
      * case_decide; [|by apply elem_of_nil in Hin]. apply list_elem_of_singleton in Hin. by simplify_eq.
      * cbn in E. simplify_eq. apply IH in Hin as ->. done.
    + destruct d as [|c' d]; intros E; [left | right].
      * injection E as -> ->. rewrite decide_True by done. by left.
      * injection E as -> ->. exists (d, r). split; [done | by apply IH].
Qed.

Lemma splits_length s : (length (splits s) <= length s)%nat.
Proof.
  induction s as [|c s IH]; [done|]. cbn [splits]. rewrite length_app, length_fmap. case_decide; cbn; lia.
Qed.

Definition all_splits (files : gmap str str) : list (str * str) := mjoin (splits <$> (map_to_list files).*1).

Lemma elem_of_all_splits files (d r : str) : (d, r) ∈ all_splits files <-> files !! (d ++ "/" ++ r) <> None.
Proof.
  unfold all_splits. rewrite list_elem_of_join. setoid_rewrite list_elem_of_fmap. split.
  - intros (l & Hin & p & -> & Hp). apply elem_of_splits in Hin as ->. apply list_elem_of_fmap in Hp as ([p c] & E & Hp).
    cbn in E. subst p. apply elem_of_map_to_list in Hp. change (files !! (d ++ "/"%char :: r) <> None). by rewrite Hp.
  - intros Hp. destruct (files !! _) as [c|] eqn:E; [|done]. exists (splits (d ++ "/" ++ r)). split; [by apply elem_of_splits|].
    exists (d ++ "/" ++ r). split; [done|]. apply list_elem_of_fmap. exists (d ++ "/" ++ r, c). split; [done|].
    by apply elem_of_map_to_list.
Qed.

Definition first_part (s : str) : str := (Cut s "/"%char).1.1.

Lemma first_part_spec s : "/"%char ∉ first_part s /\ (s = first_part s \/ exists r, s = first_part s ++ "/" ++ r).
Proof.
  unfold first_part. destruct (Cut s "/"%char) as [[a b] found] eqn:E. cbn [fst]. destruct found.
  - apply Cut_found in E as [-> Ha]. split; [done|]. right. by exists b.
  - apply Cut_missing in E as (-> & _ & Hs). by split; [|left].
Qed.

Lemma first_part_plain s : "/"%char ∉ s -> first_part s = s.
Proof.
  intros Hs. destruct (first_part_spec s) as [_ [E|[r E]]]; [done|]. exfalso. apply Hs. rewrite E, !elem_of_app. right. left. by left.
Qed.

Definition dirs (files : gmap str str) : list str := remove_dups (all_splits files).*1.

Definition children (files : gmap str str) (d : str) : list str :=
  remove_dups ((fun e => first_part e.2) <$> filter (fun e => e.1 = d) (all_splits files)).

Definition child_entry (files : gmap str str) (d name : str) : rawEntry :=
  {| raw_mode := if files !! (d ++ "/" ++ name) then "100644" else "40000"; raw_name := name; raw_oid := replicate 20 "0"%char |}.

Definition tree_content (files : gmap str str) (d : str) : str := encode_tree (child_entry files d <$> children files d).

(** The objects of a commit, by path. *)
Definition nodes (files : gmap str str) : list (str * (str * str)) :=
  ((fun e => (e.1, ("blob" : str, e.2))) <$> map_to_list files)
  ++ ((fun d => (d, ("tree" : str, tree_content files d))) <$> dirs files).

Lemma elem_of_dirs files d : d ∈ dirs files <-> exists r, files !! (d ++ "/" ++ r) <> None.
Proof.
  unfold dirs. rewrite elem_of_remove_dups, list_elem_of_fmap. split.
  - intros ([d' r] & -> & Hin). exists r. by apply elem_of_all_splits.
  - intros [r Hr]. exists (d, r). split; [done | by apply elem_of_all_splits].
Qed.

Lemma elem_of_children files d name : name ∈ children files d <->
  "/"%char ∉ name /\ (files !! (d ++ "/" ++ name) <> None \/ exists r, files !! (d ++ "/" ++ name ++ "/" ++ r) <> None).
Proof.
  unfold children. rewrite elem_of_remove_dups, list_elem_of_fmap. setoid_rewrite list_elem_of_filter. split.
  - intros ([d' r] & -> & <- & Hin). apply elem_of_all_splits in Hin. cbn [fst snd] in *.
    destruct (first_part_spec r) as [Hs [E|[r' E]]]; (split; [done|]); [left; by rewrite <- E | right; exists r'].
    by rewrite <- E.
  - intros [Hs [Hf|[r Hf]]].
    + exists (d, name). split; [by rewrite first_part_plain|]. split; [done | by apply elem_of_all_splits].
    + exists (d, name ++ "/" ++ r). split; [|split; [done | by apply elem_of_all_splits]].
      cbn [snd]. unfold first_part. change (name ++ "/" ++ r) with (name ++ "/"%char :: r). by rewrite Cut_app.
Qed.

(** ** What the model can hold *)

Definition model_limit : Z := 1099511627776.

Definition sound_files (files : gmap str str) : bool :=
  forallb (fun e => validArchivePath e.1 && (octets e.2 <? 9223372036854775808)) (map_to_list files)
  && (Z.of_nat (size files) <=? model_limit).

Lemma sound_files_spec files : sound_files files = true <->
  (forall p c, files !! p = Some c -> validArchivePath p = true /\ octets c < 2 ^ 63) /\ Z.of_nat (size files) <= model_limit.
Proof.
  unfold sound_files. rewrite andb_true_iff, Z.leb_le, forallb_Forall, Forall_forall. split; intros [Hf Hs]; (split; [|done]).
  - intros p c Hp%elem_of_map_to_list. apply Hf in Hp. cbn in Hp. apply andb_true_iff in Hp as [? Hp%Z.ltb_lt]. split; [done | exact Hp].
  - intros [p c] Hp%elem_of_map_to_list. destruct (Hf p c Hp). cbn. apply andb_true_iff. split; [done | by apply Z.ltb_lt].
Qed.

(** An archive path is a root file or the path of a message. *)
Lemma archive_path_cases p : validArchivePath p = true ->
  p ∈ root_files \/ exists id size, valid_id id /\ is_u64 size /\ p = mail_path id size.
Proof.
  intros [Hr|(m & Hm)]%validArchivePath_spec; [by left|]. right.
  apply messageFromPath_sound in Hm as (Hv & Hs & _ & E). rewrite messagePath_mail in E by done.
  apply Ok_inj in E as <-. by exists (ID m), (Size m).
Qed.

Lemma flat_length k : 0 <= k <= MaxUint64 -> (length (flat k) <= 28)%nat.
Proof.
  intros Hk. unfold flat. pose proof (hexes_length k) as Hl. pose proof (id_digits_length k Hk) as Hd. unfold depth in *.
  assert (length (hexes k) <= 7)%nat as Hn by lia. clear Hl Hd.
  assert (Forall (fun h => length h = 3%nat) (hexes k)) as HF.
  { unfold hexes. apply Forall_fmap, Forall_reverse. eapply Forall_impl; [apply id_digits_bound|]. intros d Hd. by apply hex3_length. }
  assert (length (mjoin ((fun h => "/"%char :: h) <$> hexes k)) = 4 * length (hexes k))%nat as ->; [|lia].
  clear Hn. induction HF as [|h l Hh _ IH]; [done|]. cbn [fmap list_fmap]. change (mjoin (?a :: ?l)) with (a ++ mjoin l).
  rewrite length_app, IH. cbn. lia.
Qed.

Lemma archive_path_length p : validArchivePath p = true -> (length p <= 64)%nat.
Proof.
  intros [Hr|(id & size & Hv & Hs & ->)]%archive_path_cases.
  - apply list_elem_of_In in Hr. destruct Hr as [<-|[<-|[<-|[]]]]; cbn; lia.
  - unfold mail_path. rewrite leaf_dir_flat, !length_app. cbn [length]. rewrite ?length_app.
    destruct (Itoa_depth (depth id) (depth_bounds id Hv)) as (c & -> & _). pose proof (file_name_length id size Hs).
    pose proof (u64_prefix id ltac:(unfold valid_id in Hv; lia)) as Hp.
    assert (MaxUint64 / idRadix <= MaxUint64) by (apply Z.div_le_upper_bound; unfold idRadix, MaxUint64; lia).
    pose proof (flat_length (id / idRadix) (conj (proj1 Hp) (Z.le_trans _ _ _ (proj2 Hp) H0))). cbn [length]. lia.
Qed.

(** A directory of the archive is not a file of it. *)
Lemma directory_no_file (d r p : str) : validArchivePath (d ++ "/" ++ r) = true -> validArchivePath p = true -> d <> p.
Proof.
  intros [Hr|(id & size & Hv & Hs & E)]%archive_path_cases Hp.
  { exfalso. apply list_elem_of_In in Hr. assert ("/"%char ∈ d ++ "/" ++ r) as Hin by (rewrite !elem_of_app; right; left; by left).
    destruct Hr as [E|[E|[E|[]]]]; rewrite <- E in Hin; revert Hin; apply (bool_decide_unpack _); by vm_compute. }
  intros ->. unfold mail_path in E.
  assert (exists t, leaf_dir id = p ++ t) as [t Et].
  { assert (length p <= length (leaf_dir id))%nat as Hl.
    { destruct (decide (length p <= length (leaf_dir id))%nat) as [|Hn]; [done|]. exfalso.
      apply (f_equal (drop (S (length (leaf_dir id))))) in E.
      change (p ++ "/" ++ r) with (p ++ "/"%char :: r) in E. rewrite drop_app_le in E by lia.
      change (leaf_dir id ++ "/"%char :: file_name id size) with (leaf_dir id ++ ["/"%char] ++ file_name id size) in E.
      rewrite app_assoc, drop_app_ge in E by (rewrite length_app; cbn; lia). rewrite length_app in E. cbn [length] in E.
      replace (S (length (leaf_dir id)) - (length (leaf_dir id) + 1))%nat with 0%nat in E by lia. rewrite drop_0 in E.
      apply (slash_notin_file id size). rewrite <- E, elem_of_app. right. by left. }
    exists (drop (length p) (leaf_dir id)). apply (f_equal (take (length p))) in E.
    rewrite take_app_length, take_app_le in E by done. rewrite E at 1. by rewrite take_drop. }
  apply archive_path_cases in Hp as [Hp|(id' & size' & Hv' & Hs' & ->)].
  - rewrite leaf_dir_flat in Et. destruct (Itoa_depth (depth id) (depth_bounds id Hv)) as (c & Ec & Hc). rewrite Ec in Et.
    pose proof (depth_bounds id Hv). apply list_elem_of_In in Hp.
    destruct Hp as [<-|[<-|[<-|[]]]]; injection Et as Et _; subst c;
      pose proof (eq_refl : code "s"%char = 115); pose proof (eq_refl : code "."%char = 46); lia.
  - assert ("."%char ∈ leaf_dir id) as Hin.
    { rewrite Et. apply elem_of_app. left. unfold mail_path, file_name. rewrite elem_of_app, elem_of_cons, !elem_of_app.
      right. right. right. right. right. by left. }
    revert Hin. by apply notin_leaf_dir.
Qed.

Lemma length_remove_dups (l : list str) : (length (remove_dups l) <= length l)%nat.
Proof.
  apply submseteq_length, NoDup_submseteq; [apply NoDup_remove_dups|]. intros x. by rewrite elem_of_remove_dups.
Qed.

Section Sound.
Context (files : gmap str str) (Hsound : sound_files files = true).

Lemma file_valid p : files !! p <> None -> validArchivePath p = true.
Proof. intros Hp. apply sound_files_spec in Hsound as [Hf _]. destruct (files !! p) as [c|] eqn:E; [by eapply Hf | done]. Qed.

Lemma all_splits_length : (length (all_splits files) <= 64 * size files)%nat.
Proof.
  unfold all_splits. rewrite <- length_map_to_list.
  assert (forall l : list (str * str), (forall e, e ∈ l -> (length e.1 <= 64)%nat) ->
    (length (mjoin (splits <$> l.*1)) <= 64 * length l)%nat) as Hl.
  { induction l as [|e l IH]; intros Hall; [done|]. cbn [fmap list_fmap]. change (mjoin (?a :: ?l)) with (a ++ mjoin l).
    rewrite length_app. pose proof (splits_length e.1). pose proof (Hall e ltac:(by left)).
    specialize (IH (fun x Hx => Hall x (list_elem_of_further _ _ _ Hx))). cbn [length]. lia. }
  apply Hl. intros [p c] Hp%elem_of_map_to_list. apply archive_path_length. apply file_valid. cbn. by rewrite Hp.
Qed.

Lemma nodes_length : (length (nodes files) <= 65 * size files)%nat.
Proof.
  unfold nodes. rewrite length_app, !length_fmap, length_map_to_list. pose proof all_splits_length.
  unfold dirs. pose proof (length_remove_dups (all_splits files).*1) as Hd. rewrite length_fmap in Hd. lia.
Qed.

Lemma dir_not_file d : d ∈ dirs files -> files !! d = None.
Proof.
  intros [r Hr]%elem_of_dirs. destruct (files !! d) as [c|] eqn:E; [|done]. exfalso.
  apply (directory_no_file d r d); [by apply file_valid | apply file_valid; by rewrite E | done].
Qed.

Lemma nodes_NoDup : NoDup (nodes files).*1.
Proof.
  unfold nodes. rewrite fmap_app, <- !list_fmap_compose. apply NoDup_app. split; [apply NoDup_fst_map_to_list|]. split.
  - intros p Hp Hd. apply list_elem_of_fmap in Hp as ([p' c] & -> & Hp%elem_of_map_to_list).
    apply list_elem_of_fmap in Hd as (d & E & Hd). cbn in *. subst d. apply dir_not_file in Hd. congruence.
  - erewrite (list_fmap_ext _ id); [rewrite list_fmap_id; apply NoDup_remove_dups | done].
Qed.

Lemma tree_content_length d : d ∈ dirs files -> (length (tree_content files d) <= 92 * (64 * size files))%nat.
Proof.
  intros Hd. unfold tree_content. etransitivity; [apply (encode_tree_bound _ 92)|].
  - apply Forall_fmap, Forall_forall. intros name Hn. cbn. apply elem_of_children in Hn as [_ Hn].
    assert (length name <= 64)%nat.
    { destruct Hn as [Hn|[r Hn]]; apply file_valid, archive_path_length in Hn; rewrite !length_app in Hn; lia. }
    unfold encode_entry, child_entry. destruct (files !! _); cbn; rewrite ?length_app; cbn; lia.
  - rewrite length_fmap. pose proof all_splits_length. unfold children.
    match goal with |- context [remove_dups ?l] => pose proof (length_remove_dups l) as Hl end. rewrite length_fmap in Hl.
    pose proof (length_filter (fun e : str * str => e.1 = d) (all_splits files)). lia.
Qed.

Lemma nodes_small (p kind c : str) : (p, (kind, c)) ∈ nodes files -> octets c < 2 ^ 63.
Proof.
  pose proof (proj1 (sound_files_spec files) Hsound) as [Hf Hs]. unfold model_limit in Hs.
  unfold nodes. rewrite elem_of_app, !list_elem_of_fmap. intros [([p' c'] & E & Hp%elem_of_map_to_list)|(d & E & Hd)].
  - injection E as -> _ ->. by eapply Hf.
  - injection E as _ _ ->. apply tree_content_length in Hd. unfold octets. lia.
Qed.

Lemma nodes_kind (p kind c : str) : (p, (kind, c)) ∈ nodes files -> kind = ("blob" : str) \/ kind = ("tree" : str).
Proof. unfold nodes. rewrite elem_of_app, !list_elem_of_fmap. intros [(? & [= _ -> _] & _)|(? & [= _ -> _] & _)]; auto. Qed.
End Sound.

(** ** Repositories *)

Definition node_object (k i : nat) (n : str * (str * str)) : gitObject :=
  {| o_oid := object_id k i; o_kind := n.2.1; o_content := n.2.2 |}.

Definition node_spec (k : nat) (n : str * (str * str)) : str := model_commit k ++ ":" ++ n.1.

Definition table (l : list (gmap str str)) : list (str * gitObject) :=
  mjoin (imap (fun k files => imap (fun i n => (node_spec k n, node_object k i n)) (nodes files)) l).

Definition sound (l : list (gmap str str)) : bool := forallb sound_files l && (Z.of_nat (length l) <=? model_limit).

(** An object by the path in its commit or by its own ID. *)
Definition model_objects (l : list (gmap str str)) (spec : str) : option gitObject :=
  if sound l then assoc spec (table l ++ ((fun e => (o_oid e.2, e.2)) <$> table l)) else None.

(** The object at place [i] of commit [k]. *)
Definition placed (l : list (gmap str str)) (k i : nat) (n : str * (str * str)) : Prop :=
  exists files, l !! k = Some files /\ nodes files !! i = Some n.

Lemma elem_of_table l s o : (s, o) ∈ table l <-> exists k i n, placed l k i n /\ s = node_spec k n /\ o = node_object k i n.
Proof.
  unfold table. rewrite list_elem_of_join. split.
  - intros (es & Hin & Hes). apply elem_of_lookup_imap in Hes as (k & files & -> & Hk).
    apply elem_of_lookup_imap in Hin as (i & n & [= -> ->] & Hi). exists k, i, n. split; [by exists files | done].
  - intros (k & i & n & (files & Hk & Hi) & -> & ->).
    exists (imap (fun i n => (node_spec k n, node_object k i n)) (nodes files)). split; apply elem_of_lookup_imap.
    + by exists i, n.
    + by exists k, files.
Qed.

Section Places.
Context (l : list (gmap str str)) (Hsound : sound l = true).

Lemma sound_spec : Forall (fun files => sound_files files = true) l /\ Z.of_nat (length l) <= model_limit.
Proof. unfold sound in Hsound. apply andb_true_iff in Hsound as [Hf Hl]. split; [by apply forallb_Forall | by apply Z.leb_le]. Qed.

Lemma placed_bounds k i n : placed l k i n -> 0 <= Z.of_nat k < 16 ^ 20 /\ 0 <= Z.of_nat i < 16 ^ 20.
Proof.
  intros (files & Hk & Hi). destruct sound_spec as [Hf Hl]. unfold model_limit in *.
  pose proof (lookup_lt_Some _ _ _ Hk). pose proof (lookup_lt_Some _ _ _ Hi).
  rewrite Forall_lookup in Hf. pose proof (Hf _ _ Hk) as Hs. pose proof (nodes_length files Hs).
  apply sound_files_spec in Hs as [_ Hs]. unfold model_limit in Hs. lia.
Qed.

Lemma object_id_inj k i n k' i' n' : placed l k i n -> placed l k' i' n' -> object_id k i = object_id k' i' -> k = k' /\ i = i'.
Proof.
  intros Hp Hp' E. destruct (placed_bounds _ _ _ Hp), (placed_bounds _ _ _ Hp').
  unfold object_id in E. apply app_inj_1 in E as [Ek Ei]; [|by rewrite !fixed_hex_length].
  apply fixed_hex_inj in Ek, Ei; try done. lia.
Qed.

Lemma model_commit_inj k k' : (k < length l)%nat -> (k' < length l)%nat -> model_commit k = model_commit k' -> k = k'.
Proof.
  intros Hk Hk' E. destruct sound_spec as [_ Hl]. unfold model_limit in Hl.
  assert (1099511627776 < 16 ^ Z.of_nat 40) by (by vm_compute).
  apply fixed_hex_inj in E; lia.
Qed.

Lemma placed_same k i n n' : placed l k i n -> placed l k i n' -> n = n'.
Proof. intros (files & Hk & Hi) (files' & Hk' & Hi'). rewrite Hk in Hk'. injection Hk' as <-. congruence. Qed.

Lemma node_spec_inj k i n k' i' n' : placed l k i n -> placed l k' i' n' -> node_spec k n = node_spec k' n' -> k = k' /\ i = i'.
Proof.
  intros Hp Hp' E. unfold node_spec in E. apply app_inj_1 in E as [Ek E]; [|by rewrite !(hi_length _ (model_commit_hex _))].
  destruct Hp as (files & Hk & Hi), Hp' as (files' & Hk' & Hi').
  apply model_commit_inj in Ek as <-; [|by eapply lookup_lt_Some..]. split; [done|].
  rewrite Hk in Hk'. injection Hk' as <-. injection E as E. destruct sound_spec as [Hf _]. rewrite Forall_lookup in Hf.
  pose proof (nodes_NoDup files (Hf _ _ Hk)) as HN. eapply (NoDup_lookup _ i i' n.1 HN); rewrite list_lookup_fmap; [by rewrite Hi|].
  rewrite Hi'. cbn. by rewrite E.
Qed.

Lemma node_spec_not_id k n k' i' : node_spec k n <> object_id k' i'.
Proof.
  intros E. apply (hex_id_notin (object_id k' i') ":"%char (object_id_hex k' i')); [done|].
  rewrite <- E. unfold node_spec. rewrite !elem_of_app. right. left. by left.
Qed.

Lemma assoc_only {V} (key : str) (v : V) (t : list (str * V)) : (key, v) ∈ t -> (forall v', (key, v') ∈ t -> v' = v) -> assoc key t = Some v.
Proof.
  intros Hin Hone. induction t as [|[k' v'] t IH]; [by apply elem_of_nil in Hin|]. cbn [assoc]. case_decide as Hk.
  - subst k'. f_equal. apply Hone. by left.
  - apply IH; [|intros; apply Hone; by right]. apply elem_of_cons in Hin as [[= -> _]|?]; [done | done].
Qed.

Lemma model_objects_spec spec o : model_objects l spec = Some o <->
  exists k i n, placed l k i n /\ o = node_object k i n /\ (spec = node_spec k n \/ spec = object_id k i).
Proof.
  unfold model_objects. rewrite Hsound. set (ids := (fun e => (o_oid e.2, e.2)) <$> table l).
  assert (forall s x, (s, x) ∈ table l ++ ids <->
    exists k i n, placed l k i n /\ x = node_object k i n /\ (s = node_spec k n \/ s = object_id k i)) as Hin.
  { intros s x. unfold ids. rewrite elem_of_app, elem_of_table, list_elem_of_fmap. split.
    - intros [(k & i & n & Hp & -> & ->)|([s' x'] & [= -> ->] & (k & i & n & Hp & _ & ->)%elem_of_table)];
        exists k, i, n; (split; [done|]; split; [done|]); [by left | by right].
    - intros (k & i & n & Hp & -> & [->| ->]); [left; by exists k, i, n|]. right.
      exists (node_spec k n, node_object k i n). split; [done|]. apply elem_of_table. by exists k, i, n. }
  split; [intros Ha%assoc_elem; by apply Hin|]. intros H. apply assoc_only; [by apply Hin|].
  intros v' (k' & i' & n' & Hp' & -> & Hs')%Hin. destruct H as (k & i & n & Hp & -> & Hs).
  assert (k = k' /\ i = i') as [<- <-].
  { destruct Hs as [-> | ->], Hs' as [Hs'|Hs']; [by eapply node_spec_inj | by apply node_spec_not_id in Hs'
      | by symmetry in Hs'; apply node_spec_not_id in Hs' | by eapply object_id_inj]. }
  by rewrite (placed_same k i n n').
Qed.
End Places.

(** ** The reader *)

Definition model_cat (l : list (gmap str str)) : CatFile := {|
  start_error := None; write_error := None; interruption _ _ := None; reply := reply_to (model_objects l); chunk _ := 40%nat |}.

Lemma model_objects_sound l spec o : model_objects l spec = Some o -> sound l = true.
Proof. unfold model_objects. by destruct (sound l). Qed.

#[export] Instance model_git_objects l : @GitObjects (model_cat l) (model_objects l).
Proof.
  split; try done.
  - intros command spec Hcmd _. by apply reply_to_answers.
  - intros spec o Ho. pose proof (model_objects_sound _ _ _ Ho) as Hs.
    apply (model_objects_spec l Hs) in Ho as (k & i & n & Hp & -> & _). cbn [o_oid o_kind o_content node_object].
    pose proof (object_id_hex k i) as Hid. destruct Hp as (files & Hk & Hi). destruct n as [p [kind c]].
    apply list_elem_of_lookup_2 in Hi. destruct (sound_spec l Hs) as [Hf _]. rewrite Forall_lookup in Hf.
    pose proof (nodes_small files (Hf _ _ Hk) p kind c Hi) as Hc. apply nodes_kind in Hi.
    split_and!; [by apply hex_id_valid | by apply hex_id_word | | by split; apply (hex_id_notin _ _ Hid) | | exact Hc].
    + cbn. destruct Hi as [-> | ->]; by apply (bool_decide_unpack _); vm_compute.
    + cbn. destruct Hi as [-> | ->]; by apply (bool_decide_unpack _); vm_compute.
  - intros s s' o o' Ho Ho' E. pose proof (model_objects_sound _ _ _ Ho) as Hs.
    apply (model_objects_spec l Hs) in Ho as (k & i & n & Hp & -> & _), Ho' as (k' & i' & n' & Hp' & -> & _).
    destruct (object_id_inj l Hs k i n k' i' n' Hp Hp' E) as [<- <-]. by rewrite (placed_same l k i n n').
  - intros spec o Ho. pose proof (model_objects_sound _ _ _ Ho) as Hs. apply (model_objects_spec l Hs) in Ho as (k & i & n & Hp & -> & _).
    apply (model_objects_spec l Hs). exists k, i, n. split_and!; [done | done | by right].
Qed.

Definition model_files (l : list (gmap str str)) (commit : str) : option (gmap str str) :=
  if sound l then assoc commit (imap (fun k files => (model_commit k, files)) l) else None.

Lemma model_files_spec l commit files : model_files l commit = Some files <->
  sound l = true /\ exists k, l !! k = Some files /\ commit = model_commit k.
Proof.
  unfold model_files. destruct (sound l) eqn:Hs; [|by split; [|intros []]].
  assert (forall f, (commit, f) ∈ imap (fun k files => (model_commit k, files)) l <-> exists k, l !! k = Some f /\ commit = model_commit k) as Hin.
  { intros f. rewrite elem_of_lookup_imap. split; [intros (k & f' & [= -> ->] & ?); by exists k | intros (k & ? & ->); by exists k, f]. }
  split; [intros Ha%assoc_elem; split; [done | by apply Hin]|]. intros [_ H]. apply assoc_only; [by apply Hin|].
  intros f' (k' & Hk' & E)%Hin. destruct H as (k & Hk & ->).
  apply (model_commit_inj l Hs) in E as <-; [congruence | by eapply lookup_lt_Some..].
Qed.

(** Every known commit has its files as tree and blob objects. *)
Lemma model_holds l commit files : model_files l commit = Some files -> commit_holds (model_objects l) commit files.
Proof.
  intros (Hs & k & Hk & ->)%model_files_spec. destruct (sound_spec l Hs) as [Hf _]. rewrite Forall_lookup in Hf. specialize (Hf _ _ Hk).
  assert (forall n, n ∈ nodes files -> exists i, model_objects l (node_spec k n) = Some (node_object k i n)) as Hnode.
  { intros n [i Hi]%list_elem_of_lookup. exists i. apply (model_objects_spec l Hs). exists k, i, n.
    split_and!; [by exists files | done | by left]. }
  split.
  - intros path content Hp. destruct (Hnode (path, ("blob" : str, content))) as [i Hi].
    { unfold nodes. apply elem_of_app. left. apply list_elem_of_fmap. exists (path, content). split; [done | by apply elem_of_map_to_list]. }
    by eexists.
  - intros dir name Hn. destruct (Hnode (dir, ("tree" : str, tree_content files dir))) as [i Hi].
    { unfold nodes. apply elem_of_app. right. apply list_elem_of_fmap. exists dir. split; [done|]. apply elem_of_dirs. by exists name. }
    exists (node_object k i (dir, ("tree" : str, tree_content files dir))), (child_entry files dir <$> children files dir).
    split; [exact Hi|]. split; [done|]. split; [done|]. split_and!.
    + apply Forall_fmap, Forall_forall. intros c Hc%elem_of_children. cbn [raw_oid raw_name child_entry o_oid node_object].
      split; [by rewrite (hi_length _ (object_id_hex k i)) | apply Hc].
    + rewrite <- list_fmap_compose. erewrite (list_fmap_ext _ id); [rewrite list_fmap_id; apply NoDup_remove_dups | done].
    + intros e (c & -> & Hc%elem_of_children)%list_elem_of_fmap. cbn [raw_mode raw_name child_entry]. destruct Hc as [_ Hc].
      destruct (files !! (dir ++ "/" ++ c)) eqn:E; [left | right]; (split; [done|]); [done|]. by destruct Hc as [?|?].
    + intros c Hc1 Hc2. rewrite <- list_fmap_compose. apply list_elem_of_fmap. exists c. split; [done|].
      apply elem_of_children. auto.
  - intros path o Ho Hkind. apply (model_objects_spec l Hs) in Ho as (k' & i & n & Hp & -> & Hspec).
    destruct n as [p [kind c]]. cbn [o_kind o_content node_object snd fst] in *. subst kind.
    destruct Hspec as [E|E]; [|exfalso; by apply (node_spec_not_id k (path, ([], [])) k' i)].
    unfold node_spec in E. apply app_inj_1 in E as [Ek E]; [|by rewrite !(hi_length _ (model_commit_hex _))]. injection E as ->.
    destruct Hp as (files' & Hk' & Hi). apply (model_commit_inj l Hs) in Ek as <-; [|by eapply lookup_lt_Some..].
    rewrite Hk in Hk'. injection Hk' as <-. apply list_elem_of_lookup_2 in Hi. unfold nodes in Hi.
    rewrite elem_of_app, !list_elem_of_fmap in Hi. destruct Hi as [([p' c'] & [= -> ->] & Hp%elem_of_map_to_list)|(d & E & _)]; [done|].
    discriminate E.
  - intros id o _ Ho Hkind. apply (model_objects_spec l Hs) in Ho as (k' & i & n & Hp & -> & Hspec).
    destruct n as [p [kind c]]. cbn [o_kind o_content node_object snd fst] in *. subst kind.
    destruct Hspec as [E|E]; [|exfalso; by apply (node_spec_not_id k (leaf_dir id, ([], [])) k' i)].
    unfold node_spec in E. apply app_inj_1 in E as [Ek E]; [|by rewrite !(hi_length _ (model_commit_hex _))]. injection E as <-.
    destruct Hp as (files' & Hk' & Hi). apply (model_commit_inj l Hs) in Ek as <-; [|by eapply lookup_lt_Some..].
    rewrite Hk in Hk'. injection Hk' as <-. apply list_elem_of_lookup_2 in Hi. unfold nodes in Hi.
    rewrite elem_of_app, !list_elem_of_fmap in Hi. destruct Hi as [([p' c'] & E' & _)|(d & [= -> _] & Hd)]; [discriminate E'|].
    by apply elem_of_dirs.
Qed.

(** ** The processes *)

(** The repository with a commit more, if the transaction continues the branch. *)
Definition model_apply (l : list (gmap str str)) (tx : str) : option (list (gmap str str)) :=
  c ← fi_parse tx;
  files ← last l;
  let l' := l ++ [apply_changes files (fc_changes c)] in
  if bool_decide (fc_ref c = toy_ref) && bool_decide (fc_from c = Some (model_commit (length l - 1))) && sound l'
  then Some l' else None.

#[export] Instance model_git : Git := {|
  repo := list (gmap str str);
  rev_parse l := match l with [] => ([], Some (New "unknown revision")) | _ => (model_commit (length l - 1) ++ [LF], None) end;
  import_start_error := None;
  mark_line l tx := match model_apply l tx with Some _ => Ok (model_commit (length l)) | None => Err (New "fatal") end;
  checkpoint_line l tx checkpoint := Ok ("progress " ++ model_commit (length l));
  published l tx := default l (model_apply l tx);
  maintained l _ := l;
  import_interruption _ := None;
  import_close_error := None;
  legacy_file _ := Err (Sentinel OsErrNotExist);
  Unix_now := toy_now;
|}.

#[export] Instance model_reader : GitReader := {| cat := model_cat |}.

Lemma model_apply_Some l tx l' : model_apply l tx = Some l' <-> exists c files, fi_parse tx = Some c /\ last l = Some files /\
  l' = l ++ [apply_changes files (fc_changes c)] /\ fc_ref c = toy_ref /\ fc_from c = Some (model_commit (length l - 1)) /\ sound l' = true.
Proof.
  unfold model_apply. destruct (fi_parse tx) as [c|]; [|by split; [|intros (? & ? & ? & _)]]. cbn [mbind option_bind].
  destruct (last l) as [files|]; [|by split; [|intros (? & ? & _ & ? & _)]]. cbn [mbind option_bind]. cbv zeta.
  destruct (_ && sound _) eqn:E.
  - rewrite !andb_true_iff, !bool_decide_eq_true in E. destruct E as [[E1 E2] E3]. split.
    + intros [= <-]. exists c, files. by split_and!.
    + intros (c' & files' & [= <-] & [= <-] & -> & _). done.
  - split; [done|]. intros (c' & files' & [= <-] & [= <-] & -> & E1 & E2 & E3). exfalso.
    rewrite !bool_decide_eq_true_2 in E by done. rewrite E3 in E. discriminate E.
Qed.

Lemma sound_snoc l files : sound (l ++ [files]) = true -> sound l = true.
Proof.
  unfold sound. rewrite forallb_app, length_app, !andb_true_iff, !Z.leb_le. cbn. intros [[? _] ?]. split; [done | lia].
Qed.

Lemma model_apply_grows l tx l' : model_apply l tx = Some l' -> sound l' = true /\ (exists files, l' = l ++ [files]) /\ sound l = true.
Proof. intros (c & files & _ & _ & -> & _ & _ & Hs)%model_apply_Some. split_and!; [done | eauto | by eapply sound_snoc]. Qed.

Lemma TrimSpace_newline (w : str) : word w -> TrimSpace (w ++ [LF]) = w.
Proof.
  intros Hw. unfold TrimSpace. pose proof (word_ascii w Hw) as Ha. rewrite (runes_ascii (w ++ [LF])).
  2: { apply Forall_app. split; [done|]. by apply Forall_singleton. }
  rewrite fmap_app. set (f := fun c => (code c, [c])). destruct Hw as [Hne HF].
  assert (Forall (fun rb : Z * str => IsSpace rb.1 = false) (f <$> w)) as HF'
    by (apply Forall_fmap; eapply Forall_impl; [exact HF|]; simpl; tauto).
  assert (trim_left ((f <$> w) ++ (f <$> [LF])) = (f <$> w) ++ (f <$> [LF])) as ->.
  { destruct w as [|c w]; [done|]. apply Forall_inv in HF'. cbn in *. by rewrite HF'. }
  unfold trim_right. rewrite reverse_app. change (reverse (f <$> [LF]) ++ ?x) with (f LF :: x). cbn [trim_left f fst].
  change (IsSpace (code LF)) with true. cbn iota. rewrite trim_left_word by (by rewrite Forall_reverse). rewrite reverse_involutive.
  clear. induction w as [|c w IH]; [done|]. cbn. f_equal. exact IH.
Qed.

Lemma model_head l : l <> [] -> head (l : repo) = (model_commit (length l - 1), None).
Proof.
  intros Hl. unfold head. cbn [rev_parse model_git]. destruct l as [|files l]; [done|].
  rewrite TrimSpace_newline; [done | apply hex_id_word, model_commit_hex].
Qed.

#[export] Instance model_laws : GitLaws model_objects model_files.
Proof.
  split.
  - apply model_git_objects.
  - apply model_holds.
  - intros l tx spec o Ho. cbn [published model_git]. destruct (model_apply l tx) as [l'|] eqn:E; [|exact Ho]. cbn [default from_option].
    apply model_apply_grows in E as (Hs' & (files & ->) & Hs).
    apply (model_objects_spec l Hs) in Ho as (k & i & n & (f & Hk & Hi) & -> & Hspec).
    apply (model_objects_spec (l ++ [files]) Hs'). exists k, i, n. split; [|done]. exists f. split; [by apply lookup_app_l_Some | done].
  - intros l tx commit files Hf. cbn [published model_git]. destruct (model_apply l tx) as [l'|] eqn:E; [|exact Hf]. cbn [default from_option].
    apply model_apply_grows in E as (Hs' & (f & ->) & Hs). apply model_files_spec in Hf as (_ & k & Hk & ->).
    apply model_files_spec. split; [exact Hs'|]. exists k. split; [by apply lookup_app_l_Some | done].
  - intros l tx c next parent files Hparse Hmark _ _ Hfrom Hf. cbn [published mark_line model_git] in *.
    destruct (model_apply l tx) as [l'|] eqn:E; [|done]. apply Ok_inj in Hmark as <-. cbn [default from_option].
    apply model_apply_Some in E as (c' & files' & Hc & Hlast & -> & _ & Hfrom' & Hs). rewrite Hparse in Hc. injection Hc as <-.
    rewrite Hfrom in Hfrom'. injection Hfrom' as ->. apply model_files_spec in Hf as (Hs' & k & Hk & E).
    pose proof (lookup_lt_Some _ _ _ Hk). apply (model_commit_inj l Hs') in E as <-; [|lia|done].
    rewrite last_lookup in Hlast. replace (Init.Nat.pred (length l)) with (length l - 1)%nat in Hlast by lia. rewrite Hk in Hlast. injection Hlast as ->.
    apply model_files_spec. split; [done|]. exists (length l).
    split; [exact (list_lookup_middle (A := gmap str str) l [] _ _ eq_refl) | done].
  - by intros l args spec o _.
  - by intros l args commit files _.
  - done.
Qed.

(** ** It serves *)

Lemma fi_data_bound s content rest : fi_data s = Some (content, rest) -> octets content < 2 ^ 63.
Proof.
  unfold fi_data. destruct (fi_line "data " s) as [[count r]|]; [|done]. cbn [mbind option_bind].
  destruct (ParseUint count 10 63) as [n|] eqn:E; [|done]. destruct (_ <? _)%nat; [done|].
  destruct (drop _ r) as [|c r']; [done|]. case_decide; [|done]. intros [= <- _].
  apply ParseUint_bound in E; [|lia|lia]. unfold octets. rewrite length_take. lia.
Qed.

Lemma fi_changes_bound fuel s changes rest : fi_changes fuel s = Some (changes, rest) -> small_contents changes.
Proof.
  revert s changes rest. induction fuel as [|fuel IH]; intros s changes rest; cbn [fi_changes]; [done|].
  destruct (take_line s) as [[line r]|]; [|done]. cbn [mbind option_bind]. case_decide; [intros [= <- _]; constructor|].
  destruct (after "M 100644 inline " line) as [path|].
  - destruct (fi_path path) as [p|]; [|done]. cbn [mbind option_bind]. destruct (fi_data r) as [[content r']|] eqn:Ed; [|done].
    cbn [mbind option_bind]. destruct (fi_changes fuel r') as [[more r'']|] eqn:E; [|done]. intros [= <- _].
    constructor; [by eapply fi_data_bound | by eapply IH].
  - destruct (after "D " line ≫= fi_path) as [p|]; [|done]. cbn [mbind option_bind].
    destruct (fi_changes fuel r) as [[more r'']|] eqn:E; [|done]. intros [= <- _]. constructor; [done | by eapply IH].
Qed.

Lemma fi_parse_bound tx c : fi_parse tx = Some c -> small_contents (fc_changes c).
Proof.
  unfold fi_parse. destruct (fi_line "commit " tx) as [[ref s1]|]; [|done]. cbn [mbind option_bind].
  destruct (fi_line "mark :" s1) as [[mark s2]|]; [|done]. cbn [mbind option_bind].
  destruct (fi_line "committer " s2) as [[committer s3]|]; [|done]. cbn [mbind option_bind].
  destruct (fi_data s3) as [[title s4]|]; [|done]. cbn [mbind option_bind].
  destruct (match fi_line "from " s4 with Some (id, s) => (Some id, s) | None => (None, s4) end) as [from s5].
  destruct (fi_changes _ s5) as [[changes s6]|] eqn:E; [|done]. cbn [mbind option_bind].
  destruct (fi_line "get-mark :" s6) as [[mark' s7]|]; [|done]. cbn [mbind option_bind]. case_decide; [|done].
  intros [= <-]. cbn [fc_changes]. by eapply fi_changes_bound.
Qed.

Lemma apply_changes_sound (changes : list fi_change) : forall files : gmap str str,
  (forall p c, files !! p = Some c -> validArchivePath p = true /\ octets c < 2 ^ 63) ->
  forallb change_valid changes = true -> small_contents changes ->
  (forall p c, apply_changes files changes !! p = Some c -> validArchivePath p = true /\ octets c < 2 ^ 63) /\
  (size (apply_changes files changes) <= size files + length changes)%nat.
Proof.
  induction changes as [|change changes IH]; intros files Hf Hv Hs; [by split; [|cbn; lia]|].
  cbn [forallb] in Hv. apply andb_true_iff in Hv as [Hc Hv]. apply Forall_cons in Hs as [Hsc Hs].
  change (apply_changes files (change :: changes)) with (apply_changes (apply_change files change) changes).
  assert ((forall p c, apply_change files change !! p = Some c -> validArchivePath p = true /\ octets c < 2 ^ 63) /\
    (size (apply_change files change) <= size files + 1)%nat) as [Hf' Hsize].
  { destruct change as [path content|path]; cbn [apply_change change_valid] in *; split.
    - intros p c [[<- <-]|[_ Hp]]%lookup_insert_Some; [done | by eapply Hf].
    - destruct (files !! path) eqn:E; [rewrite map_size_insert_Some by done | rewrite map_size_insert_None by done]; lia.
    - intros p c [_ Hp]%lookup_delete_Some. by eapply Hf.
    - rewrite map_size_delete. destruct (files !! path); cbn; lia. }
  destruct (IH _ Hf' Hv Hs) as [H1 H2]. split; [done|]. cbn [length]. lia.
Qed.

(** Each commit adds at most two files. *)
Definition model_capacity (ref : str) (l : list (gmap str str)) : nat :=
  match last l with
  | Some files =>
      if sound l && bool_decide (ref = toy_ref)
      then Z.to_nat (Z.min (model_limit - Z.of_nat (length l)) ((model_limit - Z.of_nat (size files)) / 2)) else 0%nat
  | None => 0%nat
  end.

#[export] Instance model_serves : GitServes model_capacity.
Proof.
  split; [done | done |]. intros ref l tx c Hcap Hparse Href Hhead Hvalid Hlen. unfold model_capacity in *.
  destruct (last l) as [files|] eqn:Hlast; [|lia]. destruct (sound l) eqn:Hs; [|cbn in Hcap; lia]. cbn [andb] in *.
  case_bool_decide as Er; [|lia].
  assert (l <> []) as Hne by (by intros ->). rewrite (model_head l Hne) in Hhead. injection Hhead as Hfrom.
  assert (fc_from c = Some (model_commit (length l - 1))) as Hfrom'.
  { destruct (fc_from c) as [parent|]; [change (default [] (Some parent)) with parent in Hfrom; by rewrite Hfrom|]. change (default [] None) with ([] : str) in Hfrom.
    pose proof (hi_length _ (model_commit_hex (length l - 1))) as Hl. by rewrite Hfrom in Hl. }
  pose proof (fi_parse_bound tx c Hparse) as Hsmall. destruct (sound_spec l Hs) as [Hall Hlimit].
  assert (sound_files files = true) as Hf.
  { rewrite Forall_forall in Hall. apply Hall. apply last_Some in Hlast as [l0 ->]. apply elem_of_app. right. by left. }
  apply sound_files_spec in Hf as [Hf Hsize]. destruct (apply_changes_sound (fc_changes c) files Hf Hvalid Hsmall) as [Hf' Hsize'].
  set (files' := apply_changes files (fc_changes c)) in *.
  assert (0 < Z.min (model_limit - Z.of_nat (length l)) ((model_limit - Z.of_nat (size files)) / 2)) as Hpos by lia.
  pose proof (Z.mul_div_le (model_limit - Z.of_nat (size files)) 2 ltac:(lia)) as Hdiv.
  assert (sound (l ++ [files']) = true) as Hs'.
  { unfold sound. apply andb_true_iff. split.
    - apply forallb_Forall, Forall_app. split; [done|]. apply Forall_singleton, sound_files_spec. split; [done | lia].
    - apply Z.leb_le. rewrite length_app. cbn. lia. }
  assert (model_apply l tx = Some (l ++ [files'])) as Happly.
  { apply model_apply_Some. exists c, files. split_and!; try done. by subst ref. }
  assert (Z.to_nat (Z.min (model_limit - Z.of_nat (length l)) ((model_limit - Z.of_nat (size files)) / 2))
    <= S (model_capacity ref (l ++ [files'])))%nat as Hleft.
  { unfold model_capacity. rewrite last_snoc, Hs'. cbn [andb]. rewrite bool_decide_eq_true_2 by done. rewrite length_app. cbn [length].
    assert ((model_limit - Z.of_nat (size files)) / 2 <= (model_limit - Z.of_nat (size files')) / 2 + 1); [|lia].
    rewrite <- (Z.div_add _ 1 2) by lia. apply Z.div_le_mono; lia. }
  exists (model_commit (length l)). cbn [mark_line checkpoint_line published model_git]. rewrite Happly. cbn [default from_option].
  split_and!; [done | by apply hex_id_valid, model_commit_hex | done | |].
  - etransitivity; [apply (model_head (l ++ [files'])); by destruct l|]. rewrite length_app. cbn [length].
    by replace (length l + 1 - 1)%nat with (length l) by lia.
  - unfold model_capacity in Hleft. rewrite (bool_decide_eq_true_2 (ref = toy_ref)) in Hleft by done. exact Hleft.
Qed.
