(* ===== verification/Tls.v ===== *)
(** * The TLS identity (internal/tlscert)

    Finding, checking, reloading and reporting on the one certificate that both
    servers share. *)

From S2P Require Import Prelude GoStrings.

(** ** Go's TLS library *)

(** [crypto/tls], [crypto/x509] and [crypto/sha256]: a parsed pair, its leaf, the
    names the leaf covers and the interval it is valid in (nanoseconds). *)
Class TlsLibrary := {
  Certificate : Type;
  Leaf : Type;
  X509KeyPair : str -> str -> result Certificate;
  ParseCertificate : Certificate -> result Leaf;
  VerifyHostname : Leaf -> str -> option error;
  NotBefore : Leaf -> Z;
  NotAfter : Leaf -> Z;
  Sum256 : str -> str;
}.

(** ** Host names *)

Definition dns_rune (r : Z) : bool :=
  ((97 <=? r) && (r <=? 122)) || ((48 <=? r) && (r <=? 57)) || (r =? 45).

Definition dns_label (label : str) : bool :=
  if bool_decide (label = []) || (63 <? length label)%nat || bool_decide (head label = Some "-"%char)
     || bool_decide (last label = Some "-"%char)
  then false else forallb dns_rune (runes label).*1.

Definition validDNSName (name : str) : bool :=
  if bool_decide (name = []) || (253 <? length name)%nat then false
  else forallb dns_label (Split name "."%char).

Section Names.
Context `{UnicodeTables}.

Definition normalizeHostname (raw : str) : str := TrimSuffix (ToLower (TrimSpace raw)) ".".

(** The loop; [normalized] is in order. *)
Fixpoint normalize_loop (hostnames normalized : list str) : result (list str) :=
  match hostnames with
  | [] => Ok normalized
  | raw :: rest =>
      let name := normalizeHostname raw in
      if negb (validDNSName name) then Err (New "invalid TLS hostname")
      else if bool_decide (name ∈ normalized) then normalize_loop rest normalized
      else normalize_loop rest (normalized ++ [name])
  end.

Definition normalizeHostnames (hostnames : list str) : result (list str) :=
  let! normalized := normalize_loop hostnames [] in
  if bool_decide (normalized = []) then Err (New "at least one TLS hostname is required") else Ok normalized.
End Names.

(** The name and its parent domains, except the last label alone. *)
Fixpoint suffixes (labels : list str) : list str :=
  match labels with
  | [] | [_] => []
  | _ :: rest => Join labels "." :: suffixes rest
  end.

Definition domainCandidates (hostname : str) : list str := suffixes (Split hostname "."%char).

(** ** Loading *)

Section Loading.
Context `{UnicodeTables, TL : TlsLibrary}.

Record loadedCertificate := {
  certificate : Certificate;
  leaf : Leaf;
  hash : str;
  directory : str;
}.

(** The first name that the leaf does not cover. *)
Fixpoint uncovered (l : Leaf) (hostnames : list str) : option error :=
  match hostnames with
  | [] => None
  | hostname :: rest =>
      match VerifyHostname l hostname with
      | Some e => Some (Wrap "certificate does not cover" e)
      | None => uncovered l rest
      end
  end.

Definition wrapped {A} (context : string) (r : result A) : result A :=
  match r with Ok a => Ok a | Err e => Err (Wrap context e) end.

(** [read] is [os.ReadFile]. *)
Definition loadDirectory (read : str -> result str) (dir : str) (hostnames : list str) : result loadedCertificate :=
  let! certPEM := read (filepath_Join [dir; "fullchain.pem" : str]) in
  let! keyPEM := read (filepath_Join [dir; "privkey.pem" : str]) in
  let! chain := wrapped "parse certificate pair" (X509KeyPair certPEM keyPEM) in
  let! l := wrapped "parse leaf certificate" (ParseCertificate chain) in
  match uncovered l hostnames with
  | Some e => Err e
  | None => Ok {| certificate := chain; leaf := l; hash := Sum256 (certPEM ++ keyPEM); directory := dir |}
  end.

Fixpoint load_first (read : str -> result str) (certDir : str) (candidates names : list str) : result loadedCertificate :=
  match candidates with
  | [] => Err (New "no certificate found")
  | candidate :: rest =>
      let dir := filepath_Join [certDir; candidate] in
      match loadDirectory read dir names with
      | Ok loaded => Ok loaded
      | Err e => if errors_Is e OsErrNotExist then load_first read certDir rest names
                 else Err (Wrap "load certificate directory" e)
      end
  end.

Definition loadCertificate (read : str -> result str) (certDir : str) (hostnames : list str) : result loadedCertificate :=
  let! names := normalizeHostnames hostnames in
  load_first read certDir (domainCandidates (default [] (head names))) names.

(** ** The manager *)

(** What was warned about last: the expiration, which the code formats, and the
    level. *)
Record Manager := {
  certDir : str;
  hostnames : list str;
  lastWarning : option (Z * str);
  current : option loadedCertificate;
}.

Inductive tls_log :=
  | Reloaded (dir : str)
  | ExpiresSoon (not_after : Z) (level : str)
  | Expired (not_after : Z)
  | ReloadFailed (e : error).

Definition Hour : Z := 3600 * 1000000000.

(** [time.Time.Sub] saturates at the largest and smallest durations. *)
Definition time_Sub (t u : Z) : Z := Z.max (- 2 ^ 63) (Z.min (2 ^ 63 - 1) (t - u)).

Definition expirationLevel (notAfter now : Z) : str :=
  let remaining := time_Sub notAfter now in
  if remaining <=? 0 then "expired"
  else if remaining <=? 24 * Hour then "1d"
  else if remaining <=? 7 * 24 * Hour then "7d"
  else if remaining <=? 30 * 24 * Hour then "30d"
  else [].

Definition set_warning (w : option (Z * str)) (m : Manager) : Manager :=
  {| certDir := certDir m; hostnames := hostnames m; lastWarning := w; current := current m |}.

Definition set_current (l : loadedCertificate) (m : Manager) : Manager :=
  {| certDir := certDir m; hostnames := hostnames m; lastWarning := lastWarning m; current := Some l |}.

Definition reportExpiration (now : Z) (m : Manager) : list tls_log * Manager :=
  match current m with
  | None => ([], m)
  | Some loaded =>
      let notAfter := NotAfter (leaf loaded) in
      let level := expirationLevel notAfter now in
      if bool_decide (level = []) then ([], m)
      else if bool_decide (lastWarning m = Some (notAfter, level)) then ([], m)
      else ([if bool_decide (level = "expired") then Expired notAfter else ExpiresSoon notAfter level],
            set_warning (Some (notAfter, level)) m)
  end.

(** [tlscert.New], at the time [now]. *)
Definition New_manager (read : str -> result str) (dir : str) (names : list str) (now : Z) : result (list tls_log * Manager) :=
  let! names := normalizeHostnames names in
  let! loaded := loadCertificate read dir names in
  Ok (reportExpiration now {| certDir := dir; hostnames := names; lastWarning := None; current := Some loaded |}).

Definition GetCertificate (m : Manager) : result Certificate :=
  match current m with
  | Some loaded => Ok (certificate loaded)
  | None => Err (New "TLS certificate is unavailable")
  end.

(** [Reload]; [checked] and [reported] are the times it takes. *)
Definition Reload (read : str -> result str) (checked reported : Z) (m : Manager) : result bool * list tls_log * Manager :=
  match loadCertificate read (certDir m) (hostnames m) with
  | Err e => (Err e, [], m)
  | Ok next =>
      if match current m with
         | Some loaded => bool_decide (hash loaded = hash next) && bool_decide (directory loaded = directory next)
         | None => false
         end
      then (Ok false, [], m)
      else if (checked <? NotBefore (leaf next)) || negb (checked <? NotAfter (leaf next))
      then (Err (New "replacement TLS certificate is not currently valid"), [], m)
      else
        let '(logs, m) := reportExpiration reported (set_warning None (set_current next m)) in
        (Ok true, Reloaded (directory next) :: logs, m)
  end.

(** One turn of the reload loop: the files and the times it meets. *)
Record tick := {
  tk_read : str -> result str;
  tk_checked : Z;
  tk_reported : Z;
  tk_after : Z;
}.

Definition reload_tick (t : tick) (m : Manager) : list tls_log * Manager :=
  let '(r, logs, m) := Reload (tk_read t) (tk_checked t) (tk_reported t) m in
  let failed := match r with Err e => [ReloadFailed e] | Ok _ => [] end in
  let '(more, m) := reportExpiration (tk_after t) m in
  (logs ++ failed ++ more, m).

Fixpoint reload_loop (ticks : list tick) (m : Manager) : list tls_log * Manager :=
  match ticks with
  | [] => ([], m)
  | t :: rest =>
      let '(logs, m) := reload_tick t m in
      let '(more, m) := reload_loop rest m in
      (logs ++ more, m)
  end.

(** [RunReloadLoop], up to the cancellation of its context. *)
Definition RunReloadLoop (interval : Z) (ticks : list tick) (m : Manager) : list tls_log * Manager :=
  if interval <=? 0 then ([], m) else reload_loop ticks m.
End Loading.
