(* ===== verification/TlsTheorems.v ===== *)
(** * The shared certificate is always good

    What loading and reloading guarantee about the certificate both servers
    present, and that expiry is reported once per level. *)

From S2P Require Import Prelude GoStrings Tls.

(** ** Host names *)

Lemma elem_of_Join_sep (l : list str) sep c : c ∈ Join l [sep] -> c = sep \/ exists p, p ∈ l /\ c ∈ p.
Proof.
  induction l as [|p [|q l] IH]; cbn [Join]; intros Hc.
  - by apply elem_of_nil in Hc.
  - right. exists p. split; [by left | done].
  - apply elem_of_app in Hc as [Hc|[Hc|Hc]%elem_of_app].
    + right. exists p. split; [by left | done].
    + left. by apply list_elem_of_singleton in Hc.
    + destruct (IH Hc) as [->|(p' & Hp & Hc')]; [by left|]. right. exists p'. split; [by right | done].
Qed.

Lemma dns_label_chars label : dns_label label = true -> label <> [] /\ Forall (fun c => dns_rune (code c) = true) label.
Proof.
  unfold dns_label. destruct (_ || _) eqn:E; [done|]. apply orb_false_iff in E as [[[E _]%orb_false_iff _]%orb_false_iff _].
  apply bool_decide_eq_false in E. intros HF. split; [exact E|].
  rewrite forallb_Forall in HF. rewrite Forall_fmap in HF.
  assert (ascii_only label) as Ha.
  { apply runes_all_ascii. eapply Forall_impl; [exact HF|]. intros [r b]. cbn. unfold dns_rune. lia. }
  rewrite runes_ascii, Forall_fmap in HF by done. exact HF.
Qed.

Lemma dns_name_chars name : validDNSName name = true ->
  name <> [] /\ Forall (fun c => c = "."%char \/ dns_rune (code c) = true) name.
Proof.
  unfold validDNSName. destruct (_ || _) eqn:E; [done|]. apply orb_false_iff in E as [E%bool_decide_eq_false _].
  intros HF%forallb_Forall. split; [exact E|]. apply Forall_forall. intros c Hc. rewrite <- (Join_Split name "."%char) in Hc.
  apply elem_of_Join_sep in Hc as [->|(p & Hp & Hc)]; [by left | right].
  rewrite Forall_forall in HF. destruct (dns_label_chars p (HF p Hp)) as [_ Hd]. rewrite Forall_forall in Hd. by apply Hd.
Qed.

Lemma dns_name_word name : validDNSName name = true -> word name.
Proof.
  intros [Hne HF]%dns_name_chars. split; [exact Hne|]. eapply Forall_impl; [exact HF|].
  intros c [->|Hc]; [by vm_compute|]. unfold dns_rune in Hc. unfold IsSpace. lia.
Qed.

(** A valid name ends in a label. *)
Lemma dns_name_suffix name : validDNSName name = true -> HasSuffix name "." = false.
Proof.
  intros Hv. destruct (HasSuffix name ".") eqn:E; [|done]. apply HasSuffix_spec in E as (t & ->). exfalso.
  unfold validDNSName in Hv. destruct (_ || _); [done|]. apply forallb_Forall in Hv. rewrite Forall_forall in Hv.
  change (t ++ list_ascii_of_string ".") with (t ++ "."%char :: []) in Hv. rewrite Split_app in Hv.
  assert (dns_label [] = true) as Hd; [|done]. apply Hv. apply elem_of_app. right. by left.
Qed.

Section Names.
Context `{UnicodeTables}.

Lemma ToLower_dns name : Forall (fun c => c = "."%char \/ dns_rune (code c) = true) name -> ToLower name = name.
Proof.
  intros HF. unfold ToLower, Map. rewrite runes_ascii.
  2: { eapply Forall_impl; [exact HF|]. intros c [->|Hc]; [done|]. unfold dns_rune in Hc. lia. }
  induction HF as [|c name Hc HF IH]; [done|]. rewrite !fmap_cons. change (mjoin (?x :: ?l)) with (x ++ mjoin l). rewrite IH.
  assert (0 <= code c <= 127 /\ ((65 <=? code c) && (code c <=? 90)) = false) as [Hr Hu].
  { destruct Hc as [->|Hc]; [by vm_compute|]. unfold dns_rune in Hc. lia. }
  cbn [fst]. unfold rune_lower. rewrite (proj2 (Z.leb_le _ _)) by lia. rewrite Hu.
  rewrite (proj2 (Z.ltb_ge _ _)) by lia. unfold EncodeRune.
  assert ((code c <? 0) || (1114111 <? code c) || (55296 <=? code c) && (code c <=? 57343) = false) as -> by lia.
  rewrite (proj2 (Z.ltb_lt _ _)) by lia. by rewrite byte_of_code.
Qed.

(** Normalised names are left as they are. *)
Lemma normalizeHostname_valid name : validDNSName name = true -> normalizeHostname name = name.
Proof.
  intros Hv. unfold normalizeHostname. rewrite TrimSpace_word by (by apply dns_name_word).
  rewrite ToLower_dns by (by apply dns_name_chars). apply TrimSuffix_none. by apply dns_name_suffix.
Qed.

Lemma normalize_loop_spec hostnames normalized names : normalize_loop hostnames normalized = Ok names ->
  NoDup normalized -> Forall (fun n => validDNSName n = true) normalized ->
  NoDup names /\ Forall (fun n => validDNSName n = true) names /\
  forall n, n ∈ names <-> n ∈ normalized \/ exists raw, raw ∈ hostnames /\ n = normalizeHostname raw.
Proof.
  revert normalized. induction hostnames as [|raw hostnames IH]; intros normalized; cbn [normalize_loop].
  - intros <-%Ok_inj HN HF. split; [done|]. split; [done|]. intros n. split; [by left|].
    by intros [?|(raw & Hr%elem_of_nil & _)].
  - destruct (validDNSName (normalizeHostname raw)) eqn:Hv; [|done]. cbn [negb]. case_bool_decide as Hin; intros E HN HF.
    + destruct (IH _ E HN HF) as (H1 & H2 & H3). split; [done|]. split; [done|]. intros n. rewrite H3. split.
      * intros [?|(r & Hr & ->)]; [by left|]. right. exists r. split; [by right | done].
      * intros [?|(r & [->|Hr]%elem_of_cons & ->)]; [by left | by left | right; by exists r].
    + destruct (IH _ E) as (H1 & H2 & H3).
      { apply NoDup_app. split; [done|]. split; [|apply NoDup_singleton]. intros x Hx ->%list_elem_of_singleton. done. }
      { apply Forall_app. by split; [|constructor]. }
      split; [done|]. split; [done|]. intros n. rewrite H3, elem_of_app, list_elem_of_singleton. split.
      * intros [[?| ->]|(r & Hr & ->)]; [by left | right; exists raw; by split; [left|] | right; exists r; by split; [right|]].
      * intros [?|(r & [->|Hr]%elem_of_cons & ->)]; [by left; left | by left; right | right; by exists r].
Qed.

(** What the configured names become. *)
Lemma normalizeHostnames_ok hostnames names : normalizeHostnames hostnames = Ok names ->
  names <> [] /\ NoDup names /\ Forall (fun n => validDNSName n = true) names /\
  forall n, n ∈ names <-> exists raw, raw ∈ hostnames /\ n = normalizeHostname raw.
Proof.
  unfold normalizeHostnames. intros (l & El & E)%rbind_Ok. case_bool_decide as Hne; [done|]. apply Ok_inj in E as <-.
  destruct (normalize_loop_spec _ _ _ El) as (H1 & H2 & H3); [constructor | constructor|]. split_and!; try done.
  intros n. rewrite H3. split; [by intros [Hn%elem_of_nil|?] | by right].
Qed.

Lemma normalize_loop_fixed names normalized : Forall (fun n => validDNSName n = true) names ->
  NoDup (normalized ++ names) -> normalize_loop names normalized = Ok (normalized ++ names).
Proof.
  intros HF. revert normalized. induction HF as [|n names Hv HF IH]; intros normalized HN; cbn [normalize_loop].
  - by rewrite app_nil_r.
  - rewrite normalizeHostname_valid, Hv by done. cbn [negb]. rewrite bool_decide_eq_false_2.
    + rewrite IH; by rewrite <- app_assoc.
    + intros Hin. apply NoDup_app in HN as (_ & Hd & _). apply (Hd n Hin). by left.
Qed.

Lemma normalizeHostnames_fixed names : names <> [] -> NoDup names -> Forall (fun n => validDNSName n = true) names ->
  normalizeHostnames names = Ok names.
Proof.
  intros Hne HN HF. unfold normalizeHostnames. rewrite (normalize_loop_fixed names []) by done. cbn [rbind app].
  by rewrite bool_decide_eq_false_2.
Qed.
End Names.

(** ** Loading *)

Section Loading.
Context `{UnicodeTables, TL : TlsLibrary}.

(** A certificate that was parsed from files with its key and covers the names. *)
Record genuine (names : list str) (l : loadedCertificate) : Prop := {
  gn_covers name : name ∈ names -> VerifyHostname (leaf l) name = None;
  gn_pair : exists chain key, X509KeyPair chain key = Ok (certificate l) /\ ParseCertificate (certificate l) = Ok (leaf l) /\
    hash l = Sum256 (chain ++ key);
}.

Lemma uncovered_none l names : uncovered l names = None <-> forall name, name ∈ names -> VerifyHostname l name = None.
Proof.
  induction names as [|n names IH]; cbn [uncovered]; [by split; [intros _ n Hn%elem_of_nil|]|].
  destruct (VerifyHostname l n) as [e|] eqn:E.
  - split; [done|]. intros Hall. specialize (Hall n ltac:(left)). congruence.
  - rewrite IH. split; [by intros Hall x [->|Hx]%elem_of_cons; [|apply Hall] | intros Hall x Hx; apply Hall; by right].
Qed.

Lemma loadDirectory_ok read dir names l : loadDirectory read dir names = Ok l -> genuine names l /\ directory l = dir.
Proof.
  unfold loadDirectory. intros (chain & _ & E)%rbind_Ok. revert E. intros (key & _ & E)%rbind_Ok.
  apply rbind_Ok in E as (cert & Hc & E). apply rbind_Ok in E as (lf & Hl & E).
  destruct (uncovered lf names) eqn:Hu; [done|]. apply Ok_inj in E as <-. split; [|done].
  split; [by apply uncovered_none|]. exists chain, key. cbn [certificate leaf hash].
  destruct (X509KeyPair chain key) as [c|]; [|done]. apply Ok_inj in Hc as ->.
  destruct (ParseCertificate cert) as [c'|]; [|done]. by apply Ok_inj in Hl as ->.
Qed.

(** The first directory that is there decides. *)
Lemma load_first_ok read dir candidates names l : load_first read dir candidates names = Ok l ->
  exists before candidate after, candidates = before ++ candidate :: after /\
    loadDirectory read (filepath_Join [dir; candidate]) names = Ok l /\
    Forall (fun c => exists e, loadDirectory read (filepath_Join [dir; c]) names = Err e /\ errors_Is e OsErrNotExist = true) before.
Proof.
  induction candidates as [|c candidates IH]; cbn [load_first]; [done|].
  destruct (loadDirectory _ _ _) as [l'|e] eqn:E; [intros <-%Ok_inj; by exists [], c, candidates|].
  destruct (errors_Is e OsErrNotExist) eqn:He; [|done]. intros (before & c' & after & -> & Hl & HF)%IH.
  exists (c :: before), c', after. split; [done|]. split; [done|]. constructor; [by exists e | done].
Qed.

(** Names that [normalizeHostnames] leaves as they are. *)
Definition names_ok (names : list str) : Prop := names <> [] /\ NoDup names /\ Forall (fun n => validDNSName n = true) names.

Lemma loadCertificate_ok read dir names l : names_ok names -> loadCertificate read dir names = Ok l ->
  genuine names l /\ exists before candidate after, domainCandidates (default [] (head names)) = before ++ candidate :: after /\
    directory l = filepath_Join [dir; candidate] /\
    Forall (fun c => exists e, loadDirectory read (filepath_Join [dir; c]) names = Err e /\ errors_Is e OsErrNotExist = true) before.
Proof.
  intros (H1 & H2 & H3). unfold loadCertificate. rewrite normalizeHostnames_fixed by done. cbn [rbind].
  intros (before & c & after & E & Hl & HF)%load_first_ok. destruct (loadDirectory_ok _ _ _ _ Hl) as [Hg Hd].
  split; [done|]. by exists before, c, after.
Qed.

(** ** The manager's invariant *)

Record serving (names : list str) (m : Manager) : Prop := {
  sv_hostnames : hostnames m = names;
  sv_current : exists l, current m = Some l /\ genuine names l;
}.

(** Reporting changes nothing but the last warning. *)
Lemma report_keeps now m : hostnames (reportExpiration now m).2 = hostnames m /\ certDir (reportExpiration now m).2 = certDir m /\
  current (reportExpiration now m).2 = current m.
Proof.
  unfold reportExpiration. destruct (current m) as [l|] eqn:E; [|by rewrite <- E].
  rewrite <- E. destruct (bool_decide _); [done|]. by destruct (bool_decide _).
Qed.

Lemma report_serving names now m : serving names m -> serving names (reportExpiration now m).2.
Proof. intros [Hn Hc]. destruct (report_keeps now m) as (H1 & _ & H3). split; [by rewrite H1 | by rewrite H3]. Qed.

Lemma Reload_serving names read checked reported m : names_ok names -> serving names m ->
  serving names (Reload read checked reported m).2.
Proof.
  intros Hnames Hm. unfold Reload. destruct (loadCertificate _ _ _) as [next|e] eqn:E; [|exact Hm].
  destruct (match current m with Some _ => _ | None => _ end); [exact Hm|]. destruct (_ || _); [exact Hm|].
  assert (serving names (set_warning None (set_current next m))) as Hnext.
  { destruct Hm as [Hn _]. split; [done|]. exists next. split; [done|]. rewrite Hn in E. by apply (loadCertificate_ok _ _ _ _ Hnames E). }
  pose proof (report_serving names reported _ Hnext) as Hr. by destruct (reportExpiration reported _).
Qed.

Lemma reload_loop_serving names ticks m : names_ok names -> serving names m -> serving names (reload_loop ticks m).2.
Proof.
  intros Hnames. revert m. induction ticks as [|t ticks IH]; intros m Hm; [exact Hm|]. cbn [reload_loop]. unfold reload_tick.
  pose proof (Reload_serving names (tk_read t) (tk_checked t) (tk_reported t) m Hnames Hm) as H1.
  destruct (Reload _ _ _ m) as [[r logs] m1]. cbn [snd] in H1.
  pose proof (report_serving names (tk_after t) m1 H1) as H2. destruct (reportExpiration _ m1) as [more m2]. cbn [snd] in H2.
  specialize (IH m2 H2). by destruct (reload_loop ticks m2).
Qed.

(** ** Expiry *)

Definition severity (level : str) : Z :=
  if bool_decide (level = "expired") then 4 else if bool_decide (level = "1d") then 3
  else if bool_decide (level = "7d") then 2 else if bool_decide (level = "30d") then 1 else 0.

Definition log_severity (log : tls_log) : Z :=
  match log with Expired _ => 4 | ExpiresSoon _ level => severity level | Reloaded _ | ReloadFailed _ => 0 end.

Lemma severity_of_level notAfter now : severity (expirationLevel notAfter now) =
  (let remaining := time_Sub notAfter now in
   if remaining <=? 0 then 4 else if remaining <=? 24 * Hour then 3 else if remaining <=? 7 * 24 * Hour then 2
   else if remaining <=? 30 * 24 * Hour then 1 else 0).
Proof.
  unfold expirationLevel. cbv zeta. destruct (_ <=? 0); [done|]. destruct (_ <=? 24 * Hour); [done|].
  destruct (_ <=? 7 * 24 * Hour); [done|]. by destruct (_ <=? 30 * 24 * Hour).
Qed.

(** It only gets worse as time passes. *)
Lemma severity_mono notAfter now now' : now <= now' ->
  severity (expirationLevel notAfter now) <= severity (expirationLevel notAfter now').
Proof.
  intros Hn. rewrite !severity_of_level. unfold time_Sub, Hour. cbv zeta.
  repeat (match goal with |- context [?a <=? ?b] => destruct (Z.leb_spec a b) end); lia.
Qed.

Lemma severity_inj notAfter now notAfter' now' : severity (expirationLevel notAfter now) = severity (expirationLevel notAfter' now') ->
  expirationLevel notAfter now = expirationLevel notAfter' now'.
Proof.
  rewrite !severity_of_level. unfold expirationLevel. cbv zeta.
  repeat (match goal with |- context [?a <=? ?b] => destruct (a <=? b) end); done.
Qed.

Lemma level_severity notAfter now : expirationLevel notAfter now = [] <-> severity (expirationLevel notAfter now) = 0.
Proof.
  rewrite severity_of_level. unfold expirationLevel. cbv zeta.
  repeat (match goal with |- context [?a <=? ?b] => destruct (a <=? b) end); done.
Qed.

Lemma level_range t l : 0 <= severity (expirationLevel (NotAfter (leaf l)) t) <= 4.
Proof.
  rewrite severity_of_level. cbv zeta. repeat (match goal with |- context [?a <=? ?b] => destruct (a <=? b) end); lia.
Qed.

Lemma log_severity_level (notAfter : Z) (lv : str) : log_severity (if bool_decide (lv = "expired") then Expired notAfter else ExpiresSoon notAfter lv) = severity lv.
Proof. unfold severity. destruct (bool_decide (lv = "expired")) eqn:Hx; [done|]. cbn [log_severity]. unfold severity. by rewrite Hx. Qed.

(** The reports at some times. *)
Fixpoint reports (times : list Z) (m : Manager) : list tls_log * Manager :=
  match times with
  | [] => ([], m)
  | now :: rest => let '(logs, m) := reportExpiration now m in let '(more, m) := reports rest m in (logs ++ more, m)
  end.

(** What was warned about is not warned about again. *)
Lemma reports_above l t0 times m : current m = Some l -> lastWarning m = Some (NotAfter (leaf l), expirationLevel (NotAfter (leaf l)) t0) ->
  Forall (fun t => t0 <= t) times -> StronglySorted Z.le times ->
  StronglySorted Z.lt (log_severity <$> (reports times m).1) /\
  Forall (fun v => severity (expirationLevel (NotAfter (leaf l)) t0) < v) (log_severity <$> (reports times m).1) /\
  forall t, t ∈ times -> severity (expirationLevel (NotAfter (leaf l)) t) <> severity (expirationLevel (NotAfter (leaf l)) t0) ->
    severity (expirationLevel (NotAfter (leaf l)) t) ∈ log_severity <$> (reports times m).1.
Proof.
  revert t0 m. induction times as [|t times IH]; intros t0 m Hc Hw HF HS; cbn [reports fmap list_fmap].
  { split_and!; [constructor | constructor | by intros t Ht%elem_of_nil]. }
  apply Forall_cons in HF as [Ht HF]. apply StronglySorted_inv in HS as [HS HFt].
  pose proof (severity_mono (NotAfter (leaf l)) t0 t Ht) as Hmono.
  unfold reportExpiration. rewrite Hc, Hw. case_bool_decide as Hl.
  { apply level_severity in Hl. destruct (IH t0 m Hc Hw HF HS) as (H1 & H2 & H3). destruct (reports times m) as [more m'].
    cbn [app fst] in *. split_and!; [done | done |]. intros x [->|Hx]%elem_of_cons Hne; [|by apply H3].
    pose proof (level_range t0 l). lia. }
  case_bool_decide as Hsame.
  { destruct (IH t0 m Hc Hw HF HS) as (H1 & H2 & H3). destruct (reports times m) as [more m'].
    cbn [app fst] in *. split_and!; [done | done |]. intros x [->|Hx]%elem_of_cons Hne; [|by apply H3]. congruence. }
  set (lv := expirationLevel (NotAfter (leaf l)) t) in *.
  destruct (IH t (set_warning (Some (NotAfter (leaf l), lv)) m) Hc eq_refl HFt HS) as (H1 & H2 & H3).
  destruct (reports times _) as [more m']. cbn [app fst fmap list_fmap] in *. fold lv in H2, H3.
  rewrite log_severity_level.
  assert (severity (expirationLevel (NotAfter (leaf l)) t0) < severity lv) as Hlt.
  { destruct (Z.eq_dec (severity (expirationLevel (NotAfter (leaf l)) t0)) (severity lv)) as [E|]; [|lia].
    apply severity_inj in E. unfold lv in Hsame. congruence. }
  split_and!.
  - constructor; [done|]. exact H2.
  - constructor; [done|]. eapply Forall_impl; [exact H2|]. simpl. lia.
  - intros x [->|Hx]%elem_of_cons Hne; [by left|].
    destruct (Z.eq_dec (severity (expirationLevel (NotAfter (leaf l)) x)) (severity lv)) as [->|Hd]; [by left|].
    right. by apply H3.
Qed.

Lemma New_manager_ok read dir (configured : list str) now logs m : New_manager read dir configured now = Ok (logs, m) ->
  exists names, names_ok names /\ serving names m /\ forall n, n ∈ names <-> exists raw, raw ∈ configured /\ n = normalizeHostname raw.
Proof.
  unfold New_manager. intros (names & Hnames & E)%rbind_Ok. apply rbind_Ok in E as (l0 & Hl & E). apply Ok_inj in E.
  destruct (normalizeHostnames_ok _ _ Hnames) as (H1 & H2 & H3 & H4). exists names. assert (names_ok names) as Hok by done.
  split; [done|]. split; [|done]. apply (f_equal snd) in E. cbn [snd] in E. rewrite <- E. apply report_serving. split; [done|].
  exists l0. split; [done|]. by apply (loadCertificate_ok _ _ _ _ Hok Hl).
Qed.

(** What a serving manager answers. *)
Lemma serving_covers (names : list str) (m : Manager) (configured : list str) : serving names m ->
  (forall n, n ∈ names <-> exists raw, raw ∈ configured /\ n = normalizeHostname raw) ->
  exists l, GetCertificate m = Ok (certificate l) /\ current m = Some l /\ genuine names l /\
    (forall raw, raw ∈ configured -> VerifyHostname (leaf l) (normalizeHostname raw) = None).
Proof.
  intros [Hh (l & Hc & Hg)] Hn. exists l. split_and!; [by unfold GetCertificate; rewrite Hc | done | done |].
  intros raw Hraw. apply (gn_covers _ _ Hg). apply Hn. by exists raw.
Qed.

Lemma New_manager_serving read dir (configured : list str) now logs m : New_manager read dir configured now = Ok (logs, m) ->
  exists l, GetCertificate m = Ok (certificate l) /\ forall raw, raw ∈ configured -> VerifyHostname (leaf l) (normalizeHostname raw) = None.
Proof.
  intros (names & _ & Hs & Hn)%New_manager_ok. destruct (serving_covers _ _ _ Hs Hn) as (l & Hg & _ & _ & Hc). by exists l.
Qed.

(** ** Properties *)

(** C33: The servers always have a usable certificate.  Once [New] succeeded, and
    whatever files and clocks the reload loop meets afterwards, [GetCertificate]
    answers with a certificate that was parsed with its key and whose leaf covers
    every configured host name, in the normal form of that name. *)
Theorem serving_certificate_is_good (read : str -> result str) (dir : str) (configured : list str) (now : Z)
    (logs : list tls_log) (m : Manager) (interval : Z) (ticks : list tick) :
  New_manager read dir configured now = Ok (logs, m) ->
  let '(_, m') := RunReloadLoop interval ticks m in
  exists l, GetCertificate m' = Ok (certificate l) /\ current m' = Some l /\ genuine (hostnames m) l /\
    (forall raw, raw ∈ configured -> VerifyHostname (leaf l) (normalizeHostname raw) = None).
Proof.
  intros (names & Hok & Hm & Hn)%New_manager_ok.
  assert (serving names (RunReloadLoop interval ticks m).2) as Hr.
  { unfold RunReloadLoop. destruct (_ <=? _); [exact Hm | by apply reload_loop_serving]. }
  destruct (RunReloadLoop interval ticks m) as [logs' m']. cbn [snd] in Hr. rewrite (sv_hostnames _ _ Hm).
  by apply serving_covers.
Qed.

(** C34: A reload is all or nothing.  An error keeps the manager as it was; [false]
    means that the directory it would load from has the same content; [true] means
    that the loaded certificate, valid at the time it was checked and different
    from the one before, is now the current one.  What is loaded comes from the
    most specific candidate directory that is there. *)
Theorem reload_is_all_or_nothing (read : str -> result str) (checked reported : Z) (m : Manager) (names : list str) :
  names_ok names -> serving names m ->
  match Reload read checked reported m with
  | (Err e, logs, m') => m' = m /\ logs = []
  | (Ok false, logs, m') => m' = m /\ logs = [] /\
      exists l next, current m = Some l /\ loadCertificate read (certDir m) names = Ok next /\ hash next = hash l /\ directory next = directory l
  | (Ok true, logs, m') => exists l next before candidate after,
      current m = Some l /\ current m' = Some next /\ genuine names next /\
      NotBefore (leaf next) <= checked < NotAfter (leaf next) /\ (hash next <> hash l \/ directory next <> directory l) /\
      domainCandidates (default [] (head names)) = before ++ candidate :: after /\ directory next = filepath_Join [certDir m; candidate] /\
      Forall (fun c => exists e, loadDirectory read (filepath_Join [certDir m; c]) names = Err e /\ errors_Is e OsErrNotExist = true) before
  end.
Proof.
  intros Hnames [Hh (l & Hc & Hg)]. unfold Reload. rewrite Hc, Hh.
  destruct (loadCertificate read (certDir m) names) as [next|e] eqn:E; [|done].
  destruct (bool_decide _ && bool_decide _) eqn:Es.
  { apply andb_true_iff in Es as [H1%bool_decide_eq_true H2%bool_decide_eq_true]. split; [done|]. split; [done|]. by exists l, next. }
  destruct (_ || _) eqn:Ev; [done|].
  pose proof (report_keeps reported (set_warning None (set_current next m))) as (_ & _ & Hcur).
  destruct (reportExpiration _ _) as [logs m']. cbn [snd] in Hcur.
  destruct (loadCertificate_ok _ _ _ _ Hnames E) as (Hgn & before & c & after & Hd & Hdir & HF).
  exists l, next, before, c, after. split; [done|]. split; [exact Hcur|]. split; [done|]. split; [lia|]. split; [|by split_and!].
  apply andb_false_iff in Es as [Es|Es]; apply bool_decide_eq_false in Es; [left | right]; congruence.
Qed.

(** Expiry is announced once per level.  While one certificate is current and
    the clock does not go back, the warnings are of strictly increasing severity
    (30 days, 7 days, 1 day, expired), and every level met at a report has been
    announced. *)
Theorem warnings_escalate (times : list Z) (m : Manager) (l : loadedCertificate) :
  current m = Some l -> lastWarning m = None -> StronglySorted Z.le times ->
  let logs := (reports times m).1 in
  StronglySorted Z.lt (log_severity <$> logs) /\
  forall t, t ∈ times -> expirationLevel (NotAfter (leaf l)) t <> [] ->
    severity (expirationLevel (NotAfter (leaf l)) t) ∈ log_severity <$> logs.
Proof.
  intros Hc Hw HS. cbn zeta. induction HS as [|t times HS IH Ht]; cbn [reports]; [split; [constructor | by intros t Ht%elem_of_nil]|].
  unfold reportExpiration. rewrite Hc, Hw. case_bool_decide as Hl.
  { destruct (reports times m) as [more m']. cbn [app fst] in *. destruct IH as [H1 H2]. split; [done|].
    intros x [->|Hx]%elem_of_cons Hne; [done | by apply H2]. }
  clear IH. rewrite bool_decide_eq_false_2 by done. set (lv := expirationLevel (NotAfter (leaf l)) t) in *.
  destruct (reports_above l t times (set_warning (Some (NotAfter (leaf l), lv)) m) Hc eq_refl Ht HS) as (H1 & H2 & H3).
  destruct (reports times _) as [more m']. cbn [app fst fmap list_fmap] in *. fold lv in H2, H3. rewrite log_severity_level.
  split; [by constructor|]. intros x [->|Hx]%elem_of_cons Hne; [by left|].
  destruct (Z.eq_dec (severity (expirationLevel (NotAfter (leaf l)) x)) (severity lv)) as [->|Hd]; [by left|].
  right. by apply H3.
Qed.
End Loading.

(** ** Witnesses *)

(** A library whose certificates are the names they cover, valid in the first
    hundred days. *)
#[export] Instance ascii_tables : UnicodeTables := {| table_upper r := r; table_lower r := r; table_fold _ _ := false |}.

#[export] Instance toy_tls : TlsLibrary := {|
  Certificate := str;
  Leaf := str;
  X509KeyPair chain key := if bool_decide (key = "key") then Ok chain else Err (New "private key does not match");
  ParseCertificate chain := Ok chain;
  VerifyHostname l name := if bool_decide (name ∈ Split l ","%char) then None else Some (New "not valid for name");
  NotBefore _ := 0;
  NotAfter _ := 100 * 24 * Hour;
  Sum256 content := content;
|}.

Definition no_file : result str := Err (Sentinel OsErrNotExist).

(** A certificate for the parent domain covers both names; later the directory of
    the name itself holds one that covers only that name. *)
Definition old_files (path : str) : result str :=
  if bool_decide (path = "certs/example.net/fullchain.pem") then Ok ("mx.example.net,pop.example.net" : str)
  else if bool_decide (path = "certs/example.net/privkey.pem") then Ok ("key" : str) else no_file.

Definition broken_files (path : str) : result str :=
  if bool_decide (path = "certs/mx.example.net/fullchain.pem") then Ok ("mx.example.net" : str)
  else if bool_decide (path = "certs/mx.example.net/privkey.pem") then Ok ("key" : str) else old_files path.

Definition new_files (path : str) : result str :=
  if bool_decide (path = "certs/mx.example.net/fullchain.pem") then Ok ("pop.example.net,mx.example.net" : str)
  else if bool_decide (path = "certs/mx.example.net/privkey.pem") then Ok ("key" : str) else old_files path.

Definition toy_configured : list str := ["MX.example.net." : str; "pop.example.net" : str].

Definition toy_loaded : loadedCertificate :=
  {| certificate := ("mx.example.net,pop.example.net" : str) : Certificate; leaf := ("mx.example.net,pop.example.net" : str) : Leaf;
     hash := "mx.example.net,pop.example.netkey"; directory := "certs/example.net" |}.

Definition toy_manager : Manager :=
  {| certDir := "certs"; hostnames := ["mx.example.net" : str; "pop.example.net" : str]; lastWarning := None; current := Some toy_loaded |}.

Lemma serving_certificate_is_good_witness :
  let '(logs, m') := RunReloadLoop 1 [{| tk_read := broken_files; tk_checked := Hour; tk_reported := Hour; tk_after := Hour |};
                                      {| tk_read := new_files; tk_checked := Hour; tk_reported := Hour; tk_after := Hour |}] toy_manager in
  logs = [ReloadFailed (Wrap "load certificate directory" (Wrap "certificate does not cover" (New "not valid for name")));
          Reloaded "certs/mx.example.net"] /\
  exists l, GetCertificate m' = Ok (certificate l) /\ VerifyHostname (leaf l) "mx.example.net" = None.
Proof.
  pose proof (serving_certificate_is_good old_files "certs" toy_configured 0 [] toy_manager 1
    [{| tk_read := broken_files; tk_checked := Hour; tk_reported := Hour; tk_after := Hour |};
     {| tk_read := new_files; tk_checked := Hour; tk_reported := Hour; tk_after := Hour |}]) as H.
  destruct (RunReloadLoop _ _ _) as [logs m'] eqn:E. split; [apply (f_equal fst) in E; cbn [fst] in E; rewrite <- E; by vm_compute|].
  destruct H as (l & Hg & _ & _ & Hn); [by vm_compute|]. exists l. split; [exact Hg|].
  apply (Hn "MX.example.net."). apply (bool_decide_unpack _). by vm_compute.
Defined.

Lemma reload_is_all_or_nothing_witness :
  names_ok (hostnames toy_manager) /\
  match Reload new_files Hour Hour toy_manager with
  | (Ok true, _, m') => match current m' with Some l => directory l = "certs/mx.example.net" | None => False end
  | _ => False
  end.
Proof.
  assert (names_ok (hostnames toy_manager)) as Hn.
  { split; [done|]. split; apply (bool_decide_unpack _); by vm_compute. }
  split; [exact Hn|]. assert (serving (hostnames toy_manager) toy_manager) as Hs.
  { split; [done|]. eexists. split; [reflexivity|]. split.
    - intros name Hin. apply list_elem_of_In in Hin as [<-|[<-|[]]]; by vm_compute.
    - exists ("mx.example.net,pop.example.net" : str), ("key" : str). split_and!; by vm_compute. }
  pose proof (reload_is_all_or_nothing new_files Hour Hour toy_manager (hostnames toy_manager) Hn Hs) as H.
  destruct (Reload new_files Hour Hour toy_manager) as [[[[]|e] logs] m'] eqn:E.
  - destruct H as (l & next & before & candidate & after & _ & Hc & _). rewrite Hc.
    apply (f_equal (fun r => (fun d => bool_decide (d = Some ("certs/mx.example.net" : str))) (directory <$> current r.2))) in E.
    cbn [snd] in E. rewrite Hc in E. cbn [fmap option_fmap option_map] in E.
    assert (bool_decide (Some (directory next) = Some ("certs/mx.example.net" : str)) = true) as Hd by (rewrite <- E; by vm_compute).
    apply bool_decide_eq_true in Hd. by injection Hd.
  - apply (f_equal (fun r => match r.1.1 with Ok b => b | Err _ => false end)) in E. vm_compute in E. discriminate E.
  - apply (f_equal (fun r => is_ok r.1.1)) in E. vm_compute in E. discriminate E.
Defined.

Lemma warnings_escalate_witness :
  let times := [0; 75 * 24 * Hour; 80 * 24 * Hour; 99 * 24 * Hour; 100 * 24 * Hour; 101 * 24 * Hour] in
  StronglySorted Z.lt (log_severity <$> (reports times toy_manager).1) /\
  (reports times toy_manager).1 = [ExpiresSoon (100 * 24 * Hour) "30d"; ExpiresSoon (100 * 24 * Hour) "1d"; Expired (100 * 24 * Hour)].
Proof.
  cbn zeta. split; [|by vm_compute].
  apply (warnings_escalate [0; 75 * 24 * Hour; 80 * 24 * Hour; 99 * 24 * Hour; 100 * 24 * Hour; 101 * 24 * Hour] toy_manager
    toy_loaded eq_refl eq_refl).
  unfold Hour. repeat constructor; lia.
Defined.
