(* ===== verification/Duration.v ===== *)
(** * Durations (Go's time.ParseDuration)

    The parser of the daemon's intervals, with the floating-point arithmetic it
    uses for fractions.  Durations are nanoseconds. *)

From Stdlib Require Import SpecFloat.
From S2P Require Import Prelude GoStrings.

(** ** float64 *)

Definition float64 : Type := spec_float.

Definition float64_of (x : Z) : float64 := binary_normalize 53 1024 x 0 false.
Definition float_mul : float64 -> float64 -> float64 := SFmul 53 1024.
Definition float_div : float64 -> float64 -> float64 := SFdiv 53 1024.

(** [uint64(x)] of a float in range. *)
Definition uint64_of (x : float64) : Z :=
  match x with
  | S754_finite false m e => u64 (if 0 <=? e then Z.pos m * 2 ^ e else Z.pos m / 2 ^ (- e))
  | _ => 0
  end.

(** ** Parsing *)

(** [leadingInt]: the digits' value and the rest. *)
Fixpoint leadingInt (x : Z) (s : str) : result (Z * str) :=
  match s with
  | [] => Ok (x, [])
  | c :: t =>
      if is_digit c then
        if 2 ^ 63 / 10 <? x then Err (New "time: bad [0-9]*")
        else
          let x := x * 10 + (code c - 48) in
          if 2 ^ 63 <? x then Err (New "time: bad [0-9]*") else leadingInt x t
      else Ok (x, s)
  end.

Fixpoint leadingFraction (x : Z) (scale : float64) (overflow : bool) (s : str) : Z * float64 * str :=
  match s with
  | [] => (x, scale, [])
  | c :: t =>
      if is_digit c then
        if overflow then leadingFraction x scale true t
        else if (2 ^ 63 - 1) / 10 <? x then leadingFraction x scale true t
        else
          let y := x * 10 + (code c - 48) in
          if 2 ^ 63 <? y then leadingFraction x scale true t
          else leadingFraction y (float_mul scale (float64_of 10)) false t
      else (x, scale, s)
  end.

(** A unit ends at a digit or a period. *)
Fixpoint take_unit (s : str) : str * str :=
  match s with
  | [] => ([], [])
  | c :: t => if bool_decide (c = "."%char) || is_digit c then ([], s) else let '(u, rest) := take_unit t in (c :: u, rest)
  end.

Definition micro : list str := [[byte_of 194; byte_of 181; "s"%char]; [byte_of 206; byte_of 188; "s"%char]; ("us" : str)].

Definition unitMap (u : str) : option Z :=
  if bool_decide (u = "ns") then Some 1
  else if bool_decide (u ∈ micro) then Some 1000
  else if bool_decide (u = "ms") then Some 1000000
  else if bool_decide (u = "s") then Some 1000000000
  else if bool_decide (u = "m") then Some 60000000000
  else if bool_decide (u = "h") then Some 3600000000000
  else None.

Definition invalid_duration : error := New "time: invalid duration".

(** One turn of the loop: a number, a fraction and a unit. *)
Definition duration_step (s : str) : result (Z * str) :=
  match s with
  | [] => Err invalid_duration
  | c :: _ =>
      if negb (bool_decide (c = "."%char) || is_digit c) then Err invalid_duration
      else
        let! (v, rest) := leadingInt 0 s in
        let pre := negb (length rest =? length s)%nat in
        let '(f, scale, rest, post) :=
          match rest with
          | c :: t =>
              if decide (c = "."%char) then
                let '(f, scale, t') := leadingFraction 0 (float64_of 1) false t in
                (f, scale, t', negb (length t' =? length t)%nat)
              else (0, float64_of 1, rest, false)
          | [] => (0, float64_of 1, rest, false)
          end in
        if negb pre && negb post then Err invalid_duration
        else
          let '(u, rest) := take_unit rest in
          if bool_decide (u = []) then Err (New "time: missing unit in duration")
          else match unitMap u with
          | None => Err (New "time: unknown unit in duration")
          | Some unit =>
              if 2 ^ 63 / unit <? v then Err invalid_duration
              else
                let v := v * unit in
                let v := if 0 <? f then u64 (v + uint64_of (float_mul (float64_of f) (float_div (float64_of unit) scale))) else v in
                if (0 <? f) && (2 ^ 63 <? v) then Err invalid_duration else Ok (v, rest)
          end
  end.

Fixpoint duration_loop (fuel : nat) (d : Z) (s : str) : result Z :=
  match s with
  | [] => Ok d
  | _ =>
      match fuel with
      | O => Err (Panicked "out of fuel")
      | S fuel =>
          let! (v, rest) := duration_step s in
          let d := u64 (d + v) in
          if 2 ^ 63 <? d then Err invalid_duration else duration_loop fuel d rest
      end
  end.

Definition ParseDuration (s : str) : result Z :=
  let '(neg, s) :=
    match s with
    | c :: t => if decide (c = "-"%char) then (true, t) else if decide (c = "+"%char) then (false, t) else (false, s)
    | [] => (false, [])
    end in
  if bool_decide (s = ["0"%char]) then Ok 0
  else if bool_decide (s = []) then Err invalid_duration
  else
    let! d := duration_loop (length s) 0 s in
    if (neg : bool) then Ok (- d)
    else if 2 ^ 63 - 1 <? d then Err invalid_duration else Ok d.

(** ** Lemmas *)

Lemma leadingInt_bound s x v rest : 0 <= x -> leadingInt x s = Ok (v, rest) -> 0 <= v /\ (length rest <= length s)%nat.
Proof.
  revert x. induction s as [|c t IH]; intros x Hx; cbn [leadingInt]; [intros [= <- <-]; cbn [length]; lia|].
  destruct (is_digit c) eqn:Hc; [|intros [= <- <-]; cbn [length]; lia].
  destruct (_ <? x); [done|]. destruct (2 ^ 63 <? _); [done|]. intros E. unfold is_digit in Hc.
  apply IH in E; [|lia]. cbn [length]. lia.
Qed.

Lemma leadingFraction_length s x scale overflow : (length (leadingFraction x scale overflow s).2 <= length s)%nat.
Proof.
  revert x scale overflow. induction s as [|c t IH]; intros x scale overflow; cbn [leadingFraction]; [done|].
  destruct (is_digit c); [|done]. cbn [length].
  destruct overflow; [etrans; [apply IH | lia]|]. destruct (_ <? x); [etrans; [apply IH | lia]|].
  destruct (2 ^ 63 <? _); etrans; [apply IH | lia | apply IH | lia].
Qed.

Lemma take_unit_length s u rest : take_unit s = (u, rest) -> (length u + length rest = length s)%nat.
Proof.
  revert u rest. induction s as [|c t IH]; intros u rest; cbn [take_unit]; [by intros [= <- <-]|].
  destruct (_ || _); [by intros [= <- <-]|]. destruct (take_unit t) as [u' r'] eqn:E. intros [= <- <-].
  cbn [length]. by rewrite <- (IH _ _ eq_refl).
Qed.

(** Every turn consumes its unit. *)
Lemma duration_step_length s v rest : duration_step s = Ok (v, rest) -> (length rest < length s)%nat /\ 0 <= v.
Proof.
  unfold duration_step. destruct s as [|c t] eqn:Es; [done|]. rewrite <- Es. destruct (negb _); [done|].
  intros ([x r1] & E1 & E)%rbind_Ok. destruct (leadingInt_bound s 0 x r1 ltac:(lia) E1) as [Hx H1].
  assert (exists f scale r2 (post : bool), (match r1 with
      | c :: t => if decide (c = "."%char) then let '(f, scale, t') := leadingFraction 0 (float64_of 1) false t in
                    (f, scale, t', negb (length t' =? length t)%nat) else (0, float64_of 1, r1, false)
      | [] => (0, float64_of 1, r1, false) end) = (f, scale, r2, post) /\ (length r2 <= length r1)%nat) as (f & scale & r2 & post & E2 & H2).
  { destruct r1 as [|d r]; [by do 4 eexists|]. case_decide; [|by do 4 eexists].
    pose proof (leadingFraction_length r 0 (float64_of 1) false) as Hl.
    destruct (leadingFraction _ _ _ _) as [[f scale] t']. cbn [snd] in Hl. do 4 eexists. split; [reflexivity|]. cbn [length]. lia. }
  rewrite E2 in E. destruct (negb _ && negb post); [done|]. destruct (take_unit r2) as [u r3] eqn:E3.
  case_bool_decide as Hu; [done|]. apply take_unit_length in E3. destruct u as [|b u]; [done|]. cbn [length] in E3.
  destruct (unitMap (b :: u)) as [unit|] eqn:Em; [|done]. assert (0 < unit) as Hpos.
  { unfold unitMap in Em. repeat (destruct (bool_decide _); [by injection Em as <-|]). done. }
  destruct (2 ^ 63 / unit <? x); [done|]. destruct (_ && _); [done|]. injection E as <- <-. split; [lia|].
  destruct (0 <? f); [apply u64_range | nia].
Qed.

Lemma duration_loop_bound fuel d s v : 0 <= d <= 2 ^ 63 -> duration_loop fuel d s = Ok v -> 0 <= v <= 2 ^ 63.
Proof.
  revert d s. induction fuel as [|fuel IH]; intros d s Hd; (destruct s as [|c t]; [by intros <-%Ok_inj|]); [done|].
  cbn [duration_loop]. intros ([x rest] & _ & E)%rbind_Ok. destruct (Z.ltb_spec (2 ^ 63) (u64 (d + x))); [done|].
  apply IH in E; [done|]. pose proof (u64_range (d + x)) as [Hr _]. lia.
Qed.

Lemma leadingInt_error s x e : leadingInt x s = Err e -> e <> Panicked "out of fuel".
Proof.
  revert x. induction s as [|c t IH]; intros x; cbn [leadingInt]; [done|]. destruct (is_digit c); [|done].
  destruct (_ <? x); [by intros [= <-]|]. destruct (2 ^ 63 <? _); [by intros [= <-] | apply IH].
Qed.

Lemma duration_step_error s e : duration_step s = Err e -> e <> Panicked "out of fuel".
Proof.
  unfold duration_step. destruct s as [|c t] eqn:Es; [by intros [= <-]|]. rewrite <- Es. destruct (negb _); [by intros [= <-]|].
  destruct (leadingInt 0 s) as [[x r1]|e'] eqn:E1; cbn [rbind]; [|intros [= <-]; by eapply leadingInt_error].
  destruct (match r1 with [] => _ | _ => _ end) as [[[f scale] r2] post]. destruct (_ && _); [by intros [= <-]|].
  destruct (take_unit r2) as [u r3]. destruct (bool_decide _); [by intros [= <-]|]. destruct (unitMap u); [|by intros [= <-]].
  destruct (_ <? _); [by intros [= <-]|]. destruct (_ && _); [by intros [= <-] | done].
Qed.

(** A turn is at least one byte long: the fuel is enough. *)
Lemma duration_loop_fuel fuel d s : (length s <= fuel)%nat -> duration_loop fuel d s <> Err (Panicked "out of fuel").
Proof.
  revert d s. induction fuel as [|fuel IH]; intros d s Hf; (destruct s as [|c t]; [done|]); [cbn [length] in Hf; lia|].
  cbn [duration_loop]. destruct (duration_step (c :: t)) as [[v rest]|e] eqn:E; cbn [rbind].
  - destruct (_ <? _); [done|]. apply IH. apply duration_step_length in E as [Hl _]. cbn [length] in *. lia.
  - intros [= He]. by apply (duration_step_error _ _ E).
Qed.

(** What is parsed fits an [int64]. *)
Lemma ParseDuration_bound s d : ParseDuration s = Ok d -> - 2 ^ 63 <= d < 2 ^ 63.
Proof.
  unfold ParseDuration. destruct (match s with [] => _ | _ => _ end) as [neg s'].
  case_bool_decide; [intros <-%Ok_inj; lia|]. case_bool_decide; [done|]. intros (v & E & H')%rbind_Ok.
  apply duration_loop_bound in E; [|lia]. destruct neg; [apply Ok_inj in H' as <-; lia|].
  destruct (Z.ltb_spec (2 ^ 63 - 1) v); [done|]. apply Ok_inj in H' as <-. lia.
Qed.

Example duration_minutes : ParseDuration "5m" = Ok 300000000000.
Proof. by vm_compute. Qed.

Example duration_fraction : ParseDuration "1.5h" = Ok 5400000000000.
Proof. by vm_compute. Qed.
