(* ===== verification/Daemon.v ===== *)
(** * The daemon (internal/systemd/listeners.go, cmd/picomxd/main.go)

    The sockets it is given or opens, its settings, and the order in which it
    builds the archive and the two servers before it serves anyone. *)

From S2P Require Import Prelude GoStrings State Quota StateCodec Import Mailbox Config Tls Startup Duration.
From S2P Require SmtpSyntax SmtpSession PopSyntax PopSession.

(** ** Sockets *)

(** The environment, the process ID, the sockets behind inherited descriptors and
    TCP addresses, and the port of a TCP listener. *)
Class Sockets := {
  Listener : Type;
  Getenv : str -> str;
  Getpid : Z;
  FileListener : Z -> result Listener;
  net_Listen : str -> result Listener;
  tcp_port : Listener -> option Z;
}.

(** What happens to sockets, in order. *)
Inductive socket_event `{Sockets} :=
  | Opened (l : Listener)
  | Closed (l : Listener)
  | FdClosed (fd : Z).

Section Sockets.
Context `{Sockets}.

Definition sockets : Type := list socket_event.

Definition listenFdsStart : Z := 3.

(** The largest capacity [make] takes for 16-byte elements. *)
Definition max_cap : Z := 2 ^ 48 / 16.

Fixpoint listen_loop (todo : nat) (index : Z) (listeners : list Listener) : M sockets (list Listener) := fun events =>
  match todo with
  | O => (Ok listeners, events)
  | S todo =>
      let fd := listenFdsStart + index in
      match FileListener fd with
      | Err e => (Err (Wrap "convert listener fd" e), events ++ FdClosed fd :: (Closed <$> listeners))
      | Ok listener => listen_loop todo (index + 1) (listeners ++ [listener]) (events ++ [Opened listener; FdClosed fd])
      end
  end.

Definition Listeners : M sockets (list Listener) := fun events =>
  let pidRaw := Getenv "LISTEN_PID" in
  let fdsRaw := Getenv "LISTEN_FDS" in
  if bool_decide (pidRaw = []) || bool_decide (fdsRaw = [])
  then (Err (New "systemd socket activation environment is missing"), events)
  else match Atoi pidRaw with
  | Err e => (Err (Wrap "parse LISTEN_PID" e), events)
  | Ok pid =>
      if negb (pid =? Getpid) then (Err (New "LISTEN_PID does not match current process"), events)
      else match Atoi fdsRaw with
      | Err e => (Err (Wrap "parse LISTEN_FDS" e), events)
      | Ok count =>
          if count <=? 0 then (Err (New "LISTEN_FDS must be greater than zero"), events)
          else if max_cap <? count then (Err (Panicked "makeslice: cap out of range"), events)
          else listen_loop (Z.to_nat count) 0 [] events
      end
  end.

Inductive protocol := protocolSMTP | protocolPOP3S.

#[export] Instance protocol_eq_dec : EqDecision protocol.
Proof. solve_decision. Defined.

Record serviceListener := { sl_protocol : protocol; sl_listener : Listener }.

Definition protocolForListener (l : Listener) : result protocol :=
  match tcp_port l with
  | None => Err (New "cannot classify activated listener")
  | Some port => Ok (if port =? 995 then protocolPOP3S else protocolSMTP)
  end.

Definition hasProtocol (listeners : list serviceListener) (kind : protocol) : bool :=
  existsb (fun l => bool_decide (sl_protocol l = kind)) listeners.

Definition closeListeners (listeners : list serviceListener) : sockets := (fun l => Closed (sl_listener l)) <$> listeners.

Fixpoint classify (activated : list Listener) (listeners : list serviceListener) : M sockets (list serviceListener) := fun events =>
  match activated with
  | [] => (Ok listeners, events)
  | l :: rest =>
      match protocolForListener l with
      | Err e => (Err e, events ++ closeListeners listeners)
      | Ok kind => classify rest (listeners ++ [{| sl_protocol := kind; sl_listener := l |}]) events
      end
  end.

Fixpoint listen_all (configured : list (protocol * str)) (listeners : list serviceListener) : M sockets (list serviceListener) := fun events =>
  match configured with
  | [] => (Ok listeners, events)
  | (kind, address) :: rest =>
      if bool_decide (address = []) then listen_all rest listeners events
      else match net_Listen address with
      | Err e => (Err e, events ++ closeListeners listeners)
      | Ok l => listen_all rest (listeners ++ [{| sl_protocol := kind; sl_listener := l |}]) (events ++ [Opened l])
      end
  end.

Definition openListeners (smtpAddress pop3Address : str) : M sockets (list serviceListener) := fun events =>
  if bool_decide (smtpAddress = []) && bool_decide (pop3Address = []) then
    match Listeners events with
    | (Err e, events) => (Err e, events)
    | (Ok activated, events) => classify activated [] events
    end
  else listen_all [(protocolSMTP, smtpAddress); (protocolPOP3S, pop3Address)] [] events.

(** ** Settings *)

Definition getenv (key fallback : str) : str :=
  let value := Getenv key in if bool_decide (value = []) then fallback else value.

Definition splitDomains (raw : str) : list str := filter (fun d => d <> []) (TrimSpace <$> Split raw ","%char).

Definition parsePositiveInt (raw : str) : result Z :=
  match Atoi raw with
  | Ok value => if value <=? 0 then Err (New "must be a positive integer") else Ok value
  | Err _ => Err (New "must be a positive integer")
  end.

Definition parsePositiveInt64 (raw : str) : result Z :=
  match ParseInt raw with
  | Ok value => if value <=? 0 then Err (New "must be a positive integer") else Ok value
  | Err _ => Err (New "must be a positive integer")
  end.

(** [time.ParseDuration] and the check that follows. *)
Definition parse_interval (raw : str) : result Z :=
  let! d := ParseDuration raw in
  if d <=? 0 then Err (New "must be greater than zero") else Ok d.

(** The flags: on the command line, in the environment, or the default. *)
Record flags := {
  fl_hostname : str;
  fl_pop3Hostname : str;
  fl_domains : str;
  fl_archiveRoot : str;
  fl_listen : str;
  fl_pop3Listen : str;
  fl_certDir : str;
  fl_tlsHostnames : str;
  fl_tlsReload : str;
  fl_pop3Username : str;
  fl_pop3PasswordHash : str;
  fl_pop3MaxConns : str;
  fl_pop3Idle : str;
  fl_gitMaintenance : str;
  fl_maxMessage : str;
  fl_maxDaily : str;
  fl_maxRecipients : str;
  fl_maxConnections : str;
  fl_idleTimeout : str;
}.

(** [given] is what the command line sets, by flag name. *)
Definition parse_flags (given : str -> option str) : flags :=
  let flag (name key fallback : str) := match given name with Some v => v | None => getenv key fallback end in
  {| fl_hostname := flag "hostname" "PICOMX_HOSTNAME" "";
     fl_pop3Hostname := flag "pop3-hostname" "PICOMX_POP3_HOSTNAME" "";
     fl_domains := flag "domains" "PICOMX_DOMAINS" "";
     fl_archiveRoot := flag "archive-root" "PICOMX_ARCHIVE_ROOT" "/var/lib/picomx/messages";
     fl_listen := flag "listen" "PICOMX_LISTEN" "";
     fl_pop3Listen := flag "pop3-listen" "PICOMX_POP3_LISTEN" "";
     fl_certDir := flag "cert-dir" "PICOMX_CERT_DIR" "";
     fl_tlsHostnames := flag "tls-hostnames" "PICOMX_TLS_HOSTNAMES" "";
     fl_tlsReload := flag "tls-reload-interval" "PICOMX_TLS_RELOAD_INTERVAL" "5m";
     fl_pop3Username := flag "pop3-username" "PICOMX_POP3_USERNAME" "";
     fl_pop3PasswordHash := flag "pop3-password-sha256" "PICOMX_POP3_PASSWORD_SHA256" "";
     fl_pop3MaxConns := flag "pop3-max-connections" "PICOMX_POP3_MAX_CONNECTIONS" "16";
     fl_pop3Idle := flag "pop3-idle-timeout" "PICOMX_POP3_IDLE_TIMEOUT" "10m";
     fl_gitMaintenance := flag "git-maintenance-interval" "PICOMX_GIT_MAINTENANCE_INTERVAL" "6h";
     fl_maxMessage := flag "max-message-bytes" "PICOMX_MAX_MESSAGE_BYTES" "26214400";
     fl_maxDaily := flag "max-daily-bytes" "PICOMX_MAX_DAILY_BYTES" "52428800";
     fl_maxRecipients := flag "max-recipients" "PICOMX_MAX_RECIPIENTS" "20";
     fl_maxConnections := flag "max-connections" "PICOMX_MAX_CONNECTIONS" "64";
     fl_idleTimeout := flag "idle-timeout" "PICOMX_IDLE_TIMEOUT" "5m" |}.

(** The numbers and intervals [main] parses first. *)
Record settings := {
  st_maxMessage : Z;
  st_maintenanceInterval : Z;
  st_maxDaily : Z;
  st_maxRecipients : Z;
  st_maxConnections : Z;
  st_idleTimeout : Z;
  st_pop3MaxConnections : Z;
  st_pop3IdleTimeout : Z;
  st_tlsReloadInterval : Z;
}.

(** [exitOnError]: the process ends with the error. *)
Definition exit_on {A} (action : string) (r : result A) : result A :=
  match r with Ok a => Ok a | Err e => Err (Wrap action e) end.

Definition parse_settings (f : flags) : result settings :=
  let! maxMessage := exit_on "parse max-message-bytes" (parsePositiveInt64 (fl_maxMessage f)) in
  let! maintenanceInterval := exit_on "parse git-maintenance-interval" (parse_interval (fl_gitMaintenance f)) in
  let! maxDaily := exit_on "parse max-daily-bytes" (parsePositiveInt64 (fl_maxDaily f)) in
  let! maxRecipients := exit_on "parse max-recipients" (parsePositiveInt (fl_maxRecipients f)) in
  let! maxConnections := exit_on "parse max-connections" (parsePositiveInt (fl_maxConnections f)) in
  let! idleTimeout := exit_on "parse idle-timeout" (parse_interval (fl_idleTimeout f)) in
  let! pop3MaxConnections := exit_on "parse pop3-max-connections" (parsePositiveInt (fl_pop3MaxConns f)) in
  let! pop3IdleTimeout := exit_on "parse pop3-idle-timeout" (ParseDuration (fl_pop3Idle f)) in
  let! tlsReloadInterval := exit_on "parse tls-reload-interval" (parse_interval (fl_tlsReload f)) in
  Ok {| st_maxMessage := maxMessage; st_maintenanceInterval := maintenanceInterval; st_maxDaily := maxDaily;
        st_maxRecipients := maxRecipients; st_maxConnections := maxConnections; st_idleTimeout := idleTimeout;
        st_pop3MaxConnections := pop3MaxConnections; st_pop3IdleTimeout := pop3IdleTimeout;
        st_tlsReloadInterval := tlsReloadInterval |}.
End Sockets.

(** ** Starting *)

Section Start.
Context `{UnicodeTables, SK : Sockets, TL : TlsLibrary, SH : PopSyntax.Sha256}.
Context `{GitI : Git, MO : MapOrder, GR : !GitReader, IN : Installation, MF : MailFiles, SD : StateDirectory}.

(** The files and the time the certificate is loaded at, the repository, and the
    receipt file with its writer. *)
Record machine := {
  mc_read : str -> result str;
  mc_now : Z;
  mc_repo : repo;
  mc_receipt : result str;
  mc_write_receipt : dailyReceipt -> option error;
  mc_policy : option SMTPPolicy;
}.

(** What [main] has built when it starts serving. *)
Record daemon := {
  dm_settings : settings;
  dm_listeners : list serviceListener;
  dm_manager : option Manager;
  dm_store : Store;
  dm_smtp : SmtpSession.Server;
  dm_pop3 : PopSession.Server;
}.

(** The certificate manager; none without a certificate directory, which POP3S
    requires. *)
Definition load_identity (m : machine) (f : flags) (pop3Host : str) (pop3Enabled : bool) : result (option Manager) :=
  if bool_decide (TrimSpace (fl_certDir f) = []) then
    if pop3Enabled then Err (New "cert-dir is required when POP3S is enabled") else Ok None
  else
    let names := splitDomains (fl_tlsHostnames f) in
    let names := if bool_decide (names = []) then [fl_hostname f; pop3Host] else names in
    let! (_, manager) := New_manager (mc_read m) (fl_certDir f) names (mc_now m) in
    Ok (Some manager).

(** [main] up to the servers, from the parsed flags. *)
Definition start (m : machine) (f : flags) : M sockets daemon := fun events =>
  match parse_settings f with
  | Err e => (Err e, events)
  | Ok st =>
      match openListeners (fl_listen f) (fl_pop3Listen f) events with
      | (Err e, events) => (Err (Wrap "open listeners" e), events)
      | (Ok listeners, events) =>
          let pop3Enabled := hasProtocol listeners protocolPOP3S in
          let pop3Host := TrimSpace (fl_pop3Hostname f) in
          let pop3Host := if bool_decide (pop3Host = []) then fl_hostname f else pop3Host in
          (let! manager := exit_on "load TLS identity" (load_identity m f pop3Host pop3Enabled) in
           let! store := exit_on "initialize archive"
             (NewWithOptions (fl_archiveRoot f) (u64 (st_maxDaily st)) (mc_repo m) (mc_receipt m) (mc_write_receipt m)) in
           let! smtp := exit_on "configure SMTP server" (SmtpSession.NewServer None
             {| SmtpSession.op_Hostname := fl_hostname f; SmtpSession.op_Domains := splitDomains (fl_domains f);
                SmtpSession.op_Delivery := true; SmtpSession.op_TLSConfig := bool_decide (manager <> None);
                SmtpSession.op_MaxMessageSize := st_maxMessage st; SmtpSession.op_MaxRecipients := st_maxRecipients st;
                SmtpSession.op_MaxConnections := st_maxConnections st; SmtpSession.op_IdleTimeout := st_idleTimeout st;
                SmtpSession.op_Policy := Some (NewSMTPPolicy (mc_policy m)) |}) in
           let! credentials := exit_on "configure POP3 credentials"
             (PopSyntax.NewCredentials (fl_pop3Username f) (fl_pop3PasswordHash f)) in
           let! pop3 := exit_on "configure POP3 server" (PopSession.NewServer
             {| PopSession.op_Hostname := pop3Host; PopSession.op_Mailbox := true; PopSession.op_Credentials := credentials;
                PopSession.op_IdleTimeout := st_pop3IdleTimeout st; PopSession.op_MaxAuthFailures := 0;
                PopSession.op_MaxConnections := st_pop3MaxConnections st |}) in
           Ok {| dm_settings := st; dm_listeners := listeners; dm_manager := manager; dm_store := store; dm_smtp := smtp;
                 dm_pop3 := pop3 |}, events)
      end
  end.

(** What each listener's goroutine runs: an SMTP server never fails to start, the
    POP3 server needs its TLS configuration. *)
Definition serve_error (d : daemon) (l : serviceListener) : option error :=
  match sl_protocol l with
  | protocolSMTP => None
  | protocolPOP3S => PopSession.Serve_error (bool_decide (dm_manager d <> None))
  end.
End Start.
