(* ===== verification/DaemonTheorems.v ===== *)
(** * What the daemon has before it serves

    Its sockets are accounted for, its settings are in range, and the parts it
    composes are the ones the other theorems are about. *)

From S2P Require Import Prelude GoStrings State Quota StateCodec Import Mailbox Config Tls TlsTheorems Startup Duration Daemon.
From S2P Require Import ToyGit MailboxTheorems Restart ToyStart RestartTheorems.
From S2P Require SmtpSyntax SmtpSession PopSyntax PopSession.

(** ** Sockets *)

Section Sockets.
Context `{Sockets}.

Definition openeds (events : sockets) : list Listener :=
  omap (fun e => match e with Opened l => Some l | _ => None end) events.

Definition closeds (events : sockets) : list Listener :=
  omap (fun e => match e with Closed l => Some l | _ => None end) events.

Lemma openeds_app a b : openeds (a ++ b) = openeds a ++ openeds b.
Proof. apply omap_app. Qed.

Lemma closeds_app a b : closeds (a ++ b) = closeds a ++ closeds b.
Proof. apply omap_app. Qed.

Lemma closeds_of (ls : list Listener) : closeds (Closed <$> ls) = ls /\ openeds (Closed <$> ls) = [].
Proof. induction ls as [|l ls [IH1 IH2]]; [done|]. cbn. split; [f_equal; exact IH1 | exact IH2]. Qed.

Lemma closeListeners_of (ls : list serviceListener) : closeds (closeListeners ls) = sl_listener <$> ls /\ openeds (closeListeners ls) = [].
Proof. induction ls as [|l ls [IH1 IH2]]; [done|]. cbn. split; [f_equal; exact IH1 | exact IH2]. Qed.

(** From an account in order: [ls] open, none closed. *)
Definition account (events : sockets) (ls : list Listener) : Prop := openeds events = ls /\ closeds events = [].

Lemma listen_loop_account todo index ls events : account events ls ->
  match listen_loop todo index ls events with
  | (Ok ls', events') => account events' ls' /\ length ls' = (length ls + todo)%nat
  | (Err _, events') => openeds events' = closeds events'
  end.
Proof.
  revert index ls events. induction todo as [|todo IH]; intros index ls events [Ho Hc]; cbn [listen_loop]; [by rewrite Nat.add_0_r|].
  destruct (FileListener _) as [l|e].
  - specialize (IH (index + 1) (ls ++ [l]) (events ++ [Opened l; FdClosed (listenFdsStart + index)])).
    destruct (listen_loop _ _ _ _) as [[ls'|e] events'].
    + destruct IH as [IH1 IH2]; [split; [rewrite openeds_app, Ho; done | rewrite closeds_app, Hc; done]|].
      split; [exact IH1|]. rewrite IH2, length_app. cbn [length]. lia.
    + apply IH. split; [rewrite openeds_app, Ho; done | rewrite closeds_app, Hc; done].
  - rewrite openeds_app, closeds_app, Ho, Hc. destruct (closeds_of ls) as [H1 H2].
    change (FdClosed ?fd :: ?x) with ([FdClosed fd] ++ x). rewrite openeds_app, closeds_app, H1, H2. by rewrite !app_nil_r.
Qed.

Lemma Listeners_account :
  match Listeners [] with
  | (Ok ls, events) => account events ls /\ ls <> []
  | (Err _, events) => openeds events = closeds events
  end.
Proof.
  unfold Listeners. destruct (_ || _); [done|]. destruct (Atoi _) as [pid|]; [|done]. destruct (negb _); [done|].
  destruct (Atoi _) as [count|]; [|done]. destruct (Z.leb_spec count 0); [done|]. destruct (_ <? _); [done|].
  pose proof (listen_loop_account (Z.to_nat count) 0 [] [] (conj eq_refl eq_refl)) as Hl.
  destruct (listen_loop _ _ _ _) as [[ls|e] events]; [|done]. destruct Hl as [H1 H2]. split; [done|].
  intros ->. cbn [length] in H2. lia.
Qed.

Lemma classify_account activated ls events : account events ((sl_listener <$> ls) ++ activated) ->
  match classify activated ls events with
  | (Ok ls', events') => account events' (sl_listener <$> ls') /\ length ls' = (length ls + length activated)%nat
  | (Err _, events') => exists rest, openeds events' = closeds events' ++ rest /\ exists l, l ∈ rest /\ tcp_port l = None
  end.
Proof.
  revert ls events. induction activated as [|l activated IH]; intros ls events Ha; cbn [classify].
  { rewrite app_nil_r in Ha. by rewrite Nat.add_0_r. }
  destruct (protocolForListener l) as [kind|e] eqn:E.
  - specialize (IH (ls ++ [{| sl_protocol := kind; sl_listener := l |}]) events).
    rewrite fmap_app, <- app_assoc in IH. specialize (IH Ha).
    destruct (classify _ _ _) as [[ls'|e] events']; [|done]. destruct IH as [IH1 IH2]. split; [done|].
    rewrite IH2, length_app. cbn [length]. lia.
  - destruct Ha as [Ho Hc]. destruct (closeListeners_of ls) as [H1 H2]. exists (l :: activated).
    rewrite openeds_app, closeds_app, Ho, Hc, H1, H2, app_nil_r. split; [done|]. exists l. split; [by left|].
    unfold protocolForListener in E. by destruct (tcp_port l).
Qed.

Lemma listen_all_account configured ls events : account events (sl_listener <$> ls) ->
  match listen_all configured ls events with
  | (Ok ls', events') => account events' (sl_listener <$> ls') /\
      (ls <> [] \/ Exists (fun c => c.2 <> []) configured -> ls' <> [])
  | (Err _, events') => openeds events' = closeds events'
  end.
Proof.
  revert ls events. induction configured as [|[kind address] configured IH]; intros ls events Ha; cbn [listen_all].
  { split; [done|]. intros [?|Hx]; [done|]. by apply Exists_nil in Hx. }
  case_bool_decide as Haddr.
  - specialize (IH ls events Ha). destruct (listen_all _ _ _) as [[ls'|e] events']; [|done].
    destruct IH as [IH1 IH2]. split; [done|]. intros [?|Hx]; apply IH2; [by left|]. apply Exists_cons in Hx as [?|?]; [done | by right].
  - destruct (net_Listen address) as [l|e].
    + specialize (IH (ls ++ [{| sl_protocol := kind; sl_listener := l |}]) (events ++ [Opened l])).
      destruct Ha as [Ho Hc].
      destruct (listen_all _ _ _) as [[ls'|e] events'].
      * destruct IH as [IH1 IH2]; [split; [rewrite openeds_app, Ho, fmap_app; done | rewrite closeds_app, Hc; done]|].
        split; [done|]. intros _. apply IH2. left. by destruct ls.
      * apply IH. split; [rewrite openeds_app, Ho, fmap_app; done | rewrite closeds_app, Hc; done].
    + destruct Ha as [Ho Hc]. destruct (closeListeners_of ls) as [H1 H2].
      by rewrite openeds_app, closeds_app, Ho, Hc, H1, H2, app_nil_r.
Qed.

Lemma openListeners_account smtpAddress pop3Address :
  match openListeners smtpAddress pop3Address [] with
  | (Ok ls, events) => account events (sl_listener <$> ls) /\ ls <> []
  | (Err _, events) => exists rest, openeds events = closeds events ++ rest /\
      (rest <> [] -> smtpAddress = [] /\ pop3Address = [] /\ exists l, l ∈ rest /\ tcp_port l = None)
  end.
Proof.
  unfold openListeners. destruct (bool_decide (smtpAddress = []) && bool_decide (pop3Address = [])) eqn:E.
  - apply andb_true_iff in E as [E1%bool_decide_eq_true E2%bool_decide_eq_true].
    pose proof Listeners_account as Hl. destruct (Listeners []) as [[activated|e] events].
    + destruct Hl as [Ha Hne]. pose proof (classify_account activated [] events Ha) as Hc.
      destruct (classify _ _ _) as [[ls|e] events'].
      * destruct Hc as [H1 H2]. split; [done|]. intros ->. cbn [length] in H2. by destruct activated.
      * destruct Hc as (rest & H1 & H2). exists rest. by split.
    + exists []. by rewrite app_nil_r.
  - pose proof (listen_all_account [(protocolSMTP, smtpAddress); (protocolPOP3S, pop3Address)] [] [] (conj eq_refl eq_refl)) as Hl.
    destruct (listen_all _ _ _) as [[ls|e] events].
    + destruct Hl as [H1 H2]. split; [done|]. apply H2. right. apply andb_false_iff in E as [E|E]; apply bool_decide_eq_false in E.
      * by constructor.
      * right. by constructor.
    + exists []. by rewrite app_nil_r.
Qed.
End Sockets.

(** ** Settings *)

Lemma ParseInt_bound s v : ParseInt s = Ok v -> - 2 ^ 63 <= v < 2 ^ 63.
Proof.
  unfold ParseInt. destruct (match s with [] => _ | _ => _ end) as [neg digits]. intros (un & Hu & E)%rbind_Ok.
  apply ParseUint_bound in Hu; [|lia..]. destruct (negb neg && _) eqn:E1; [done|]. destruct (neg && _) eqn:E2; [done|].
  apply Ok_inj in E as <-. destruct neg; cbn [negb andb] in *; lia.
Qed.

Lemma parsePositiveInt_ok s v : parsePositiveInt s = Ok v -> 0 < v < 2 ^ 63.
Proof.
  unfold parsePositiveInt, Atoi. destruct (ParseInt s) as [x|] eqn:E; [|done]. apply ParseInt_bound in E.
  destruct (Z.leb_spec x 0); [done|]. intros <-%Ok_inj. lia.
Qed.

Lemma parsePositiveInt64_ok s v : parsePositiveInt64 s = Ok v -> 0 < v < 2 ^ 63.
Proof. apply parsePositiveInt_ok. Qed.

Lemma parse_interval_ok s v : parse_interval s = Ok v -> 0 < v < 2 ^ 63.
Proof.
  unfold parse_interval. intros (d & E & E2)%rbind_Ok. apply ParseDuration_bound in E. destruct (Z.leb_spec d 0); [done|].
  apply Ok_inj in E2 as <-. lia.
Qed.

Lemma exit_on_Ok {A} action (r : result A) a : exit_on action r = Ok a -> r = Ok a.
Proof. by destruct r. Qed.

(** Every number is positive. *)
Record settings_ok (st : settings) : Prop := {
  so_message : 0 < st_maxMessage st < 2 ^ 63;
  so_maintenance : 0 < st_maintenanceInterval st < 2 ^ 63;
  so_daily : 0 < st_maxDaily st < 2 ^ 63;
  so_recipients : 0 < st_maxRecipients st < 2 ^ 63;
  so_connections : 0 < st_maxConnections st < 2 ^ 63;
  so_idle : 0 < st_idleTimeout st < 2 ^ 63;
  so_pop3_connections : 0 < st_pop3MaxConnections st < 2 ^ 63;
  so_reload : 0 < st_tlsReloadInterval st < 2 ^ 63;
}.

Lemma parse_settings_ok f st : parse_settings f = Ok st -> settings_ok st.
Proof.
  unfold parse_settings. intros E.
  repeat (apply rbind_Ok in E as (? & ?%exit_on_Ok & E)). apply Ok_inj in E as <-.
  split; cbn; first [by eapply parsePositiveInt_ok | by eapply parsePositiveInt64_ok | by eapply parse_interval_ok].
Qed.

(** ** The archive's limit *)

Section Limit.
Context `{GitI : Git, MO : MapOrder, GR : !GitReader, IN : Installation, MF : MailFiles, SD : StateDirectory}.

Lemma initializeGit_bud s : bud (initializeGit s).2 = bud s.
Proof.
  unfold initializeGit. destruct open_repository; [|done]. destruct (find_head _) as [id|]; [|done]. destruct find_branch; [|done].
  destruct (bool_decide _).
  - destruct legacy_import as [[state changes]|]; [|done]. by destruct (commitChanges _ _ _ _ _).
  - by destruct (read_committed_state _ _) as [[state|e] r].
Qed.

Lemma NewWithOptions_limit root max r file write s : NewWithOptions root max r file write = Ok s -> max <> 0 ->
  maxDailyBytes (bud s) = max.
Proof.
  unfold NewWithOptions. intros E Hmax. destruct (bool_decide _); [done|]. apply rbind_Ok in E as (path & _ & E).
  apply rbind_Ok in E as (u & _ & E). rewrite (proj2 (Z.eqb_neq _ _) Hmax) in E.
  pose proof (initializeGit_bud (new_store max r)) as Hb. destruct (initializeGit _) as [[x|e] s0]; [|done]. cbn [snd] in Hb.
  apply rbind_Ok in E as (b & El & E). apply Ok_inj in E as <-. cbn [bud]. unfold loadReceipt in El. rewrite Hb in El.
  destruct (readReceipt file) as [[usage|]|]; [destruct (validateReceipt usage); [done|]| |done].
  - by apply Ok_inj in El as <-.
  - destruct (DailyReceipt (mb s0)) as [usage|]; [destruct (write usage); [done|]|]; by apply Ok_inj in El as <-.
Qed.
End Limit.

(** ** Properties *)

(** C40: No listener is lost.  When [openListeners] succeeds there is at least one
    listener and exactly the listeners it returns were opened, none closed; when
    it fails every listener it opened was closed again, except that after an
    inherited one that is not TCP the ones from it on stay open. *)
Theorem listeners_are_accounted_for `{Sockets} (smtpAddress pop3Address : str) :
  match openListeners smtpAddress pop3Address [] with
  | (Ok ls, events) => openeds events = sl_listener <$> ls /\ closeds events = [] /\ ls <> []
  | (Err _, events) => exists rest, openeds events = closeds events ++ rest /\
      (rest <> [] -> smtpAddress = [] /\ pop3Address = [] /\ exists l, l ∈ rest /\ tcp_port l = None)
  end.
Proof.
  pose proof (openListeners_account smtpAddress pop3Address) as Ha.
  destruct (openListeners _ _ _) as [[ls|e] events]; [|exact Ha]. destruct Ha as [[H1 H2] H3]. done.
Qed.

Section Start.
Context `{UnicodeTables, SK : Sockets, TL : TlsLibrary, SH : PopSyntax.Sha256}.
Context `{GitI : Git, MO : MapOrder, GR : !GitReader, IN : Installation, MF : MailFiles, SD : StateDirectory}.

(** The names the certificate is required to cover. *)
Definition tls_names (f : flags) : list str :=
  let pop3Host := TrimSpace (fl_pop3Hostname f) in
  let pop3Host := if bool_decide (pop3Host = []) then fl_hostname f else pop3Host in
  let names := splitDomains (fl_tlsHostnames f) in
  if bool_decide (names = []) then [fl_hostname f; pop3Host] else names.

Lemma load_identity_ok m f pop3Host enabled manager : load_identity m f pop3Host enabled = Ok manager ->
  (enabled = true -> manager <> None) /\
  forall mgr, manager = Some mgr -> exists logs, New_manager (mc_read m) (fl_certDir f)
    (let names := splitDomains (fl_tlsHostnames f) in if bool_decide (names = []) then [fl_hostname f; pop3Host] else names) (mc_now m) = Ok (logs, mgr).
Proof.
  unfold load_identity. destruct (bool_decide _).
  - destruct enabled; [done|]. intros <-%Ok_inj. by split.
  - intros ([logs mgr] & E & E')%rbind_Ok. apply Ok_inj in E' as <-. split; [done|]. intros mgr' [= <-]. by exists logs.
Qed.

Lemma smtp_built factory options server : SmtpSession.NewServer factory options = Ok server ->
  SmtpSession.maxMessageSize server = SmtpSession.or_default (SmtpSession.op_MaxMessageSize options) SmtpSyntax.defaultMaxMessageBytes /\
  SmtpSession.maxRecipients server = SmtpSession.or_default (SmtpSession.op_MaxRecipients options) SmtpSyntax.defaultMaxRecipients /\
  SmtpSession.connections server = SmtpSession.or_default (SmtpSession.op_MaxConnections options) SmtpSyntax.defaultMaxConnections /\
  SmtpSession.idleTimeout server = SmtpSession.or_default (SmtpSession.op_IdleTimeout options) SmtpSyntax.defaultIdleTimeout /\
  SmtpSyntax.validDomain (SmtpSession.hostname server) = true /\ SmtpSession.domains server <> ∅ /\
  SmtpSession.tlsConfig server = SmtpSession.op_TLSConfig options.
Proof.
  unfold SmtpSession.NewServer. destruct (SmtpSyntax.validDomain _) eqn:Eh; [|done]. cbn [negb].
  destruct (SmtpSession.op_Delivery options); [|done]. cbn [negb]. intros (ds & _ & E)%rbind_Ok.
  case_bool_decide; [done|]. apply Ok_inj in E as <-. by split_and!.
Qed.

Lemma pop3_built options server : PopSession.NewServer options = Ok server ->
  PopSession.connections server = (if PopSession.op_MaxConnections options <=? 0 then 16 else PopSession.op_MaxConnections options) /\
  PopSyntax.minimumIdleTimeout <= PopSession.idleTimeout server.
Proof.
  unfold PopSession.NewServer. destruct (bool_decide _); [done|]. destruct (negb _); [done|].
  match goal with |- context [?a <? ?b] => destruct (Z.ltb_spec a b) end; [done|]. intros <-%Ok_inj. by split.
Qed.

Lemma or_default_same value fallback : 0 < value -> SmtpSession.or_default value fallback = value.
Proof. intros Hv. unfold SmtpSession.or_default. destruct (Z.leb_spec value 0); [lia | done]. Qed.

(** C10: What serves is what was configured.  When [main] gets as far as serving,
    every setting is positive and is the limit of the server or the store it is
    for; the SMTP host name and the recipient domains are valid; there is a
    listener, and no listener's server refuses to start, so that POP3S is never
    served without TLS; and the certificate, if there is one, covers every name
    it has to. *)
Theorem daemon_serves_as_configured (m : machine) (f : flags) (d : daemon) (events : sockets) :
  start m f [] = (Ok d, events) ->
  let st := dm_settings d in
  settings_ok st /\
  SmtpSession.maxMessageSize (dm_smtp d) = st_maxMessage st /\ SmtpSession.maxRecipients (dm_smtp d) = st_maxRecipients st /\
  SmtpSession.connections (dm_smtp d) = st_maxConnections st /\ SmtpSession.idleTimeout (dm_smtp d) = st_idleTimeout st /\
  PopSession.connections (dm_pop3 d) = st_pop3MaxConnections st /\ PopSyntax.minimumIdleTimeout <= PopSession.idleTimeout (dm_pop3 d) /\
  maxDailyBytes (bud (dm_store d)) = st_maxDaily st /\
  SmtpSyntax.validDomain (SmtpSession.hostname (dm_smtp d)) = true /\ SmtpSession.domains (dm_smtp d) <> ∅ /\
  SmtpSession.tlsConfig (dm_smtp d) = bool_decide (dm_manager d <> None) /\
  dm_listeners d <> [] /\ openeds events = sl_listener <$> dm_listeners d /\ closeds events = [] /\
  (forall l, l ∈ dm_listeners d -> serve_error d l = None) /\
  (forall manager, dm_manager d = Some manager -> exists l, GetCertificate manager = Ok (certificate l) /\
     forall name, name ∈ tls_names f -> VerifyHostname (leaf l) (normalizeHostname name) = None).
Proof.
  intros E. unfold start in E. destruct (parse_settings f) as [st|] eqn:Est; [|done]. pose proof (parse_settings_ok f st Est) as Hst.
  pose proof (openListeners_account (fl_listen f) (fl_pop3Listen f)) as Hl.
  destruct (openListeners _ _ _) as [[ls|e] ev]; [|done]. injection E as E <-.
  apply rbind_Ok in E as (manager & Hm%exit_on_Ok & E). apply rbind_Ok in E as (store & Hs%exit_on_Ok & E).
  apply rbind_Ok in E as (smtp & Hsmtp%exit_on_Ok & E). apply rbind_Ok in E as (credentials & _ & E).
  apply rbind_Ok in E as (pop3 & Hpop%exit_on_Ok & E). apply Ok_inj in E as <-. cbn zeta.
  cbn [dm_settings dm_listeners dm_manager dm_store dm_smtp dm_pop3].
  destruct (smtp_built _ _ _ Hsmtp) as (HS1 & HS2 & HS3 & HS4 & HS5 & HS6 & HS7).
  destruct (pop3_built _ _ Hpop) as (HP1 & HP2).
  destruct (load_identity_ok _ _ _ _ _ Hm) as [Hen Hmgr]. destruct Hl as [[Hl1 Hl2] Hl3].
  pose proof Hst as []. split_and!; try done.
  - rewrite HS1. apply or_default_same. cbn. lia.
  - rewrite HS2. apply or_default_same. cbn. lia.
  - rewrite HS3. apply or_default_same. cbn. lia.
  - rewrite HS4. apply or_default_same. cbn. lia.
  - rewrite HP1. cbn [PopSession.op_MaxConnections]. destruct (Z.leb_spec (st_pop3MaxConnections st) 0); [lia | done].
  - rewrite (NewWithOptions_limit _ _ _ _ _ _ Hs) by (rewrite u64_small; unfold is_u64, MaxUint64; lia).
    apply u64_small. unfold is_u64, MaxUint64. lia.
  - intros l Hin. unfold serve_error. destruct (sl_protocol l) eqn:Ep; [done|]. cbn [dm_manager].
    rewrite bool_decide_eq_true_2; [done|]. apply Hen. apply existsb_exists. exists l. split; [by apply list_elem_of_In|].
    by apply bool_decide_eq_true.
  - intros mgr ->. destruct (Hmgr mgr eq_refl) as (logs & Hnew).
    destruct (New_manager_serving _ _ _ _ _ _ Hnew) as (l & Hg & Hcov). exists l. split; [done|]. exact Hcov.
Qed.
End Start.

(** ** A concrete daemon *)

Module Demo.
#[local] Instance sha : PopSyntax.Sha256.
Proof.
  refine {| PopSyntax.Sum256 s := take 32 (s ++ replicate 32 (byte_of 0)) |}.
  intros s. rewrite length_take, length_app, length_replicate. lia.
Defined.

(** Two inherited sockets, on the SMTP and the POP3S port. *)
#[local] Instance inherited : Sockets := {|
  Listener := Z;
  Getenv key := if bool_decide (key = "LISTEN_PID") then "42" else if bool_decide (key = "LISTEN_FDS") then "2"
                else if bool_decide (key = "PICOMX_MAX_RECIPIENTS") then "7" else [];
  Getpid := 42;
  FileListener fd := if fd =? 3 then Ok 25 else if fd =? 4 then Ok 995 else Err (New "bad file descriptor");
  net_Listen _ := Err (New "not used");
  tcp_port l := Some l |}.

Definition given (name : str) : option str :=
  if bool_decide (name = "hostname") then Some ("MX.example.net." : str)
  else if bool_decide (name = "pop3-hostname") then Some ("pop.example.net" : str)
  else if bool_decide (name = "domains") then Some ("example.net, example.org" : str)
  else if bool_decide (name = "archive-root") then Some ("archive" : str)
  else if bool_decide (name = "cert-dir") then Some ("certs" : str)
  else if bool_decide (name = "idle-timeout") then Some ("1m30s" : str) else None.

Definition here : machine := {|
  mc_read := old_files; mc_now := Hour; mc_repo := (1%nat : repo); mc_receipt := Err not_there;
  mc_write_receipt _ := None; mc_policy := None |}.

Definition started : result daemon :=
  (start (IN := toy_machine) (MF := no_files) (SD := toy_directory) here (parse_flags given) []).1.

Definition describe (d : daemon) : list protocol * Z * Z * bool :=
  (sl_protocol <$> dm_listeners d, SmtpSession.maxRecipients (dm_smtp d), SmtpSession.idleTimeout (dm_smtp d),
   SmtpSession.tlsConfig (dm_smtp d)).

Lemma daemon_starts : match started with Ok d => describe d = ([protocolSMTP; protocolPOP3S], 7, 90000000000, true) | Err _ => False end.
Proof. by vm_compute. Qed.

Lemma daemon_serves_as_configured_witness :
  match started with
  | Ok d => (forall l, l ∈ dm_listeners d -> serve_error d l = None) /\ SmtpSession.maxRecipients (dm_smtp d) = 7
  | Err _ => False
  end.
Proof.
  pose proof daemon_starts as Hd.
  pose proof (daemon_serves_as_configured (IN := toy_machine) (MF := no_files) (SD := toy_directory) here (parse_flags given)) as H.
  unfold started in *. destruct (start _ _ []) as [[d|e] events]; cbn [fst] in *; [|exact Hd].
  destruct (H d events eq_refl) as (_ & _ & Hr & _ & _ & _ & _ & _ & _ & _ & _ & _ & _ & _ & Hs & _).
  split; [exact Hs|]. injection Hd as _ Hmax _ _. exact Hmax.
Defined.
End Demo.
