(* ===== verification/Shutdown.v ===== *)
(** * The running daemon (cmd/picomxd/main.go: main from the signal context on)

    What [main] does once everything is built: it starts the maintenance loop and
    a server per listener, waits for a signal or a server's error, and unwinds its
    deferred calls.  The goroutines are the events of a transition system. *)

From S2P Require Import Prelude GoStrings CatFile Listing State Quota StateCodec Import Mailbox Config Tls Startup Duration Daemon.
From S2P Require Import TlsTheorems ToyGit MailboxTheorems ToyStart RestartTheorems DaemonTheorems.
From S2P Require PopSyntax.

(** ** Data *)

(** The deferred calls of [main], in the order they run. *)
Inductive deferred := DeferredMaintenance | DeferredStop | DeferredStoreClose | DeferredCloseListeners.

#[export] Instance deferred_eq_dec : EqDecision deferred.
Proof. solve_decision. Defined.

Definition main_deferred : list deferred := [DeferredMaintenance; DeferredStop; DeferredStoreClose; DeferredCloseListeners].

(** Where [main] is: in its [select], in a deferred call that waits for the
    maintenance loop, returning, or gone: by itself, or by a signal. *)
Inductive phase :=
  | Selecting
  | AwaitingMaintenance (rest : list deferred)
  | Returning (rest : list deferred)
  | Exited (code : Z)
  | Killed.

#[export] Instance phase_eq_dec : EqDecision phase.
Proof. solve_decision. Defined.

Section Run.
Context `{UnicodeTables, SK : Sockets, TL : TlsLibrary, SH : PopSyntax.Sha256}.
Context `{GitI : Git, MO : MapOrder, GR : !GitReader, IN : Installation, MF : MailFiles, SD : StateDirectory}.

(** [rn_stopped]: [stop()] was called, so that a signal has its default effect
    again. *)
Record running := {
  rn_cancelled : bool;
  rn_stopped : bool;
  rn_maintenance : bool;
  rn_leased : bool;
  rn_serving : list bool;
  rn_errCh : list (option error);
  rn_phase : phase;
  rn_done : list deferred;
  rn_store : option Store;
  rn_sockets : sockets;
}.

(** A signal; the maintenance loop returns; a POP3 session takes or gives back the
    object reader, which holds a lock [Close] needs; [Serve] of the [k]-th
    listener returns; and the steps of [main], the one that closes the store with
    the store as it is then. *)
Inductive run_event :=
  | Signalled
  | MaintenanceReturned
  | ReaderTaken
  | ReaderReleased
  | ServeReturned (k : nat) (e : error)
  | MainSelectsDone
  | MainSelectsError
  | MainReturns (store : Store) (reader_close : option error).

(** ** Steps *)

(** [go] and the select of [main]: the daemon it has built, after [events]. *)
Definition main_starts (d : daemon) (events : sockets) : running :=
  {| rn_cancelled := false; rn_stopped := false; rn_maintenance := true; rn_leased := false;
     rn_serving := replicate (length (dm_listeners d)) true; rn_errCh := []; rn_phase := Selecting; rn_done := [];
     rn_store := None; rn_sockets := events |}.

(** The goroutine of [signal.NotifyContext] got a signal. *)
Definition cancel (r : running) : running :=
  {| rn_cancelled := true; rn_stopped := rn_stopped r; rn_maintenance := rn_maintenance r; rn_leased := rn_leased r; rn_serving := rn_serving r;
     rn_errCh := rn_errCh r; rn_phase := rn_phase r; rn_done := rn_done r; rn_store := rn_store r; rn_sockets := rn_sockets r |}.

(** [stop()] of [signal.NotifyContext]: it cancels the context and no longer
    listens for signals. *)
Definition stop (r : running) : running :=
  {| rn_cancelled := true; rn_stopped := true; rn_maintenance := rn_maintenance r; rn_leased := rn_leased r; rn_serving := rn_serving r;
     rn_errCh := rn_errCh r; rn_phase := rn_phase r; rn_done := rn_done r; rn_store := rn_store r; rn_sockets := rn_sockets r |}.

Definition end_maintenance (r : running) : running :=
  {| rn_cancelled := rn_cancelled r; rn_stopped := rn_stopped r; rn_maintenance := false; rn_leased := rn_leased r; rn_serving := rn_serving r;
     rn_errCh := rn_errCh r; rn_phase := rn_phase r; rn_done := rn_done r; rn_store := rn_store r; rn_sockets := rn_sockets r |}.

Definition set_leased (leased : bool) (r : running) : running :=
  {| rn_cancelled := rn_cancelled r; rn_stopped := rn_stopped r; rn_maintenance := rn_maintenance r; rn_leased := leased; rn_serving := rn_serving r;
     rn_errCh := rn_errCh r; rn_phase := rn_phase r; rn_done := rn_done r; rn_store := rn_store r; rn_sockets := rn_sockets r |}.

Definition send_error (k : nat) (e : error) (r : running) : running :=
  {| rn_cancelled := rn_cancelled r; rn_stopped := rn_stopped r; rn_maintenance := rn_maintenance r; rn_leased := rn_leased r;
     rn_serving := <[k := false]> (rn_serving r); rn_errCh := rn_errCh r ++ [Some e]; rn_phase := rn_phase r;
     rn_done := rn_done r; rn_store := rn_store r; rn_sockets := rn_sockets r |}.

Definition receive_error (rest : list (option error)) (r : running) : running :=
  {| rn_cancelled := rn_cancelled r; rn_stopped := rn_stopped r; rn_maintenance := rn_maintenance r; rn_leased := rn_leased r; rn_serving := rn_serving r;
     rn_errCh := rest; rn_phase := rn_phase r; rn_done := rn_done r; rn_store := rn_store r; rn_sockets := rn_sockets r |}.

Definition go_to (p : phase) (r : running) : running :=
  {| rn_cancelled := rn_cancelled r; rn_stopped := rn_stopped r; rn_maintenance := rn_maintenance r; rn_leased := rn_leased r; rn_serving := rn_serving r;
     rn_errCh := rn_errCh r; rn_phase := p; rn_done := rn_done r; rn_store := rn_store r; rn_sockets := rn_sockets r |}.

(** A deferred call has returned. *)
Definition returned (x : deferred) (rest : list deferred) (r : running) : running :=
  {| rn_cancelled := rn_cancelled r; rn_stopped := rn_stopped r; rn_maintenance := rn_maintenance r; rn_leased := rn_leased r; rn_serving := rn_serving r;
     rn_errCh := rn_errCh r; rn_phase := Returning rest; rn_done := rn_done r ++ [x]; rn_store := rn_store r;
     rn_sockets := rn_sockets r |}.

Definition close_store (s : Store) (reader_close : option error) (r : running) : running :=
  {| rn_cancelled := rn_cancelled r; rn_stopped := rn_stopped r; rn_maintenance := rn_maintenance r; rn_leased := rn_leased r; rn_serving := rn_serving r;
     rn_errCh := rn_errCh r; rn_phase := rn_phase r; rn_done := rn_done r; rn_store := Some (Close reader_close s).2;
     rn_sockets := rn_sockets r |}.

Definition close_sockets (listeners : list serviceListener) (r : running) : running :=
  {| rn_cancelled := rn_cancelled r; rn_stopped := rn_stopped r; rn_maintenance := rn_maintenance r; rn_leased := rn_leased r; rn_serving := rn_serving r;
     rn_errCh := rn_errCh r; rn_phase := rn_phase r; rn_done := rn_done r; rn_store := rn_store r;
     rn_sockets := rn_sockets r ++ closeListeners listeners |}.

(** The end of [main] after the select received [serveErr]: an error other than a
    closed listener ends the process at once, without the deferred calls. *)
Definition after_error (serveErr : option error) (r : running) : running :=
  match serveErr with
  | Some e => if negb (errors_Is e NetErrClosed) then go_to (Exited 1) r else go_to (Returning main_deferred) r
  | None => go_to (Returning main_deferred) r
  end.

(** One deferred call; [None] while it has to wait. *)
Definition main_returns (d : daemon) (s : Store) (reader_close : option error) (r : running) : option running :=
  match rn_phase r with
  | Returning [] => Some (go_to (Exited 0) r)
  | Returning (DeferredMaintenance :: rest) => Some (go_to (AwaitingMaintenance rest) (stop r))
  | AwaitingMaintenance rest => if rn_maintenance r then None else Some (returned DeferredMaintenance rest r)
  | Returning (DeferredStop :: rest) => Some (returned DeferredStop rest (stop r))
  | Returning (DeferredStoreClose :: rest) =>
      if rn_leased r then None else Some (returned DeferredStoreClose rest (close_store s reader_close r))
  | Returning (DeferredCloseListeners :: rest) =>
      Some (returned DeferredCloseListeners rest (close_sockets (dm_listeners d) r))
  | _ => None
  end.

(** [Serve] returns what it refused to start with, or any error of [Accept]. *)
Definition may_return (d : daemon) (l : serviceListener) (e : error) : bool :=
  match serve_error d l with Some e' => bool_decide (e' = e) | None => true end.

Definition exited (r : running) : bool := match rn_phase r with Exited _ | Killed => true | _ => false end.

(** A step of the process, if it is possible; nothing happens after its end.  A
    signal cancels the context until [stop()] was called, and kills the process
    afterwards. *)
Definition run_step (d : daemon) (r : running) (e : run_event) : option running :=
  if exited r then None
  else match e with
  | Signalled => Some (if rn_stopped r then go_to Killed r else cancel r)
  | MaintenanceReturned => if rn_cancelled r && rn_maintenance r then Some (end_maintenance r) else None
  | ReaderTaken => if rn_leased r || bool_decide (DeferredStoreClose ∈ rn_done r) then None else Some (set_leased true r)
  | ReaderReleased => if rn_leased r then Some (set_leased false r) else None
  | ServeReturned k e =>
      match rn_serving r !! k, dm_listeners d !! k with
      | Some true, Some l =>
          if may_return d l e && (length (rn_errCh r) <? length (dm_listeners d))%nat
          then Some (send_error k e r) else None
      | _, _ => None
      end
  | MainSelectsDone =>
      if bool_decide (rn_phase r = Selecting) && rn_cancelled r then Some (go_to (Returning main_deferred) r) else None
  | MainSelectsError =>
      match rn_phase r, rn_errCh r with
      | Selecting, serveErr :: rest => Some (after_error serveErr (receive_error rest r))
      | _, _ => None
      end
  | MainReturns s reader_close => main_returns d s reader_close r
  end.

Fixpoint run (d : daemon) (r : running) (events : list run_event) : option running :=
  match events with
  | [] => Some r
  | e :: events => match run_step d r e with Some r => run d r events | None => None end
  end.

(** ** The invariant *)

Lemma run_app d r events more r' : run d r (events ++ more) = Some r' <->
  exists r1, run d r events = Some r1 /\ run d r1 more = Some r'.
Proof.
  revert r. induction events as [|e events IH]; intros r; cbn [app run]; [split; [eauto | by intros (? & [= <-] & ?)]|].
  destruct (run_step d r e) as [r1|]; [apply IH|]. split; [done | by intros (? & ? & _)].
Qed.

(** Which deferred calls have returned, by where [main] is. *)
Definition progress (p : phase) (done : list deferred) : Prop :=
  match p with
  | Selecting => done = []
  | AwaitingMaintenance rest => done = [] /\ DeferredMaintenance :: rest = main_deferred
  | Returning rest => done ++ rest = main_deferred
  | Exited code => (code = 0 /\ done = main_deferred) \/ (code = 1 /\ done = [])
  | Killed => exists rest, done ++ rest = main_deferred
  end.

(** Whether [stop()] was called: the first thing the unwinding does. *)
Definition unwinding_stopped (p : phase) (done : list deferred) : bool :=
  match p with
  | Selecting => false
  | AwaitingMaintenance _ => true
  | Returning _ | Exited _ => bool_decide (DeferredMaintenance ∈ done)
  | Killed => true
  end.

(** A server failed with an error that is not a closed listener. *)
Definition server_failed (d : daemon) (events : list run_event) : Prop :=
  exists k l e, dm_listeners d !! k = Some l /\ ServeReturned k e ∈ events /\ errors_Is e NetErrClosed = false.

(** The goroutines that have returned. *)
Definition returned_count (serving : list bool) : nat := length (filter (fun b => b = false) serving).

Record orderly (d : daemon) (opened : sockets) (events : list run_event) (r : running) : Prop := {
  od_progress : progress (rn_phase r) (rn_done r);
  od_maintenance : DeferredMaintenance ∈ rn_done r -> rn_maintenance r = false;
  od_stopped : unwinding_stopped (rn_phase r) (rn_done r) = rn_stopped r;
  od_cancelled : rn_stopped r = true -> rn_cancelled r = true;
  od_store : match rn_store r with
             | Some s' => DeferredStoreClose ∈ rn_done r /\ exists s reader_close, s' = (Close reader_close s).2
             | None => DeferredStoreClose ∉ rn_done r end;
  od_sockets : rn_sockets r = opened ++ (if decide (DeferredCloseListeners ∈ rn_done r) then closeListeners (dm_listeners d) else []);
  od_errors : Forall (fun x => exists k e l, x = Some e /\ dm_listeners d !! k = Some l /\ ServeReturned k e ∈ events) (rn_errCh r);
  od_serving : length (rn_serving r) = length (dm_listeners d);
  od_capacity : (length (rn_errCh r) <= returned_count (rn_serving r))%nat;
  od_exit : rn_phase r = Exited 1 -> server_failed d events;
}.

Lemma returned_count_all n : returned_count (replicate n true) = 0%nat.
Proof. induction n as [|n IH]; [done|]. exact IH. Qed.

Lemma returned_count_insert serving k : serving !! k = Some true ->
  returned_count (<[k := false]> serving) = S (returned_count serving) /\ (returned_count serving < length serving)%nat.
Proof.
  unfold returned_count. revert k. induction serving as [|b serving IH]; intros [|k] Hk; [done..| |].
  - injection Hk as ->. change (<[0%nat := false]> (true :: serving)) with (false :: serving).
    rewrite filter_cons_True, (filter_cons_False _ true) by done. split; [done|]. cbn.
    pose proof (length_filter (fun b => b = false) serving). lia.
  - destruct (IH k Hk) as [H1 H2]. change (<[S k := false]> (b :: serving)) with (b :: <[k := false]> serving).
    destruct b; [rewrite !(filter_cons_False _ true) by done | rewrite !(filter_cons_True _ false) by done]; cbn; lia.
Qed.

(** A goroutine never waits to send: the channel has room while one is serving. *)
Lemma channel_has_room d opened events r k : orderly d opened events r -> rn_serving r !! k = Some true ->
  (length (rn_errCh r) < length (dm_listeners d))%nat.
Proof.
  intros Ho Hk. destruct (returned_count_insert _ _ Hk) as [_ Hlt]. pose proof (od_capacity _ _ _ _ Ho).
  pose proof (od_serving _ _ _ _ Ho). lia.
Qed.

Lemma orderly_start d opened : orderly d opened [] (main_starts d opened).
Proof.
  split; cbn [main_starts rn_phase rn_done rn_maintenance rn_store rn_sockets rn_errCh rn_serving]; try done.
  - by intros ?%elem_of_nil.
  - apply not_elem_of_nil.
  - rewrite decide_False by apply not_elem_of_nil. by rewrite app_nil_r.
  - apply length_replicate.
  - rewrite returned_count_all. cbn. lia.
Qed.

(** More has happened. *)
Lemma orderly_weaken d opened events e r : orderly d opened events r -> orderly d opened (events ++ [e]) r.
Proof.
  intros []. split; try done.
  - eapply Forall_impl; [exact od_errors0|]. intros x (k & e' & l & ? & ? & ?). exists k, e', l. set_solver.
  - intros Hx. destruct (od_exit0 Hx) as (k & l & e' & ? & ? & ?). exists k, l, e'. set_solver.
Qed.

(** The steps that change one thing. *)
Lemma orderly_same d opened events r r' : orderly d opened events r ->
  rn_phase r' = rn_phase r -> rn_done r' = rn_done r -> rn_store r' = rn_store r -> rn_sockets r' = rn_sockets r ->
  rn_errCh r' = rn_errCh r -> rn_serving r' = rn_serving r -> rn_stopped r' = rn_stopped r ->
  (rn_maintenance r = false -> rn_maintenance r' = false) -> (rn_cancelled r = true -> rn_cancelled r' = true) ->
  orderly d opened events r'.
Proof.
  intros [] E1 E2 E3 E4 E5 E6 E7 Hm Hc. split; rewrite ?E1, ?E2, ?E3, ?E4, ?E5, ?E6, ?E7; auto.
Qed.

Lemma orderly_go d opened events r p : orderly d opened events r -> rn_phase r = Selecting ->
  p = Returning main_deferred \/ (p = Exited 1 /\ server_failed d events) -> orderly d opened events (go_to p r).
Proof.
  intros [] Hs Hp. rewrite Hs in *. cbn in od_progress0, od_stopped0. split; cbn; try done.
  - destruct Hp as [-> | [-> _]]; cbn; [by rewrite od_progress0 | auto].
  - rewrite <- od_stopped0, od_progress0. by destruct Hp as [-> | [-> _]].
  - intros Hr. destruct Hp as [-> | [_ ?]]; [discriminate Hr | done].
Qed.

(** The first deferred call is the one that calls [stop()]. *)
Lemma maintenance_first done x rest : done ++ x :: rest = main_deferred -> x <> DeferredMaintenance -> DeferredMaintenance ∈ done.
Proof. destruct done as [|y ys]; intros Hp Hx; injection Hp; intros; subst; [done | by left]. Qed.

Lemma maintenance_once done rest : done ++ DeferredMaintenance :: rest = main_deferred -> done = [] /\ rest = tail main_deferred.
Proof.
  destruct done as [|y ys]; intros Hp; [by injection Hp as ->|]. exfalso. injection Hp as -> Hp.
  apply (f_equal (fun l => bool_decide (DeferredMaintenance ∈ l))) in Hp.
  rewrite bool_decide_eq_true_2 in Hp by (apply elem_of_app; right; by left). by vm_compute in Hp.
Qed.

Lemma stopped_after d opened events r x rest : orderly d opened events r -> rn_phase r = Returning (x :: rest) ->
  x <> DeferredMaintenance -> rn_stopped r = true.
Proof.
  intros [] Hp Hx. rewrite Hp in *. rewrite <- od_stopped0. apply bool_decide_eq_true. by apply (maintenance_first _ x rest).
Qed.

(** A deferred call returns. *)
Lemma orderly_returned d opened events r x rest : orderly d opened events r -> rn_stopped r = true ->
  rn_done r ++ x :: rest = main_deferred -> (x = DeferredMaintenance -> rn_maintenance r = false) ->
  x <> DeferredStoreClose -> x <> DeferredCloseListeners -> orderly d opened events (returned x rest r).
Proof.
  intros [] Hst Hp Hm Hs Hc. split; cbn [returned rn_phase rn_done rn_maintenance rn_stopped rn_cancelled rn_store rn_sockets rn_errCh rn_serving]; try done.
  - cbn. by rewrite <- app_assoc.
  - rewrite elem_of_app, list_elem_of_singleton. intros [?| <-]; auto.
  - cbn. rewrite Hst. apply bool_decide_eq_true, elem_of_app. rewrite list_elem_of_singleton.
    destruct (decide (x = DeferredMaintenance)) as [->|Hx]; [by right|]. left. by eapply maintenance_first.
  - destruct (rn_store r); rewrite elem_of_app, list_elem_of_singleton; [naive_solver|]. intros [?|?]; [done | congruence].
  - rewrite od_sockets0. f_equal. apply decide_ext. rewrite elem_of_app, list_elem_of_singleton. naive_solver.
Qed.

Lemma orderly_close_store d opened events r s reader_close rest : orderly d opened events r ->
  rn_phase r = Returning (DeferredStoreClose :: rest) ->
  orderly d opened events (returned DeferredStoreClose rest (close_store s reader_close r)).
Proof.
  intros Ho Hp. pose proof (stopped_after _ _ _ _ _ _ Ho Hp ltac:(done)) as Hst. destruct Ho. rewrite Hp in *. cbn in od_progress0.
  split; cbn [returned close_store rn_phase rn_done rn_maintenance rn_stopped rn_cancelled rn_store rn_sockets rn_errCh rn_serving]; try done.
  - cbn. by rewrite <- app_assoc.
  - rewrite elem_of_app, list_elem_of_singleton. intros [?|[=]]; auto.
  - cbn. rewrite Hst. apply bool_decide_eq_true, elem_of_app. left. by eapply maintenance_first.
  - split; [apply elem_of_app; right; by left | by eexists _, _].
  - rewrite od_sockets0. f_equal. apply decide_ext. rewrite elem_of_app, list_elem_of_singleton. naive_solver.
Qed.

Lemma orderly_close_sockets d opened events r rest : orderly d opened events r ->
  rn_phase r = Returning (DeferredCloseListeners :: rest) ->
  orderly d opened events (returned DeferredCloseListeners rest (close_sockets (dm_listeners d) r)).
Proof.
  intros Ho Hp. pose proof (stopped_after _ _ _ _ _ _ Ho Hp ltac:(done)) as Hst. destruct Ho. rewrite Hp in *. cbn in od_progress0.
  split; cbn [returned close_sockets rn_phase rn_done rn_maintenance rn_stopped rn_cancelled rn_store rn_sockets rn_errCh rn_serving]; try done.
  - cbn. by rewrite <- app_assoc.
  - rewrite elem_of_app, list_elem_of_singleton. intros [?|[=]]; auto.
  - cbn. rewrite Hst. apply bool_decide_eq_true, elem_of_app. left. by eapply maintenance_first.
  - destruct (rn_store r); rewrite elem_of_app, list_elem_of_singleton; naive_solver.
  - rewrite od_sockets0. rewrite decide_False, app_nil_r.
    + rewrite decide_True; [done|]. apply elem_of_app. right. by left.
    + intros Hin. assert (NoDup main_deferred) as HN by (apply (bool_decide_unpack _); by vm_compute).
      rewrite <- od_progress0 in HN. apply NoDup_app in HN as (_ & HN & _). apply (HN _ Hin). by left.
Qed.

Lemma orderly_main_returns d opened events r s reader_close r' : orderly d opened events r ->
  main_returns d s reader_close r = Some r' -> orderly d opened events r'.
Proof.
  intros Ho. pose proof Ho as [Hp _ Hst]. unfold main_returns. destruct (rn_phase r) as [|rest|rest|code|] eqn:Ep; [done| | |done..].
  - destruct (rn_maintenance r) eqn:Em; [done|]. intros [= <-]. destruct Hp as [Hd Hr].
    apply orderly_returned; [done | by rewrite <- Hst | by rewrite Hd | done..].
  - destruct rest as [|x rest].
    + cbn in Hp. intros [= <-]. rewrite app_nil_r in Hp. destruct Ho. split; cbn; try done; by left.
    + destruct x; intros E.
      * injection E as <-. cbn in Hp. destruct (maintenance_once _ _ Hp) as [Hd ->]. destruct Ho. split; cbn; try done.
      * injection E as <-. pose proof (stopped_after _ _ _ _ _ _ Ho Ep ltac:(done)) as Hs.
        apply orderly_returned; [|done..]. eapply orderly_same; done.
      * destruct (rn_leased r); [done|]. injection E as <-. by apply orderly_close_store.
      * injection E as <-. by apply orderly_close_sockets.
Qed.

Lemma done_prefix d opened events r : orderly d opened events r -> rn_done r `prefix_of` main_deferred.
Proof.
  intros Ho. pose proof (od_progress _ _ _ _ Ho) as Hp. destruct (rn_phase r) as [|rest|rest|code|]; cbn in Hp.
  - rewrite Hp. apply prefix_nil.
  - destruct Hp as [-> _]. apply prefix_nil.
  - rewrite <- Hp. by apply prefix_app_r.
  - destruct Hp as [[_ ->]|[_ ->]]; [done | apply prefix_nil].
  - destruct Hp as [rest E]. by exists rest.
Qed.

Lemma orderly_step d opened events r e r' : orderly d opened events r -> run_step d r e = Some r' ->
  orderly d opened (events ++ [e]) r'.
Proof.
  intros Ho Hstep. pose proof (orderly_weaken _ _ _ e _ Ho) as Hw. unfold run_step in Hstep.
  destruct (exited r); [done|]. destruct e as [| | | |k err| | |s reader_close].
  - injection Hstep as <-. destruct (rn_stopped r) eqn:Hs; [|by eapply orderly_same].
    destruct (done_prefix _ _ _ _ Ho) as [rest E]. destruct Hw. split; cbn; try done. by exists rest.
  - destruct (_ && _); [|done]. injection Hstep as <-. by eapply orderly_same.
  - destruct (_ || _); [done|]. injection Hstep as <-. by eapply orderly_same.
  - destruct (rn_leased r); [|done]. injection Hstep as <-. by eapply orderly_same.
  - destruct (rn_serving r !! k) as [[]|] eqn:Ek; [|done..]. destruct (dm_listeners d !! k) as [l|] eqn:El; [|done].
    destruct (_ && _); [|done]. injection Hstep as <-. destruct (returned_count_insert _ _ Ek) as [Hcount _].
    destruct Hw. split; cbn [send_error rn_phase rn_done rn_maintenance rn_cancelled rn_store rn_sockets rn_errCh rn_serving]; try done.
    + apply Forall_app. split; [done|]. apply Forall_singleton. exists k, err, l. split_and!; [done..|].
      apply elem_of_app. right. by left.
    + by rewrite length_insert.
    + rewrite Hcount, length_app. cbn. lia.
  - destruct (bool_decide_reflect (rn_phase r = Selecting)) as [Hs|]; [|done]. cbn [andb] in Hstep.
    destruct (rn_cancelled r); [|done]. injection Hstep as <-. apply orderly_go; auto.
  - destruct (rn_phase r) eqn:Hs; [|done..]. destruct (rn_errCh r) as [|serveErr rest] eqn:Ec; [done|]. injection Hstep as <-.
    pose proof (od_errors _ _ _ _ Hw) as Herr. rewrite Ec in Herr. apply Forall_cons in Herr as [(k & err & l & -> & Hl & Hin) Hrest].
    assert (orderly d opened (events ++ [MainSelectsError]) (receive_error rest r)) as Hr.
    { destruct Hw. split; cbn; try done. rewrite Ec in od_capacity0. cbn in od_capacity0. unfold returned_count in od_capacity0. lia. }
    unfold after_error. destruct (errors_Is err NetErrClosed) eqn:Ee; cbn [negb]; apply orderly_go; auto.
    right. split; [done|]. by exists k, l, err.
  - by eapply orderly_main_returns.
Qed.

Lemma orderly_run d opened events r : run d (main_starts d opened) events = Some r -> orderly d opened events r.
Proof.
  revert r. induction events as [|e events IH] using rev_ind; intros r Hr.
  - injection Hr as <-. apply orderly_start.
  - apply run_app in Hr as (r1 & H1 & H2). cbn [run] in H2. destruct (run_step d r1 e) as [r2|] eqn:E; [|done].
    injection H2 as <-. eapply orderly_step; [by apply IH | exact E].
Qed.

(** ** A signal leads out *)

(** The rest of the unwinding once nothing holds a lock or runs. *)
Definition unwinding (s : Store) (reader_close : option error) (n : nat) : list run_event := replicate n (MainReturns s reader_close).

(** Without a further signal the process can get to its end. *)
Definition can_exit (d : daemon) (r : running) : Prop :=
  exists more r', run d r more = Some r' /\ rn_phase r' = Exited 0 /\ Signalled ∉ more.

Lemma can_exit_after d r more r' : run d r more = Some r' -> Signalled ∉ more -> can_exit d r' -> can_exit d r.
Proof.
  intros H1 H2 (more' & r2 & H3 & H4 & H5). exists (more ++ more'), r2. split_and!; [apply run_app; by exists r' | done | set_solver].
Qed.

Lemma unwinds d s reader_close (rest : list deferred) : forall r, rn_phase r = Returning rest -> DeferredMaintenance ∉ rest ->
  rn_leased r = false -> exists r', run d r (unwinding s reader_close (S (length rest))) = Some r' /\ rn_phase r' = Exited 0.
Proof.
  induction rest as [|x rest IH]; intros r Hp Hm Hl; cbn [unwinding replicate length run]; unfold run_step at 1, exited; rewrite Hp;
    unfold main_returns; rewrite Hp.
  - eexists. by split.
  - apply not_elem_of_cons in Hm as [Hx Hm]. destruct x; [done| | |]; rewrite ?Hl; apply IH; done.
Qed.

(** A reader that is taken is given back. *)
Lemma releases d r : exited r = false -> exists more r', run d r more = Some r' /\ Signalled ∉ more /\ rn_phase r' = rn_phase r /\
  rn_cancelled r' = rn_cancelled r /\ rn_maintenance r' = rn_maintenance r /\ rn_leased r' = false.
Proof.
  intros He. destruct (rn_leased r) eqn:El; [|exists [], r; by split_and!; [|apply not_elem_of_nil|..]].
  exists [ReaderReleased]. cbn [run]. unfold run_step. rewrite He, El. eexists. split_and!; [done | | done..].
  by intros ?%list_elem_of_singleton.
Qed.

Lemma exits_returning d (s : Store) (reader_close : option error) r rest : rn_phase r = Returning rest -> DeferredMaintenance ∉ rest -> can_exit d r.
Proof.
  intros Hp Hm. destruct (releases d r) as (m1 & r1 & H1 & Hq & Hp1 & _ & _ & Hl1); [unfold exited; by rewrite Hp|].
  apply (can_exit_after d r m1 r1 H1 Hq). rewrite Hp in Hp1. destruct (unwinds d s reader_close rest r1 Hp1 Hm Hl1) as (r2 & H2 & Hp2).
  exists (unwinding s reader_close (S (length rest))), r2. split_and!; [done..|].
  by intros [? _]%elem_of_replicate.
Qed.

Lemma exits_awaiting d (s : Store) (reader_close : option error) r rest : rn_phase r = AwaitingMaintenance rest -> rn_cancelled r = true ->
  DeferredMaintenance ∉ rest -> can_exit d r.
Proof.
  intros Hp Hc Hm.
  assert (exists more r1, run d r more = Some r1 /\ Signalled ∉ more /\ rn_phase r1 = AwaitingMaintenance rest /\ rn_maintenance r1 = false)
    as (more & r1 & H1 & Hq & Hp1 & Hm1).
  { destruct (rn_maintenance r) eqn:Em; [|exists [], r; by split_and!; [|apply not_elem_of_nil|..]].
    exists [MaintenanceReturned]. eexists. cbn [run]. unfold run_step, exited. rewrite Hp, Hc, Em. cbn [andb].
    split; [reflexivity|]. split_and!; [by intros ?%list_elem_of_singleton | exact Hp | done]. }
  apply (can_exit_after d r more r1 H1 Hq). apply (can_exit_after d r1 [MainReturns s reader_close] (returned DeferredMaintenance rest r1)).
  - cbn [run]. unfold run_step, exited. rewrite Hp1. unfold main_returns. by rewrite Hp1, Hm1.
  - by intros ?%list_elem_of_singleton.
  - by apply (exits_returning d s reader_close _ rest).
Qed.

Lemma exits_main d (s : Store) (reader_close : option error) r : rn_phase r = Returning main_deferred -> can_exit d r.
Proof.
  intros Hp. apply (can_exit_after d r [MainReturns s reader_close] (go_to (AwaitingMaintenance (tail main_deferred)) (stop r))).
  - cbn [run]. unfold run_step, exited. rewrite Hp. unfold main_returns. by rewrite Hp.
  - by intros ?%list_elem_of_singleton.
  - eapply (exits_awaiting d s reader_close); [reflexivity | done |]. apply (bool_decide_unpack _). by vm_compute.
Qed.

(** From any state of a running daemon that was told to stop. *)
Lemma stops d opened events r : orderly d opened events r -> rn_cancelled r = true -> exited r = false -> can_exit d r.
Proof.
  intros Ho Hc He. pose proof (od_progress _ _ _ _ Ho) as Hprog.
  unfold exited in He. destruct (rn_phase r) as [|rest|rest|code|] eqn:Ep; [| | |done..].
  - apply (can_exit_after d r [MainSelectsDone] (go_to (Returning main_deferred) r)).
    + cbn [run]. unfold run_step, exited. by rewrite Ep, Hc.
    + by intros ?%list_elem_of_singleton.
    + by apply (exits_main d (dm_store d) None).
  - destruct Hprog as [_ Hr]. injection Hr as ->. apply (exits_awaiting d (dm_store d) None r (tail main_deferred)); [exact Ep | done |].
    apply (bool_decide_unpack _). by vm_compute.
  - cbn in Hprog. destruct (decide (DeferredMaintenance ∈ rest)) as [Hin|Hni]; [|by apply (exits_returning d (dm_store d) None r rest)].
    apply (exits_main d (dm_store d) None). rewrite Ep. destruct rest as [|x rest]; [by apply elem_of_nil in Hin|].
    destruct (decide (x = DeferredMaintenance)) as [->|Hx]; [by destruct (maintenance_once _ _ Hprog) as [_ ->]|].
    exfalso. pose proof (maintenance_first _ _ _ Hprog Hx) as Hd.
    assert (NoDup main_deferred) as HN by (apply (bool_decide_unpack _); by vm_compute).
    rewrite <- Hprog in HN. apply NoDup_app in HN as (_ & HN & _). by apply (HN _ Hd).
Qed.

(** How a process that a signal killed came to that. *)
Lemma killed_by d opened events r : run d (main_starts d opened) events = Some r -> rn_phase r = Killed ->
  exists before r1, events = before ++ [Signalled] /\ run d (main_starts d opened) before = Some r1 /\ rn_stopped r1 = true /\
    exited r1 = false /\ r = go_to Killed r1.
Proof.
  intros Hr Hk. destruct events as [|e before _] using rev_ind; [by injection Hr as <-|]. exists before.
  apply run_app in Hr as (r1 & H1 & H2). cbn [run] in H2. destruct (run_step d r1 e) as [r2|] eqn:E; [|done]. injection H2 as ->.
  exists r1. unfold run_step in E. destruct (exited r1) eqn:He; [done|]. destruct e.
  1: { injection E as <-. destruct (rn_stopped r1) eqn:Hs; [done|]. cbn in Hk. unfold exited in He. by rewrite Hk in He. }
  all: exfalso; unfold exited in He; unfold main_returns, after_error in E; repeat case_match; try done; injection E as <-; cbn in Hk; congruence.
Qed.

(** ** Properties *)

Lemma store_closed_after_maintenance d opened events r : orderly d opened events r -> DeferredStoreClose ∈ rn_done r ->
  rn_maintenance r = false.
Proof.
  intros Ho Hin. apply (od_maintenance _ _ _ _ Ho). destruct (done_prefix _ _ _ _ Ho) as [rest E].
  destruct (rn_done r) as [|x l]; [by apply elem_of_nil in Hin|]. injection E as <- _. by left.
Qed.

Lemma Close_closes reader_close s : closed (import (gs (Close reader_close s).2)) = true /\
  readClosed (rs_read (rd (Close reader_close s).2)) = true.
Proof.
  unfold Close. destruct (close_import (import (gs s))) as [writeErr i] eqn:E. cbn [snd]. split; [|done].
  unfold close_import, closeImporterLocked, stop_idle in E. cbn in E. destruct (importer (import (gs s))); by injection E as <- <-.
Qed.

Lemma closed_at_exit d opened events r : orderly d opened events r -> rn_phase r = Exited 0 ->
  exists s, rn_store r = Some s /\ closed (import (gs s)) = true /\ readClosed (rs_read (rd s)) = true.
Proof.
  intros [] Hp. rewrite Hp in *. destruct od_progress0 as [[_ Hd]|[? _]]; [|done]. rewrite Hd in od_store0. destruct (rn_store r) as [s|].
  - destruct od_store0 as (_ & s0 & e & ->). exists (Close e s0).2. split; [done|]. apply Close_closes.
  - exfalso. apply od_store0. apply (bool_decide_unpack _). by vm_compute.
Qed.

Lemma sockets_at_exit m f d opened events r : start m f [] = (Ok d, opened) -> orderly d opened events r -> rn_phase r = Exited 0 ->
  openeds (rn_sockets r) = sl_listener <$> dm_listeners d /\ closeds (rn_sockets r) = sl_listener <$> dm_listeners d.
Proof.
  intros Hs [] Hp. rewrite Hp in *. destruct od_progress0 as [[_ Hd]|[? _]]; [|done].
  rewrite od_sockets0, Hd. rewrite decide_True by (apply (bool_decide_unpack _); by vm_compute).
  unfold start in Hs. destruct (parse_settings f) as [st|]; [|done].
  pose proof (openListeners_account (fl_listen f) (fl_pop3Listen f)) as Hl.
  destruct (openListeners _ _ _) as [[ls|e] ev]; [|done]. injection Hs as Hs <-. destruct Hl as [[Hl1 Hl2] _].
  repeat (apply rbind_Ok in Hs as (? & _ & Hs)). apply Ok_inj in Hs as <-. cbn [dm_listeners].
  destruct (closeListeners_of ls) as [H1 H2]. by rewrite openeds_app, closeds_app, H1, H2, Hl1, Hl2, app_nil_r.
Qed.

(** The signals are ignored no longer once [main] has begun to unwind. *)
Lemma stopped_iff d opened events r : orderly d opened events r -> exited r = false ->
  rn_stopped r = false <-> rn_phase r = Selecting \/ rn_phase r = Returning main_deferred.
Proof.
  intros [] He. unfold exited in He. rewrite <- od_stopped0. destruct (rn_phase r) as [|rest|rest|code|]; cbn in *; try done.
  - split; auto.
  - split; [done | by intros [?|?]].
  - rewrite bool_decide_eq_false. split.
    + intros Hd. right. f_equal. destruct (rn_done r) as [|y ys]; [done|]. injection od_progress0 as -> _. exfalso. apply Hd. by left.
    + intros [?|Hp]; [done|]. injection Hp as ->. assert (rn_done r = []) as -> by (by apply (app_inv_tail main_deferred)).
      apply not_elem_of_nil.
Qed.

(** C11: The daemon stops in order.  Through any signals, server errors and
    sessions after [start]: a goroutine that reports its error is never blocked;
    the store is closed only when the maintenance loop has ended; the process ends
    with status 0 only with the store closed and every socket it opened closed
    exactly once, and with status 1 only because a server failed, and then at
    once.  The signals have their default effect again exactly from the first
    deferred call on: before it, a signal cancels the context and the process can
    get to its end with status 0 without another one; from then on the process can
    get there by itself, but a further signal kills it where it is, and nothing
    but such a signal kills it. *)
Theorem shutdown_is_orderly (m : machine) (f : flags) (d : daemon) (opened : sockets) (events : list run_event) (r : running) :
  start m f [] = (Ok d, opened) -> run d (main_starts d opened) events = Some r ->
  (forall k, rn_serving r !! k = Some true -> (length (rn_errCh r) < length (dm_listeners d))%nat) /\
  (rn_store r <> None -> rn_maintenance r = false) /\
  (rn_phase r = Exited 0 ->
     (exists s, rn_store r = Some s /\ closed (import (gs s)) = true /\ readClosed (rs_read (rd s)) = true) /\
     openeds (rn_sockets r) = sl_listener <$> dm_listeners d /\ closeds (rn_sockets r) = sl_listener <$> dm_listeners d) /\
  (rn_phase r = Exited 1 -> server_failed d events /\ rn_done r = []) /\
  (rn_phase r = Killed -> exists before r1, events = before ++ [Signalled] /\ run d (main_starts d opened) before = Some r1 /\
     rn_stopped r1 = true /\ rn_store r = rn_store r1) /\
  (exited r = false ->
     (rn_stopped r = false <-> rn_phase r = Selecting \/ rn_phase r = Returning main_deferred) /\
     (rn_stopped r = false -> exists more r', run d r (Signalled :: more) = Some r' /\ rn_phase r' = Exited 0 /\ Signalled ∉ more) /\
     (rn_stopped r = true -> run d r [Signalled] = Some (go_to Killed r) /\
        exists more r', run d r more = Some r' /\ rn_phase r' = Exited 0 /\ Signalled ∉ more)).
Proof.
  intros Hs Hr. pose proof (orderly_run _ _ _ _ Hr) as Ho. pose proof (od_store _ _ _ _ Ho) as Hstore. split_and!.
  - intros k Hk. by eapply channel_has_room.
  - intros Hne. destruct (rn_store r); [|done]. destruct Hstore as [Hin _]. by eapply store_closed_after_maintenance.
  - intros Hp. split; [by eapply closed_at_exit|]. by eapply sockets_at_exit.
  - intros Hp. split; [by apply (od_exit _ _ _ _ Ho)|]. pose proof (od_progress _ _ _ _ Ho) as Hd. rewrite Hp in Hd.
    by destruct Hd as [[? _]|[_ ?]].
  - intros Hp. destruct (killed_by _ _ _ _ Hr Hp) as (before & r1 & E1 & E2 & E3 & _ & ->). by exists before, r1.
  - intros He. split; [by eapply stopped_iff|]. split; intros Hst.
    + destruct (stops d opened (events ++ [Signalled]) (cancel r)) as (more & r' & Hmore); [|done | exact He |].
      * eapply orderly_step; [exact Ho|]. unfold run_step. by rewrite He, Hst.
      * exists more, r'. cbn [run]. unfold run_step at 1. by rewrite He, Hst.
    + split; [unfold run, run_step; by rewrite He, Hst|]. apply (stops d opened events); [done | by apply (od_cancelled _ _ _ _ Ho) | done].
Qed.
End Run.

(** ** A concrete run *)

Module Stopping.
Import DaemonTheorems.Demo.
Existing Instances sha inherited.

(** A signal arrives while a POP3 session holds the object reader. *)
Definition interrupted : list run_event := [ReaderTaken; Signalled].

(** And then [main] begins to unwind. *)
Definition unwinds_now (d : daemon) : list run_event := interrupted ++ [MainSelectsDone; MainReturns (dm_store d) None].

Lemma shutdown_is_orderly_witness :
  match start (IN := toy_machine) (MF := no_files) (SD := toy_directory) here (parse_flags given) [] with
  | (Ok d, opened) =>
      (exists r more r', run d (main_starts d opened) interrupted = Some r /\
         run d r (Signalled :: more) = Some r' /\ rn_phase r' = Exited 0) /\
      (exists r, run d (main_starts d opened) (unwinds_now d) = Some r /\ run d r [Signalled] = Some (go_to Killed r))
  | _ => False
  end.
Proof.
  pose proof daemon_starts as Hd. unfold started in Hd.
  pose proof (shutdown_is_orderly (IN := toy_machine) (MF := no_files) (SD := toy_directory) here (parse_flags given)) as H.
  destruct (start _ _ []) as [[d|e] opened]; cbn [fst] in Hd; [|exact Hd]. split.
  - destruct (H d opened interrupted _ eq_refl eq_refl) as (_ & _ & _ & _ & _ & Hstop).
    destruct (Hstop eq_refl) as (_ & Hfirst & _). destruct (Hfirst eq_refl) as (more & r' & H1 & H2 & _).
    eexists _, more, r'. split; [reflexivity|]. split; [exact H1 | exact H2].
  - destruct (H d opened (unwinds_now d) _ eq_refl eq_refl) as (_ & _ & _ & _ & _ & Hstop).
    destruct (Hstop eq_refl) as (_ & _ & Hsecond). destruct (Hsecond eq_refl) as [H1 _]. eexists. split; [reflexivity | exact H1].
Defined.
End Stopping.
